(* ===== verification/_CoqProject ===== *)
-Q . S2P
Prelude.v
GoLib.v
GoTime.v
GoNet.v
Protocol.v
Encoding.v
Hash.v
Validation.v
Totp.v
Password.v
Output.v
ServerConfig.v
Throttle.v
Json.v
Store.v
StoreSpec.v
StoreProps.v
Http.v
Mux.v
Telemetry.v
Proc.v
AgentInfo.v
TelemetryProps.v
AgentConfig.v
Fs.v
StoreSchema.v
StoreSchemaProps.v
AgentState.v
Agent.v
AgentFiles.v
AgentUpload.v
AgentRun.v
AgentFilesProps.v
Sys.v
Auth.v
AuthProps.v
Hub.v
HubProps.v
ServerFiles.v
ServerFilesProps.v
Transfer.v
Router.v
ServerMain.v
