(* ===== verification/Prelude.v ===== *)
(** * HomeCTL verification library

    HomeCTL is a remote administration panel.  A Server ([cmd/server],
    [internal/server]) keeps the devices, the one administrator, sessions and
    enrollment tokens in SQLite and serves a browser; an Agent ([cmd/agent]) on
    each device keeps one outbound WebSocket to the Server, over which status,
    commands, terminals and files travel as the messages of
    [internal/protocol].  This library models the Go code of all three and proves
    what each part promises.

    ** How the parts interact

    A browser request passes [Router.Handler] (security headers, header guard,
    route table, session guard) and reaches a handler of [Auth], [Hub] or
    [ServerFiles].  Handlers run concurrently on one [Sys.Server]: the in-memory
    authentication state ([Throttle]), the database ([Store]) and the heaps of
    connections, pending requests and terminals.  A handler that needs a device
    registers a pending request, writes a message to the Agent's connection and
    waits on a bounded queue which the connection's read loop fills
    ([Hub.handleAgentMessage], [Hub.deliver]).  On the device [AgentRun.dispatch]
    gives each message to [Agent], [AgentFiles] or [AgentUpload], and
    [AgentInfo.collectInfo] reports what [Telemetry] measures.

    ** Files, in dependency order

    - Prelude: results [res], tactics, lemmas on lists and maps, and [MapOrder],
      the order in which Go iterates a map: a parameter, so that theorems hold
      for every order.
    - GoLib, GoTime, GoNet, Encoding, Hash, Json, Http, Mux, Fs: the parts of the
      Go language and standard library the program uses, executable: strings and
      UTF-8, [strconv], binary64, path cleaning, durations, [netip], hex, base32
      and base64, SHA-1, SHA-256, HMAC, JSON string lists, requests, ServeMux,
      files beneath an [os.Root].
    - Proc: handlers as sequences of atomic steps, and three ways to reason about
      them: inversion of a run, [triple] (rely reasoning with the events of other
      goroutines) and [crash] (every state in which a process can be
      interrupted).
    - Protocol (internal/protocol/protocol.go): messages, tokens, metric cards.
    - Validation (validation.go, parts of server.go and cmd/agent): names,
      identifiers, capabilities, of both sides.
    - Totp (totp.go), Password (password.go): codes and password hashes; the
      class [PasswordScheme] is what the store relies on, and [argon2_scheme] its
      implementation.
    - Output (cmd/agent/output.go): the bounded buffer of command output.
    - ServerConfig (config.go): [LoadConfig].
    - Throttle (auth.go): failure counters, pre-authentications, TOTP setups, each
      operation one critical section of [authMu].
    - Store, StoreSpec, StoreProps (store.go): every query, update and
      transaction over a record of tables; [StoreSpec.effect] is the abstract
      specification and [store_refines_spec] the refinement; StoreProps its
      consequences.  StoreSchema, StoreSchemaProps: opening, creating and
      migrating the database.
    - Sys (server.go): the Server's state.  Auth, AuthProps (auth.go and the
      guards of server.go): login, second step, logout, account.  Hub, HubProps
      (server.go): handshake, heartbeats, pending requests, commands, device
      handlers, terminals, [Shutdown].  ServerFiles, ServerFilesProps (files.go):
      the file handlers.  Router (server.go): [Server.Handler].  ServerMain
      (cmd/server/main.go): starting.
    - AgentConfig (config.go), AgentState (state.go), Agent, AgentInfo, AgentRun
      (main.go), AgentFiles, AgentUpload (files.go), Telemetry (telemetry.go) of
      cmd/agent; AgentFilesProps and TelemetryProps their theorems.
    - Transfer: the Agent's and the Server's loop of a download and the
      connection between them, as one transition system.

    ** How the code is represented

    Strings and byte slices are [string]; integers are [Z] with the wrap-around
    of the code's width written where it can occur; maps are [gmap], iterated in
    the order a [MapOrder] gives; pointers to shared objects are serial numbers
    into heaps.  A function that returns an error returns [res], whose error is
    the message.  A handler is [proc S A]: a sequence of steps, each a critical
    section, a database call, a system call or a channel operation; each consumes
    a [ptick] that says what it meets: what other goroutines changed before it,
    the clock, random bytes, whether the call fails and how, which case a [select]
    takes.  A theorem about all lists of ticks is about all interleavings,
    failures and clocks; when the list is used up the remaining steps are
    undisturbed.  A goroutine a handler starts is a handler of its own.  Database
    calls take their failures from a list of Booleans.

    ** What is proved

    - Access: a session cookie is set only after the password was verified
      (AuthProps.login_requires_password), with TOTP only after a claimed
      pre-authentication and a fresh code (login_totp_requires_code,
      Throttle.claimPreAuth_exclusive, preAuth_exhausted,
      StoreProps.totp_step_not_replayed); guesses are limited under every
      interleaving (Throttle.login_attempts_limited) and per client that headers
      cannot forge (clientKey_not_spoofable); every protected endpoint is behind
      the guards whatever spelling of the path reaches it
      (Router.Handler_guarded); account changes need the password and end
      sessions (account_change_requires_password, credential_change_revokes) and
      terminals (HubProps.revoked_terminal_closes); password hashes verify and
      their parameters are bounded (Password).
    - Devices: an Agent is registered only with its stored token or a valid
      enrollment token (HubProps.agent_authenticated); enrollment is atomic and
      tokens work once (StoreProps.EnrollDevice_correct,
      enrollment_token_single_use); an identity the Agent accepts the Server
      accepts too (Validation); the Agent's identity file is replaced atomically
      (AgentState.saveState_atomic) and it reconnects with a bounded backoff
      (AgentRun.reconnect_bounded).
    - The store refines its specification under every failure pattern; migrations
      lose nothing wherever they stop (StoreSchemaProps.OpenStore_correct); a
      Server that starts is set up correctly (ServerMain.start_correct).
    - Queues are bounded FIFOs whose overflow closes them
      (HubProps.pending_fifo, terminal_fifo, Output.cappedOutput_correct); the
      authentication state is bounded (Throttle.run_ops_bounded); shutdown
      releases everyone (HubProps.Shutdown_releases).
    - Files: paths stay beneath the root (AgentFilesProps.rootRelativePath_correct),
      an upload appears complete or not at all (upload_atomic), a flow-controlled
      download completes in every interleaving with exactly the file's bytes
      (Transfer.download_completes), and the Server's transfer handlers always
      return (ServerFilesProps.transfers_return).
    - Status: rates and peaks are exact over any history
      (TelemetryProps.network_correct), a report holds exactly the groups of the
      policy (metric_policy_respected), the device list shows what is stored
      (HubProps.handleDevices_correct).

    Five places where the code does not do what it means to are stated beside
    these: StoreProps.reorder_accepts_truncated_read, and in StoreSchemaProps
    interrupted_migration_loses_order and unread_columns_skip_migration; the
    other two are an ignored error in [handleLogout] (Auth) and the trimming of
    displayed paths (the condition of rootRelativePath_correct).

    ** Bounds and fuel

    [ServerFiles.download_loop], [wait_for] and what uses them take fuel and
    return [None] when it runs out; transfers_return shows that nine times the
    number of disturbed steps plus nine is enough.  [drain_credits] takes one turn
    per credit of the window, which suffices because a credit message adds at
    least one.  The Agent's [AgentFiles.download_loop] has the size of the file as
    fuel, which never runs out (AgentFilesProps.handleFileDownload_fuel);
    [AgentUpload.runCreditUpload] takes a number of turns and says whether it is
    still waiting; a transfer in Transfer ends after at most eight moves per
    byte and ten more.  [Fs.walk] follows at most forty symbolic links, like the
    kernel.  All other recursion is structural.

    ** Parameters

    Code outside src/ and outside the standard library is a parameter with its
    documented behaviour as the only hypothesis: Argon2id returns as many bytes as
    asked; NFC and bcrypt are unconstrained; [Renameat2] with RENAME_NOREPLACE
    fails or moves one name to a free one ([Fs]).  JSON of [SystemInfo] and of the
    identity file go through codecs ([Store.InfoCodec], [AgentState.StateCodec]),
    the second with its round trip.  The operating system under telemetry is the
    record [Telemetry.Host].

    ** Not modelled

    Flags, logging, dialling and listening, WebSocket frames, JSON decoding of
    request bodies (handlers take the decoded value), TLS, signals, process
    creation and terminals of the operating system (their output is an argument),
    the embedded web interface, SQLite itself (the record of tables stands for
    it), and tests.  The goroutine that writes a terminal's frames and the
    heartbeat writer are modelled turn by turn, not as fair processes.

    Open: a whole upload as a transition system like Transfer; the Agent's
    terminal life cycle against the Server's; the composition of [read_loop] with
    the Server's handshake. *)

From Stdlib Require Export Ascii String ZArith Lia.
From stdpp Require Export base tactics numbers list gmap strings sorting.

#[global] Open Scope Z_scope.

(** ** Error results

    A Go function with results [(T, error)] returns [res T].  The error is the
    message text, the only part of an error value the program inspects. *)
Inductive res (A : Type) : Type :=
| Ok (a : A)
| Err (e : string).
Arguments Ok {A} a.
Arguments Err {A} e.

#[export] Instance res_eq_dec {A} `{EqDecision A} : EqDecision (res A).
Proof. solve_decision. Defined.

Definition res_bind {A B} (m : res A) (k : A → res B) : res B :=
  match m with Ok a => k a | Err e => Err e end.

Definition is_ok {A} (m : res A) : bool :=
  match m with Ok _ => true | Err _ => false end.

Declare Scope go_scope.
Delimit Scope go_scope with go.
Notation "'try' x := m 'in' k" := (res_bind m (λ x, k))
  (at level 10, x pattern, m at level 100, k at level 200) : go_scope.
#[global] Open Scope go_scope.

Lemma res_bind_ok {A B} (m : res A) (k : A → res B) b :
  res_bind m k = Ok b ↔ ∃ a, m = Ok a ∧ k a = Ok b.
Proof. destruct m; naive_solver. Qed.

(** ** Tactics *)

(** Case analysis on the condition of every [if] and [match] of the goal or of
    a hypothesis, with boolean tests turned into propositions. *)
Ltac bool_to_prop :=
  repeat match goal with
  | H : (_ && _) = true |- _ => apply andb_true_iff in H as [? ?]
  | H : (_ || _) = false |- _ => apply orb_false_iff in H as [? ?]
  | H : (_ || _) = true |- _ => apply orb_true_iff in H
  | H : (_ && _) = false |- _ => apply andb_false_iff in H
  | H : negb _ = true |- _ => apply negb_true_iff in H
  | H : negb _ = false |- _ => apply negb_false_iff in H
  | H : (_ <? _) = true |- _ => apply Z.ltb_lt in H
  | H : (_ <? _) = false |- _ => apply Z.ltb_ge in H
  | H : (_ <=? _) = true |- _ => apply Z.leb_le in H
  | H : (_ <=? _) = false |- _ => apply Z.leb_gt in H
  | H : (_ =? _) = true |- _ => apply Z.eqb_eq in H
  | H : (_ =? _) = false |- _ => apply Z.eqb_neq in H
  | H : String.eqb _ _ = true |- _ => apply String.eqb_eq in H
  | H : String.eqb _ _ = false |- _ => apply String.eqb_neq in H
  | H : bool_decide _ = true |- _ => apply bool_decide_eq_true in H
  | H : bool_decide _ = false |- _ => apply bool_decide_eq_false in H
  end.

Ltac split_matches := repeat (case_match; simplify_eq/=); bool_to_prop.

(** ** Lists *)

Section lists.
Context {A : Type}.

(** The last [n] elements, Go's [l[len(l)-n:]] for [n <= len(l)]. *)
Definition last_n (n : nat) (l : list A) : list A := drop (length l - n) l.

Lemma length_last_n n (l : list A) : (length (last_n n l) = n `min` length l)%nat.
Proof. unfold last_n. rewrite length_drop. lia. Qed.

Lemma last_n_suffix n (l : list A) : last_n n l `suffix_of` l.
Proof. exists (take (length l - n) l). symmetry. apply take_drop. Qed.

(** Drop a prefix while a test holds. *)
Fixpoint drop_while (f : A → bool) (l : list A) : list A :=
  match l with
  | [] => []
  | x :: t => if f x then drop_while f t else l
  end.

Lemma drop_while_suffix f (l : list A) : drop_while f l `suffix_of` l.
Proof.
  induction l as [|x t IH]; simpl; [done|].
  destruct (f x); [|done]. by apply suffix_cons_r.
Qed.
End lists.

(** ** Boolean membership of a string in a list *)
Definition str_mem (x : string) (l : list string) : bool := existsb (String.eqb x) l.

Lemma str_mem_true x l : str_mem x l = true ↔ x ∈ l.
Proof.
  unfold str_mem. rewrite existsb_exists. setoid_rewrite String.eqb_eq.
  setoid_rewrite <- list_elem_of_In. naive_solver.
Qed.

Lemma str_mem_false x l : str_mem x l = false ↔ x ∉ l.
Proof. rewrite <- str_mem_true. by destruct (str_mem x l). Qed.

#[export] Instance res_inhabited {A} : Inhabited (res A) := populate (Err "").

(** ** Iteration over a Go map

    A [range] loop visits the entries of a map in an unspecified order.  Code
    whose result depends on the order takes it from this interface, so that its
    theorems hold for every order. *)
Class MapOrder : Type := {
  map_order : ∀ V : Type, gmap string V → list (string * V);
  map_order_perm : ∀ (V : Type) (m : gmap string V), map_order V m ≡ₚ map_to_list m
}.
Arguments map_order {_ V} m.

(** One possible order, to run the code. *)
Definition canonical_order : MapOrder :=
  {| map_order V m := map_to_list m; map_order_perm V m := Permutation_refl _ |}.

Lemma elem_of_map_order `{MapOrder} {V} (m : gmap string V) k v :
  (k, v) ∈ map_order m ↔ m !! k = Some v.
Proof. by rewrite map_order_perm, elem_of_map_to_list. Qed.

Lemma length_map_order `{MapOrder} {V} (m : gmap string V) : length (map_order m) = size m.
Proof. by rewrite map_order_perm, length_map_to_list. Qed.

(** Deleting a present key shrinks the map by one. *)
Lemma size_delete_present {V} (m : gmap string V) k :
  is_Some (m !! k) → size m = S (size (delete k m)).
Proof.
  intros [v Hv]. rewrite <-(insert_delete_id m k v Hv) at 1.
  by rewrite map_size_insert_None by apply lookup_delete_eq.
Qed.

Lemma size_delete_le {V} (m : gmap string V) k : (size (delete k m) <= size m)%nat.
Proof.
  destruct (m !! k) as [v|] eqn:E; [rewrite (size_delete_present m k); eauto|].
  by rewrite delete_id.
Qed.

Lemma size_insert_le {V} (m : gmap string V) k v : (size (<[k:=v]> m) <= S (size m))%nat.
Proof.
  destruct (m !! k) as [w|] eqn:E.
  - rewrite map_size_insert_Some by eauto. lia.
  - by rewrite map_size_insert_None.
Qed.
