(* ===== verification/GoLib.v ===== *)
(** * The part of the Go language and standard library the program uses

    Strings and byte slices are both [string]: a sequence of bytes.  This file
    holds UTF-8 decoding as [range] and [unicode/utf8] do it, the functions of
    package [strings] the program calls, decimal and hexadecimal conversion
    ([strconv]) and machine integers. *)

From Stdlib Require Export SpecFloat.
From S2P Require Export Prelude.

(** ** Bytes *)

Definition byte_val (a : ascii) : Z := Z.of_N (N_of_ascii a).
Definition byte_of (z : Z) : ascii := ascii_of_N (Z.to_N (z mod 256)).

Notation to_bytes := list_ascii_of_string.
Notation of_bytes := string_of_list_ascii.

(** [len(s)] *)
Definition slen (s : string) : Z := Z.of_nat (String.length s).

Lemma byte_val_range a : 0 <= byte_val a < 256.
Proof. unfold byte_val. pose proof (N_ascii_bounded a). lia. Qed.

Lemma byte_of_val a : byte_of (byte_val a) = a.
Proof.
  unfold byte_of. rewrite Z.mod_small by apply byte_val_range.
  unfold byte_val. by rewrite N2Z.id, ascii_N_embedding.
Qed.

Lemma byte_val_of z : byte_val (byte_of z) = z mod 256.
Proof.
  unfold byte_val, byte_of. pose proof (Z.mod_pos_bound z 256).
  rewrite N_ascii_embedding by lia. lia.
Qed.

Lemma byte_val_inj a b : byte_val a = byte_val b → a = b.
Proof. intros H. by rewrite <-(byte_of_val a), H, byte_of_val. Qed.

Lemma length_to_bytes s : length (to_bytes s) = String.length s.
Proof. induction s; simpl; congruence. Qed.

Lemma length_of_bytes l : String.length (of_bytes l) = length l.
Proof. induction l; simpl; congruence. Qed.

Lemma of_to_bytes s : of_bytes (to_bytes s) = s.
Proof. apply string_of_list_ascii_of_string. Qed.

Lemma to_of_bytes l : to_bytes (of_bytes l) = l.
Proof. apply list_ascii_of_string_of_list_ascii. Qed.

Lemma to_bytes_inj s t : to_bytes s = to_bytes t → s = t.
Proof. intros H. by rewrite <-(of_to_bytes s), H, of_to_bytes. Qed.

Lemma to_bytes_app s t : to_bytes (s +:+ t) = to_bytes s ++ to_bytes t.
Proof. induction s as [|a s IH]; [done|]. simpl. by rewrite IH. Qed.

Lemma slen_nonneg s : 0 <= slen s.
Proof. unfold slen. lia. Qed.

Lemma slen_app s t : slen (s +:+ t) = slen s + slen t.
Proof.
  unfold slen. rewrite <-!length_to_bytes, to_bytes_app, length_app. lia.
Qed.

Lemma slen_0 s : slen s = 0 ↔ s = "".
Proof. split; [|by intros ->]. destruct s; [done|]. unfold slen. simpl. lia. Qed.

#[export] Hint Rewrite length_to_bytes length_of_bytes of_to_bytes to_of_bytes
  to_bytes_app byte_of_val byte_val_of : bytes.

(** ** UTF-8 decoding

    [decode] follows [utf8.DecodeRune]: a well-formed sequence gives its rune,
    any other byte gives [None] (the rune U+FFFD of width 1). *)

Definition is_cont (b : Z) : bool := (128 <=? b) && (b <=? 191).

(** The range allowed for the second byte, by the first byte. *)
Definition second_ok (b0 b1 : Z) : bool :=
  if b0 =? 224 then (160 <=? b1) && (b1 <=? 191)
  else if b0 =? 237 then (128 <=? b1) && (b1 <=? 159)
  else if b0 =? 240 then (144 <=? b1) && (b1 <=? 191)
  else if b0 =? 244 then (128 <=? b1) && (b1 <=? 143)
  else is_cont b1.

Fixpoint decode (l : list Z) : list (option Z) :=
  match l with
  | [] => []
  | b0 :: t0 =>
    if b0 <? 128 then Some b0 :: decode t0
    else if (194 <=? b0) && (b0 <=? 223) then
      match t0 with
      | b1 :: t1 =>
        if is_cont b1 then Some ((b0 - 192) * 64 + (b1 - 128)) :: decode t1
        else None :: decode t0
      | _ => None :: decode t0
      end
    else if (224 <=? b0) && (b0 <=? 239) then
      match t0 with
      | b1 :: b2 :: t2 =>
        if second_ok b0 b1 && is_cont b2
        then Some ((b0 - 224) * 4096 + (b1 - 128) * 64 + (b2 - 128)) :: decode t2
        else None :: decode t0
      | _ => None :: decode t0
      end
    else if (240 <=? b0) && (b0 <=? 244) then
      match t0 with
      | b1 :: b2 :: b3 :: t3 =>
        if second_ok b0 b1 && is_cont b2 && is_cont b3
        then Some ((b0 - 240) * 262144 + (b1 - 128) * 4096 + (b2 - 128) * 64 + (b3 - 128))
             :: decode t3
        else None :: decode t0
      | _ => None :: decode t0
      end
    else None :: decode t0
  end.

Definition runes (s : string) : list (option Z) := decode (map byte_val (to_bytes s)).

(** [utf8.ValidString] *)
Definition valid_utf8 (s : string) : bool :=
  forallb (λ r, match r with Some _ => true | None => false end) (runes s).

(** [utf8.RuneCountInString] *)
Definition rune_count (s : string) : Z := Z.of_nat (length (runes s)).

(** The runes a [for _, r := range s] loop visits. *)
Definition range_runes (s : string) : list Z := map (default 65533) (runes s).

(** [unicode.IsControl]: the general category Cc. *)
Definition is_control (r : Z) : bool :=
  (0 <=? r) && (r <=? 31) || (127 <=? r) && (r <=? 159).

(** ASCII runes are bytes: a string all of whose runes are below 128 has the
    same bytes. *)
Lemma decode_ascii l :
  Forall (λ o, ∃ r, o = Some r ∧ r < 128) (decode l) → Forall (λ b, 0 <= b) l →
  decode l = map Some l.
Proof.
  revert l. fix IH 1. intros [|b0 t0]; [done|]. simpl. intros Hd Hl.
  inversion Hl as [|? ? Hb0 Ht0]; subst.
  destruct (b0 <? 128) eqn:E0.
  { inversion Hd as [|? ? _ Hd']; subst. f_equal. by apply IH. }
  exfalso. bool_to_prop.
  assert (∀ t, ¬ Forall (λ o : option Z, ∃ r, o = Some r ∧ r < 128) (None :: t)) as Hn.
  { intros t Ht. inversion Ht as [|? ? [? [? _]] _]. done. }
  repeat (case_match; simplify_eq); try (by eapply Hn); bool_to_prop;
    inversion Hd as [|? ? [r [Hr Hlt]] _]; simplify_eq;
    unfold second_ok, is_cont in *; split_matches; lia.
Qed.

Lemma length_decode l : (length (decode l) <= length l)%nat.
Proof.
  revert l. fix IH 1. intros [|b0 t0]; simpl; [done|].
  pose proof (IH t0) as H0.
  destruct (b0 <? 128); simpl; [lia|].
  destruct ((194 <=? b0) && (b0 <=? 223)); simpl.
  { destruct t0 as [|b1 t1]; [simpl in *; lia|].
    destruct (is_cont b1); simpl in *; [pose proof (IH t1)|]; lia. }
  destruct ((224 <=? b0) && (b0 <=? 239)); simpl.
  { destruct t0 as [|b1 [|b2 t2]]; simpl in *; try lia.
    destruct (second_ok b0 b1 && is_cont b2); simpl in *; [pose proof (IH t2)|]; lia. }
  destruct ((240 <=? b0) && (b0 <=? 244)); simpl; [|lia].
  destruct t0 as [|b1 [|b2 [|b3 t3]]]; simpl in *; try lia.
  destruct (second_ok b0 b1 && is_cont b2 && is_cont b3); simpl in *; [pose proof (IH t3)|]; lia.
Qed.

Lemma rune_count_le s : 0 <= rune_count s <= slen s.
Proof.
  unfold rune_count, runes, slen.
  pose proof (length_decode (map byte_val (to_bytes s))) as H.
  rewrite length_map, length_to_bytes in H. lia.
Qed.

(** A range loop that accepts only runes of an ASCII set accepts exactly the
    strings whose bytes are of that set. *)
Lemma range_runes_ascii (f : Z → bool) s :
  (∀ r, f r = true → 0 <= r < 128) →
  forallb f (range_runes s) = forallb f (map byte_val (to_bytes s)).
Proof.
  intros Hf. unfold range_runes, runes.
  assert (Forall (λ b, 0 <= b) (map byte_val (to_bytes s))) as Hpos.
  { apply Forall_map, Forall_true. intros a. apply byte_val_range. }
  revert Hpos. generalize (map byte_val (to_bytes s)) as l.
  intros l Hpos. apply eq_true_iff_eq. rewrite !forallb_forall. split.
  - intros H. assert (decode l = map Some l) as Hd.
    { apply decode_ascii; [|done]. apply Forall_forall. intros o Ho.
      apply list_elem_of_In in Ho. specialize (H (default 65533 o)).
      rewrite in_map_iff in H. ospecialize (H _); [eauto|]. apply Hf in H.
      destruct o as [r|]; simpl in *; [exists r; split; [done|lia]|lia]. }
    intros x Hx. apply H. rewrite Hd, map_map. simpl. by rewrite map_id.
  - intros H. assert (decode l = map Some l) as Hd.
    { clear Hpos. induction l as [|b l IH]; [done|]. simpl.
      assert (b < 128) by (apply (Hf b), H; by left).
      destruct (b <? 128) eqn:E; bool_to_prop; [|lia].
      f_equal. apply IH. intros x Hx. apply H. by right. }
    rewrite Hd, map_map. simpl. rewrite map_id. done.
Qed.

(** ** White space

    [space_len l] is the number of bytes of the white-space character
    ([unicode.IsSpace]) that [l] begins with.  No continuation byte begins a
    white-space character, so a scan by bytes and a scan by runes agree. *)

Definition space_codes : list (list Z) :=
  [[9]; [10]; [11]; [12]; [13]; [32]; [194; 133]; [194; 160]; [225; 154; 128];
   [226; 128; 128]; [226; 128; 129]; [226; 128; 130]; [226; 128; 131];
   [226; 128; 132]; [226; 128; 133]; [226; 128; 134]; [226; 128; 135];
   [226; 128; 136]; [226; 128; 137]; [226; 128; 138]; [226; 128; 168];
   [226; 128; 169]; [226; 128; 175]; [226; 129; 159]; [227; 128; 128]].

Fixpoint is_prefix (p l : list Z) : bool :=
  match p, l with
  | [], _ => true
  | x :: p', y :: l' => (x =? y) && is_prefix p' l'
  | _, [] => false
  end.

Definition code_len (codes : list (list Z)) (l : list Z) : option nat :=
  match find (λ c, is_prefix c l) codes with
  | Some c => Some (length c)
  | None => None
  end.

Definition space_len : list Z → option nat := code_len space_codes.
Definition rspace_len : list Z → option nat := code_len (map reverse space_codes).

(** Remove leading characters of a set of codes; [skip] counts the remaining
    bytes of a character being removed. *)
Fixpoint strip_left (codes : list (list Z)) (skip : nat) (l : list Z) : list Z :=
  match l with
  | [] => []
  | b :: t =>
    match skip with
    | S k => strip_left codes k t
    | O =>
      match code_len codes l with
      | Some (S k) => strip_left codes k t
      | _ => l
      end
    end
  end.

(** [strings.TrimSpace], on byte values. *)
Definition trim_bytes (l : list Z) : list Z :=
  reverse (strip_left (map reverse space_codes) 0
             (reverse (strip_left space_codes 0 l))).

Definition vals (s : string) : list Z := map byte_val (to_bytes s).
Definition unvals (l : list Z) : string := of_bytes (map byte_of l).

Definition TrimSpace (s : string) : string := unvals (trim_bytes (vals s)).

Lemma unvals_vals s : unvals (vals s) = s.
Proof.
  unfold unvals, vals. rewrite map_map, (map_ext _ id); [|apply byte_of_val].
  by rewrite map_id, of_to_bytes.
Qed.

Lemma vals_unvals l : Forall (λ b, 0 <= b < 256) l → vals (unvals l) = l.
Proof.
  intros H. unfold unvals, vals. rewrite to_of_bytes, map_map.
  rewrite (map_ext_Forall _ id), map_id; [done|].
  eapply Forall_impl; [exact H|]. intros b Hb; simpl.
  rewrite byte_val_of. by apply Z.mod_small.
Qed.

Lemma vals_range s : Forall (λ b, 0 <= b < 256) (vals s).
Proof. unfold vals. apply Forall_map, Forall_true. apply byte_val_range. Qed.

Lemma length_vals s : length (vals s) = String.length s.
Proof. unfold vals. by rewrite length_map, length_to_bytes. Qed.

Lemma vals_inj s t : vals s = vals t → s = t.
Proof. intros H. by rewrite <-(unvals_vals s), H, unvals_vals. Qed.

Lemma vals_app s t : vals (s +:+ t) = vals s ++ vals t.
Proof. unfold vals. by rewrite to_bytes_app, map_app. Qed.

Lemma strip_left_suffix codes k l : strip_left codes k l `suffix_of` l.
Proof.
  revert k. induction l as [|b t IH]; intros k; [done|]. simpl.
  destruct k; [|by apply suffix_cons_r].
  destruct (code_len codes (b :: t)) as [[|k]|]; try done. by apply suffix_cons_r.
Qed.

Lemma is_prefix_app p l l' : is_prefix p l = true → is_prefix p (l ++ l') = true.
Proof.
  revert l. induction p as [|x p IH]; intros [|y l]; simpl; try done.
  rewrite !andb_true_iff. naive_solver.
Qed.

Lemma code_len_app_none codes l l' :
  code_len codes (l ++ l') = None → code_len codes l = None.
Proof.
  unfold code_len. destruct (find _ codes) eqn:E; [done|].
  intros _. destruct (find (λ c, is_prefix c l) codes) as [c|] eqn:F; [|done].
  apply find_some in F as [Hin Hp].
  pose proof (find_none _ _ E c Hin) as Hn. simpl in Hn.
  by rewrite (is_prefix_app _ _ l' Hp) in Hn.
Qed.

(** Codes without the empty code: [code_len] is never [Some 0]. *)
Definition nonempty_codes (codes : list (list Z)) : Prop := Forall (λ c, c ≠ []) codes.

Lemma code_len_pos codes l n :
  nonempty_codes codes → code_len codes l = Some n → (0 < n)%nat.
Proof.
  unfold code_len, nonempty_codes. intros Hne. case_match eqn:F; [|done].
  intros [= <-]. apply find_some in F as [Hin _].
  rewrite Forall_forall in Hne. apply list_elem_of_In in Hin.
  specialize (Hne _ Hin). by destruct l0; [|simpl; lia].
Qed.

Lemma space_codes_nonempty : nonempty_codes space_codes.
Proof. unfold nonempty_codes, space_codes. repeat constructor; done. Qed.

Lemma rspace_codes_nonempty : nonempty_codes (map reverse space_codes).
Proof. unfold nonempty_codes, space_codes. repeat constructor; done. Qed.

Lemma strip_left_none codes l :
  nonempty_codes codes → ∀ k, code_len codes (strip_left codes k l) = None ∨ strip_left codes k l = [].
Proof.
  intros Hne. induction l as [|b t IH]; intros k; [by right|]. simpl.
  destruct k as [|k]; [|apply IH].
  destruct (code_len codes (b :: t)) as [[|k]|] eqn:E; [|apply IH|by left].
  by apply code_len_pos in E; [lia|].
Qed.

Lemma strip_left_id codes l : code_len codes l = None → strip_left codes 0 l = l.
Proof. destruct l as [|b t]; [done|]. simpl. by intros ->. Qed.

Lemma strip_left_idemp codes l :
  nonempty_codes codes → strip_left codes 0 (strip_left codes 0 l) = strip_left codes 0 l.
Proof.
  intros Hne. destruct (strip_left_none codes l Hne 0) as [H| ->]; [|done].
  by apply strip_left_id.
Qed.

(** Trimming removes a prefix and a suffix, and is idempotent. *)
Lemma trim_bytes_infix l : ∃ a b, l = a ++ trim_bytes l ++ b.
Proof.
  unfold trim_bytes.
  destruct (strip_left_suffix space_codes 0 l) as [a Ha].
  set (m := strip_left space_codes 0 l) in *.
  destruct (strip_left_suffix (map reverse space_codes) 0 (reverse m)) as [b Hb].
  exists a, (reverse b). rewrite <-reverse_app, <-Hb, reverse_involutive. done.
Qed.

Lemma trim_bytes_idemp l : trim_bytes (trim_bytes l) = trim_bytes l.
Proof.
  unfold trim_bytes at 2 3.
  set (m := strip_left space_codes 0 l).
  set (r := strip_left (map reverse space_codes) 0 (reverse m)).
  assert (strip_left space_codes 0 (reverse r) = reverse r) as H1.
  { destruct (strip_left_none space_codes l space_codes_nonempty 0) as [H|H].
    - apply strip_left_id. fold m in H.
      destruct (strip_left_suffix (map reverse space_codes) 0 (reverse m)) as [b Hb].
      fold r in Hb. apply (code_len_app_none _ _ (reverse b)).
      by rewrite <-reverse_app, <-Hb, reverse_involutive.
    - fold m in H. unfold r. by rewrite H. }
  unfold trim_bytes. rewrite H1, reverse_involutive. unfold r.
  by rewrite strip_left_idemp by apply rspace_codes_nonempty.
Qed.

Lemma trim_bytes_range l :
  Forall (λ b, 0 <= b < 256) l → Forall (λ b, 0 <= b < 256) (trim_bytes l).
Proof.
  intros H. destruct (trim_bytes_infix l) as (a & b & E). rewrite E in H.
  rewrite !Forall_app in H. naive_solver.
Qed.

Lemma vals_TrimSpace s : vals (TrimSpace s) = trim_bytes (vals s).
Proof. unfold TrimSpace. apply vals_unvals, trim_bytes_range, vals_range. Qed.

Lemma TrimSpace_idemp s : TrimSpace (TrimSpace s) = TrimSpace s.
Proof. apply vals_inj. by rewrite !vals_TrimSpace, trim_bytes_idemp. Qed.

Lemma slen_TrimSpace s : slen (TrimSpace s) <= slen s.
Proof.
  unfold slen. rewrite <-!length_vals, vals_TrimSpace.
  destruct (trim_bytes_infix (vals s)) as (a & b & E).
  rewrite E at 2. rewrite !length_app. lia.
Qed.

#[export] Hint Rewrite TrimSpace_idemp : gostr.

(** ** Package [strings] *)

Definition HasPrefix (s p : string) : bool := String.prefix p s.

Fixpoint sdrop (n : nat) (s : string) : string :=
  match n, s with
  | S n', String _ t => sdrop n' t
  | _, _ => s
  end.

Definition TrimPrefix (s p : string) : string :=
  if HasPrefix s p then sdrop (String.length p) s else s.

Definition srev (s : string) : string := of_bytes (reverse (to_bytes s)).
Definition HasSuffix (s p : string) : bool := HasPrefix (srev s) (srev p).
Definition TrimSuffix (s p : string) : string :=
  if HasSuffix s p then srev (sdrop (String.length p) (srev s)) else s.

Fixpoint Contains (s sub : string) : bool :=
  HasPrefix s sub || match s with EmptyString => false | String _ t => Contains t sub end.

(** [strings.Split] on a one-byte separator. *)
Fixpoint Split (s : string) (c : ascii) : list string :=
  match s with
  | EmptyString => [""]
  | String a t =>
    if Ascii.eqb a c then "" :: Split t c
    else match Split t c with
         | h :: r => String a h :: r
         | [] => [String a ""]
         end
  end.

Fixpoint Join (l : list string) (sep : string) : string :=
  match l with
  | [] => ""
  | [x] => x
  | x :: r => x +:+ sep +:+ Join r sep
  end.

(** The text before and after the first [c]. *)
Fixpoint Cut (s : string) (c : ascii) : option (string * string) :=
  match s with
  | EmptyString => None
  | String a t =>
    if Ascii.eqb a c then Some ("", t)
    else match Cut t c with
         | Some (x, y) => Some (String a x, y)
         | None => None
         end
  end.

(** The text after the last [c] ([strings.LastIndexByte]). *)
Definition after_last (s : string) (c : ascii) : option string :=
  match Cut (srev s) c with
  | Some (x, _) => Some (srev x)
  | None => None
  end.

(** [strings.Fields] *)
Fixpoint fields_aux (skip : nat) (cur : list Z) (l : list Z) : list (list Z) :=
  let flush := match cur with [] => [] | _ => [reverse cur] end in
  match l with
  | [] => flush
  | b :: t =>
    match skip with
    | S k => fields_aux k cur t
    | O =>
      match space_len l with
      | Some n => flush ++ fields_aux (n - 1) [] t
      | None => fields_aux 0 (b :: cur) t
      end
    end
  end.

Definition Fields (s : string) : list string := map unvals (fields_aux 0 [] (vals s)).

Definition smem (c : ascii) (s : string) : bool := existsb (Ascii.eqb c) (to_bytes s).

Lemma smem_cons c a s : smem c (String a s) = Ascii.eqb a c || smem c s.
Proof. unfold smem. simpl. by rewrite Ascii.eqb_sym. Qed.

Lemma Split_no_sep s c : smem c s = false → Split s c = [s].
Proof.
  induction s as [|a s IH]; [done|]. rewrite smem_cons. simpl.
  destruct (Ascii.eqb a c) eqn:E; [done|]. intros H. by rewrite IH.
Qed.

Lemma Split_app s c t :
  smem c s = false → Split (s +:+ String c t) c = s :: Split t c.
Proof.
  induction s as [|a s IH]; intros H.
  - simpl. by rewrite Ascii.eqb_refl.
  - rewrite smem_cons in H. simpl.
    destruct (Ascii.eqb a c) eqn:E; [done|]. by rewrite IH.
Qed.

Lemma Split_Join l c :
  l ≠ [] → Forall (λ x, smem c x = false) l → Split (Join l (String c "")) c = l.
Proof.
  induction l as [|x l IH]; [done|]. intros _ Hf.
  inversion Hf as [|? ? Hx Hl]; subst. destruct l as [|y l].
  - by apply Split_no_sep.
  - change (Join (x :: y :: l) (String c ""))
      with (x +:+ String c (Join (y :: l) (String c ""))).
    rewrite Split_app by done. f_equal. by apply IH.
Qed.

Lemma Split_nonempty s c : Split s c ≠ [].
Proof. induction s as [|a s IH]; simpl; [done|]. destruct (Ascii.eqb a c); [done|]. by destruct (Split s c). Qed.

Lemma Split_parts s c : Forall (λ x, smem c x = false) (Split s c).
Proof.
  induction s as [|a s IH]; simpl; [by repeat constructor|].
  destruct (Ascii.eqb a c) eqn:E; [by constructor|].
  destruct (Split s c) as [|h r]; [by repeat constructor; rewrite smem_cons, E|].
  inversion IH; subst. constructor; [|done]. by rewrite smem_cons, E.
Qed.

Lemma Join_Split s c : Join (Split s c) (String c "") = s.
Proof.
  induction s as [|a s IH]; [done|]. simpl.
  pose proof (Split_nonempty s c) as Hne.
  destruct (Ascii.eqb a c) eqn:E.
  - apply Ascii.eqb_eq in E as ->. destruct (Split s c) as [|h r] eqn:F; [done|].
    rewrite <-IH. done.
  - destruct (Split s c) as [|h r] eqn:F; [done|].
    rewrite <-IH. by destruct r.
Qed.

Lemma sapp_nil_r s : s +:+ "" = s.
Proof. apply to_bytes_inj. rewrite to_bytes_app. apply app_nil_r. Qed.

Lemma sapp_cons a s t : String a s +:+ t = String a (s +:+ t).
Proof. done. Qed.

Lemma sapp_assoc a b c : (a +:+ b) +:+ c = a +:+ b +:+ c.
Proof. apply to_bytes_inj. by rewrite !to_bytes_app, app_assoc. Qed.

Lemma HasPrefix_app p s : HasPrefix (p +:+ s) p = true.
Proof.
  unfold HasPrefix. induction p as [|a p IH]; [by destruct s|].
  change (String.prefix (String a p) (String a (p +:+ s)) = true). simpl.
  by destruct (ascii_dec a a).
Qed.

Lemma sdrop_app p s : sdrop (String.length p) (p +:+ s) = s.
Proof. induction p as [|a p IH]; [reflexivity|]. exact IH. Qed.

Lemma TrimPrefix_app p s : TrimPrefix (p +:+ s) p = s.
Proof. unfold TrimPrefix. by rewrite HasPrefix_app, sdrop_app. Qed.

Lemma HasPrefix_true s p : HasPrefix s p = true ↔ ∃ t, s = p +:+ t.
Proof.
  split; [|intros [t ->]; apply HasPrefix_app].
  unfold HasPrefix. revert s. induction p as [|a p IH]; intros s; [by exists s|].
  destruct s as [|b s]; simpl; [done|]. destruct (ascii_dec a b); [|done].
  intros [t ->]%IH. subst. by exists t.
Qed.

(** ** Package [strconv] *)

Definition digit_val (base b : Z) : option Z :=
  let d := if (48 <=? b) && (b <=? 57) then b - 48
           else if (97 <=? b) && (b <=? 122) then b - 87
           else if (65 <=? b) && (b <=? 90) then b - 55 else base in
  if d <? base then Some d else None.

Fixpoint parse_digits (base acc : Z) (l : list Z) : option Z :=
  match l with
  | [] => Some acc
  | b :: t =>
    match digit_val base b with
    | Some d => parse_digits base (acc * base + d) t
    | None => None
    end
  end.

(** [strconv.ParseUint(s, base, bits)]; [None] is a syntax or range error. *)
Definition ParseUint (s : string) (base bits : Z) : option Z :=
  if String.eqb s "" then None else
  match parse_digits base 0 (vals s) with
  | Some n => if n <? 2 ^ bits then Some n else None
  | None => None
  end.

(** [strconv.ParseInt(s, base, bits)] *)
Definition ParseInt (s : string) (base bits : Z) : option Z :=
  let (neg, u) :=
    match s with
    | String a t =>
      if Ascii.eqb a "+" then (false, t) else if Ascii.eqb a "-" then (true, t) else (false, s)
    | EmptyString => (false, s)
    end in
  match ParseUint u base bits with
  | Some n =>
    if neg then (if n <=? 2 ^ (bits - 1) then Some (- n) else None)
    else (if n <? 2 ^ (bits - 1) then Some n else None)
  | None => None
  end.

(** [strconv.Atoi] on a 64-bit platform. *)
Definition Atoi (s : string) : option Z := ParseInt s 10 64.

Fixpoint dec_digits (fuel : nat) (n : Z) (acc : list Z) : list Z :=
  match fuel with
  | O => acc
  | S f =>
    let acc' := (48 + n mod 10) :: acc in
    if n / 10 =? 0 then acc' else dec_digits f (n / 10) acc'
  end.

(** The decimal digits of a non-negative number: [log2 n + 1] steps are enough. *)
Definition digits_of (n : Z) : list Z := dec_digits (S (Z.to_nat (Z.log2 n))) n [].

(** [strconv.Itoa], [strconv.FormatInt(n, 10)] *)
Definition Itoa (n : Z) : string :=
  if n <? 0 then String "-" (unvals (digits_of (- n))) else unvals (digits_of n).

(** The verb [%06d] for a non-negative number. *)
Definition pad6 (n : Z) : string :=
  let d := digits_of n in
  unvals (repeat 48 (6 - length d) ++ d).

Lemma digit_val_range base b d : digit_val base b = Some d → 0 <= d < base.
Proof.
  unfold digit_val. intros H.
  destruct (_ <? base) eqn:E in H; [|done]. injection H as <-. split_matches; lia.
Qed.

Lemma ParseUint_range s base bits n : ParseUint s base bits = Some n → 0 < base → 0 <= n < 2 ^ bits.
Proof.
  unfold ParseUint. intros H Hb. split_matches. split; [|done].
  assert (∀ l acc, 0 <= acc → ∀ r, parse_digits base acc l = Some r → 0 <= r) as Hp.
  { intros l. induction l as [|b l IH]; intros acc Ha r; simpl; [by intros [= <-]|].
    destruct (digit_val base b) as [d|] eqn:E; [|done]. apply IH.
    apply digit_val_range in E. nia. }
  by eapply Hp.
Qed.

Lemma dec_digits_parse f n acc :
  0 <= n < 2 ^ Z.of_nat f →
  ∃ k, 0 <= k ∧ ∀ a, parse_digits 10 a (dec_digits f n acc) = parse_digits 10 (a * 10 ^ k + n) acc.
Proof.
  revert n acc. induction f as [|f IH]; intros n acc Hn.
  { exists 0. split; [done|]. intros a. simpl. f_equal. simpl in Hn. lia. }
  simpl. pose proof (Z.mod_pos_bound n 10 ltac:(lia)) as Hm.
  assert (∀ a, parse_digits 10 a ((48 + n mod 10) :: acc)
             = parse_digits 10 (a * 10 + n mod 10) acc) as Hstep.
  { intros a. simpl. unfold digit_val.
    destruct ((48 <=? 48 + n mod 10) && (48 + n mod 10 <=? 57)) eqn:E.
    - destruct (48 + n mod 10 - 48 <? 10) eqn:E2; bool_to_prop; [|lia].
      f_equal. lia.
    - bool_to_prop. destruct E as [E|E]; bool_to_prop; lia. }
  pose proof (Z.div_mod n 10 ltac:(lia)) as Hdm.
  destruct (n / 10 =? 0) eqn:E; bool_to_prop.
  - exists 1. split; [lia|]. intros a. rewrite Hstep. f_equal. lia.
  - rewrite Nat2Z.inj_succ, Z.pow_succ_r in Hn by lia.
    destruct (IH (n / 10) ((48 + n mod 10) :: acc)) as (k & Hk & IHk); [lia|].
    exists (k + 1). split; [lia|]. intros a. rewrite IHk, Hstep. f_equal.
    rewrite Z.pow_add_r, Z.pow_1_r by lia. lia.
Qed.

Lemma dec_digits_digits f n acc :
  0 <= n → Forall (λ b, 48 <= b <= 57) acc → Forall (λ b, 48 <= b <= 57) (dec_digits f n acc).
Proof.
  revert n acc. induction f as [|f IH]; intros n acc Hn Ha; [done|]. simpl.
  pose proof (Z.mod_pos_bound n 10 ltac:(lia)).
  assert (Forall (λ b, 48 <= b <= 57) ((48 + n mod 10) :: acc)) by (constructor; [lia|done]).
  destruct (n / 10 =? 0); [done|]. apply IH; [|done]. apply Z.div_pos; lia.
Qed.

Lemma digits_of_digits n : 0 <= n → Forall (λ b, 48 <= b <= 57) (digits_of n).
Proof. intros Hn. by apply dec_digits_digits. Qed.

Lemma log2_fuel n : 0 <= n → n < 2 ^ Z.of_nat (S (Z.to_nat (Z.log2 n))).
Proof.
  intros Hn. rewrite Nat2Z.inj_succ, Z2Nat.id by apply Z.log2_nonneg.
  destruct (Z.eq_dec n 0) as [->|]; [done|]. apply Z.log2_spec. lia.
Qed.

Lemma digits_of_parse n : 0 <= n → parse_digits 10 0 (digits_of n) = Some n.
Proof.
  intros Hn. unfold digits_of.
  destruct (dec_digits_parse _ n [] (conj Hn (log2_fuel n Hn))) as (k & _ & Hk).
  rewrite Hk. simpl. f_equal.
Qed.

Lemma dec_digits_nonempty f n acc : dec_digits (S f) n acc ≠ [].
Proof.
  assert (∀ f n acc, acc ≠ [] → dec_digits f n acc ≠ []) as H.
  { clear. induction f as [|f IH]; intros n acc Ha; [done|]. simpl. case_match; [done|]. by apply IH. }
  simpl. case_match; [done|]. by apply H.
Qed.

Lemma digit_bytes l : Forall (λ b, 48 <= b <= 57) l → Forall (λ b, 0 <= b < 256) l.
Proof. intros H. eapply Forall_impl; [exact H|]. simpl. lia. Qed.

Lemma vals_Itoa n : 0 <= n → vals (Itoa n) = digits_of n.
Proof.
  intros Hn. unfold Itoa. destruct (n <? 0) eqn:E; bool_to_prop; [lia|].
  by apply vals_unvals, digit_bytes, digits_of_digits.
Qed.

Lemma ParseUint_Itoa n bits : 0 <= n < 2 ^ bits → ParseUint (Itoa n) 10 bits = Some n.
Proof.
  intros Hn. unfold ParseUint.
  destruct (String.eqb (Itoa n) "") eqn:E; bool_to_prop.
  { exfalso. apply (f_equal vals) in E. rewrite vals_Itoa in E by lia.
    by apply dec_digits_nonempty in E. }
  rewrite vals_Itoa, digits_of_parse by lia.
  destruct (n <? 2 ^ bits) eqn:F; bool_to_prop; [done|lia].
Qed.

(** A byte that is not a decimal digit does not occur in a decimal number. *)
Lemma smem_Itoa c n :
  0 <= n → (byte_val c < 48 ∨ 57 < byte_val c) → smem c (Itoa n) = false.
Proof.
  intros Hn Hc. unfold smem. destruct (existsb _ _) eqn:E; [|done].
  apply existsb_exists in E as (a & Ha & Heq). apply Ascii.eqb_eq in Heq as <-.
  pose proof (digits_of_digits n Hn) as Hd. rewrite <-vals_Itoa in Hd by done.
  unfold vals in Hd. rewrite Forall_map, Forall_forall in Hd.
  apply list_elem_of_In in Ha. specialize (Hd _ Ha). simpl in Hd. lia.
Qed.

(** ** Machine integers *)

Definition max_int64 : Z := 2 ^ 63 - 1.
Definition min_int64 : Z := - 2 ^ 63.
Definition max_uint64 : Z := 2 ^ 64 - 1.

(** Wrap-around of the 64-bit operations. *)
Definition wrap_u64 (z : Z) : Z := z mod 2 ^ 64.
Definition wrap_i64 (z : Z) : Z := (z + 2 ^ 63) mod 2 ^ 64 - 2 ^ 63.

Lemma wrap_u64_id z : 0 <= z < 2 ^ 64 → wrap_u64 z = z.
Proof. apply Z.mod_small. Qed.

Lemma wrap_i64_id z : min_int64 <= z <= max_int64 → wrap_i64 z = z.
Proof. unfold wrap_i64, min_int64, max_int64. intros H. rewrite Z.mod_small; lia. Qed.

Lemma wrap_i64_range z : min_int64 <= wrap_i64 z <= max_int64.
Proof.
  unfold wrap_i64, min_int64, max_int64.
  pose proof (Z.mod_pos_bound (z + 2 ^ 63) (2 ^ 64)). lia.
Qed.

(** ** Floating point: IEEE binary64 *)

Definition float64 : Type := spec_float.
Definition f64_zero : float64 := S754_zero false.

(** [float64(n)] for an integer. *)
Definition f64_of_Z (n : Z) : float64 := binary_normalize 53 1024 n 0 false.
Definition f64_add : float64 → float64 → float64 := SFadd 53 1024.
Definition f64_mul : float64 → float64 → float64 := SFmul 53 1024.
Definition f64_div : float64 → float64 → float64 := SFdiv 53 1024.
Definition f64_ltb : float64 → float64 → bool := SFltb.
Definition f64_leb : float64 → float64 → bool := SFleb.

#[export] Instance spec_float_eq_dec : EqDecision spec_float.
Proof. solve_decision. Defined.

(** ** Package [path/filepath] on Unix, lexical part *)

Definition IsAbs (p : string) : bool := HasPrefix p "/".

(** One element of a path against the elements kept so far (innermost first). *)
Definition clean_step (rooted : bool) (acc : list string) (e : string) : list string :=
  if String.eqb e "" || String.eqb e "." then acc
  else if String.eqb e ".." then
    match acc with
    | top :: rest => if String.eqb top ".." then ".." :: acc else rest
    | [] => if rooted then [] else [".."]
    end
  else e :: acc.

Definition clean_elems (rooted : bool) (es : list string) : list string :=
  reverse (fold_left (clean_step rooted) es []).

(** [filepath.Clean] *)
Definition Clean (p : string) : string :=
  let rooted := IsAbs p in
  let body := Join (clean_elems rooted (Split p "/")) "/" in
  if rooted then "/" +:+ body else if String.eqb body "" then "." else body.

(** [filepath.Join(a, b)]: empty elements are ignored. *)
Definition JoinPath (a b : string) : string :=
  if String.eqb a "" then (if String.eqb b "" then "" else Clean b)
  else if String.eqb b "" then Clean a
  else Clean (a +:+ "/" +:+ b).

(** The text up to and including the last slash, and the text after it. *)
Definition split_path (p : string) : string * string :=
  match after_last p "/" with
  | Some base => (of_bytes (take (String.length p - String.length base) (to_bytes p)), base)
  | None => ("", p)
  end.

(** [filepath.Dir] *)
Definition Dir (p : string) : string := Clean (fst (split_path p)).

(** [filepath.Base] *)
Fixpoint trim_slashes (l : list ascii) : list ascii :=
  match l with
  | c :: t => if Ascii.eqb c "/" then trim_slashes t else l
  | [] => []
  end.

Definition Base (p : string) : string :=
  if String.eqb p "" then "."
  else
    let p := of_bytes (reverse (trim_slashes (reverse (to_bytes p)))) in
    let b := snd (split_path p) in
    if String.eqb b "" then "/" else b.

(** *** Lemmas on splitting and paths *)

Lemma Cut_some s c x y : Cut s c = Some (x, y) → s = x +:+ String c y ∧ smem c x = false.
Proof.
  revert x. induction s as [|a s IH]; intros x; simpl; [done|].
  destruct (Ascii.eqb a c) eqn:E.
  - intros [= <- <-]. apply Ascii.eqb_eq in E as ->. done.
  - destruct (Cut s c) as [[x' y']|]; [|done]. intros [= <- <-].
    destruct (IH x' eq_refl) as [-> Hx]. split; [done|]. by rewrite smem_cons, E.
Qed.

Lemma Cut_none s c : Cut s c = None ↔ smem c s = false.
Proof.
  induction s as [|a s IH]; [done|]. rewrite smem_cons. simpl.
  destruct (Ascii.eqb a c); [done|]. simpl. rewrite <-IH.
  destruct (Cut s c) as [[??]|]; naive_solver.
Qed.

Lemma srev_srev s : srev (srev s) = s.
Proof. unfold srev. by rewrite to_of_bytes, reverse_involutive, of_to_bytes. Qed.

Lemma srev_app s t : srev (s +:+ t) = srev t +:+ srev s.
Proof.
  apply to_bytes_inj. unfold srev. by rewrite to_bytes_app, !to_of_bytes, to_bytes_app,
    !to_of_bytes, reverse_app.
Qed.

Lemma smem_in c s : smem c s = true ↔ c ∈ to_bytes s.
Proof.
  unfold smem. rewrite existsb_exists. setoid_rewrite Ascii.eqb_eq.
  setoid_rewrite <-list_elem_of_In. naive_solver.
Qed.

Lemma smem_srev c s : smem c (srev s) = smem c s.
Proof.
  apply eq_true_iff_eq. rewrite !smem_in. unfold srev. by rewrite to_of_bytes, elem_of_reverse.
Qed.

(** The text after the last separator. *)
Lemma after_last_spec s c b :
  after_last s c = Some b ↔ ∃ a, s = a +:+ String c b ∧ smem c b = false.
Proof.
  unfold after_last. split.
  - destruct (Cut (srev s) c) as [[x y]|] eqn:E; [|done]. intros [= <-].
    apply Cut_some in E as [E Hx]. exists (srev y). rewrite smem_srev. split; [|done].
    rewrite <-(srev_srev s), E, srev_app.
    change (String c y) with (String c "" +:+ y). rewrite srev_app.
    apply to_bytes_inj. by rewrite !to_bytes_app, <-app_assoc.
  - intros (a & -> & Hb). rewrite srev_app.
    change (String c b) with (String c "" +:+ b). rewrite srev_app.
    assert (Cut ((srev b +:+ srev (String c "")) +:+ srev a) c = Some (srev b, srev a)) as ->;
      [|by rewrite srev_srev].
    rewrite <-smem_srev in Hb. generalize (srev a), (srev b), Hb. clear. intros a b Hb.
    change (srev (String c "")) with (String c "").
    induction b as [|x b IH].
    + simpl. by rewrite Ascii.eqb_refl.
    + rewrite smem_cons in Hb. apply orb_false_iff in Hb as [Hx Hb].
      specialize (IH Hb). simpl in *. by rewrite Hx, IH.
Qed.

Lemma after_last_none s c : after_last s c = None ↔ smem c s = false.
Proof.
  unfold after_last. rewrite <-smem_srev, <-Cut_none.
  destruct (Cut (srev s) c) as [[??]|]; naive_solver.
Qed.

Lemma split_path_spec p : p = fst (split_path p) +:+ snd (split_path p).
Proof.
  unfold split_path. destruct (after_last p "/") as [b|] eqn:E; [|done].
  apply after_last_spec in E as (a & -> & _). simpl.
  apply to_bytes_inj. rewrite !to_bytes_app, to_of_bytes.
  assert (String.length (a +:+ String "/" b) - String.length b
          = length (to_bytes a ++ ["/"%char]))%nat as ->.
  { rewrite length_app. rewrite <-!length_to_bytes, to_bytes_app, length_app. simpl. lia. }
  change (to_bytes (String "/" b)) with (["/"%char] ++ to_bytes b).
  by rewrite app_assoc, take_app_length.
Qed.

Lemma IsAbs_spec p : IsAbs p = true ↔ ∃ t, p = String "/" t.
Proof. unfold IsAbs. rewrite HasPrefix_true. done. Qed.

Lemma IsAbs_app p q : IsAbs p = true → IsAbs (p +:+ q) = true.
Proof. rewrite !IsAbs_spec. intros [t ->]. by exists (t +:+ q). Qed.

Lemma Clean_abs p : IsAbs p = true → IsAbs (Clean p) = true.
Proof. intros H. unfold Clean. rewrite H. apply IsAbs_spec. eauto. Qed.

Lemma Dir_abs p : IsAbs p = true → IsAbs (Dir p) = true.
Proof.
  intros H. unfold Dir. apply Clean_abs. pose proof (split_path_spec p) as E.
  apply IsAbs_spec in H as [t Ht]. unfold split_path in *.
  destruct (after_last p "/") as [b|] eqn:F.
  - apply IsAbs_spec. apply after_last_spec in F as (a & Ha & _). simpl in *.
    destruct (of_bytes _) as [|x l] eqn:G.
    + exfalso. rewrite Ha in E. change ("" +:+ b) with b in E.
      apply (f_equal String.length) in E.
      rewrite <-!length_to_bytes, to_bytes_app, length_app in E. simpl in E. lia.
    + rewrite Ht in E at 1. injection E as -> _. eauto.
  - apply after_last_none in F. rewrite Ht, smem_cons in F. done.
Qed.

Lemma JoinPath_abs a b : IsAbs a = true → IsAbs (JoinPath a b) = true.
Proof.
  intros H. unfold JoinPath. destruct (String.eqb a "") eqn:E.
  { apply String.eqb_eq in E as ->. done. }
  destruct (String.eqb b ""); apply Clean_abs; [done|]. by apply IsAbs_app.
Qed.
