(* ===== verification/GoTime.v ===== *)
(** * Package [time]

    A [time.Duration] is a number of nanoseconds.  A [time.Time] is the number
    of nanoseconds since the Unix epoch; the zero Time is year 1.  The monotonic
    reading of a Time is not represented: a clock is the sequence of values
    [time.Now()] returns. *)

From S2P Require Export GoLib.

(** ** Definitions *)

Definition Nanosecond : Z := 1.
Definition Microsecond : Z := 1000.
Definition Millisecond : Z := 1000000.
Definition Second : Z := 1000000000.
Definition Minute : Z := 60 * Second.
Definition Hour : Z := 60 * Minute.

Definition zero_time : Z := -62135596800 * Second.

Definition IsZero (t : Z) : bool := t =? zero_time.
Definition Before (t u : Z) : bool := t <? u.

(** [t.Sub(u)] saturates at the range of [int64]. *)
Definition Sub (t u : Z) : Z := Z.max min_int64 (Z.min max_int64 (t - u)).
Definition TimeAdd (t d : Z) : Z := t + d.

(** [time.Until(t)] when the clock reads [now]. *)
Definition Until (t now : Z) : Z := Sub t now.

(** [t.Unix()]: seconds, rounded down. *)
Definition Unix (t : Z) : Z := t / Second.

(** [time.Unix(sec, 0)] *)
Definition UnixTime (sec : Z) : Z := sec * Second.

(** [d.Round(time.Second)]: to the nearest second, halves away from zero. *)
Definition RoundSecond (d : Z) : Z :=
  let r := Z.rem d Second in
  if d <? 0
  then (if - r + - r <? Second then d - r else d - r - Second)
  else (if r + r <? Second then d - r else d - r + Second).

(** *** [time.ParseDuration] *)

(** Truncation of a float to an integer. *)
Definition f64_trunc (f : float64) : Z :=
  match f with
  | S754_finite s m e =>
    let a := if e <? 0 then Z.pos m / 2 ^ (- e) else Z.pos m * 2 ^ e in
    if s then - a else a
  | _ => 0
  end.

Definition is_digit (b : Z) : bool := (48 <=? b) && (b <=? 57).

(** The value of the leading digits and the rest; [None] on overflow. *)
Fixpoint leadingInt (acc : Z) (l : list Z) : option (Z * list Z) :=
  match l with
  | b :: t =>
    if is_digit b then
      if 2 ^ 63 / 10 <? acc then None
      else let v := acc * 10 + (b - 48) in
           if 2 ^ 63 <? v then None else leadingInt v t
    else Some (acc, l)
  | [] => Some (acc, [])
  end.

(** The digits of a fraction: once it no longer fits they are skipped. *)
Fixpoint leadingFraction (f : Z) (scale : float64) (overflow : bool) (l : list Z)
    : Z * float64 * list Z :=
  match l with
  | b :: t =>
    if is_digit b then
      if overflow then leadingFraction f scale true t
      else if (2 ^ 63 - 1) / 10 <? f then leadingFraction f scale true t
      else let y := f * 10 + (b - 48) in
           if 2 ^ 63 <? y then leadingFraction f scale true t
           else leadingFraction y (f64_mul scale (f64_of_Z 10)) false t
    else (f, scale, l)
  | [] => (f, scale, [])
  end.

Fixpoint take_unit (l : list Z) : list Z * list Z :=
  match l with
  | b :: t => if (b =? 46) || is_digit b then ([], l)
              else let (u, r) := take_unit t in (b :: u, r)
  | [] => ([], [])
  end.

Definition unit_ns (u : list Z) : option Z :=
  if decide (u = vals "ns") then Some Nanosecond
  else if decide (u = vals "us") then Some Microsecond
  else if decide (u = [194; 181; 115]) then Some Microsecond
  else if decide (u = [206; 188; 115]) then Some Microsecond
  else if decide (u = vals "ms") then Some Millisecond
  else if decide (u = vals "s") then Some Second
  else if decide (u = vals "m") then Some Minute
  else if decide (u = vals "h") then Some Hour
  else None.

(** The terms of a duration; each one consumes at least one byte, so the length
    of the text is enough fuel. *)
Fixpoint duration_terms (fuel : nat) (d : Z) (l : list Z) : option Z :=
  match l, fuel with
  | [], _ => Some d
  | b :: _, S fuel' =>
    if negb ((b =? 46) || is_digit b) then None
    else
      match leadingInt 0 l with
      | None => None
      | Some (v, r) =>
        let pre := negb (length r =? length l)%nat in
        let '(f, scale, r', post) :=
          match r with
          | c :: r1 =>
            if c =? 46 then
              let '(f, scale, r2) := leadingFraction 0 (f64_of_Z 1) false r1 in
              (f, scale, r2, negb (length r2 =? length r1)%nat)
            else (0, f64_of_Z 1, r, false)
          | [] => (0, f64_of_Z 1, r, false)
          end in
        if negb (pre || post) then None
        else
          let (u, rest) := take_unit r' in
          match unit_ns u with
          | None => None
          | Some unit =>
            if 2 ^ 63 / unit <? v then None
            else
              let v := v * unit in
              let v := if 0 <? f
                       then v + f64_trunc (f64_mul (f64_of_Z f) (f64_div (f64_of_Z unit) scale))
                       else v in
              if 2 ^ 63 <? v then None
              else if 2 ^ 63 <? d + v then None
              else duration_terms fuel' (d + v) rest
          end
      end
  | _ :: _, O => None
  end.

Definition ParseDuration (s : string) : option Z :=
  let (neg, l) :=
    match vals s with
    | b :: t => if b =? 45 then (true, t) else if b =? 43 then (false, t) else (false, vals s)
    | [] => (false, [])
    end in
  match l with
  | [] => None
  | [48] => Some 0
  | _ =>
    match duration_terms (length l) 0 l with
    | Some d => if neg then Some (- d) else if max_int64 <? d then None else Some d
    | None => None
    end
  end.

(** ** Examples and lemmas *)

Example parse_durations :
  map ParseDuration ["24h"; "5m"; "1h30m"; "1.5h"; "250ms"; "-10s"; "0"; "10"; ""; "1d"; ".5s"]
  = [Some (24 * Hour); Some (5 * Minute); Some (90 * Minute); Some (90 * Minute);
     Some (250 * Millisecond); Some (- (10 * Second)); Some 0; None; None; None;
     Some (500 * Millisecond)].
Proof. by vm_compute. Qed.

Lemma Sub_small t u : min_int64 <= t - u <= max_int64 → Sub t u = t - u.
Proof. unfold Sub. lia. Qed.

Lemma Sub_pos t u : 0 < Sub t u ↔ u < t.
Proof. unfold Sub, min_int64, max_int64. lia. Qed.

Lemma Sub_le t u d : 0 <= d <= max_int64 → (Sub t u <= d ↔ t - u <= d ∨ (d = max_int64)).
Proof. unfold Sub, min_int64, max_int64. lia. Qed.
