(* ===== verification/GoNet.v ===== *)
(** * Package [net/netip]

    Addresses, prefixes, their parsers and the text form of an address, as the
    Server uses them to attribute a request to a client. *)

From S2P Require Export GoLib.

(** ** Addresses and prefixes *)

(** [None] where Go has the invalid zero [Addr]. *)
Inductive Addr : Type :=
| V4 (a : Z)
| V6 (a : Z) (zone : string).

Record Prefix : Type := mkPrefix { pfx_addr : Addr; pfx_bits : Z }.

#[export] Instance Addr_eq_dec : EqDecision Addr.
Proof. solve_decision. Defined.

(** An IPv4-mapped IPv6 address becomes the IPv4 address. *)
Definition Unmap (ip : Addr) : Addr :=
  match ip with
  | V6 a _ => if a / 2 ^ 32 =? 65535 then V4 (a mod 2 ^ 32) else ip
  | V4 _ => ip
  end.

Definition mask (width bits a : Z) : Z := a / 2 ^ (width - bits) * 2 ^ (width - bits).

(** [p.Masked()] *)
Definition Masked (p : Prefix) : Prefix :=
  match pfx_addr p with
  | V4 a => mkPrefix (V4 (mask 32 (pfx_bits p) a)) (pfx_bits p)
  | V6 a _ => mkPrefix (V6 (mask 128 (pfx_bits p) a) "") (pfx_bits p)
  end.

(** [p.Contains(ip)]: same family, no zone, equal leading bits. *)
Definition PrefixContains (p : Prefix) (ip : Addr) : bool :=
  match pfx_addr p, ip with
  | V4 a, V4 b => a / 2 ^ (32 - pfx_bits p) =? b / 2 ^ (32 - pfx_bits p)
  | V6 a _, V6 b zone =>
    String.eqb zone "" && (a / 2 ^ (128 - pfx_bits p) =? b / 2 ^ (128 - pfx_bits p))
  | _, _ => false
  end.

(** ** Parsing *)

Definition parse_octet (s : string) : option Z :=
  if (3 <? slen s) then None
  else if (1 <? slen s) && HasPrefix s "0" then None
  else match parse_digits 10 0 (vals s) with
       | Some n => if (slen s =? 0) || (255 <? n) then None else Some n
       | None => None
       end.

Definition parseIPv4 (s : string) : option Z :=
  match mapM parse_octet (Split s ".") with
  | Some [a; b; c; d] => Some (((a * 256 + b) * 256 + c) * 256 + d)
  | _ => None
  end.

(** The leading hexadecimal digits and the rest. *)
Fixpoint span_hex (s : string) : string * string :=
  match s with
  | String c t =>
    match digit_val 16 (byte_val c) with
    | Some _ => let (h, r) := span_hex t in (String c h, r)
    | None => ("", s)
    end
  | EmptyString => ("", "")
  end.

(** The groups read so far, in reverse, and where the ellipsis was; at most
    eight groups are read, so nine steps are enough. *)
Fixpoint ipv6_groups (fuel : nat) (acc : list Z) (ell : option nat) (s : string)
    : option (list Z * option nat) :=
  match fuel with
  | O => None
  | S fuel' =>
    if (8 <=? length acc)%nat then (if String.eqb s "" then Some (acc, ell) else None)
    else
      let (h, r) := span_hex s in
      if (slen h =? 0) || (4 <? slen h) then None
      else if HasPrefix r "." then
        if match ell with None => negb (length acc =? 6)%nat | Some _ => (6 <? length acc)%nat end
        then None
        else match parseIPv4 s with
             | Some v => Some (v mod 65536 :: v / 65536 :: acc, ell)
             | None => None
             end
      else
        match parse_digits 16 0 (vals h) with
        | None => None
        | Some v =>
          let acc := v :: acc in
          match r with
          | EmptyString => Some (acc, ell)
          | String c r1 =>
            if negb (Ascii.eqb c ":") then None
            else match r1 with
                 | EmptyString => None
                 | String c' r2 =>
                   if Ascii.eqb c' ":" then
                     match ell with
                     | Some _ => None
                     | None =>
                       if String.eqb r2 "" then Some (acc, Some (length acc))
                       else ipv6_groups fuel' acc (Some (length acc)) r2
                     end
                   else ipv6_groups fuel' acc ell r1
                 end
          end
        end
  end.

Definition groups_val (l : list Z) : Z := fold_left (λ acc g, acc * 65536 + g) l 0.

Definition parseIPv6 (s : string) : option Addr :=
  let parsed :=
    match Cut s "%" with
    | Some (a, z) => if String.eqb z "" then None else Some (a, z)
    | None => Some (s, "")
    end in
  match parsed with
  | None => None
  | Some (a, zone) =>
    let (ell, rest) := if HasPrefix a "::" then (Some 0%nat, sdrop 2 a) else (None, a) in
    if HasPrefix a "::" && String.eqb rest "" then Some (V6 0 zone)
    else
      match ipv6_groups 9 [] ell rest with
      | None => None
      | Some (racc, ell') =>
        let gs := rev racc in
        if (length gs <? 8)%nat then
          match ell' with
          | None => None
          | Some k => Some (V6 (groups_val (take k gs ++ repeat 0 (8 - length gs) ++ drop k gs)) zone)
          end
        else match ell' with
             | None => Some (V6 (groups_val gs) zone)
             | Some _ => None
             end
      end
  end.

(** The first of [.], [:] and [%] decides the family. *)
Fixpoint addr_family (s : string) : option bool :=
  match s with
  | EmptyString => None
  | String c t =>
    if Ascii.eqb c "." then Some true
    else if Ascii.eqb c ":" then Some false
    else if Ascii.eqb c "%" then None else addr_family t
  end.

Definition ParseAddr (s : string) : option Addr :=
  match addr_family s with
  | Some true => V4 <$> parseIPv4 s
  | Some false => parseIPv6 s
  | None => None
  end.

Definition is_digit_str (s : string) : bool :=
  forallb (λ b, (48 <=? b) && (b <=? 57)) (vals s).

(** [netip.ParsePrefix]: the part after the last [/] is the length in decimal
    without sign or leading zero. *)
Definition ParsePrefix (s : string) : option Prefix :=
  match after_last s "/" with
  | None => None
  | Some bits =>
    let addr := of_bytes (take (String.length s - String.length bits - 1) (to_bytes s)) in
    match ParseAddr addr with
    | Some (V6 _ (String _ _)) => None
    | Some ip =>
      if (1 <? slen bits) && (HasPrefix bits "0" || negb (is_digit_str bits)) then None
      else match Atoi bits with
           | Some n =>
             let width := match ip with V4 _ => 32 | V6 _ _ => 128 end in
             if (n <? 0) || (width <? n) || negb (is_digit_str bits) then None
             else Some (mkPrefix ip n)
           | None => None
           end
    | None => None
    end
  end.

(** ** Text form *)

Fixpoint hex_group (fuel : nat) (n : Z) (acc : list Z) : list Z :=
  match fuel with
  | O => acc
  | S f =>
    let c := if n mod 16 <? 10 then 48 + n mod 16 else 87 + n mod 16 in
    if n / 16 =? 0 then c :: acc else hex_group f (n / 16) (c :: acc)
  end.

Definition groups_of (a : Z) : list Z :=
  map (λ i, a / 65536 ^ i mod 65536) [7; 6; 5; 4; 3; 2; 1; 0].

(** Length of the run of zero groups at the head of a list. *)
Fixpoint zero_run (l : list Z) : nat :=
  match l with 0 :: t => S (zero_run t) | _ => O end.

(** The first longest run of at least two zero groups: (start, length). *)
Fixpoint longest_run (i : nat) (l : list Z) (best : nat * nat) : nat * nat :=
  match l with
  | [] => best
  | _ :: t =>
    let n := zero_run l in
    longest_run (S i) t (if (2 <=? n)%nat && (snd best <? n)%nat then (i, n) else best)
  end.

Definition v4_String (a : Z) : string :=
  Join (map (λ i, Itoa (a / 256 ^ i mod 256)) [3; 2; 1; 0]) ".".

Definition v6_String (a : Z) : string :=
  let gs := map (λ g, unvals (hex_group 4 g [])) (groups_of a) in
  let '(i, n) := longest_run 0 (groups_of a) (O, O) in
  if (n =? 0)%nat then Join gs ":"
  else Join (take i gs) ":" +:+ "::" +:+ Join (drop (i + n) gs) ":".

(** [ip.String()] of an unmapped address. *)
Definition AddrString (ip : Addr) : string :=
  match ip with
  | V4 a => v4_String a
  | V6 a zone => v6_String a +:+ (if String.eqb zone "" then "" else "%" +:+ zone)
  end.

(** ** Examples *)

Example addr_strings :
  map (λ s, AddrString ∘ Unmap <$> ParseAddr s)
    ["127.0.0.1"; "::1"; "::ffff:10.0.0.7"; "2001:db8:0:0:1:0:0:1"; "fe80::1%eth0"; "::";
     "1.2.3"; "01.2.3.4"; "1::2::3"; "12345::"; "::1.2.3.4.5"; "1:2:3:4:5:6:7:8::"]
  = [Some "127.0.0.1"; Some "::1"; Some "10.0.0.7"; Some "2001:db8::1:0:0:1";
     Some "fe80::1%eth0"; Some "::"; None; None; None; None; None; None].
Proof. by vm_compute. Qed.

Example prefix_contains :
  (λ p, map (λ s, option_map (PrefixContains (Masked p)) (ParseAddr s)) ["10.1.2.3"; "11.0.0.1"; "::1"])
  <$> ParsePrefix "10.9.9.9/8" = Some [Some true; Some false; Some false].
Proof. by vm_compute. Qed.
