(* ===== verification/Protocol.v ===== *)
(** * Wire protocol ([internal/protocol/protocol.go])

    The messages exchanged between Server and Agent, the token formats, the
    metric-card policy and the view of an offline device. *)

From S2P Require Export GoLib.

(** ** Constants *)

Definition EnrollmentTokenLength : Z := 48.
Definition DeviceTokenLength : Z := 64.
Definition CapabilityFileDownloadCredits : string := "file-download-credits-v1".
Definition CapabilityFileUploadCredits : string := "file-upload-credits-v1".
Definition CapabilityMetricPolicy : string := "metric-policy-v1".

Definition MetricCPU : string := "cpu".
Definition MetricMemory : string := "memory".
Definition MetricDisk : string := "disk".
Definition MetricNetwork : string := "network".
Definition MetricProcesses : string := "processes".
Definition MetricDiskIO : string := "diskio".

Definition metricCardOrder : list string :=
  [MetricCPU; MetricMemory; MetricDisk; MetricNetwork; MetricProcesses; MetricDiskIO].

(** ** Data *)

Record FileEntry : Type := mkFileEntry {
  fe_Name : string;
  fe_Path : string;
  fe_Size : Z;
  fe_Mode : Z;
  fe_ModTime : Z;
  fe_IsDir : bool;
  fe_IsSymlink : bool
}.

Record SystemInfo : Type := mkSystemInfo {
  Hostname : string;
  OS : string;
  Kernel : string;
  Arch : string;
  CPUModel : string;
  CPUCores : Z;
  CPUUsage : float64;
  Load1 : string;
  CPUTempC : option float64;
  MemTotal : Z;
  MemAvail : Z;
  DiskTotal : Z;
  DiskFree : Z;
  DiskPhysicalTotal : Z;
  DiskPhysicalCount : Z;
  NetInterface : string;
  NetLinkBPS : Z;
  NetRXBPS : float64;
  NetTXBPS : float64;
  NetRXPeak5mBPS : float64;
  NetTXPeak5mBPS : float64;
  ProcessTotal : Z;
  ProcessRunning : Z;
  ProcessSleeping : Z;
  ProcessZombie : Z;
  DiskReadBPS : float64;
  DiskWriteBPS : float64;
  DiskIOPS : float64;
  DiskIOWaitPct : float64;
  DiskLatencyMS : float64;
  UptimeSec : Z;
  IPAddrs : list string;
  AgentVer : string;
  ReportedAt : Z
}.

Record Message : Type := mkMessage {
  m_Type : string;
  m_DeviceID : string;
  m_Name : string;
  m_Token : string;
  m_EnrollmentToken : string;
  m_DeviceToken : string;
  m_Capabilities : list string;
  m_RequestID : string;
  m_SessionID : string;
  m_Action : string;
  m_Command : string;
  m_Path : string;
  m_Target : string;
  m_Data : string;
  m_Error : string;
  m_ExitCode : Z;
  m_Cols : Z;
  m_Rows : Z;
  m_Size : Z;
  m_Credits : Z;
  m_Mode : Z;
  m_Entries : list FileEntry;
  m_Info : option SystemInfo;
  m_MetricCards : list string
}.

(** The composite literals [protocol.Message{Type: t, RequestID: id, ...}] of
    the program: every field not named is the zero value. *)
Definition request_msg (t id path target data err : string) (size credits mode : Z)
    (entries : list FileEntry) : Message :=
  mkMessage t "" "" "" "" "" [] id "" "" "" path target data err 0 0 0 size credits mode
    entries None [].

(** [protocol.Message{Type: t, RequestID: id, Error: err}] *)
Definition error_msg (t id err : string) : Message :=
  request_msg t id "" "" "" err 0 0 0 [].

(** [protocol.Message{Type: t, SessionID: sid, ...}] *)
Definition session_msg (t sid data err : string) (cols rows : Z) : Message :=
  mkMessage t "" "" "" "" "" [] "" sid "" "" "" "" data err 0 cols rows 0 0 0 [] None [].

(** ** Tokens *)

Definition hex_digit_rune (ch : Z) : bool :=
  negb (((ch <? 48) || (57 <? ch)) && ((ch <? 97) || (102 <? ch))).

Definition validLowerHexToken (token : string) (length : Z) : bool :=
  if negb (slen token =? length) then false
  else forallb hex_digit_rune (range_runes token).

Definition ValidEnrollmentToken (token : string) : bool :=
  validLowerHexToken token EnrollmentTokenLength.

Definition ValidDeviceToken (token : string) : bool :=
  validLowerHexToken token DeviceTokenLength.

(** ** Capabilities and metric cards *)

Definition HasCapability (capabilities : list string) (capability : string) : bool :=
  existsb (λ value, String.eqb value capability) capabilities.

Definition DefaultMetricCards : list string := metricCardOrder.

(** The validation loop: [seen] is the map filled so far. *)
Fixpoint check_cards (seen : gset string) (cards : list string) : res (gset string) :=
  match cards with
  | [] => Ok seen
  | card :: rest =>
    if bool_decide (card ∈ seen) then Err "metric cards must not contain duplicates"
    else if existsb (λ allowed, String.eqb card allowed) metricCardOrder
         then check_cards ({[card]} ∪ seen) rest
         else Err "unknown metric card"
  end.

Definition NormalizeMetricCards (cards : list string) (minimum : Z) : res (list string) :=
  if (minimum <? 0) || (Z.of_nat (length metricCardOrder) <? minimum)
  then Err "invalid metric-card minimum"
  else
    try seen := check_cards ∅ cards in
    if Z.of_nat (size seen) <? minimum then Err "at least three metric cards are required"
    else Ok (filter (λ card, card ∈ seen) metricCardOrder).

Definition HasMetricCard (cards : list string) (card : string) : bool :=
  existsb (λ value, String.eqb value card) cards.

(** ** Offline devices *)

Definition ClearDynamicMetrics (info : option SystemInfo) : option SystemInfo :=
  match info with
  | None => None
  | Some i =>
    Some {|
      Hostname := Hostname i; OS := OS i; Kernel := Kernel i; Arch := Arch i;
      CPUModel := CPUModel i; CPUCores := CPUCores i;
      CPUUsage := f64_zero; Load1 := ""; CPUTempC := None;
      MemTotal := 0; MemAvail := 0; DiskTotal := 0; DiskFree := 0;
      DiskPhysicalTotal := 0; DiskPhysicalCount := 0;
      NetInterface := ""; NetLinkBPS := 0;
      NetRXBPS := f64_zero; NetTXBPS := f64_zero;
      NetRXPeak5mBPS := f64_zero; NetTXPeak5mBPS := f64_zero;
      ProcessTotal := 0; ProcessRunning := 0; ProcessSleeping := 0; ProcessZombie := 0;
      DiskReadBPS := f64_zero; DiskWriteBPS := f64_zero; DiskIOPS := f64_zero;
      DiskIOWaitPct := f64_zero; DiskLatencyMS := f64_zero;
      UptimeSec := UptimeSec i; IPAddrs := IPAddrs i; AgentVer := AgentVer i;
      ReportedAt := ReportedAt i |}
  end.

(** ** Lemmas *)

Lemma existsb_eqb_mem (x : string) l :
  existsb (λ y, String.eqb y x) l = true ↔ x ∈ l.
Proof.
  rewrite existsb_exists. setoid_rewrite String.eqb_eq.
  setoid_rewrite <-list_elem_of_In. naive_solver.
Qed.

Lemma existsb_eqb_mem' (x : string) l :
  existsb (λ y, String.eqb x y) l = true ↔ x ∈ l.
Proof. apply str_mem_true. Qed.

Lemma HasMetricCard_true cards card : HasMetricCard cards card = true ↔ card ∈ cards.
Proof. apply existsb_eqb_mem. Qed.

Lemma check_cards_ok seen cards s :
  check_cards seen cards = Ok s ↔
  NoDup cards ∧ cards ⊆ metricCardOrder ∧ (∀ c, c ∈ cards → c ∉ seen) ∧
  s = list_to_set cards ∪ seen.
Proof.
  revert seen. induction cards as [|c cards IH]; intros seen; cbn [check_cards].
  { split.
    - intros [= ->]. split_and!; [constructor|set_solver|set_solver|set_solver].
    - intros (_ & _ & _ & ->). f_equal. set_solver. }
  case_bool_decide as Hseen.
  { split; [done|]. intros (_ & _ & Hn & _). destruct (Hn c); [left|done]. }
  destruct (existsb (λ allowed, String.eqb c allowed) metricCardOrder) eqn:E.
  - apply existsb_eqb_mem' in E. rewrite IH, NoDup_cons. split.
    + intros (Hd & Hs & Hn & ->). split_and!; try done.
      * intros Hc. apply (Hn c Hc). set_solver.
      * intros x [->|Hx]%elem_of_cons; [done|by apply Hs].
      * intros x [->|Hx]%elem_of_cons; [done|]. specialize (Hn x Hx). set_solver.
      * set_solver.
    + intros ([Hc Hd] & Hs & Hn & ->). split_and!; try done.
      * intros x Hx. apply Hs. by right.
      * intros x Hx. assert (x ≠ c) by congruence. specialize (Hn x). set_solver.
      * set_solver.
  - split; [done|]. intros (_ & Hs & _). exfalso.
    assert (c ∈ metricCardOrder) as Hc by (apply Hs; left).
    apply existsb_eqb_mem' in Hc. congruence.
Qed.

Lemma metricCardOrder_NoDup : NoDup metricCardOrder.
Proof. apply (bool_decide_unpack _). vm_compute. done. Qed.

(** Every accepted list is normalised to the same cards in display order. *)
Lemma NormalizeMetricCards_ok cards minimum out :
  NormalizeMetricCards cards minimum = Ok out ↔
  0 <= minimum <= 6 ∧ NoDup cards ∧ cards ⊆ metricCardOrder ∧
  minimum <= Z.of_nat (length cards) ∧ out = filter (λ c, c ∈ cards) metricCardOrder.
Proof.
  unfold NormalizeMetricCards.
  change (Z.of_nat (length metricCardOrder)) with 6.
  assert (∀ s : gset string, s = list_to_set cards ∪ ∅ → NoDup cards →
    size s = length cards ∧
    filter (λ c, c ∈ s) metricCardOrder = filter (λ c, c ∈ cards) metricCardOrder) as Hs.
  { intros s -> Hd. rewrite (right_id_L ∅ (∪)). split; [by apply size_list_to_set|].
    apply list_filter_iff. set_solver. }
  destruct ((minimum <? 0) || (6 <? minimum)) eqn:E.
  { split; [done|]. intros (? & _). bool_to_prop. destruct E; bool_to_prop; lia. }
  bool_to_prop. rewrite res_bind_ok. split.
  - intros (s & (Hd & Hsub & _ & ->)%check_cards_ok & Hif).
    edestruct Hs as [Hsz Hf]; [done|done|]. rewrite Hsz, Hf in Hif.
    split_matches. split_and!; try done; lia.
  - intros (? & Hd & Hsub & Hlen & ->). exists (list_to_set cards ∪ ∅). split.
    { apply check_cards_ok. set_solver. }
    edestruct Hs as [Hsz Hf]; [done|done|]. rewrite Hsz, Hf.
    case_match; bool_to_prop; [lia|done].
Qed.

Lemma NormalizeMetricCards_perm cards minimum out :
  NormalizeMetricCards cards minimum = Ok out → out ≡ₚ cards.
Proof.
  intros (_ & Hd & Hsub & _ & ->)%NormalizeMetricCards_ok.
  apply NoDup_Permutation; [apply NoDup_filter, metricCardOrder_NoDup|done|].
  intros x. rewrite list_elem_of_filter. set_solver.
Qed.

Lemma validLowerHexToken_bytes token n :
  validLowerHexToken token n = true ↔
  slen token = n ∧ Forall (λ b, 48 <= b <= 57 ∨ 97 <= b <= 102) (vals token).
Proof.
  unfold validLowerHexToken.
  rewrite range_runes_ascii.
  2:{ intros r. unfold hex_digit_rune. rewrite negb_true_iff, andb_false_iff, !orb_false_iff,
        !Z.ltb_ge. lia. }
  destruct (slen token =? n) eqn:E; bool_to_prop; simpl; [|naive_solver].
  fold (vals token). rewrite forallb_forall, Forall_forall.
  setoid_rewrite list_elem_of_In. unfold hex_digit_rune.
  setoid_rewrite negb_true_iff. setoid_rewrite andb_false_iff.
  setoid_rewrite orb_false_iff. setoid_rewrite Z.ltb_ge.
  split; [intros H; split; [done|]|intros [_ H]]; intros x Hx; specialize (H x Hx); lia.
Qed.
