(* ===== verification/Encoding.v ===== *)
(** * Binary-to-text encodings of the Go standard library

    [encoding/hex], [encoding/base64] (padded and raw) and [encoding/base32]
    without padding, on lists of byte values, with the round trips. *)

From S2P Require Export GoLib.

(** ** Hexadecimal *)

Definition hex_char (d : Z) : Z := if d <? 10 then 48 + d else 87 + d.

Definition hex_bytes (l : list Z) : list Z :=
  flat_map (λ b, [hex_char (b / 16); hex_char (b mod 16)]) l.

(** [hex.EncodeToString] *)
Definition hex_encode (b : string) : string := unvals (hex_bytes (vals b)).

(** ** Base64 *)

Definition b64_char (v : Z) : Z :=
  if v <? 26 then 65 + v else if v <? 52 then 71 + v
  else if v <? 62 then v - 4 else if v =? 62 then 43 else 47.

Definition b64_val (c : Z) : option Z :=
  if (65 <=? c) && (c <=? 90) then Some (c - 65)
  else if (97 <=? c) && (c <=? 122) then Some (c - 71)
  else if (48 <=? c) && (c <=? 57) then Some (c + 4)
  else if c =? 43 then Some 62 else if c =? 47 then Some 63 else None.

Fixpoint b64_raw_bytes (l : list Z) : list Z :=
  match l with
  | a :: b :: c :: t =>
    b64_char (a / 4) :: b64_char (a mod 4 * 16 + b / 16)
    :: b64_char (b mod 16 * 4 + c / 64) :: b64_char (c mod 64) :: b64_raw_bytes t
  | [a; b] => [b64_char (a / 4); b64_char (a mod 4 * 16 + b / 16); b64_char (b mod 16 * 4)]
  | [a] => [b64_char (a / 4); b64_char (a mod 4 * 16)]
  | [] => []
  end.

Definition three (v0 v1 v2 v3 : Z) : list Z :=
  [v0 * 4 + v1 / 16; v1 mod 16 * 16 + v2 / 4; v2 mod 4 * 64 + v3].

Fixpoint b64_raw_values (l : list Z) : option (list Z) :=
  match l with
  | [] => Some []
  | [_] => None
  | [a; b] =>
    match b64_val a, b64_val b with
    | Some v0, Some v1 => Some (take 1 (three v0 v1 0 0))
    | _, _ => None
    end
  | [a; b; c] =>
    match b64_val a, b64_val b, b64_val c with
    | Some v0, Some v1, Some v2 => Some (take 2 (three v0 v1 v2 0))
    | _, _, _ => None
    end
  | a :: b :: c :: d :: t =>
    match b64_val a, b64_val b, b64_val c, b64_val d, b64_raw_values t with
    | Some v0, Some v1, Some v2, Some v3, Some r => Some (three v0 v1 v2 v3 ++ r)
    | _, _, _, _, _ => None
    end
  end.

(** The padded encoding: a final group of one or two bytes is filled with [=]. *)
Fixpoint b64_std_values (l : list Z) : option (list Z) :=
  match l with
  | [] => Some []
  | a :: b :: c :: d :: t =>
    match b64_val a, b64_val b with
    | Some v0, Some v1 =>
      if (c =? 61) && (d =? 61) then
        match t with [] => Some (take 1 (three v0 v1 0 0)) | _ => None end
      else
        match b64_val c with
        | Some v2 =>
          if d =? 61 then match t with [] => Some (take 2 (three v0 v1 v2 0)) | _ => None end
          else
            match b64_val d, b64_std_values t with
            | Some v3, Some r => Some (three v0 v1 v2 v3 ++ r)
            | _, _ => None
            end
        | None => None
        end
    | _, _ => None
    end
  | _ => None
  end.

Definition b64_pad (l : list Z) : list Z :=
  l ++ repeat 61 ((4 - length l mod 4) mod 4).

(** The decoders skip carriage returns and line feeds. *)
Definition strip_newlines (l : list Z) : list Z :=
  List.filter (λ b, negb ((b =? 10) || (b =? 13))) l.

(** [base64.RawStdEncoding] *)
Definition RawStdEncode (b : string) : string := unvals (b64_raw_bytes (vals b)).
Definition RawStdDecode (s : string) : option string :=
  unvals <$> b64_raw_values (strip_newlines (vals s)).

(** [base64.StdEncoding] *)
Definition StdEncode (b : string) : string := unvals (b64_pad (b64_raw_bytes (vals b))).
Definition StdDecode (s : string) : option string :=
  unvals <$> b64_std_values (strip_newlines (vals s)).

(** ** Base32 without padding *)

Definition b32_char (v : Z) : Z := if v <? 26 then 65 + v else 24 + v.

Definition b32_val (c : Z) : option Z :=
  if (65 <=? c) && (c <=? 90) then Some (c - 65)
  else if (50 <=? c) && (c <=? 55) then Some (c - 24) else None.

Definition five (v : list Z) : list Z :=
  match v with
  | [v0; v1; v2; v3; v4; v5; v6; v7] =>
    [v0 * 8 + v1 / 4; v1 mod 4 * 64 + v2 * 2 + v3 / 16; v3 mod 16 * 16 + v4 / 2;
     v4 mod 2 * 128 + v5 * 4 + v6 / 8; v6 mod 8 * 32 + v7]
  | _ => []
  end.

(** A final group of 1, 3 or 6 characters adds no byte and is no error. *)
Definition b32_tail (v : list Z) : list Z :=
  match v with
  | [v0; v1] => take 1 (five [v0; v1; 0; 0; 0; 0; 0; 0])
  | [v0; v1; v2; v3] => take 2 (five [v0; v1; v2; v3; 0; 0; 0; 0])
  | [v0; v1; v2; v3; v4] => take 3 (five [v0; v1; v2; v3; v4; 0; 0; 0])
  | [v0; v1; v2; v3; v4; v5; v6] => take 4 (five [v0; v1; v2; v3; v4; v5; v6; 0])
  | _ => []
  end.

Fixpoint b32_groups (v : list Z) : list Z :=
  match v with
  | v0 :: v1 :: v2 :: v3 :: v4 :: v5 :: v6 :: v7 :: t =>
    five [v0; v1; v2; v3; v4; v5; v6; v7] ++ b32_groups t
  | _ => b32_tail v
  end.

Fixpoint b32_bytes (l : list Z) : list Z :=
  match l with
  | a :: b :: c :: d :: e :: t =>
    map b32_char
      [a / 8; a mod 8 * 4 + b / 64; b / 2 mod 32; b mod 2 * 16 + c / 16;
       c mod 16 * 2 + d / 128; d / 4 mod 32; d mod 4 * 8 + e / 32; e mod 32] ++ b32_bytes t
  | [a; b; c; d] =>
    map b32_char
      [a / 8; a mod 8 * 4 + b / 64; b / 2 mod 32; b mod 2 * 16 + c / 16;
       c mod 16 * 2 + d / 128; d / 4 mod 32; d mod 4 * 8]
  | [a; b; c] =>
    map b32_char
      [a / 8; a mod 8 * 4 + b / 64; b / 2 mod 32; b mod 2 * 16 + c / 16; c mod 16 * 2]
  | [a; b] => map b32_char [a / 8; a mod 8 * 4 + b / 64; b / 2 mod 32; b mod 2 * 16]
  | [a] => map b32_char [a / 8; a mod 8 * 4]
  | [] => []
  end.

(** [base32.StdEncoding.WithPadding(base32.NoPadding)] *)
Definition Base32Encode (b : string) : string := unvals (b32_bytes (vals b)).
Definition Base32Decode (s : string) : option string :=
  (λ v, unvals (b32_groups v)) <$> mapM b32_val (strip_newlines (vals s)).

(** ** Round trips *)

Notation byte_range := (Forall (λ b, 0 <= b < 256)).

Definition upto (n : nat) : list Z := map Z.of_nat (seq 0 n).

Lemma upto_forall (P : Z → bool) n v :
  forallb P (upto n) = true → 0 <= v < Z.of_nat n → P v = true.
Proof.
  intros H Hv. rewrite forallb_forall in H. apply H. unfold upto. rewrite in_map_iff.
  exists (Z.to_nat v). rewrite in_seq. lia.
Qed.

Lemma b64_val_char v : 0 <= v < 64 → b64_val (b64_char v) = Some v.
Proof.
  intros Hv.
  pose proof (upto_forall (λ v, bool_decide (b64_val (b64_char v) = Some v)) 64 v) as H.
  by apply bool_decide_eq_true in H.
Qed.

Lemma b64_char_safe v :
  0 <= v < 64 → b64_char v ≠ 61 ∧ b64_char v ≠ 10 ∧ b64_char v ≠ 13 ∧ b64_char v ≠ 36
    ∧ 0 <= b64_char v < 256.
Proof. intros Hv. unfold b64_char. repeat case_match; bool_to_prop; lia. Qed.

Ltac zsmall := Z.to_euclidean_division_equations; lia.

Lemma b64_raw_chars l :
  byte_range l → Forall (λ c, ∃ v, 0 <= v < 64 ∧ c = b64_char v) (b64_raw_bytes l).
Proof.
  revert l. fix IH 1. intros [|a [|b [|c t]]] H; simpl; [constructor| | |];
    rewrite ?Forall_cons in H; destruct_and?; repeat constructor; try (by apply IH);
    (eexists; split; [|reflexivity]; zsmall).
Qed.

Lemma strip_newlines_id l : Forall (λ c, c ≠ 10 ∧ c ≠ 13) l → strip_newlines l = l.
Proof.
  induction 1 as [|c l [H1 H2] _ IH]; [done|]. unfold strip_newlines in *. simpl.
  destruct (c =? 10) eqn:E1; bool_to_prop; [lia|].
  destruct (c =? 13) eqn:E2; bool_to_prop; [lia|]. simpl. by rewrite IH.
Qed.

Lemma b64_raw_roundtrip l : byte_range l → b64_raw_values (b64_raw_bytes l) = Some l.
Proof.
  revert l. fix IH 1. intros [|a [|b [|c t]]] H; [done| | |];
    rewrite ?Forall_cons in H; destruct_and?; cbn [b64_raw_values b64_raw_bytes].
  - rewrite !b64_val_char by zsmall. unfold three; simpl. repeat f_equal; zsmall.
  - rewrite !b64_val_char by zsmall. unfold three; simpl. repeat f_equal; zsmall.
  - rewrite !b64_val_char, IH by (done || zsmall). unfold three; simpl. repeat f_equal; zsmall.
Qed.

Lemma b64_std_roundtrip l : byte_range l → b64_std_values (b64_pad (b64_raw_bytes l)) = Some l.
Proof.
  revert l. fix IH 1. intros [|a [|b [|c t]]] H; [done| | |];
    rewrite ?Forall_cons in H; destruct_and?.
  - unfold b64_pad. cbn [b64_std_values b64_raw_bytes length Nat.modulo app repeat Nat.sub
      Nat.divmod snd fst].
    rewrite !b64_val_char by zsmall. unfold three; simpl. repeat f_equal; zsmall.
  - unfold b64_pad. cbn [b64_std_values b64_raw_bytes length Nat.modulo app repeat Nat.sub
      Nat.divmod snd fst].
    rewrite !b64_val_char by zsmall.
    pose proof (b64_char_safe (b mod 16 * 4) ltac:(zsmall)) as (Hs & _).
    destruct (b64_char (b mod 16 * 4) =? 61) eqn:E; bool_to_prop; [done|].
    unfold three; simpl. repeat f_equal; zsmall.
  - assert (b64_pad (b64_raw_bytes (a :: b :: c :: t)) =
      b64_char (a / 4) :: b64_char (a mod 4 * 16 + b / 16)
      :: b64_char (b mod 16 * 4 + c / 64) :: b64_char (c mod 64) :: b64_pad (b64_raw_bytes t)) as ->.
    { unfold b64_pad. cbn [b64_raw_bytes length app]. do 4 f_equal.
      by rewrite <-(Nat.Div0.mod_add (length (b64_raw_bytes t)) 1 4), Nat.add_comm. }
    cbn [b64_std_values]. rewrite !b64_val_char by zsmall.
    pose proof (b64_char_safe (b mod 16 * 4 + c / 64) ltac:(zsmall)) as (Hs & _).
    pose proof (b64_char_safe (c mod 64) ltac:(zsmall)) as (Hs' & _).
    destruct (b64_char (b mod 16 * 4 + c / 64) =? 61) eqn:E; bool_to_prop; [done|].
    destruct (b64_char (c mod 64) =? 61) eqn:E'; bool_to_prop; [done|]. simpl.
    rewrite IH by done. unfold three; simpl. repeat f_equal; zsmall.
Qed.

Lemma b64_chars_range l : byte_range l → byte_range (b64_raw_bytes l).
Proof.
  intros H. eapply Forall_impl; [by apply b64_raw_chars|].
  intros c (v & Hv & ->). by apply b64_char_safe.
Qed.

Lemma vals_RawStdEncode b : vals (RawStdEncode b) = b64_raw_bytes (vals b).
Proof. apply vals_unvals, b64_chars_range, vals_range. Qed.

Lemma RawStd_roundtrip b : RawStdDecode (RawStdEncode b) = Some b.
Proof.
  unfold RawStdDecode. rewrite vals_RawStdEncode, strip_newlines_id.
  - rewrite b64_raw_roundtrip by apply vals_range. simpl. by rewrite unvals_vals.
  - eapply Forall_impl; [apply b64_raw_chars, vals_range|].
    intros c (v & Hv & ->). pose proof (b64_char_safe v Hv). naive_solver.
Qed.

Lemma Std_roundtrip b : StdDecode (StdEncode b) = Some b.
Proof.
  unfold StdDecode, StdEncode.
  assert (Forall (λ c, c ≠ 10 ∧ c ≠ 13 ∧ 0 <= c < 256) (b64_pad (b64_raw_bytes (vals b)))) as H.
  { unfold b64_pad. apply Forall_app. split.
    - eapply Forall_impl; [apply b64_raw_chars, vals_range|].
      intros c (v & Hv & ->). pose proof (b64_char_safe v Hv). naive_solver.
    - apply Forall_forall. intros x Hx. apply list_elem_of_In, repeat_spec in Hx as ->. lia. }
  rewrite vals_unvals by (eapply Forall_impl; [exact H|]; naive_solver).
  rewrite strip_newlines_id by (eapply Forall_impl; [exact H|]; naive_solver).
  rewrite b64_std_roundtrip by apply vals_range. simpl. by rewrite unvals_vals.
Qed.

Lemma smem_RawStdEncode b c :
  byte_val c = 36 → smem c (RawStdEncode b) = false.
Proof.
  intros Hc. unfold smem. destruct (existsb _ _) eqn:E; [|done].
  apply existsb_exists in E as (a & Ha & Heq). apply Ascii.eqb_eq in Heq as <-.
  pose proof (b64_raw_chars (vals b) (vals_range b)) as Hd.
  rewrite <-vals_RawStdEncode in Hd. unfold vals in Hd at 1.
  rewrite Forall_map, Forall_forall in Hd. apply list_elem_of_In in Ha.
  destruct (Hd _ Ha) as (v & Hv & Hv'). pose proof (b64_char_safe v Hv). simpl in *. lia.
Qed.

(** *** Hexadecimal *)

Lemma hex_bytes_chars l :
  byte_range l → Forall (λ b, 48 <= b <= 57 ∨ 97 <= b <= 102) (hex_bytes l).
Proof.
  unfold hex_bytes. induction 1 as [|b l Hb _ IH]; simpl; [constructor|].
  assert (∀ d, 0 <= d < 16 → 48 <= hex_char d <= 57 ∨ 97 <= hex_char d <= 102) as Hd.
  { intros d Hd. unfold hex_char. case_match; bool_to_prop; lia. }
  apply Forall_cons; split; [apply Hd; zsmall|].
  apply Forall_cons; split; [apply Hd; zsmall|done].
Qed.

Lemma length_hex_bytes l : length (hex_bytes l) = (2 * length l)%nat.
Proof. unfold hex_bytes. induction l as [|b l IH]; simpl in *; [done|]. lia. Qed.

Lemma vals_hex_encode b : vals (hex_encode b) = hex_bytes (vals b).
Proof.
  apply vals_unvals. eapply Forall_impl; [apply hex_bytes_chars, vals_range|].
  simpl. intros; lia.
Qed.

Lemma slen_hex_encode b : slen (hex_encode b) = 2 * slen b.
Proof.
  unfold slen. rewrite <-!length_vals, vals_hex_encode, length_hex_bytes. lia.
Qed.

Lemma hex_encode_inj a b : hex_encode a = hex_encode b → a = b.
Proof.
  intros H. apply vals_inj. apply (f_equal vals) in H. rewrite !vals_hex_encode in H.
  pose proof (vals_range a) as Ha. pose proof (vals_range b) as Hb.
  revert H Ha Hb. generalize (vals a) as l, (vals b) as k.
  assert (∀ d e, 0 <= d < 16 → 0 <= e < 16 → hex_char d = hex_char e → d = e) as Hinj.
  { intros d e Hd He. unfold hex_char. repeat case_match; bool_to_prop; lia. }
  unfold hex_bytes. induction l as [|x l IH]; intros [|y k]; simpl; try done.
  intros [= H1 H2 H3]. rewrite !Forall_cons. intros [Hx Hl] [Hy Hk].
  apply Hinj in H1; [|zsmall..]. apply Hinj in H2; [|zsmall..].
  f_equal; [|by apply IH]. rewrite (Z.div_mod x 16), (Z.div_mod y 16) by done. congruence.
Qed.
