(* ===== verification/Hash.v ===== *)
(** * SHA-1, SHA-256 and HMAC of the Go standard library

    [crypto/sha1], [crypto/sha256] and [crypto/hmac] (FIPS 180-4, RFC 2104) on
    lists of byte values, executable, with the published test vectors. *)

From S2P Require Export Encoding.

Definition w32 (z : Z) : Z := z mod 2 ^ 32.
Definition rotl (n x : Z) : Z := w32 (Z.lor (Z.shiftl x n) (Z.shiftr x (32 - n))).
Definition rotr (n x : Z) : Z := rotl (32 - n) x.
Definition not32 (x : Z) : Z := 2 ^ 32 - 1 - x.

(** The [n] bytes of [z], most significant first. *)
Fixpoint be_bytes (n : nat) (z : Z) : list Z :=
  match n with
  | O => []
  | S n' => be_bytes n' (z / 256) ++ [z mod 256]
  end.

Definition be_word (l : list Z) : Z := fold_left (λ acc b, acc * 256 + b) l 0.

Fixpoint chunks {A} (n : nat) (fuel : nat) (l : list A) : list (list A) :=
  match fuel, l with
  | S f, _ :: _ => take n l :: chunks n f (drop n l)
  | _, _ => []
  end.

(** Padding to 64-byte blocks of sixteen 32-bit words. *)
Definition md_pad (m : list Z) : list Z :=
  let z := ((119 - length m mod 64) mod 64)%nat in
  m ++ 128 :: repeat 0 z ++ be_bytes 8 (8 * Z.of_nat (length m)).

Definition md_blocks (m : list Z) : list (list Z) :=
  let p := md_pad m in
  map (λ blk, map be_word (chunks 4 16 blk)) (chunks 64 (length p) p).

Definition nthZ (n : nat) (l : list Z) : Z := nth n l 0.

(** ** SHA-1 *)

(** The message schedule, newest word first. *)
Fixpoint sha1_schedule (n : nat) (ws : list Z) : list Z :=
  match n with
  | O => ws
  | S n' =>
    sha1_schedule n'
      (rotl 1 (Z.lxor (Z.lxor (nthZ 2 ws) (nthZ 7 ws)) (Z.lxor (nthZ 13 ws) (nthZ 15 ws))) :: ws)
  end.

Definition sha1_f (t : Z) (b c d : Z) : Z * Z :=
  if t <? 20 then (Z.lor (Z.land b c) (Z.land (not32 b) d), 1518500249)
  else if t <? 40 then (Z.lxor b (Z.lxor c d), 1859775393)
  else if t <? 60 then (Z.lor (Z.lor (Z.land b c) (Z.land b d)) (Z.land c d), 2400959708)
  else (Z.lxor b (Z.lxor c d), 3395469782).

Fixpoint sha1_rounds (t : Z) (ws : list Z) (st : Z * Z * Z * Z * Z) : Z * Z * Z * Z * Z :=
  match ws with
  | [] => st
  | w :: rest =>
    let '(a, b, c, d, e) := st in
    let (f, k) := sha1_f t b c d in
    sha1_rounds (t + 1) rest (w32 (rotl 5 a + f + e + k + w), a, rotl 30 b, c, d)
  end.

Definition sha1_block (h : Z * Z * Z * Z * Z) (blk : list Z) : Z * Z * Z * Z * Z :=
  let ws := rev (sha1_schedule 64 (rev blk)) in
  let '(h0, h1, h2, h3, h4) := h in
  let '(a, b, c, d, e) := sha1_rounds 0 ws h in
  (w32 (h0 + a), w32 (h1 + b), w32 (h2 + c), w32 (h3 + d), w32 (h4 + e)).

Definition sha1 (m : list Z) : list Z :=
  let '(a, b, c, d, e) :=
    fold_left sha1_block (md_blocks m)
      (1732584193, 4023233417, 2562383102, 271733878, 3285377520) in
  be_bytes 4 a ++ be_bytes 4 b ++ be_bytes 4 c ++ be_bytes 4 d ++ be_bytes 4 e.

(** ** SHA-256 *)

Definition sha256_k : list Z :=
  [1116352408; 1899447441; 3049323471; 3921009573; 961987163; 1508970993; 2453635748;
   2870763221; 3624381080; 310598401; 607225278; 1426881987; 1925078388; 2162078206;
   2614888103; 3248222580; 3835390401; 4022224774; 264347078; 604807628; 770255983;
   1249150122; 1555081692; 1996064986; 2554220882; 2821834349; 2952996808; 3210313671;
   3336571891; 3584528711; 113926993; 338241895; 666307205; 773529912; 1294757372;
   1396182291; 1695183700; 1986661051; 2177026350; 2456956037; 2730485921; 2820302411;
   3259730800; 3345764771; 3516065817; 3600352804; 4094571909; 275423344; 430227734;
   506948616; 659060556; 883997877; 958139571; 1322822218; 1537002063; 1747873779;
   1955562222; 2024104815; 2227730452; 2361852424; 2428436474; 2756734187; 3204031479;
   3329325298].

Fixpoint sha256_schedule (n : nat) (ws : list Z) : list Z :=
  match n with
  | O => ws
  | S n' =>
    let x := nthZ 14 ws in
    let y := nthZ 1 ws in
    let s0 := Z.lxor (rotr 7 x) (Z.lxor (rotr 18 x) (Z.shiftr x 3)) in
    let s1 := Z.lxor (rotr 17 y) (Z.lxor (rotr 19 y) (Z.shiftr y 10)) in
    sha256_schedule n' (w32 (nthZ 15 ws + s0 + nthZ 6 ws + s1) :: ws)
  end.

Fixpoint sha256_rounds (kw : list (Z * Z)) (st : list Z) : list Z :=
  match kw, st with
  | (k, w) :: rest, [a; b; c; d; e; f; g; h] =>
    let s1 := Z.lxor (rotr 6 e) (Z.lxor (rotr 11 e) (rotr 25 e)) in
    let ch := Z.lxor (Z.land e f) (Z.land (not32 e) g) in
    let t1 := h + s1 + ch + k + w in
    let s0 := Z.lxor (rotr 2 a) (Z.lxor (rotr 13 a) (rotr 22 a)) in
    let mj := Z.lxor (Z.land a b) (Z.lxor (Z.land a c) (Z.land b c)) in
    sha256_rounds rest [w32 (t1 + s0 + mj); a; b; c; w32 (d + t1); e; f; g]
  | _, _ => st
  end.

Definition sha256_block (h blk : list Z) : list Z :=
  let ws := rev (sha256_schedule 48 (rev blk)) in
  zip_with (λ x y, w32 (x + y)) h (sha256_rounds (zip sha256_k ws) h).

Definition sha256_init : list Z :=
  [1779033703; 3144134277; 1013904242; 2773480762; 1359893119; 2600822924; 528734635;
   1541459225].

Definition sha256 (m : list Z) : list Z :=
  flat_map (be_bytes 4) (fold_left sha256_block (md_blocks m) sha256_init).

(** ** HMAC with 64-byte blocks *)

Definition hmac (hash : list Z → list Z) (key msg : list Z) : list Z :=
  let k := if (64 <? length key)%nat then hash key else key in
  let k64 := k ++ repeat 0 (64 - length k) in
  hash (map (Z.lxor 92) k64 ++ hash (map (Z.lxor 54) k64 ++ msg)).

#[global] Arguments sha1 : simpl never.
#[global] Arguments sha256 : simpl never.
#[global] Arguments hmac : simpl never.

(** ** Test vectors *)

Example sha1_abc :
  unvals (hex_bytes (sha1 (vals "abc"))) = "a9993e364706816aba3e25717850c26c9cd0d89d".
Proof. by vm_compute. Qed.

Example sha256_abc :
  unvals (hex_bytes (sha256 (vals "abc")))
  = "ba7816bf8f01cfea414140de5dae2223b00361a396177a9cb410ff61f20015ad".
Proof. by vm_compute. Qed.

Example hmac_sha1_rfc2202 :
  unvals (hex_bytes (hmac sha1 (vals "Jefe") (vals "what do ya want for nothing?")))
  = "effcdf6ae5eb2fa2d27416d5f184df9c259a7c79".
Proof. by vm_compute. Qed.

(** ** Lengths and ranges *)

Lemma length_be_bytes n z : length (be_bytes n z) = n.
Proof.
  revert z. induction n as [|n IH]; intros z; simpl; [done|]. rewrite length_app, IH. simpl. lia.
Qed.

Lemma be_bytes_range n z : byte_range (be_bytes n z).
Proof.
  revert z. induction n as [|n IH]; intros z; simpl; [constructor|].
  apply Forall_app. split; [apply IH|]. constructor; [|constructor]. by apply Z.mod_pos_bound.
Qed.

Lemma length_sha1 m : length (sha1 m) = 20%nat.
Proof.
  unfold sha1. destruct (fold_left sha1_block _ _) as [[[[a b] c] d] e].
  by rewrite !length_app, !length_be_bytes.
Qed.

Lemma sha1_range m : byte_range (sha1 m).
Proof.
  unfold sha1. destruct (fold_left sha1_block _ _) as [[[[a b] c] d] e].
  rewrite !Forall_app. auto using be_bytes_range.
Qed.

Lemma sha256_range m : byte_range (sha256 m).
Proof.
  unfold sha256. generalize (fold_left sha256_block (md_blocks m) sha256_init).
  induction l as [|x l IH]; cbn [flat_map]; [constructor|].
  apply Forall_app. auto using be_bytes_range.
Qed.

Lemma length_hmac_sha1 k m : length (hmac sha1 k m) = 20%nat.
Proof. apply length_sha1. Qed.

Lemma hmac_sha1_range k m : byte_range (hmac sha1 k m).
Proof. apply sha1_range. Qed.

Lemma sha256_rounds_length kw st : length st = 8%nat → length (sha256_rounds kw st) = 8%nat.
Proof.
  revert st. induction kw as [|[k w] kw IH]; intros st H; [done|].
  do 9 (destruct st as [|? st]; try done). by apply IH.
Qed.

Lemma length_sha256 m : length (sha256 m) = 32%nat.
Proof.
  unfold sha256.
  assert (∀ blks h, length h = 8%nat → length (fold_left sha256_block blks h) = 8%nat) as H.
  { intros blks. induction blks as [|b blks IH]; intros h Hh; [done|]. simpl. apply IH.
    unfold sha256_block. rewrite length_zip_with, sha256_rounds_length by done. lia. }
  specialize (H (md_blocks m) sha256_init eq_refl).
  revert H. generalize (fold_left sha256_block (md_blocks m) sha256_init). intros l.
  do 9 (destruct l as [|? l]; try done).
Qed.
