(* ===== verification/Validation.v ===== *)
(** * Validation of names, identifiers and capabilities

    [internal/server/validation.go], the validators of [internal/server/server.go]
    ([validDeviceID], [validCapabilities], [parseTerminalDimension]) and the
    agent's own checks ([cmd/agent/state.go] [validAgentDeviceID],
    [cmd/agent/config.go] [validateAgentName]). *)

From S2P Require Export Protocol.

(** ** Definitions *)

Definition normalizeUsername (value : string) : res string :=
  let value := TrimSpace value in
  if negb (valid_utf8 value) then Err "username must be valid UTF-8"
  else
    let count := rune_count value in
    if (count <? 1) || (64 <? count) then Err "username must be 1-64 characters"
    else if existsb is_control (range_runes value)
    then Err "username must not contain control characters"
    else Ok value.

Definition normalizeDeviceName (value : string) : res string :=
  let value := TrimSpace value in
  if negb (valid_utf8 value) then Err "device name must be valid UTF-8"
  else
    let count := rune_count value in
    if (count <? 1) || (128 <? count) then Err "device name must be 1-128 characters"
    else if existsb is_control (range_runes value)
    then Err "device name must not contain control characters"
    else Ok value.

Definition device_id_rune (ch : Z) : bool :=
  ((97 <=? ch) && (ch <=? 122)) || ((65 <=? ch) && (ch <=? 90)) || ((48 <=? ch) && (ch <=? 57))
  || (ch =? 45) || (ch =? 95) || (ch =? 46) || (ch =? 58).

Definition validDeviceID (id : string) : bool :=
  if (slen id <? 1) || (128 <? slen id) then false
  else forallb device_id_rune (range_runes id).

Definition validAgentDeviceID (id : string) : bool :=
  if (slen id <? 1) || (128 <? slen id) then false
  else forallb device_id_rune (range_runes id).

Definition validateAgentName (name : string) : res unit :=
  if negb (valid_utf8 name) then Err "name must be valid UTF-8"
  else if 128 <? rune_count name then Err "name must be at most 128 characters"
  else if existsb is_control (range_runes name) then Err "name must not contain control characters"
  else Ok ().

Definition validCapabilities (capabilities : list string) : bool :=
  if 16 <? Z.of_nat (length capabilities) then false
  else forallb (λ c, negb ((slen c <? 1) || (64 <? slen c))) capabilities.

Definition parseTerminalDimension (raw : string) (fallback : Z) : Z :=
  match Atoi raw with
  | Some n => if (n <? 8) || (1000 <? n) then fallback else n
  | None => fallback
  end.

(** ** Lemmas *)

Lemma normalizeDeviceName_ok value n :
  normalizeDeviceName value = Ok n ↔
  n = TrimSpace value ∧ valid_utf8 n = true ∧ 1 <= rune_count n <= 128 ∧
  existsb is_control (range_runes n) = false.
Proof.
  unfold normalizeDeviceName. set (v := TrimSpace value).
  destruct (valid_utf8 v) eqn:E1; simpl; [|intuition congruence].
  destruct ((rune_count v <? 1) || (128 <? rune_count v)) eqn:E2.
  { split; [done|]. intros (-> & _ & ? & _). bool_to_prop. destruct E2; bool_to_prop; lia. }
  bool_to_prop. destruct (existsb is_control (range_runes v)) eqn:E3; [intuition congruence|].
  split; [intros [= <-]; split_and!; done || lia|intros (-> & _); done].
Qed.

Lemma normalizeUsername_ok value n :
  normalizeUsername value = Ok n ↔
  n = TrimSpace value ∧ valid_utf8 n = true ∧ 1 <= rune_count n <= 64 ∧
  existsb is_control (range_runes n) = false.
Proof.
  unfold normalizeUsername. set (v := TrimSpace value).
  destruct (valid_utf8 v) eqn:E1; simpl; [|intuition congruence].
  destruct ((rune_count v <? 1) || (64 <? rune_count v)) eqn:E2.
  { split; [done|]. intros (-> & _ & ? & _). bool_to_prop. destruct E2; bool_to_prop; lia. }
  bool_to_prop. destruct (existsb is_control (range_runes v)) eqn:E3; [intuition congruence|].
  split; [intros [= <-]; split_and!; done || lia|intros (-> & _); done].
Qed.

(** A rune takes at most four bytes. *)
Lemma length_decode_4 l : (length l <= 4 * length (decode l))%nat.
Proof.
  revert l. fix IH 1. intros [|b0 t0]; simpl; [lia|].
  pose proof (IH t0) as H0.
  destruct (b0 <? 128); simpl; [lia|].
  destruct ((194 <=? b0) && (b0 <=? 223)); simpl.
  { destruct t0 as [|b1 t1]; [simpl in *; lia|].
    destruct (is_cont b1); simpl in *; [pose proof (IH t1)|]; lia. }
  destruct ((224 <=? b0) && (b0 <=? 239)); simpl.
  { destruct t0 as [|b1 [|b2 t2]]; simpl in *; try lia.
    destruct (second_ok b0 b1 && is_cont b2); simpl in *; [pose proof (IH t2)|]; lia. }
  destruct ((240 <=? b0) && (b0 <=? 244)); simpl; [|lia].
  destruct t0 as [|b1 [|b2 [|b3 t3]]]; simpl in *; try lia.
  destruct (second_ok b0 b1 && is_cont b2 && is_cont b3); simpl in *; [pose proof (IH t3)|]; lia.
Qed.

Lemma slen_rune_count s : slen s <= 4 * rune_count s.
Proof.
  unfold slen, rune_count, runes. pose proof (length_decode_4 (vals s)) as H.
  rewrite length_vals in H. fold (vals s). lia.
Qed.

Notation printable := (Forall (λ b, 33 <= b < 127)).

Lemma code_len_printable codes b t :
  forallb (λ c, match c with [] => false | x :: _ => (x <? 33) || (127 <? x) end) codes = true →
  33 <= b < 127 → code_len codes (b :: t) = None.
Proof.
  unfold code_len. intros Hc Hb. destruct (find _ codes) as [c|] eqn:E; [|done].
  apply find_some in E as [Hin Hp]. rewrite forallb_forall in Hc. specialize (Hc _ Hin).
  destruct c as [|x c]; [done|]. simpl in Hp. bool_to_prop. subst x.
  destruct Hc; bool_to_prop; lia.
Qed.

Lemma trim_printable l : printable l → trim_bytes l = l.
Proof.
  intros H. unfold trim_bytes.
  assert (strip_left space_codes 0 l = l) as ->.
  { destruct H as [|b t Hb _]; [done|]. apply strip_left_id.
    apply code_len_printable; [by vm_compute|done]. }
  assert (printable (reverse l)) as Hr by by apply Forall_reverse.
  assert (strip_left (map reverse space_codes) 0 (reverse l) = reverse l) as ->;
    [|apply reverse_involutive].
  destruct Hr as [|b t Hb _]; [done|]. apply strip_left_id.
  apply code_len_printable; [by vm_compute|done].
Qed.

Lemma TrimSpace_printable s : printable (vals s) → TrimSpace s = s.
Proof. intros H. apply vals_inj. by rewrite vals_TrimSpace, trim_printable. Qed.

Lemma decode_printable l : printable l → decode l = map Some l.
Proof.
  induction 1 as [|b t Hb _ IH]; [done|]. simpl.
  destruct (b <? 128) eqn:E; bool_to_prop; [by rewrite IH|lia].
Qed.

Lemma printable_text s :
  printable (vals s) →
  valid_utf8 s = true ∧ rune_count s = slen s ∧ existsb is_control (range_runes s) = false.
Proof.
  intros H. unfold valid_utf8, rune_count, range_runes, runes. fold (vals s).
  rewrite (decode_printable _ H). split_and!.
  - apply forallb_forall. intros o Ho. apply in_map_iff in Ho as (x & <- & _). done.
  - by rewrite length_map, length_vals.
  - rewrite map_map. simpl. rewrite map_id. apply not_true_is_false. intros He.
    apply existsb_exists in He as (x & Hx & Hc).
    rewrite Forall_forall in H. apply list_elem_of_In in Hx. specialize (H _ Hx).
    unfold is_control in Hc. bool_to_prop. destruct Hc; bool_to_prop; lia.
Qed.

Lemma validDeviceID_bytes id :
  validDeviceID id = true → 1 <= slen id <= 128 ∧ printable (vals id).
Proof.
  unfold validDeviceID.
  assert (∀ r, device_id_rune r = true → 33 <= r < 127) as Hr.
  { intros r. unfold device_id_rune. intros H. bool_to_prop.
    repeat match goal with H : _ ∨ _ |- _ => destruct H end; bool_to_prop; lia. }
  rewrite range_runes_ascii by (intros r ?%Hr; lia).
  destruct ((slen id <? 1) || (128 <? slen id)) eqn:E; [done|]. intros H. bool_to_prop.
  split; [lia|]. fold (vals id) in H. rewrite forallb_forall in H.
  apply Forall_forall. intros x Hx. apply Hr, H. by apply list_elem_of_In.
Qed.

(** ** Properties *)

(** [normalizeDeviceName] accepts a value exactly when its trimmed form is
    valid UTF-8 of 1 to 128 characters without control characters; the result
    is that trimmed form, is itself accepted unchanged, and is at most 512
    bytes long. *)
Theorem normalizeDeviceName_normal_form value n :
  normalizeDeviceName value = Ok n →
  n = TrimSpace value ∧ normalizeDeviceName n = Ok n ∧
  1 <= slen n <= 512 ∧ 1 <= rune_count n <= 128 ∧
  Forall (λ r, ¬ (0 <= r <= 31 ∨ 127 <= r <= 159)) (range_runes n).
Proof.
  intros H. pose proof H as (Hn & Hv & Hc & Hk)%normalizeDeviceName_ok.
  pose proof (slen_rune_count n). pose proof (rune_count_le n). split_and!; try lia; try done.
  - rewrite normalizeDeviceName_ok. split_and!; try done; try lia.
    rewrite Hn. by rewrite TrimSpace_idemp.
  - apply Forall_forall. intros r Hr Hcon. apply not_true_iff_false in Hk. apply Hk.
    apply existsb_exists. exists r. split; [by apply list_elem_of_In|].
    unfold is_control. destruct Hcon; [apply orb_true_iff; left|apply orb_true_iff; right];
      apply andb_true_iff; rewrite !Z.leb_le; lia.
Qed.

Lemma normalizeDeviceName_normal_form_witness :
  normalizeDeviceName " web-01 " = Ok "web-01" ∧ normalizeDeviceName "web-01" = Ok "web-01".
Proof.
  split; [by vm_compute|].
  apply (normalizeDeviceName_normal_form " web-01 " "web-01"). by vm_compute.
Defined.

(** The display name a Server derives from a hello message
    ([handleAgentWS], server.go:396-403): the trimmed name, or the device
    identifier when it is empty. *)
Definition hello_name (name deviceID : string) : res string :=
  let name := TrimSpace name in
  normalizeDeviceName (if String.eqb name "" then deviceID else name).

(** C34. Agent and Server agree on identifiers and names: a name the agent's
    configuration accepts (it is trimmed and passes [validateAgentName]) and a
    device identifier the agent's state accepts are accepted by the Server's
    hello check, the name unchanged. *)
Theorem agent_identity_accepted_by_server name id :
  TrimSpace name = name → validateAgentName name = Ok () → validAgentDeviceID id = true →
  validDeviceID id = true ∧
  hello_name name id = Ok (if String.eqb name "" then id else name).
Proof.
  intros Ht Hname Hid. split; [done|]. unfold hello_name. rewrite Ht.
  destruct (String.eqb name "") eqn:E; bool_to_prop; apply normalizeDeviceName_ok.
  - apply validDeviceID_bytes in Hid as [Hlen Hp].
    destruct (printable_text id Hp) as (? & ? & ?).
    rewrite (TrimSpace_printable id Hp). split_and!; done || lia.
  - unfold validateAgentName in Hname.
    destruct (valid_utf8 name); [|done]. simpl in Hname.
    destruct (128 <? rune_count name) eqn:E2; bool_to_prop; [done|].
    destruct (existsb is_control (range_runes name)) eqn:E3; [done|].
    pose proof (slen_rune_count name). pose proof (slen_nonneg name).
    assert (slen name ≠ 0) by (rewrite slen_0; done). split_and!; done || lia.
Qed.

Lemma agent_identity_accepted_by_server_witness :
  validDeviceID "a1b2:c3" = true ∧ hello_name "nas" "a1b2:c3" = Ok "nas".
Proof.
  apply (agent_identity_accepted_by_server "nas" "a1b2:c3"); by vm_compute.
Defined.
