(* ===== verification/Totp.v ===== *)
(** * Time-based one-time passwords ([internal/server/totp.go])

    The RFC 6238 code of a secret at a 30-second step and the matching of a
    submitted code with one step of clock drift in either direction. *)

From S2P Require Export Hash.

(** [strings.ToUpper].  The two non-ASCII letters with an ASCII upper case
    (U+0131 and U+017F) are mapped too; other non-ASCII text is left as it is,
    which base32 decoding rejects before and after the mapping alike. *)
Fixpoint upper_vals (l : list Z) : list Z :=
  match l with
  | [] => []
  | b :: t =>
    if (97 <=? b) && (b <=? 122) then (b - 32) :: upper_vals t
    else match t with
         | c :: t' =>
           if (b =? 196) && (c =? 177) then 73 :: upper_vals t'
           else if (b =? 197) && (c =? 191) then 83 :: upper_vals t'
           else b :: upper_vals t
         | [] => [b]
         end
  end.

Definition ToUpper (s : string) : string := unvals (upper_vals (vals s)).

(** ** Definitions *)

(** [newTOTPSecret]: [b] is the result of reading 20 random bytes. *)
Definition newTOTPSecret (b : res string) : res string :=
  try b := b in Ok (Base32Encode b).

Definition totpCode (secret : string) (counter : Z) : string :=
  match Base32Decode (ToUpper (TrimSpace secret)) with
  | None => ""
  | Some key =>
    if slen key =? 0 then ""
    else
      let msg := be_bytes 8 (wrap_u64 counter) in
      let sum := hmac sha1 (vals key) msg in
      let off := Z.to_nat (Z.land (nthZ (length sum - 1) sum) 15) in
      let bin :=
        Z.lor (Z.lor (Z.lor (Z.shiftl (Z.land (nthZ off sum) 127) 24)
                            (Z.shiftl (nthZ (off + 1) sum) 16))
                     (Z.shiftl (nthZ (off + 2) sum) 8))
              (nthZ (off + 3) sum) in
      pad6 (bin mod 1000000)
  end.

(** The drifts tried, in order. *)
Fixpoint match_drift (secret code : string) (current : Z) (drifts : list Z) : option Z :=
  match drifts with
  | [] => None
  | drift :: rest =>
    let step := current + drift in
    if String.eqb (totpCode secret step) code then Some step
    else match_drift secret code current rest
  end.

(** [now] is [now.Unix()]; the result is the accepted step, or [None] for
    [(0, false)]. *)
Definition matchTOTP (secret code : string) (now : Z) : option Z :=
  let code := TrimSpace code in
  if negb (slen code =? 6) then None
  else match Atoi code with
       | None => None
       | Some _ => match_drift secret code (now ÷ 30) [0; -1; 1]
       end.

Definition validTOTP (secret code : string) (now : Z) : bool :=
  match matchTOTP secret code now with Some _ => true | None => false end.

(** A secret usable for codes: it decodes to a non-empty key. *)
Definition usable_secret (secret : string) : bool :=
  match Base32Decode (ToUpper (TrimSpace secret)) with
  | Some key => negb (slen key =? 0)
  | None => false
  end.

(** ** Lemmas *)

Lemma dec_digits_length f n acc k :
  (0 < k)%nat → 0 <= n < 10 ^ Z.of_nat k → (length (dec_digits f n acc) <= k + length acc)%nat.
Proof.
  revert n acc k. induction f as [|f IH]; intros n acc k Hk Hn; simpl; [lia|].
  destruct (n / 10 =? 0) eqn:E; bool_to_prop; simpl; [lia|].
  destruct k as [|[|k]]; [lia|change (10 ^ Z.of_nat 1) with 10 in Hn; exfalso; apply E; apply Z.div_small; lia|].
  rewrite Nat2Z.inj_succ, Z.pow_succ_r in Hn by lia.
  specialize (IH (n / 10) ((48 + n mod 10) :: acc) (S k)).
  ospecialize (IH _ _); [lia| |simpl in *; lia].
  split; [apply Z.div_pos; lia|]. apply Z.div_lt_upper_bound; lia.
Qed.

Lemma pad6_digits n :
  0 <= n < 1000000 →
  slen (pad6 n) = 6 ∧ Forall (λ b, 48 <= b <= 57) (vals (pad6 n)).
Proof.
  intros Hn.
  pose proof (dec_digits_length (S (Z.to_nat (Z.log2 n))) n [] 6 ltac:(lia)) as Hlen.
  ospecialize (Hlen _); [simpl; lia|]. fold (digits_of n) in Hlen. simpl in Hlen.
  assert (Forall (λ b, 48 <= b <= 57) (repeat 48 (6 - length (digits_of n)) ++ digits_of n)) as Hf.
  { apply Forall_app. split; [|apply digits_of_digits; lia].
    apply Forall_forall. intros x Hx. apply list_elem_of_In, repeat_spec in Hx as ->. lia. }
  unfold pad6. unfold slen. rewrite <-length_vals, vals_unvals by by apply digit_bytes.
  split; [|done]. rewrite length_app, repeat_length. lia.
Qed.

Lemma totpCode_digits secret counter :
  usable_secret secret = true →
  slen (totpCode secret counter) = 6 ∧ Forall (λ b, 48 <= b <= 57) (vals (totpCode secret counter)).
Proof.
  unfold usable_secret, totpCode. destruct (Base32Decode _) as [key|]; [|done].
  destruct (slen key =? 0); [done|]. intros _. apply pad6_digits, Z.mod_pos_bound. lia.
Qed.

Lemma parse_digits_some l acc :
  Forall (λ b, 48 <= b <= 57) l → 0 <= acc →
  ∃ n, parse_digits 10 acc l = Some n ∧ n < (acc + 1) * 10 ^ Z.of_nat (length l).
Proof.
  revert acc. induction l as [|b l IH]; intros acc Hf Ha.
  { exists acc. split; [done|]. simpl. lia. }
  inversion Hf as [|? ? Hb Hl]; subst. cbn [parse_digits length].
  assert (digit_val 10 b = Some (b - 48)) as ->.
  { unfold digit_val. destruct ((48 <=? b) && (b <=? 57)) eqn:E.
    - destruct (b - 48 <? 10) eqn:E2; bool_to_prop; [done|lia].
    - bool_to_prop. destruct E; bool_to_prop; lia. }
  destruct (IH (acc * 10 + (b - 48)) Hl ltac:(lia)) as (n & -> & Hn). exists n. split; [done|].
  rewrite Nat2Z.inj_succ, Z.pow_succ_r by lia.
  pose proof (Z.pow_pos_nonneg 10 (Z.of_nat (length l))). nia.
Qed.

Lemma Atoi_six_digits s :
  slen s = 6 → Forall (λ b, 48 <= b <= 57) (vals s) → ∃ n, Atoi s = Some n.
Proof.
  intros Hlen Hf. unfold Atoi, ParseInt.
  destruct s as [|a t]; [done|].
  assert (48 <= byte_val a <= 57) as Ha by (by inversion Hf).
  assert (∀ c, byte_val c < 48 → Ascii.eqb a c = false) as Hne.
  { intros c Hc. apply Ascii.eqb_neq. intros ->. lia. }
  rewrite (Hne "+"%char), (Hne "-"%char) by (vm_compute; done).
  destruct (parse_digits_some _ 0 Hf ltac:(lia)) as (n & Hp & Hn).
  unfold ParseUint. simpl String.eqb. rewrite Hp.
  rewrite length_vals in Hn. unfold slen in Hlen.
  assert (n < 1000000) as Hb by (rewrite Hlen in Hn; change (10 ^ 6) with 1000000 in Hn; lia).
  destruct (n <? 2 ^ 64) eqn:E1; bool_to_prop; [|lia].
  destruct (n <? 2 ^ (64 - 1)) eqn:E2; bool_to_prop; [eauto|simpl in E2; lia].
Qed.

#[local] Opaque totpCode.

Lemma match_drift_some secret code cur drifts step :
  match_drift secret code cur drifts = Some step →
  step - cur ∈ drifts ∧ totpCode secret step = code.
Proof.
  induction drifts as [|d ds IH]; simpl; [done|].
  destruct (String.eqb _ code) eqn:E; bool_to_prop.
  - intros [= <-]. split; [|done]. apply elem_of_cons. left. lia.
  - intros [? ?]%IH. split; [by right|done].
Qed.

Lemma match_drift_complete secret code cur drifts d :
  d ∈ drifts → totpCode secret (cur + d) = code →
  ∃ step, match_drift secret code cur drifts = Some step.
Proof.
  intros Hin Hc. induction drifts as [|x ds IH]; [by apply not_elem_of_nil in Hin|]. simpl.
  destruct (String.eqb (totpCode secret (cur + x)) code) eqn:E; [eauto|].
  apply elem_of_cons in Hin as [->|Hin]; [|by apply IH].
  by rewrite Hc, String.eqb_refl in E.
Qed.

Lemma six_digits_trim s : Forall (λ b, 48 <= b <= 57) (vals s) → TrimSpace s = s.
Proof.
  intros H. apply vals_inj. rewrite vals_TrimSpace. unfold trim_bytes.
  assert (∀ codes l, Forall (λ b, 48 <= b <= 57) l →
    forallb (λ c, match c with [] => false | x :: _ => (x <? 48) || (57 <? x) end) codes = true →
    strip_left codes 0 l = l) as Hs.
  { intros codes l Hl Hc. destruct Hl as [|b t Hb _]; [done|]. apply strip_left_id.
    unfold code_len. destruct (find _ codes) as [c|] eqn:E; [|done].
    apply find_some in E as [Hin Hp]. rewrite forallb_forall in Hc. specialize (Hc _ Hin).
    destruct c as [|x c]; [done|]. simpl in Hp. bool_to_prop. subst x.
    destruct Hc; bool_to_prop; lia. }
  rewrite (Hs space_codes) by (done || by vm_compute).
  rewrite Hs by (by apply Forall_reverse || by vm_compute). apply reverse_involutive.
Qed.

(** ** Properties *)

(** [totpCode] computes the codes of the RFC 6238 test vectors (SHA-1 key
    "12345678901234567890", truncated to six digits). *)
Theorem totpCode_rfc6238 :
  let secret := Base32Encode "12345678901234567890" in
  map (λ t, totpCode secret (t ÷ 30))
    [59; 1111111109; 1111111111; 1234567890; 2000000000; 20000000000]
  = ["287082"; "081804"; "050471"; "005924"; "279037"; "353130"].
Proof. by vm_compute. Qed.

(** C25. [matchTOTP] accepts a code exactly when, trimmed, it is the six-digit
    code of the current 30-second step or of an adjacent one, and reports such
    a step; a freshly computed code of any of the three steps is accepted. *)
Theorem matchTOTP_correct secret code now :
  usable_secret secret = true →
  (∀ step, matchTOTP secret code now = Some step →
     -1 <= step - now ÷ 30 <= 1 ∧ TrimSpace code = totpCode secret step) ∧
  (∀ d, -1 <= d <= 1 → TrimSpace code = totpCode secret (now ÷ 30 + d) →
     ∃ step, matchTOTP secret code now = Some step) ∧
  (TrimSpace code = totpCode secret (now ÷ 30) → matchTOTP secret code now = Some (now ÷ 30)).
Proof.
  intros Hs. unfold matchTOTP.
  assert (∀ k, TrimSpace code = totpCode secret k →
    (slen (TrimSpace code) =? 6) = true ∧ ∃ n, Atoi (TrimSpace code) = Some n) as Hok.
  { intros k ->. destruct (totpCode_digits secret k Hs) as [Hl Hd].
    rewrite Hl. split; [done|]. by apply Atoi_six_digits. }
  split_and!.
  - intros step. repeat case_match; try done.
    intros [Hin Hc]%match_drift_some. split; [|done].
    rewrite !elem_of_cons, elem_of_nil in Hin. lia.
  - intros d Hd Hc. destruct (Hok _ Hc) as (-> & n & ->). simpl negb. cbv iota.
    eapply (match_drift_complete _ _ _ _ d); [|by rewrite Hc].
    rewrite !elem_of_cons. lia.
  - intros Hc. destruct (Hok _ Hc) as (-> & n & ->). simpl.
    rewrite Z.add_0_r, <-Hc, String.eqb_refl. done.
Qed.

#[local] Transparent totpCode.

Lemma matchTOTP_correct_witness :
  matchTOTP (Base32Encode "12345678901234567890") " 287082" 59 = Some 1.
Proof.
  apply (matchTOTP_correct (Base32Encode "12345678901234567890") " 287082" 59);
    vm_compute; reflexivity.
Defined.
