(* ===== verification/Password.v ===== *)
(** * Password policy and storage ([internal/server/password.go])

    The third-party primitives are parameters: [NFC] is
    [golang.org/x/text/unicode/norm.NFC.String], [IDKey] is
    [golang.org/x/crypto/argon2.IDKey], [bcrypt_ok] is the success of
    [bcrypt.CompareHashAndPassword] and [argon2_Version] is [argon2.Version].
    The one hypothesis on them is that [IDKey] returns as many bytes as asked. *)

From S2P Require Export Encoding.

(** ** Constants *)

Definition minPasswordRunes : Z := 16.
Definition maxPasswordRunes : Z := 256.
Definition maxPasswordBytes : Z := 1024.
Definition argonMemoryKiB : Z := 19 * 1024.
Definition argonTime : Z := 2.
Definition argonThreads : Z := 1.
Definition argonSaltBytes : Z := 16.
Definition argonKeyBytes : Z := 32.

(** The fields of a stored hash. *)
Record PHC : Type := mkPHC {
  phc_memory : Z;
  phc_iterations : Z;
  phc_parallelism : Z;
  phc_salt : string;
  phc_hash : string
}.

Section password.
Variable NFC : string → string.
Variable IDKey : string → string → Z → Z → Z → Z → string.
Variable bcrypt_ok : string → string → bool.
Variable argon2_Version : Z.

(** *** Definitions *)

Definition normalizePassword (password : string) : res string :=
  if negb (valid_utf8 password) then Err "password must be valid UTF-8"
  else if maxPasswordBytes <? slen password then Err "password must be at most 1024 bytes"
  else
    let normalized := NFC password in
    if maxPasswordBytes <? slen normalized
    then Err "password must be at most 1024 bytes after normalization"
    else Ok normalized.

Definition normalizeAndValidatePassword (password : string) : res string :=
  try normalized := normalizePassword password in
  let n := rune_count normalized in
  if n <? minPasswordRunes then Err "password must be at least 16 characters"
  else if maxPasswordRunes <? n then Err "password must be at most 256 characters"
  else Ok normalized.

(** [fmt.Sprintf("$argon2id$v=%d$m=%d,t=%d,p=%d$%s$%s", ...)] *)
Definition formatPHC (p : PHC) : string :=
  "$argon2id$v=" +:+ Itoa argon2_Version
  +:+ "$m=" +:+ Itoa (phc_memory p) +:+ ",t=" +:+ Itoa (phc_iterations p)
  +:+ ",p=" +:+ Itoa (phc_parallelism p)
  +:+ "$" +:+ RawStdEncode (phc_salt p) +:+ "$" +:+ RawStdEncode (phc_hash p).

(** [salt] is the result of reading [argonSaltBytes] random bytes. *)
Definition hashNormalizedPassword (salt : res string) (normalized : string) : res string :=
  match salt with
  | Err e => Err ("generate password salt: " +:+ e)
  | Ok salt =>
    let key := IDKey normalized salt argonTime argonMemoryKiB argonThreads argonKeyBytes in
    Ok (formatPHC (mkPHC argonMemoryKiB argonTime argonThreads salt key))
  end.

Definition hashPassword (salt : res string) (password : string) : res string :=
  try normalized := normalizeAndValidatePassword password in
  hashNormalizedPassword salt normalized.

Definition rehashVerifiedPassword (salt : res string) (password : string) : res string :=
  try normalized := normalizePassword password in
  hashNormalizedPassword salt normalized.

Definition parse_param (name param : string) (bits : Z) (err : string) : res Z :=
  match ParseUint (TrimPrefix param name) 10 bits with
  | Some n => Ok n
  | None => Err err
  end.

Definition decode_field (s : string) (lo hi : Z) (err : string) : res string :=
  match RawStdDecode s with
  | Some b => if (slen b <? lo) || (hi <? slen b) then Err err else Ok b
  | None => Err err
  end.

Definition parseArgon2PHC (encoded : string) : res PHC :=
  match Split encoded "$" with
  | [_; algo; version; params; salt; hash] =>
    if negb (String.eqb algo "argon2id" && String.eqb version ("v=" +:+ Itoa argon2_Version))
    then Err "invalid argon2id PHC string"
    else
      match Split params "," with
      | [pm; pt; pp] =>
        if negb (HasPrefix pm "m=" && HasPrefix pt "t=" && HasPrefix pp "p=")
        then Err "invalid argon2id parameters"
        else
          try m := parse_param "m=" pm 32 "invalid argon2id memory parameter" in
          try t := parse_param "t=" pt 32 "invalid argon2id time parameter" in
          try p := parse_param "p=" pp 8 "invalid argon2id parallelism parameter" in
          if (m <? 7 * 1024) || (256 * 1024 <? m) || (t <? 1) || (10 <? t) || (p <? 1) || (16 <? p)
          then Err "argon2id parameters out of bounds"
          else
            try salt := decode_field salt 8 64 "invalid argon2id salt" in
            try hash := decode_field hash 16 64 "invalid argon2id hash" in
            Ok (mkPHC m t p salt hash)
      | _ => Err "invalid argon2id parameters"
      end
  | _ => Err "invalid argon2id PHC string"
  end.

(** The result is [(ok, needsRehash)]. *)
Definition verifyPasswordHash (encoded password : string) : bool * bool :=
  if HasPrefix encoded "$2a$" || HasPrefix encoded "$2b$" || HasPrefix encoded "$2y$"
  then if bcrypt_ok encoded password then (true, true) else (false, false)
  else if negb (HasPrefix encoded "$argon2id$") then (false, false)
  else
    match normalizePassword password with
    | Err _ => (false, false)
    | Ok normalized =>
      match parseArgon2PHC encoded with
      | Err _ => (false, false)
      | Ok p =>
        let got := IDKey normalized (phc_salt p) (phc_iterations p) (phc_memory p)
                     (phc_parallelism p) (slen (phc_hash p)) in
        if negb (String.eqb got (phc_hash p)) then (false, false)
        else
          (true, (phc_memory p <? argonMemoryKiB) || (phc_iterations p <? argonTime)
                 || (slen (phc_salt p) <? argonSaltBytes) || (slen (phc_hash p) <? argonKeyBytes))
      end
    end.

(** *** Lemmas *)

(** The bounds [parseArgon2PHC] enforces on untrusted parameters. *)
Record phc_ok (p : PHC) : Prop := mk_phc_ok {
  phc_memory_ok : 7 * 1024 <= phc_memory p <= 256 * 1024;
  phc_iterations_ok : 1 <= phc_iterations p <= 10;
  phc_parallelism_ok : 1 <= phc_parallelism p <= 16;
  phc_salt_ok : 8 <= slen (phc_salt p) <= 64;
  phc_hash_ok : 16 <= slen (phc_hash p) <= 64
}.

Lemma decode_field_ok s lo hi err b :
  decode_field s lo hi err = Ok b → RawStdDecode s = Some b ∧ lo <= slen b <= hi.
Proof. unfold decode_field. intros H. split_matches. split; [done|lia]. Qed.

Lemma parseArgon2PHC_ok encoded p : parseArgon2PHC encoded = Ok p → phc_ok p.
Proof.
  unfold parseArgon2PHC. intros H.
  destruct (Split encoded "$") as [|? [|? [|? [|params [|? [|? [|]]]]]]]; try done.
  destruct (negb _); [done|].
  destruct (Split params ",") as [|? [|? [|? [|]]]]; try done.
  destruct (negb _); [done|].
  apply res_bind_ok in H as (m & _ & H). apply res_bind_ok in H as (t & _ & H).
  apply res_bind_ok in H as (q & _ & H).
  destruct (_ || _) eqn:E in H; [done|]. bool_to_prop.
  apply res_bind_ok in H as (sb & [_ Hs]%decode_field_ok & H).
  apply res_bind_ok in H as (hb & [_ Hh]%decode_field_ok & H).
  injection H as <-. split; simpl; lia.
Qed.

Lemma smem_app c s t : smem c (s +:+ t) = smem c s || smem c t.
Proof. unfold smem. by rewrite to_bytes_app, existsb_app. Qed.

Lemma smem_Itoa_sep c n :
  0 <= n → c = "$"%char ∨ c = ","%char → smem c (Itoa n) = false.
Proof. intros Hn Hc. apply smem_Itoa; [done|]. left. by destruct Hc as [-> | ->]. Qed.

Lemma Split_formatPHC p :
  0 <= argon2_Version → phc_ok p →
  Split (formatPHC p) "$" =
    [""; "argon2id"; "v=" +:+ Itoa argon2_Version;
     "m=" +:+ Itoa (phc_memory p) +:+ ",t=" +:+ Itoa (phc_iterations p)
       +:+ ",p=" +:+ Itoa (phc_parallelism p);
     RawStdEncode (phc_salt p); RawStdEncode (phc_hash p)].
Proof.
  intros Hv [Hm Ht Hp _ _].
  rewrite <-(Split_Join [""; "argon2id"; "v=" +:+ Itoa argon2_Version; _; _; _] "$"); [|done|].
  { f_equal. apply to_bytes_inj. unfold formatPHC. cbn [Join]. rewrite !to_bytes_app. simpl.
    by repeat (rewrite <-app_assoc; simpl). }
  rewrite !Forall_cons. split_and!; try done;
    repeat rewrite ?smem_app, ?smem_Itoa_sep by (auto || lia); try done;
    by rewrite smem_RawStdEncode.
Qed.

Lemma Split_params p :
  phc_ok p →
  Split ("m=" +:+ Itoa (phc_memory p) +:+ ",t=" +:+ Itoa (phc_iterations p)
       +:+ ",p=" +:+ Itoa (phc_parallelism p)) "," =
    ["m=" +:+ Itoa (phc_memory p); "t=" +:+ Itoa (phc_iterations p);
     "p=" +:+ Itoa (phc_parallelism p)].
Proof.
  intros [Hm Ht Hp _ _].
  rewrite <-(Split_Join ["m=" +:+ Itoa (phc_memory p); _; _] ","); [|done|].
  - done.
  - rewrite !Forall_cons. split_and!; try done;
      repeat rewrite ?smem_app, ?smem_Itoa_sep by (auto || lia); done.
Qed.

Lemma parse_param_Itoa name n bits err :
  0 <= n < 2 ^ bits → parse_param name (name +:+ Itoa n) bits err = Ok n.
Proof. intros Hn. unfold parse_param. by rewrite TrimPrefix_app, ParseUint_Itoa. Qed.

Lemma decode_field_encode b lo hi err :
  lo <= slen b <= hi → decode_field (RawStdEncode b) lo hi err = Ok b.
Proof.
  intros Hb. unfold decode_field. rewrite RawStd_roundtrip.
  destruct ((slen b <? lo) || (hi <? slen b)) eqn:E; [|done].
  bool_to_prop. destruct E; bool_to_prop; lia.
Qed.

Lemma parse_formatPHC p :
  0 <= argon2_Version → phc_ok p → parseArgon2PHC (formatPHC p) = Ok p.
Proof.
  intros Hv Hp. unfold parseArgon2PHC. rewrite Split_formatPHC, Split_params by done.
  rewrite !String.eqb_refl. cbn [negb andb].
  rewrite !HasPrefix_app. cbn [negb andb].
  destruct Hp as [Hm Ht Hpp Hs Hh].
  rewrite !parse_param_Itoa by lia. cbn [res_bind].
  destruct (_ || _) eqn:E.
  { exfalso. repeat (apply orb_true_iff in E as [E|E]); bool_to_prop; lia. }
  rewrite !decode_field_encode by done. cbn [res_bind]. by destruct p.
Qed.
Lemma normalizeAndValidatePassword_ok password n :
  normalizeAndValidatePassword password = Ok n → normalizePassword password = Ok n.
Proof.
  unfold normalizeAndValidatePassword. intros (n' & Hn' & Hn)%res_bind_ok. by split_matches.
Qed.

Lemma hashNormalizedPassword_verifies salt password n encoded :
  (∀ p s t m th n, 0 <= n → slen (IDKey p s t m th n) = n) → 0 <= argon2_Version →
  slen salt = argonSaltBytes → normalizePassword password = Ok n →
  hashNormalizedPassword (Ok salt) n = Ok encoded →
  verifyPasswordHash encoded password = (true, false) ∧
  ∃ key, parseArgon2PHC encoded
         = Ok (mkPHC argonMemoryKiB argonTime argonThreads salt key) ∧ slen key = argonKeyBytes.
Proof.
  intros Hkey Hver Hsalt Hn [= <-].
  set (key := IDKey n salt argonTime argonMemoryKiB argonThreads argonKeyBytes).
  set (p := mkPHC argonMemoryKiB argonTime argonThreads salt key).
  assert (slen key = argonKeyBytes) as Hk by (apply Hkey; done).
  assert (phc_ok p) as Hp.
  { unfold argonSaltBytes, argonKeyBytes in *. split; simpl; rewrite ?Hsalt, ?Hk; done || lia. }
  pose proof (parse_formatPHC p Hver Hp) as Hparse.
  split; [|eauto]. unfold verifyPasswordHash. rewrite Hn, Hparse. cbn [phc_salt p phc_hash
    phc_iterations phc_memory phc_parallelism]. rewrite Hk. fold key.
  rewrite String.eqb_refl, Hsalt. done.
Qed.
End password.

(** ** Interface

    What the store relies on: a hash it stores verifies the password it was
    made from and is current. *)
Class PasswordScheme : Type := {
  ps_hash : res string → string → res string;
  ps_rehash : res string → string → res string;
  ps_verify : string → string → bool * bool;
  ps_hash_verifies : ∀ salt password encoded,
    slen salt = argonSaltBytes → ps_hash (Ok salt) password = Ok encoded →
    ps_verify encoded password = (true, false);
  ps_rehash_verifies : ∀ salt password encoded,
    slen salt = argonSaltBytes → ps_rehash (Ok salt) password = Ok encoded →
    ps_verify encoded password = (true, false)
}.

Program Definition argon2_scheme (NFC : string → string)
    (IDKey : string → string → Z → Z → Z → Z → string) (bcrypt_ok : string → string → bool)
    (ver : Z) (Hkey : ∀ p s t m th n, 0 <= n → slen (IDKey p s t m th n) = n) (Hver : 0 <= ver)
    : PasswordScheme := {|
  ps_hash := hashPassword NFC IDKey ver;
  ps_rehash := rehashVerifiedPassword NFC IDKey ver;
  ps_verify := verifyPasswordHash NFC IDKey bcrypt_ok ver
|}.
Next Obligation.
  intros NFC IDKey bcrypt_ok ver Hkey Hver salt password encoded Hs H.
  apply res_bind_ok in H as (n & Hn%normalizeAndValidatePassword_ok & H).
  by eapply hashNormalizedPassword_verifies.
Qed.
Next Obligation.
  intros NFC IDKey bcrypt_ok ver Hkey Hver salt password encoded Hs H.
  apply res_bind_ok in H as (n & Hn & H). by eapply hashNormalizedPassword_verifies.
Qed.

(** ** Properties *)

(** C24. Stored hashes round-trip: for a password the policy accepts, the PHC
    string written by [hashPassword] is accepted by [verifyPasswordHash] for
    the same password and needs no rehash.  The PHC string is parsed back to
    exactly the parameters, salt and key it was formatted from. *)
Theorem hashPassword_verifies NFC IDKey bcrypt_ok ver salt password encoded :
  (∀ p s t m th n, 0 <= n → slen (IDKey p s t m th n) = n) → 0 <= ver →
  slen salt = argonSaltBytes →
  hashPassword NFC IDKey ver (Ok salt) password = Ok encoded →
  verifyPasswordHash NFC IDKey bcrypt_ok ver encoded password = (true, false) ∧
  ∃ key, parseArgon2PHC ver encoded
         = Ok (mkPHC argonMemoryKiB argonTime argonThreads salt key) ∧ slen key = argonKeyBytes.
Proof.
  intros Hkey Hver Hsalt (n & Hn%normalizeAndValidatePassword_ok & H)%res_bind_ok.
  by eapply hashNormalizedPassword_verifies.
Qed.

(** A concrete key derivation of the right length. *)
Definition demo_IDKey (p s : string) (t m th n : Z) : string :=
  unvals (repeat (slen p) (Z.to_nat n)).

Lemma demo_IDKey_length p s t m th n : 0 <= n → slen (demo_IDKey p s t m th n) = n.
Proof.
  intros Hn. unfold demo_IDKey, unvals, slen.
  rewrite length_of_bytes, length_map, repeat_length. lia.
Qed.

Lemma hashPassword_verifies_witness :
  verifyPasswordHash id demo_IDKey (λ _ _, false) 19
    (match hashPassword id demo_IDKey 19 (Ok "0123456789abcdef") "correct horse battery" with
     | Ok e => e | Err e => e end)
    "correct horse battery" = (true, false).
Proof.
  apply (hashPassword_verifies id demo_IDKey (λ _ _, false) 19 "0123456789abcdef"
           "correct horse battery").
  - apply demo_IDKey_length.
  - lia.
  - by vm_compute.
  - by vm_compute.
Defined.

(** C37. Untrusted stored hashes cannot raise the cost of a verification:
    whatever the string, the parameters [verifyPasswordHash] passes to the key
    derivation are within the accepted bounds, and a hash written with weaker
    accepted parameters still verifies and is reported as needing a rehash. *)
Theorem parseArgon2PHC_bounded NFC IDKey bcrypt_ok ver p password n :
  (∀ p s t m th n, 0 <= n → slen (IDKey p s t m th n) = n) → 0 <= ver →
  normalizePassword NFC password = Ok n →
  (∀ encoded q, parseArgon2PHC ver encoded = Ok q → phc_ok q) ∧
  (phc_ok p →
   phc_hash p = IDKey n (phc_salt p) (phc_iterations p) (phc_memory p) (phc_parallelism p)
                  (slen (phc_hash p)) →
   verifyPasswordHash NFC IDKey bcrypt_ok ver (formatPHC ver p) password =
     (true, (phc_memory p <? argonMemoryKiB) || (phc_iterations p <? argonTime)
            || (slen (phc_salt p) <? argonSaltBytes) || (slen (phc_hash p) <? argonKeyBytes))).
Proof.
  intros Hkey Hver Hn. split; [apply parseArgon2PHC_ok|]. intros Hp Hh.
  unfold verifyPasswordHash. rewrite Hn, (parse_formatPHC ver p Hver Hp).
  rewrite <-Hh, String.eqb_refl. done.
Qed.

Lemma parseArgon2PHC_bounded_witness :
  verifyPasswordHash id demo_IDKey (λ _ _, false) 19
    (formatPHC 19 (mkPHC 8192 1 1 "saltsalt" (demo_IDKey "pw" "saltsalt" 1 8192 1 16))) "pw"
  = (true, true).
Proof.
  apply (parseArgon2PHC_bounded id demo_IDKey (λ _ _, false) 19
           (mkPHC 8192 1 1 "saltsalt" (demo_IDKey "pw" "saltsalt" 1 8192 1 16)) "pw" "pw").
  - apply demo_IDKey_length.
  - lia.
  - by vm_compute.
  - split; vm_compute; split; discriminate.
  - by vm_compute.
Defined.
