(* ===== verification/Output.v ===== *)
(** * Bounded command output ([cmd/agent/output.go])

    The buffer a command's stdout and stderr are written to: it keeps the first
    [limit] bytes and remembers whether anything was dropped. *)

From S2P Require Export GoLib.

(** ** Definitions *)

Definition truncatedOutputMarker : string :=
  String "010" "[output truncated]" +:+ String "010" "".

Record cappedOutput : Type := mkCappedOutput {
  co_data : list ascii;
  co_limit : Z;
  co_truncated : bool
}.

Definition newCappedOutput (limit : Z) : cappedOutput := mkCappedOutput [] limit false.

(** The result is the new buffer and the byte count returned to the writer. *)
Definition Write (w : cappedOutput) (p : list ascii) : cappedOutput * Z :=
  let n := Z.of_nat (length p) in
  let remaining := co_limit w - Z.of_nat (length (co_data w)) in
  if 0 <? remaining then
    let keep := Z.min remaining n in
    let data := co_data w ++ take (Z.to_nat keep) p in
    (mkCappedOutput data (co_limit w) (if keep <? n then true else co_truncated w), n)
  else if 0 <? n then (mkCappedOutput (co_data w) (co_limit w) true, n)
  else (w, n).

Definition output_String (w : cappedOutput) : string :=
  let out := of_bytes (co_data w) in
  if co_truncated w then out +:+ truncatedOutputMarker else out.

(** A command's writes, in order. *)
Definition write_all (w : cappedOutput) (ps : list (list ascii)) : cappedOutput :=
  fold_left (λ w p, fst (Write w p)) ps w.

(** ** The abstract buffer

    Its contract: the kept bytes are a prefix of everything written. *)
Definition capped_spec (limit : Z) (written : list ascii) (w : cappedOutput) : Prop :=
  co_limit w = limit ∧ co_data w = take (Z.to_nat limit) written ∧
  co_truncated w = (limit <? Z.of_nat (length written)).

Lemma Write_refines limit written w p :
  0 <= limit → capped_spec limit written w →
  capped_spec limit (written ++ p) (fst (Write w p)) ∧ snd (Write w p) = Z.of_nat (length p).
Proof.
  intros Hl (H1 & H2 & H3). unfold Write, capped_spec. rewrite H1, H2, length_take.
  destruct (0 <? _) eqn:E1; bool_to_prop; simpl.
  - rewrite take_app. rewrite length_app.
    split; [|done]. split_and!; [done| |].
    + rewrite (take_ge written) by lia. f_equal.
      destruct (decide (limit - Z.of_nat (length written) <= Z.of_nat (length p))).
      * f_equal. lia.
      * rewrite !take_ge by lia. done.
    + destruct (Z.min _ _ <? _) eqn:E2; bool_to_prop; [symmetry; apply Z.ltb_lt; lia|].
      rewrite H3. apply eq_true_iff_eq. rewrite !Z.ltb_lt. lia.
  - destruct (0 <? Z.of_nat (length p)) eqn:E2; bool_to_prop; simpl.
    + split; [|done]. split_and!; [done| |].
      * by rewrite take_app_le by lia.
      * symmetry. apply Z.ltb_lt. rewrite length_app. lia.
    + destruct p; simpl in *; [|lia]. rewrite app_nil_r. done.
Qed.

Lemma write_all_refines limit written w ps :
  0 <= limit → capped_spec limit written w →
  capped_spec limit (written ++ concat ps) (write_all w ps).
Proof.
  intros Hl. revert written w. induction ps as [|p ps IH]; intros written w Hw; simpl.
  { by rewrite app_nil_r. }
  rewrite app_assoc. apply IH. by apply Write_refines.
Qed.

(** ** Property *)

(** C33. Whatever the chunks a command writes, the buffer holds the first
    [limit] bytes of their concatenation, every write reports its full length,
    and the text returned is that prefix, followed by the truncation marker
    exactly when bytes were dropped; it never exceeds the limit plus the
    marker. *)
Theorem cappedOutput_correct limit ps p :
  0 <= limit →
  let all := concat ps in
  let w := write_all (newCappedOutput limit) ps in
  co_data w = take (Z.to_nat limit) all ∧
  snd (Write w p) = Z.of_nat (length p) ∧
  output_String w = (if limit <? Z.of_nat (length all)
                     then of_bytes (take (Z.to_nat limit) all) +:+ truncatedOutputMarker
                     else of_bytes all) ∧
  slen (output_String w) <= limit + slen truncatedOutputMarker.
Proof.
  intros Hl all w.
  assert (capped_spec limit all w) as Hw.
  { apply (write_all_refines limit [] (newCappedOutput limit) ps Hl).
    unfold capped_spec. simpl. split_and!; [done|by destruct (Z.to_nat limit)|].
    symmetry. apply Z.ltb_ge. lia. }
  destruct (Write_refines limit all w p Hl Hw) as [_ Hn].
  destruct Hw as (_ & Hd & Ht). split_and!; [done|done| |].
  - unfold output_String. rewrite Hd, Ht. case_match; [done|]. bool_to_prop.
    by rewrite take_ge by lia.
  - unfold output_String. rewrite Hd.
    assert (slen (of_bytes (take (Z.to_nat limit) all)) <= limit) as Hb.
    { unfold slen. rewrite length_of_bytes, length_take. lia. }
    case_match; [rewrite slen_app; lia|]. pose proof (slen_nonneg truncatedOutputMarker). lia.
Qed.

Lemma cappedOutput_correct_witness :
  output_String (write_all (newCappedOutput 4) [to_bytes "abc"; to_bytes "def"])
  = "abcd" +:+ truncatedOutputMarker.
Proof.
  apply (cappedOutput_correct 4 [to_bytes "abc"; to_bytes "def"] []). lia.
Defined.
