(* ===== verification/ServerConfig.v ===== *)
(** * Server configuration ([internal/server/config.go], [Config] of server.go)

    [LoadConfig] after the JSON text is decoded over the default values: the
    decoded [fileConfig] is an argument.  Every field is trimmed, resolved,
    parsed and checked in the order of the source. *)

From S2P Require Export GoTime.
From S2P Require Export GoNet.

(** ** Data *)

Record fileConfig : Type := mkFileConfig {
  f_ListenAddr : string;
  f_DatabasePath : string;
  f_LegacyDeviceStore : string;
  f_AdminUsername : string;
  f_AdminPassword : string;
  f_CookieSecure : bool;
  f_SessionTTL : string;
  f_RememberSessionTTL : string;
  f_PreAuthTTL : string;
  f_PreAuthMaxAttempts : Z;
  f_PasswordMaxFailures : Z;
  f_PasswordFailureWindow : string;
  f_PasswordLockoutDuration : string;
  f_PasswordHashConcurrency : Z;
  f_PasswordHashQueueTimeout : string;
  f_TOTPMaxFailures : Z;
  f_TOTPFailureWindow : string;
  f_TOTPLockoutDuration : string;
  f_TOTPSetupTTL : string;
  f_ClientIPHeader : string;
  f_TrustedProxyCIDRs : list string;
  f_AllowExec : bool;
  f_AllowTerminal : bool;
  f_FileBrowserEnabled : bool;
  f_AgentOfflineTimeout : string;
  f_AgentHandshakeTimeout : string;
  f_AgentWriteTimeout : string;
  f_ActionTimeout : string;
  f_ExecResponseTimeout : string;
  f_FileTransferTimeout : string;
  f_EnrollmentTokenTTL : string;
  f_WebRefreshInterval : string;
  f_UIResultTTL : string;
  f_HTTPReadHeaderTimeout : string;
  f_ShutdownTimeout : string;
  f_FileTransferChunkBytes : Z;
  f_MaxFileTransferBytes : Z;
  f_MaxCommandLength : Z
}.

Record Config : Type := mkConfig {
  Addr_ : string;
  DBPath : string;
  LegacyDeviceStore : string;
  AdminUsername : string;
  AdminPassword : string;
  CookieSecure : bool;
  SessionTTL : Z;
  RememberSessionTTL : Z;
  PreAuthTTL : Z;
  PreAuthMaxAttempts : Z;
  PasswordMaxFailures : Z;
  PasswordFailureWindow : Z;
  PasswordLockoutDuration : Z;
  PasswordHashConcurrency : Z;
  PasswordHashQueueTimeout : Z;
  TOTPMaxFailures : Z;
  TOTPFailureWindow : Z;
  TOTPLockoutDuration : Z;
  TOTPSetupTTL : Z;
  ClientIPHeader : string;
  TrustedProxyPrefixes : list Prefix;
  AllowExec : bool;
  AllowTerminal : bool;
  FileBrowserEnabled : bool;
  AgentOfflineTimeout : Z;
  AgentHandshakeTimeout : Z;
  AgentWriteTimeout : Z;
  ActionTimeout : Z;
  ExecResponseTimeout : Z;
  FileTransferTimeout : Z;
  EnrollmentTokenTTL : Z;
  WebRefreshInterval : Z;
  UIResultTTL : Z;
  HTTPReadHeaderTimeout : Z;
  ShutdownTimeout : Z;
  FileTransferChunkBytes : Z;
  MaxFileTransferBytes : Z;
  MaxCommandLength : Z
}.

(** ** Definitions *)

(** The values a field has when the file does not set it. *)
Definition defaultFileConfig : fileConfig := {|
  f_ListenAddr := ":8080";
  f_DatabasePath := "/data/homectl.db";
  f_LegacyDeviceStore := "";
  f_AdminUsername := "admin";
  f_AdminPassword := "";
  f_CookieSecure := true;
  f_SessionTTL := "24h";
  f_RememberSessionTTL := "168h";
  f_PreAuthTTL := "5m";
  f_PreAuthMaxAttempts := 5;
  f_PasswordMaxFailures := 10;
  f_PasswordFailureWindow := "15m";
  f_PasswordLockoutDuration := "1m";
  f_PasswordHashConcurrency := 1;
  f_PasswordHashQueueTimeout := "5s";
  f_TOTPMaxFailures := 10;
  f_TOTPFailureWindow := "15m";
  f_TOTPLockoutDuration := "1m";
  f_TOTPSetupTTL := "10m";
  f_ClientIPHeader := "";
  f_TrustedProxyCIDRs := ["127.0.0.1/32"; "::1/128"];
  f_AllowExec := true;
  f_AllowTerminal := true;
  f_FileBrowserEnabled := false;
  f_AgentOfflineTimeout := "25s";
  f_AgentHandshakeTimeout := "15s";
  f_AgentWriteTimeout := "10s";
  f_ActionTimeout := "8s";
  f_ExecResponseTimeout := "40s";
  f_FileTransferTimeout := "2m";
  f_EnrollmentTokenTTL := "30m";
  f_WebRefreshInterval := "5s";
  f_UIResultTTL := "20s";
  f_HTTPReadHeaderTimeout := "10s";
  f_ShutdownTimeout := "10s";
  f_FileTransferChunkBytes := Z.shiftl 64 10;
  f_MaxFileTransferBytes := Z.shiftl 1 30;
  f_MaxCommandLength := 4096
|}.

Definition parsePositive (name value : string) : res Z :=
  match ParseDuration value with
  | Some d => if d <=? 0 then Err ("invalid " +:+ name +:+ " " +:+ value) else Ok d
  | None => Err ("invalid " +:+ name +:+ " " +:+ value)
  end.

Definition parseNonNegative (name value : string) : res Z :=
  match ParseDuration value with
  | Some d => if d <? 0 then Err ("invalid " +:+ name +:+ " " +:+ value) else Ok d
  | None => Err ("invalid " +:+ name +:+ " " +:+ value)
  end.

Definition check (ok : bool) (err : string) : res unit := if ok then Ok () else Err err.

Definition header_rune (ch : Z) : bool :=
  (ch =? 45) || ((48 <=? ch) && (ch <=? 57)) || ((65 <=? ch) && (ch <=? 90))
  || ((97 <=? ch) && (ch <=? 122)).

(** The loop over [trusted_proxy_cidrs]: blank entries are skipped. *)
Fixpoint parseTrustedProxies (cidrs : list string) : res (list Prefix) :=
  match cidrs with
  | [] => Ok []
  | value :: rest =>
    let value := TrimSpace value in
    if String.eqb value "" then parseTrustedProxies rest
    else
      match ParsePrefix value with
      | None => Err ("invalid trusted_proxy_cidrs entry " +:+ value)
      | Some prefix =>
        try ps := parseTrustedProxies rest in Ok (Masked prefix :: ps)
      end
  end.

(** Lines 113-127: trimmed and resolved paths. [path] is the file's own path. *)
Record paths : Type := mkPaths {
  p_ListenAddr : string;
  p_DatabasePath : string;
  p_LegacyDeviceStore : string;
  p_AdminUsername : string;
  p_ClientIPHeader : string
}.

Definition resolvePaths (path : string) (raw : fileConfig) : res paths :=
  let listen := TrimSpace (f_ListenAddr raw) in
  let db := TrimSpace (f_DatabasePath raw) in
  let legacy := TrimSpace (f_LegacyDeviceStore raw) in
  if String.eqb listen "" then Err "listen_addr is required"
  else if String.eqb db "" then Err "database_path is required"
  else
    let db := if IsAbs db then db else JoinPath (Dir path) db in
    let legacy := if negb (String.eqb legacy "") && negb (IsAbs legacy)
                  then JoinPath (Dir path) legacy else legacy in
    Ok (mkPaths listen db legacy (TrimSpace (f_AdminUsername raw)) (TrimSpace (f_ClientIPHeader raw))).

(** Lines 146-221: session, authentication and proxy settings. *)
Record authConfig : Type := mkAuthConfig {
  a_SessionTTL : Z;
  a_RememberSessionTTL : Z;
  a_PreAuthTTL : Z;
  a_PasswordFailureWindow : Z;
  a_PasswordLockoutDuration : Z;
  a_PasswordHashQueueTimeout : Z;
  a_TOTPFailureWindow : Z;
  a_TOTPLockoutDuration : Z;
  a_TOTPSetupTTL : Z;
  a_TrustedProxyPrefixes : list Prefix
}.

Definition parseAuthConfig (p : paths) (raw : fileConfig) : res authConfig :=
  try sessionTTL := parsePositive "session_ttl" (f_SessionTTL raw) in
  try rememberSessionTTL := parsePositive "remember_session_ttl" (f_RememberSessionTTL raw) in
  try _ := check (negb (rememberSessionTTL <? sessionTTL))
             "remember_session_ttl must be >= session_ttl" in
  try preAuthTTL := parsePositive "preauth_ttl" (f_PreAuthTTL raw) in
  try _ := check (negb ((preAuthTTL <? 30 * Second) || (15 * Minute <? preAuthTTL)))
             "preauth_ttl must be between 30s and 15m" in
  try passwordFailureWindow := parsePositive "password_failure_window" (f_PasswordFailureWindow raw) in
  try passwordLockout := parsePositive "password_lockout_duration" (f_PasswordLockoutDuration raw) in
  try passwordQueueTimeout := parsePositive "password_hash_queue_timeout" (f_PasswordHashQueueTimeout raw) in
  try totpFailureWindow := parsePositive "totp_failure_window" (f_TOTPFailureWindow raw) in
  try totpLockout := parsePositive "totp_lockout_duration" (f_TOTPLockoutDuration raw) in
  try totpSetupTTL := parsePositive "totp_setup_ttl" (f_TOTPSetupTTL raw) in
  try _ := check (negb ((totpSetupTTL <? Minute) || (30 * Minute <? totpSetupTTL)))
             "totp_setup_ttl must be between 1m and 30m" in
  try _ := check (negb ((f_PreAuthMaxAttempts raw <? 3) || (20 <? f_PreAuthMaxAttempts raw)))
             "preauth_max_attempts must be between 3 and 20" in
  try _ := check (negb ((f_PasswordMaxFailures raw <? 3) || (100 <? f_PasswordMaxFailures raw)))
             "password_max_failures must be between 3 and 100" in
  try _ := check (negb ((f_PasswordHashConcurrency raw <? 1) || (16 <? f_PasswordHashConcurrency raw)))
             "password_hash_concurrency must be between 1 and 16" in
  try _ := check (negb ((f_TOTPMaxFailures raw <? 3) || (100 <? f_TOTPMaxFailures raw)))
             "totp_max_failures must be between 3 and 100" in
  try _ := check (forallb header_rune (range_runes (p_ClientIPHeader p)))
             "client_ip_header contains invalid characters" in
  try trustedProxyPrefixes := parseTrustedProxies (f_TrustedProxyCIDRs raw) in
  Ok (mkAuthConfig sessionTTL rememberSessionTTL preAuthTTL passwordFailureWindow passwordLockout
        passwordQueueTimeout totpFailureWindow totpLockout totpSetupTTL trustedProxyPrefixes).

(** Lines 223-274: timeouts and sizes. *)
Record limitConfig : Type := mkLimitConfig {
  l_AgentOfflineTimeout : Z;
  l_AgentHandshakeTimeout : Z;
  l_AgentWriteTimeout : Z;
  l_ActionTimeout : Z;
  l_ExecResponseTimeout : Z;
  l_FileTransferTimeout : Z;
  l_EnrollmentTokenTTL : Z;
  l_WebRefreshInterval : Z;
  l_UIResultTTL : Z;
  l_HTTPReadHeaderTimeout : Z;
  l_ShutdownTimeout : Z
}.

Definition parseLimitConfig (raw : fileConfig) : res limitConfig :=
  try offlineTimeout := parsePositive "agent_offline_timeout" (f_AgentOfflineTimeout raw) in
  try handshakeTimeout := parsePositive "agent_handshake_timeout" (f_AgentHandshakeTimeout raw) in
  try writeTimeout := parsePositive "agent_write_timeout" (f_AgentWriteTimeout raw) in
  try actionTimeout := parsePositive "action_timeout" (f_ActionTimeout raw) in
  try execTimeout := parsePositive "exec_response_timeout" (f_ExecResponseTimeout raw) in
  try fileTimeout := parsePositive "file_transfer_timeout" (f_FileTransferTimeout raw) in
  try enrollTTL := parsePositive "enrollment_token_ttl" (f_EnrollmentTokenTTL raw) in
  try webRefresh := parsePositive "web_refresh_interval" (f_WebRefreshInterval raw) in
  try uiTTL := parseNonNegative "ui_result_ttl" (f_UIResultTTL raw) in
  try readHeaderTimeout := parsePositive "http_read_header_timeout" (f_HTTPReadHeaderTimeout raw) in
  try shutdownTimeout := parsePositive "shutdown_timeout" (f_ShutdownTimeout raw) in
  try _ := check (negb ((f_FileTransferChunkBytes raw <? 4096)
                        || (Z.shiftl 512 10 <? f_FileTransferChunkBytes raw)))
             "file_transfer_chunk_bytes must be between 4096 and 524288" in
  try _ := check (negb (f_MaxFileTransferBytes raw <? 0))
             "max_file_transfer_bytes must be >= 0; use 0 for unlimited" in
  try _ := check (negb ((f_MaxCommandLength raw <? 256) || (Z.shiftl 1 20 <? f_MaxCommandLength raw)))
             "max_command_length must be between 256 and 1048576" in
  Ok (mkLimitConfig offlineTimeout handshakeTimeout writeTimeout actionTimeout execTimeout
        fileTimeout enrollTTL webRefresh uiTTL readHeaderTimeout shutdownTimeout).

Definition buildConfig (raw : fileConfig) (p : paths) (a : authConfig) (l : limitConfig) : Config := {|
  Addr_ := p_ListenAddr p;
  DBPath := p_DatabasePath p;
  LegacyDeviceStore := p_LegacyDeviceStore p;
  AdminUsername := p_AdminUsername p;
  AdminPassword := f_AdminPassword raw;
  CookieSecure := f_CookieSecure raw;
  SessionTTL := a_SessionTTL a;
  RememberSessionTTL := a_RememberSessionTTL a;
  PreAuthTTL := a_PreAuthTTL a;
  PreAuthMaxAttempts := f_PreAuthMaxAttempts raw;
  PasswordMaxFailures := f_PasswordMaxFailures raw;
  PasswordFailureWindow := a_PasswordFailureWindow a;
  PasswordLockoutDuration := a_PasswordLockoutDuration a;
  PasswordHashConcurrency := f_PasswordHashConcurrency raw;
  PasswordHashQueueTimeout := a_PasswordHashQueueTimeout a;
  TOTPMaxFailures := f_TOTPMaxFailures raw;
  TOTPFailureWindow := a_TOTPFailureWindow a;
  TOTPLockoutDuration := a_TOTPLockoutDuration a;
  TOTPSetupTTL := a_TOTPSetupTTL a;
  ClientIPHeader := p_ClientIPHeader p;
  TrustedProxyPrefixes := a_TrustedProxyPrefixes a;
  AllowExec := f_AllowExec raw;
  AllowTerminal := f_AllowTerminal raw;
  FileBrowserEnabled := f_FileBrowserEnabled raw;
  AgentOfflineTimeout := l_AgentOfflineTimeout l;
  AgentHandshakeTimeout := l_AgentHandshakeTimeout l;
  AgentWriteTimeout := l_AgentWriteTimeout l;
  ActionTimeout := l_ActionTimeout l;
  ExecResponseTimeout := l_ExecResponseTimeout l;
  FileTransferTimeout := l_FileTransferTimeout l;
  EnrollmentTokenTTL := l_EnrollmentTokenTTL l;
  WebRefreshInterval := l_WebRefreshInterval l;
  UIResultTTL := l_UIResultTTL l;
  HTTPReadHeaderTimeout := l_HTTPReadHeaderTimeout l;
  ShutdownTimeout := l_ShutdownTimeout l;
  FileTransferChunkBytes := f_FileTransferChunkBytes raw;
  MaxFileTransferBytes := f_MaxFileTransferBytes raw;
  MaxCommandLength := f_MaxCommandLength raw
|}.

(** [decoded] is the result of opening the file and decoding its single JSON
    value over [defaultFileConfig]. *)
Definition LoadConfig (path : string) (decoded : res fileConfig) : res Config :=
  try raw := decoded in
  try p := resolvePaths path raw in
  try a := parseAuthConfig p raw in
  try l := parseLimitConfig raw in
  Ok (buildConfig raw p a l).

(** ** Lemmas *)

(** What the rest of the Server relies on. *)
Record config_ok (c : Config) : Prop := mk_config_ok {
  ok_session : 0 < SessionTTL c <= RememberSessionTTL c;
  ok_preauth : 30 * Second <= PreAuthTTL c <= 15 * Minute;
  ok_attempts : 3 <= PreAuthMaxAttempts c <= 20;
  ok_password : 3 <= PasswordMaxFailures c <= 100 ∧ 0 < PasswordFailureWindow c
                ∧ 0 < PasswordLockoutDuration c;
  ok_hash : 1 <= PasswordHashConcurrency c <= 16 ∧ 0 < PasswordHashQueueTimeout c;
  ok_totp : 3 <= TOTPMaxFailures c <= 100 ∧ 0 < TOTPFailureWindow c ∧ 0 < TOTPLockoutDuration c
            ∧ Minute <= TOTPSetupTTL c <= 30 * Minute;
  ok_agent : 0 < AgentOfflineTimeout c ∧ 0 < AgentHandshakeTimeout c ∧ 0 < AgentWriteTimeout c;
  ok_requests : 0 < ActionTimeout c ∧ 0 < ExecResponseTimeout c ∧ 0 < FileTransferTimeout c;
  ok_misc : 0 < EnrollmentTokenTTL c ∧ 0 < WebRefreshInterval c ∧ 0 <= UIResultTTL c
            ∧ 0 < HTTPReadHeaderTimeout c ∧ 0 < ShutdownTimeout c;
  ok_transfer : 4096 <= FileTransferChunkBytes c <= 524288 ∧ 0 <= MaxFileTransferBytes c;
  ok_command : 256 <= MaxCommandLength c <= 1048576;
  ok_addr : Addr_ c ≠ "";
  ok_header : forallb header_rune (range_runes (ClientIPHeader c)) = true;
  ok_prefixes : Forall (λ p, Masked p = p) (TrustedProxyPrefixes c)
}.

Lemma parsePositive_ok name v d : parsePositive name v = Ok d → 0 < d.
Proof. unfold parsePositive. intros H. split_matches. lia. Qed.

Lemma parseNonNegative_ok name v d : parseNonNegative name v = Ok d → 0 <= d.
Proof. unfold parseNonNegative. intros H. split_matches. lia. Qed.

Lemma check_ok b e u : check b e = Ok u → b = true.
Proof. unfold check. by destruct b. Qed.

Lemma mask_idemp w b a : mask w b (mask w b a) = mask w b a.
Proof.
  unfold mask. destruct (decide (w - b < 0)).
  - rewrite Z.pow_neg_r by done. by rewrite !Z.mul_0_r.
  - rewrite Z.div_mul; [done|]. pose proof (Z.pow_pos_nonneg 2 (w - b)). lia.
Qed.

Lemma Masked_idemp p : Masked (Masked p) = Masked p.
Proof. unfold Masked. destruct p as [[a|a z] b]; simpl; by rewrite mask_idemp. Qed.

Lemma parseTrustedProxies_ok l ps :
  parseTrustedProxies l = Ok ps → Forall (λ p, Masked p = p) ps.
Proof.
  revert ps. induction l as [|v l IH]; intros ps; simpl; [by intros [= <-]|].
  destruct (String.eqb _ _); [by apply IH|]. destruct (ParsePrefix _); [|done].
  intros (qs & Hqs & [= <-])%res_bind_ok. constructor; [apply Masked_idemp|by apply IH].
Qed.

Ltac inv_try H :=
  repeat match type of H with
  | res_bind _ _ = Ok _ =>
    let x := fresh "v" in let E := fresh "E" in
    apply res_bind_ok in H as (x & E & H);
    first [apply parsePositive_ok in E | apply parseNonNegative_ok in E
          | apply check_ok in E; bool_to_prop | idtac]
  end.

Lemma resolvePaths_ok path raw p :
  resolvePaths path raw = Ok p →
  p_ListenAddr p ≠ "" ∧
  (IsAbs path = true → IsAbs (p_DatabasePath p) = true ∧
     (p_LegacyDeviceStore p = "" ∨ IsAbs (p_LegacyDeviceStore p) = true)).
Proof.
  unfold resolvePaths. intros H.
  destruct (String.eqb (TrimSpace (f_ListenAddr raw)) "") eqn:E1; [done|].
  destruct (String.eqb (TrimSpace (f_DatabasePath raw)) "") eqn:E2; [done|].
  injection H as <-. bool_to_prop. simpl. split; [done|]. intros Hp. split.
  - case_match; [done|]. by apply JoinPath_abs, Dir_abs.
  - destruct (String.eqb (TrimSpace (f_LegacyDeviceStore raw)) "") eqn:E3; bool_to_prop; [by left|].
    right. simpl. destruct (IsAbs (TrimSpace (f_LegacyDeviceStore raw))) eqn:E4; [done|].
    by apply JoinPath_abs, Dir_abs.
Qed.

Lemma LoadConfig_ok_bounds path decoded c :
  LoadConfig path decoded = Ok c →
  config_ok c ∧
  (IsAbs path = true → IsAbs (DBPath c) = true) ∧
  ∃ raw, decoded = Ok raw ∧
    AllowExec c = f_AllowExec raw ∧ AllowTerminal c = f_AllowTerminal raw ∧
    FileBrowserEnabled c = f_FileBrowserEnabled raw ∧ CookieSecure c = f_CookieSecure raw ∧
    MaxFileTransferBytes c = f_MaxFileTransferBytes raw.
Proof.
  unfold LoadConfig. intros (raw & Hraw & H)%res_bind_ok.
  apply res_bind_ok in H as (p & Hp%resolvePaths_ok & H).
  apply res_bind_ok in H as (a & Ha & H). apply res_bind_ok in H as (l & Hl & H).
  injection H as <-. unfold parseAuthConfig in Ha. unfold parseLimitConfig in Hl.
  inv_try Ha. inv_try Hl. injection Ha as <-. injection Hl as <-.
  change (Z.shiftl 512 10) with 524288 in *. change (Z.shiftl 1 20) with 1048576 in *.
  destruct Hp as [Hl Hp]. split; [|split; [apply Hp|exists raw; split_and!; done]].
  split; simpl; try done; try lia. by eapply parseTrustedProxies_ok.
Qed.

(** ** Property *)

(** C35. A configuration [LoadConfig] accepts satisfies every bound the Server
    relies on ([config_ok]: positive durations, attempt and size limits,
    masked trusted prefixes, a well-formed header name), whatever the file
    says; relative paths are resolved against the configuration file's
    directory, and switches and limits are taken from the file unchanged. *)
Theorem LoadConfig_ok path decoded c :
  LoadConfig path decoded = Ok c →
  config_ok c ∧
  (IsAbs path = true → IsAbs (DBPath c) = true) ∧
  ∃ raw, decoded = Ok raw ∧
    AllowExec c = f_AllowExec raw ∧ AllowTerminal c = f_AllowTerminal raw ∧
    FileBrowserEnabled c = f_FileBrowserEnabled raw ∧ CookieSecure c = f_CookieSecure raw ∧
    MaxFileTransferBytes c = f_MaxFileTransferBytes raw.
Proof. apply LoadConfig_ok_bounds. Qed.

Lemma LoadConfig_ok_witness :
  match LoadConfig "/etc/homectl/config.json" (Ok defaultFileConfig) with
  | Ok c => config_ok c ∧ DBPath c = "/data/homectl.db"
  | Err _ => False
  end.
Proof.
  pose proof (LoadConfig_ok "/etc/homectl/config.json" (Ok defaultFileConfig)) as H.
  destruct (LoadConfig "/etc/homectl/config.json" (Ok defaultFileConfig)) as [c|e] eqn:E.
  - split; [by apply (H c)|]. vm_compute in E. by injection E as <-.
  - vm_compute in E. discriminate E.
Defined.
