(* ===== verification/Throttle.v ===== *)
(** * In-memory authentication state ([internal/server/auth.go])

    The failure counters of passwords, re-authentication and TOTP codes, the
    pre-authentication records of the two-step login and the pending TOTP
    setups.  Each operation is one critical section of [authMu]; a reading of
    [time.Now()] is an argument, in the order the code takes them. *)

From S2P Require Export ServerConfig.

(** ** Data *)

Record preAuthState : Type := mkPreAuth {
  pa_Expires : Z;
  pa_Remember : bool;
  pa_Attempts : Z;
  pa_Busy : bool;
  pa_ClientKey : string
}.

Record totpSetupState : Type := mkSetup { ts_Secret : string; ts_Expires : Z }.

Record authFailureState : Type := mkFailure {
  Failures : Z;
  WindowStart : Z;
  LockedUntil : Z;
  fs_LastSeen : Z
}.

(** [authFailureState{}] *)
Definition zero_failure : authFailureState := mkFailure 0 zero_time zero_time zero_time.

(** The maps of [Server] guarded by [authMu]. *)
Record AuthMem : Type := mkAuthMem {
  preAuth : gmap string preAuthState;
  totpSetups : gmap string totpSetupState;
  passwordFailures : gmap string authFailureState;
  reauthFailures : gmap string authFailureState;
  totpFailures : authFailureState
}.

Definition empty_auth : AuthMem := mkAuthMem ∅ ∅ ∅ ∅ zero_failure.

Definition set_preAuth m s :=
  mkAuthMem m (totpSetups s) (passwordFailures s) (reauthFailures s) (totpFailures s).
Definition set_totpSetups m s :=
  mkAuthMem (preAuth s) m (passwordFailures s) (reauthFailures s) (totpFailures s).
Definition set_passwordFailures m s :=
  mkAuthMem (preAuth s) (totpSetups s) m (reauthFailures s) (totpFailures s).
Definition set_reauthFailures m s :=
  mkAuthMem (preAuth s) (totpSetups s) (passwordFailures s) m (totpFailures s).
Definition set_totpFailures f s :=
  mkAuthMem (preAuth s) (totpSetups s) (passwordFailures s) (reauthFailures s) f.

(** ** Failure counters *)

Definition is_locked (st : authFailureState) (now : Z) : bool :=
  negb (IsZero (LockedUntil st)) && Before now (LockedUntil st).

Definition resetExpiredFailureState (st : authFailureState) (now window : Z) : authFailureState :=
  if negb (IsZero (LockedUntil st)) && negb (Before now (LockedUntil st)) then zero_failure
  else if IsZero (LockedUntil st) && negb (IsZero (WindowStart st))
          && (window <=? Sub now (WindowStart st)) then zero_failure
  else st.

(** [now'] is the reading inside [time.Until]. *)
Definition recordFailure (st : authFailureState) (now now' maxFailures window lockout : Z)
    : authFailureState * Z :=
  let st := resetExpiredFailureState st now window in
  let st := mkFailure (Failures st) (WindowStart st) (LockedUntil st) now in
  if is_locked st now then (st, Until (LockedUntil st) now')
  else
    let start := if IsZero (WindowStart st) then now else WindowStart st in
    let n := Failures st + 1 in
    if maxFailures <=? n then (mkFailure n start (TimeAdd now lockout) now, lockout)
    else (mkFailure n start (LockedUntil st) now, 0).

(** The shared body of [clientPasswordLocked] and [reauthLocked]: the new map
    and the remaining lockout, [None] for [(0, false)]. *)
Definition check_locked (m : gmap string authFailureState) (key : string) (now now' window : Z)
    : gmap string authFailureState * option Z :=
  match m !! key with
  | None => (m, None)
  | Some st =>
    let st := resetExpiredFailureState st now window in
    let m := <[key := st]> m in
    if is_locked st now then (m, Some (Until (LockedUntil st) now'))
    else (if Failures st =? 0 then delete key m else m, None)
  end.

Definition clientPasswordLocked (cfg : Config) (key : string) (now now' : Z) (s : AuthMem)
    : AuthMem * option Z :=
  let (m, r) := check_locked (passwordFailures s) key now now' (PasswordFailureWindow cfg) in
  (set_passwordFailures m s, r).

Definition reauthLocked (cfg : Config) (key : string) (now now' : Z) (s : AuthMem)
    : AuthMem * option Z :=
  let (m, r) := check_locked (reauthFailures s) key now now' (PasswordFailureWindow cfg) in
  (set_reauthFailures m s, r).

(** The search for the entry to evict: [best] starts as the empty key. *)
Fixpoint pick_oldest {V} (stamp : V → Z) (l : list (string * V)) (best : string * Z)
    : string * Z :=
  match l with
  | [] => best
  | (k, v) :: rest =>
    pick_oldest stamp rest
      (if String.eqb (fst best) "" || Before (stamp v) (snd best) then (k, stamp v) else best)
  end.

(** The time an entry was last used. *)
Definition failure_stamp (st : authFailureState) : Z :=
  if IsZero (fs_LastSeen st) then WindowStart st else fs_LastSeen st.

(** Expired entries are dropped while the map is walked. *)
Definition sweep_failures (now window : Z) (m : gmap string authFailureState)
    : gmap string authFailureState :=
  omap (λ st, let st := resetExpiredFailureState st now window in
              if Failures st =? 0 then None else Some st) m.

Definition maxFailureEntries : Z := 4096.
Definition maxPreAuthEntries : Z := 32.

Section with_order.
Context `{MapOrder}.

Definition recordClientPasswordFailure (cfg : Config) (key : string) (now now' : Z) (s : AuthMem)
    : AuthMem * Z :=
  let m := sweep_failures now (PasswordFailureWindow cfg) (passwordFailures s) in
  let m :=
    if bool_decide (m !! key = None) && (maxFailureEntries <=? Z.of_nat (size m)) then
      let '(oldestKey, _) := pick_oldest failure_stamp (map_order m) ("", zero_time) in
      if negb (String.eqb oldestKey "") then delete oldestKey m else m
    else m in
  let st := default zero_failure (m !! key) in
  let (st, retry) := recordFailure st now now' (PasswordMaxFailures cfg)
                       (PasswordFailureWindow cfg) (PasswordLockoutDuration cfg) in
  (set_passwordFailures (<[key := st]> m) s, retry).

(** *** Pre-authentication records *)

Definition cleanupPreAuthLocked (now : Z) (m : gmap string preAuthState)
    : gmap string preAuthState :=
  filter (λ kv, Before now (pa_Expires kv.2) = true) m.

(** [key] is the digest of the fresh random token. *)
Definition createPreAuth (cfg : Config) (remember : bool) (clientKey key : string) (now : Z)
    (s : AuthMem) : AuthMem :=
  let m := cleanupPreAuthLocked now (preAuth s) in
  let m :=
    if (maxPreAuthEntries <=? Z.of_nat (size m))
    then delete (fst (pick_oldest pa_Expires (map_order m) ("", zero_time))) m
    else m in
  set_preAuth
    (<[key := mkPreAuth (TimeAdd now (PreAuthTTL cfg)) remember 0 false clientKey]> m) s.
End with_order.

Definition clearClientPasswordFailures (key : string) (s : AuthMem) : AuthMem :=
  set_passwordFailures (delete key (passwordFailures s)) s.

Definition recordReauthFailure (cfg : Config) (key : string) (now now' : Z) (s : AuthMem)
    : AuthMem * Z :=
  let st := default zero_failure (reauthFailures s !! key) in
  let (st, retry) := recordFailure st now now' (PasswordMaxFailures cfg)
                       (PasswordFailureWindow cfg) (PasswordLockoutDuration cfg) in
  (set_reauthFailures (<[key := st]> (reauthFailures s)) s, retry).

Definition clearReauthFailures (key : string) (s : AuthMem) : AuthMem :=
  set_reauthFailures (delete key (reauthFailures s)) s.

Definition clearAllReauthFailures (s : AuthMem) : AuthMem := set_reauthFailures ∅ s.

Definition totpAuthLocked (cfg : Config) (now now' : Z) (s : AuthMem) : AuthMem * option Z :=
  let st := resetExpiredFailureState (totpFailures s) now (TOTPFailureWindow cfg) in
  (set_totpFailures st s, if is_locked st now then Some (Until (LockedUntil st) now') else None).

(** A lockout also drops every pre-authentication record. *)
Definition recordTOTPAuthFailure (cfg : Config) (now now' : Z) (s : AuthMem) : AuthMem * Z :=
  let (st, retry) := recordFailure (totpFailures s) now now' (TOTPMaxFailures cfg)
                       (TOTPFailureWindow cfg) (TOTPLockoutDuration cfg) in
  let s := set_totpFailures st s in
  (if 0 <? retry then set_preAuth ∅ s else s, retry).

Definition clearTOTPAuthFailures (s : AuthMem) : AuthMem := set_totpFailures zero_failure s.

Definition clearPreAuth (s : AuthMem) : AuthMem := set_preAuth ∅ s.

Definition bumpPreAuthAttempt (cfg : Config) (key : string) (s : AuthMem) : AuthMem * bool :=
  match preAuth s !! key with
  | None => (s, true)
  | Some p =>
    let p := mkPreAuth (pa_Expires p) (pa_Remember p) (pa_Attempts p + 1) (pa_Busy p) (pa_ClientKey p) in
    if PreAuthMaxAttempts cfg <=? pa_Attempts p
    then (set_preAuth (delete key (preAuth s)) s, true)
    else (set_preAuth (<[key := p]> (preAuth s)) s, false)
  end.

Definition claimPreAuth (cfg : Config) (key : string) (now : Z) (s : AuthMem) : AuthMem * bool :=
  match preAuth s !! key with
  | None => (s, false)
  | Some p =>
    if negb (Before now (pa_Expires p)) then (set_preAuth (delete key (preAuth s)) s, false)
    else if pa_Busy p || (PreAuthMaxAttempts cfg <=? pa_Attempts p) then (s, false)
    else (set_preAuth (<[key := mkPreAuth (pa_Expires p) (pa_Remember p) (pa_Attempts p) true
                                  (pa_ClientKey p)]> (preAuth s)) s, true)
  end.

Definition releasePreAuth (key : string) (s : AuthMem) : AuthMem :=
  match preAuth s !! key with
  | None => s
  | Some p => set_preAuth (<[key := mkPreAuth (pa_Expires p) (pa_Remember p) (pa_Attempts p) false
                                      (pa_ClientKey p)]> (preAuth s)) s
  end.

Definition deletePreAuthKey (key : string) (s : AuthMem) : AuthMem :=
  set_preAuth (delete key (preAuth s)) s.

(** *** Pending TOTP setups; [key] is the session's digest *)

Definition storeTOTPSetup (cfg : Config) (key secret : string) (now : Z) (s : AuthMem)
    : AuthMem * bool :=
  if String.eqb key "" then (s, false)
  else
    let m := filter (λ kv, Before now (ts_Expires kv.2) = true) (totpSetups s) in
    (set_totpSetups (<[key := mkSetup secret (TimeAdd now (TOTPSetupTTL cfg))]> m) s, true).

Definition loadTOTPSetup (key : string) (now : Z) (s : AuthMem) : AuthMem * option string :=
  if String.eqb key "" then (s, None)
  else
    match totpSetups s !! key with
    | Some setup =>
      if negb (Before now (ts_Expires setup)) then (set_totpSetups (delete key (totpSetups s)) s, None)
      else (s, Some (ts_Secret setup))
    | None => (set_totpSetups (delete key (totpSetups s)) s, None)
    end.

Definition clearTOTPSetupForSessionKey (key : string) (s : AuthMem) : AuthMem :=
  if String.eqb key "" then s else set_totpSetups (delete key (totpSetups s)) s.

Definition clearTOTPSetups (s : AuthMem) : AuthMem := set_totpSetups ∅ s.

(** ** The operations as steps

    Handlers run concurrently, but each operation is one critical section: an
    execution is a sequence of steps, in any order and with any readings. *)
Inductive auth_op : Type :=
| OpClientLocked (key : string) (now now' : Z)
| OpRecordPassword (key : string) (now now' : Z)
| OpClearPassword (key : string)
| OpReauthLocked (key : string) (now now' : Z)
| OpRecordReauth (key : string) (now now' : Z)
| OpClearReauth (key : string)
| OpClearAllReauth
| OpTotpLocked (now now' : Z)
| OpRecordTotp (now now' : Z)
| OpClearTotp
| OpCreatePreAuth (remember : bool) (clientKey key : string) (now : Z)
| OpCleanupPreAuth (now : Z)
| OpBump (key : string)
| OpClaim (key : string) (now : Z)
| OpRelease (key : string)
| OpDeletePreAuth (key : string)
| OpClearPreAuth
| OpStoreSetup (key secret : string) (now : Z)
| OpLoadSetup (key : string) (now : Z)
| OpClearSetup (key : string)
| OpClearSetups.

Section steps.
Context `{MapOrder} (cfg : Config).

(** The new state and whether the operation granted what was asked: for
    [OpClaim] and [OpLoadSetup] that it succeeded, for the lock checks that
    the caller may go on. *)
Definition run_op (op : auth_op) (s : AuthMem) : AuthMem * bool :=
  let free r := match r with Some _ => false | None => true end in
  match op with
  | OpClientLocked k n n' => let (s, r) := clientPasswordLocked cfg k n n' s in (s, free r)
  | OpRecordPassword k n n' => let (s, r) := recordClientPasswordFailure cfg k n n' s in (s, r =? 0)
  | OpClearPassword k => (clearClientPasswordFailures k s, true)
  | OpReauthLocked k n n' => let (s, r) := reauthLocked cfg k n n' s in (s, free r)
  | OpRecordReauth k n n' => let (s, r) := recordReauthFailure cfg k n n' s in (s, r =? 0)
  | OpClearReauth k => (clearReauthFailures k s, true)
  | OpClearAllReauth => (clearAllReauthFailures s, true)
  | OpTotpLocked n n' => let (s, r) := totpAuthLocked cfg n n' s in (s, free r)
  | OpRecordTotp n n' => let (s, r) := recordTOTPAuthFailure cfg n n' s in (s, r =? 0)
  | OpClearTotp => (clearTOTPAuthFailures s, true)
  | OpCreatePreAuth r c k n => (createPreAuth cfg r c k n s, true)
  | OpCleanupPreAuth n => (set_preAuth (cleanupPreAuthLocked n (preAuth s)) s, true)
  | OpBump k => bumpPreAuthAttempt cfg k s
  | OpClaim k n => claimPreAuth cfg k n s
  | OpRelease k => (releasePreAuth k s, true)
  | OpDeletePreAuth k => (deletePreAuthKey k s, true)
  | OpClearPreAuth => (clearPreAuth s, true)
  | OpStoreSetup k sec n => storeTOTPSetup cfg k sec n s
  | OpLoadSetup k n =>
    let (s, r) := loadTOTPSetup k n s in (s, match r with Some _ => true | None => false end)
  | OpClearSetup k => (clearTOTPSetupForSessionKey k s, true)
  | OpClearSetups => (clearTOTPSetups s, true)
  end.

Definition run_ops (ops : list auth_op) (s : AuthMem) : AuthMem :=
  fold_left (λ s op, fst (run_op op s)) ops s.

(** The keys the program uses are digests and client addresses: never empty. *)
Definition op_key (op : auth_op) : option string :=
  match op with
  | OpRecordPassword k _ _ | OpCreatePreAuth _ _ k _ => Some k
  | _ => None
  end.

(** The bounds on memory. *)
Record auth_bounded (s : AuthMem) : Prop := mk_auth_bounded {
  ab_failures : Z.of_nat (size (passwordFailures s)) <= maxFailureEntries;
  ab_preAuth : Z.of_nat (size (preAuth s)) <= maxPreAuthEntries;
  ab_failures_key : passwordFailures s !! "" = None;
  ab_preAuth_key : preAuth s !! "" = None
}.

(** Login attempts of one client with wrong passwords, as [handleLogin] runs
    them: the lock check, the admission of at most [K] concurrent password
    checks, and the record of the failure when a check ends. *)
Inductive attempt : Type :=
| TryLogin (now : Z)
| WrongPassword (now : Z).

Record attempts : Type := mkAttempts {
  at_mem : AuthMem;
  at_inflight : Z;   (** password checks that are running *)
  at_admitted : Z;   (** password checks started so far *)
  at_failed : Z      (** password checks ended so far *)
}.

Definition attempt_step (key : string) (K : Z) (st : attempts) (a : attempt) : attempts :=
  match a with
  | TryLogin now =>
    match clientPasswordLocked cfg key now now (at_mem st) with
    | (m, None) =>
      if at_inflight st <? K
      then mkAttempts m (at_inflight st + 1) (at_admitted st + 1) (at_failed st)
      else mkAttempts m (at_inflight st) (at_admitted st) (at_failed st)
    | (m, Some _) => mkAttempts m (at_inflight st) (at_admitted st) (at_failed st)
    end
  | WrongPassword now =>
    if at_inflight st <? 1 then st
    else mkAttempts (fst (recordClientPasswordFailure cfg key now now (at_mem st)))
           (at_inflight st - 1) (at_admitted st) (at_failed st + 1)
  end.

Definition attempt_time (a : attempt) : Z :=
  match a with TryLogin now | WrongPassword now => now end.
End steps.

(** The configuration of an empty configuration file, for concrete runs. *)
Definition demo_config : Config := Eval vm_compute in
  match LoadConfig "/etc/homectl/config.json" (Ok defaultFileConfig) with
  | Ok c => c
  | Err _ => mkConfig "" "" "" "" "" false 0 0 0 0 0 0 0 0 0 0 0 0 0 "" [] false false false
               0 0 0 0 0 0 0 0 0 0 0 0 0 0
  end.

(** ** Lemmas *)

Lemma pick_oldest_some {V} (stamp : V → Z) l k t :
  k ≠ "" → Forall (λ kv, kv.1 ≠ "") l →
  let r := pick_oldest stamp l (k, t) in
  snd r <= t ∧ Forall (λ kv, snd r <= stamp kv.2) l ∧
  (r = (k, t) ∨ ∃ v, (fst r, v) ∈ l ∧ snd r = stamp v).
Proof.
  revert k t. induction l as [|[k' v'] l IH]; intros k t Hk Hl; simpl.
  { split_and!; [lia|constructor|by left]. }
  inversion Hl as [|? ? Hk' Hl']; subst. simpl in Hk'.
  destruct (String.eqb k "") eqn:E; bool_to_prop; [done|]. simpl.
  unfold Before. destruct (stamp v' <? t) eqn:Et; bool_to_prop.
  - destruct (IH k' (stamp v') Hk' Hl') as (H1 & H2 & H3).
    split_and!; [lia|by constructor|]. right. destruct H3 as [->|(v & Hin & Hv)].
    + exists v'. rewrite elem_of_cons. simpl. auto.
    + exists v. rewrite elem_of_cons. simpl. auto.
  - destruct (IH k t Hk Hl') as (H1 & H2 & H3).
    split_and!; [lia|constructor; [simpl; lia|done]|].
    destruct H3 as [->|(v & Hin & Hv)]; [by left|]. right. exists v. rewrite elem_of_cons. simpl. auto.
Qed.

(** With non-empty keys the search returns an entry with the least stamp. *)
Lemma pick_oldest_spec {V} (stamp : V → Z) l t :
  l ≠ [] → Forall (λ kv, kv.1 ≠ "") l →
  ∃ v, (fst (pick_oldest stamp l ("", t)), v) ∈ l ∧ Forall (λ kv, stamp v <= stamp kv.2) l.
Proof.
  destruct l as [|[k v] l]; [done|]. intros _ Hl.
  inversion Hl as [|? ? Hk Hl']; subst. simpl in *.
  destruct (pick_oldest_some stamp l k (stamp v) Hk Hl') as (H1 & H2 & H3).
  destruct H3 as [H3|(v' & Hin & Hv')].
  - rewrite H3 in *. exists v. rewrite elem_of_cons. split; [simpl; auto|constructor; [simpl; lia|done]].
  - exists v'. rewrite elem_of_cons. rewrite Hv' in *. split; [auto|constructor; [done|done]].
Qed.

Section with_order_lemmas.
Context `{MapOrder}.

Lemma map_order_keys {V} (m : gmap string V) :
  m !! "" = None → Forall (λ kv, kv.1 ≠ "") (map_order m).
Proof.
  intros Hm. apply Forall_forall. intros [k v] Hin%elem_of_map_order. simpl. intros ->. congruence.
Qed.

Lemma map_order_nonempty {V} (m : gmap string V) : (0 < size m)%nat → map_order m ≠ [].
Proof. intros Hs Hm. rewrite <-length_map_order, Hm in Hs. simpl in Hs. lia. Qed.

(** Evicting from a map without an empty key removes one present entry with
    the least stamp. *)
Lemma evict_oldest {V} (stamp : V → Z) (m : gmap string V) t :
  (0 < size m)%nat → m !! "" = None →
  let k := fst (pick_oldest stamp (map_order m) ("", t)) in
  k ≠ "" ∧ ∃ v, m !! k = Some v ∧ ∀ k' v', m !! k' = Some v' → stamp v <= stamp v'.
Proof.
  intros Hs He k.
  destruct (pick_oldest_spec stamp (map_order m) t) as (v & Hin & Hmin);
    [by apply map_order_nonempty|by apply map_order_keys|].
  apply elem_of_map_order in Hin. split.
  - intros Hk. fold k in Hin. rewrite Hk in Hin. congruence.
  - exists v. split; [done|]. intros k' v' Hk'%elem_of_map_order.
    rewrite Forall_forall in Hmin. by apply (Hmin _ Hk').
Qed.
End with_order_lemmas.

Lemma size_omap_le {V W} (f : V → option W) (m : gmap string V) :
  (size (omap f m : gmap string W) <= size m)%nat.
Proof.
  rewrite <-!(size_dom (D:=gset string)). apply subseteq_size, dom_omap_subseteq.
Qed.

Lemma size_filter_le {V} (P : string * V → Prop) `{∀ x, Decision (P x)} (m : gmap string V) :
  (size (filter P m) <= size m)%nat.
Proof. apply map_subseteq_size, map_filter_subseteq. Qed.

Lemma size_sweep_le now w m : (size (sweep_failures now w m) <= size m)%nat.
Proof. apply size_omap_le. Qed.

Lemma size_cleanup_le now m : (size (cleanupPreAuthLocked now m) <= size m)%nat.
Proof. apply size_filter_le. Qed.

Lemma reset_idemp st now w :
  resetExpiredFailureState (resetExpiredFailureState st now w) now w
  = resetExpiredFailureState st now w.
Proof.
  unfold resetExpiredFailureState at 2 3.
  destruct (negb (IsZero (LockedUntil st)) && negb (Before now (LockedUntil st))) eqn:E1; [done|].
  destruct (_ && _ && _) eqn:E2; [done|]. unfold resetExpiredFailureState. by rewrite E1, E2.
Qed.

(** A map of at most [B] entries stays so when an entry is evicted from a full
    map before an insertion. *)
Lemma size_evict_insert `{MapOrder} {V} (stamp : V → Z) (m : gmap string V) t key x B :
  0 < B → Z.of_nat (size m) <= B → m !! "" = None →
  let k := fst (pick_oldest stamp (map_order m) ("", t)) in
  Z.of_nat (size (<[key:=x]> (if B <=? Z.of_nat (size m) then delete k m else m))) <= B.
Proof.
  intros HB Hs He k. destruct (Z.leb_spec B (Z.of_nat (size m))) as [Hf|Hf].
  - destruct (evict_oldest stamp m t) as (_ & v & Hv & _); [lia|done|].
    assert (Hd := size_delete_present m k (mk_is_Some _ _ Hv)).
    pose proof (size_insert_le (delete k m) key x). lia.
  - pose proof (size_insert_le m key x). lia.
Qed.

Lemma check_locked_size m key now now' w :
  (size (fst (check_locked m key now now' w)) <= size m)%nat.
Proof.
  unfold check_locked. destruct (m !! key) as [st|] eqn:E; [|done].
  assert (Hi : ∀ st', size (<[key:=st']> m) = size m)
    by (intros; apply map_size_insert_Some; eauto).
  repeat case_match; simpl; rewrite ?Hi; try lia.
  etrans; [apply size_delete_le|]. by rewrite Hi.
Qed.

(** Lock checks do not add keys. *)
Lemma check_locked_None m key now now' w k :
  m !! k = None → fst (check_locked m key now now' w) !! k = None.
Proof.
  intros Hk. unfold check_locked. destruct (m !! key) as [st|] eqn:E; [|done].
  assert (key ≠ k) by congruence.
  repeat case_match; simpl; rewrite ?lookup_delete_ne, ?lookup_insert_ne by done; done.
Qed.

Lemma sweep_None now w m k : m !! k = None → sweep_failures now w m !! k = None.
Proof. intros Hk. unfold sweep_failures. by rewrite lookup_omap, Hk. Qed.

Section bounded.
Context `{MapOrder} (cfg : Config).

Lemma recordClientPasswordFailure_bounded key now now' s :
  key ≠ "" → auth_bounded s →
  auth_bounded (fst (recordClientPasswordFailure cfg key now now' s)).
Proof.
  intros Hk [H1 H2 H3 H4]. unfold recordClientPasswordFailure.
  set (m := sweep_failures now (PasswordFailureWindow cfg) (passwordFailures s)).
  assert (Hm : Z.of_nat (size m) <= maxFailureEntries)
    by (etrans; [apply inj_le, size_sweep_le|done]).
  assert (He : m !! "" = None) by by apply sweep_None.
  destruct (pick_oldest failure_stamp (map_order m) ("", zero_time)) as [ok tt] eqn:Ep.
  destruct (recordFailure _ _ _ _ _ _) as [st r] eqn:Er. clear Er.
  constructor; simpl; [|done| |done].
  - destruct (bool_decide (m !! key = None)) eqn:Ek; simpl; bool_to_prop.
    + pose proof (size_evict_insert failure_stamp m zero_time key st maxFailureEntries
        ltac:(unfold maxFailureEntries; lia) Hm He) as Hb.
      rewrite Ep in Hb. simpl in Hb.
      destruct (maxFailureEntries <=? Z.of_nat (size m)) eqn:Ef; [|done].
      destruct (evict_oldest failure_stamp m zero_time) as [Hne _];
        [apply Z.leb_le in Ef; unfold maxFailureEntries in *; lia|done|].
      rewrite Ep in Hne. simpl in Hne. apply String.eqb_neq in Hne. by rewrite Hne.
    + rewrite map_size_insert_Some; [done|by apply not_eq_None_Some].
  - rewrite lookup_insert_ne by done. repeat case_match; try done.
    by apply lookup_delete_None; right.
Qed.

Lemma createPreAuth_bounded r c key now s :
  key ≠ "" → auth_bounded s → auth_bounded (createPreAuth cfg r c key now s).
Proof.
  intros Hk [H1 H2 H3 H4]. unfold createPreAuth.
  set (m := cleanupPreAuthLocked now (preAuth s)).
  assert (Hm : Z.of_nat (size m) <= maxPreAuthEntries)
    by (etrans; [apply inj_le, size_cleanup_le|done]).
  assert (He : m !! "" = None) by by apply map_lookup_filter_None_2; left.
  constructor; simpl; [done| |done|].
  - apply size_evict_insert; [unfold maxPreAuthEntries; lia|done|done].
  - rewrite lookup_insert_ne by done. case_match; [|done].
    by apply lookup_delete_None; right.
Qed.

(** Steps that only shrink a map or update a present entry. *)
Lemma auth_bounded_preAuth m s :
  auth_bounded s → (size m <= size (preAuth s))%nat → m !! "" = None →
  auth_bounded (set_preAuth m s).
Proof. intros [H1 H2 H3 H4] Hs He. constructor; simpl; [done|lia|done|done]. Qed.

Lemma auth_bounded_setups m s : auth_bounded s → auth_bounded (set_totpSetups m s).
Proof. by intros []. Qed.
Lemma auth_bounded_reauth m s : auth_bounded s → auth_bounded (set_reauthFailures m s).
Proof. by intros []. Qed.
Lemma auth_bounded_totp f s : auth_bounded s → auth_bounded (set_totpFailures f s).
Proof. by intros []. Qed.
Lemma auth_bounded_failures m s :
  auth_bounded s → (size m <= size (passwordFailures s))%nat → m !! "" = None →
  auth_bounded (set_passwordFailures m s).
Proof. intros [H1 H2 H3 H4] Hs He. constructor; simpl; [lia|done|done|done]. Qed.

Lemma auth_bounded_delete k s :
  auth_bounded s → auth_bounded (set_preAuth (delete k (preAuth s)) s).
Proof.
  intros Hs. apply auth_bounded_preAuth; [done|apply size_delete_le|].
  apply lookup_delete_None. right. apply Hs.
Qed.

Lemma auth_bounded_update k p p' s :
  auth_bounded s → preAuth s !! k = Some p →
  auth_bounded (set_preAuth (<[k:=p']> (preAuth s)) s).
Proof.
  intros Hs Hk. apply auth_bounded_preAuth; [done| |].
  - rewrite map_size_insert_Some; eauto.
  - rewrite lookup_insert_ne; [apply Hs|]. intros ->. destruct Hs. congruence.
Qed.

Lemma auth_bounded_clear s : auth_bounded s → auth_bounded (set_preAuth ∅ s).
Proof. intros Hs. apply auth_bounded_preAuth; [done|rewrite map_size_empty; lia|apply lookup_empty]. Qed.
End bounded.

Create HintDb auth_bounded.
#[export] Hint Resolve recordClientPasswordFailure_bounded createPreAuth_bounded
  auth_bounded_setups auth_bounded_reauth auth_bounded_totp auth_bounded_delete
  auth_bounded_update auth_bounded_clear : auth_bounded.

Lemma run_op_bounded `{MapOrder} cfg op s :
  op_key op ≠ Some "" → auth_bounded s → auth_bounded (fst (run_op cfg op s)).
Proof.
  intros Hk Hs. assert (Hc := ab_failures_key s Hs).
  destruct op; simpl in *; try (by eauto with auth_bounded).
  - unfold clientPasswordLocked.
    pose proof (check_locked_size (passwordFailures s) key now now' (PasswordFailureWindow cfg)).
    pose proof (check_locked_None (passwordFailures s) key now now' (PasswordFailureWindow cfg) "" Hc).
    destruct (check_locked _ _ _ _ _). by apply auth_bounded_failures.
  - assert (key ≠ "") by congruence.
    pose proof (recordClientPasswordFailure_bounded cfg key now now' s).
    destruct (recordClientPasswordFailure _ _ _ _ _). auto.
  - apply auth_bounded_failures; [done|apply size_delete_le|]. by apply lookup_delete_None; right.
  - unfold reauthLocked. destruct (check_locked _ _ _ _ _). by apply auth_bounded_reauth.
  - unfold recordReauthFailure. destruct (recordFailure _ _ _ _ _ _). by apply auth_bounded_reauth.
  - unfold recordTOTPAuthFailure. destruct (recordFailure _ _ _ _ _ _) as [st r].
    destruct (0 <? r); simpl; auto with auth_bounded.
  - apply createPreAuth_bounded; [congruence|done].
  - apply auth_bounded_preAuth; [done|apply size_filter_le|].
    apply map_lookup_filter_None_2. left. apply Hs.
  - unfold bumpPreAuthAttempt. repeat case_match; simpl; eauto with auth_bounded.
  - unfold claimPreAuth. repeat case_match; simpl; eauto with auth_bounded.
  - unfold releasePreAuth. repeat case_match; simpl; eauto with auth_bounded.
  - unfold storeTOTPSetup. case_match; simpl; auto with auth_bounded.
  - unfold loadTOTPSetup. repeat case_match; simpl in *; simplify_eq/=; auto with auth_bounded.
  - unfold clearTOTPSetupForSessionKey. case_match; simpl; auto with auth_bounded.
Qed.

(** ** Counting failures inside one window *)

Section counting.
Context (maxF window lockout t0 D : Z).
Context (HmaxF : 0 < maxF) (HDw : D <= window) (HDl : D <= lockout)
        (Hw : window <= max_int64) (Ht0 : zero_time < t0).

Definition within (t : Z) : Prop := t0 <= t < t0 + D.

(** The state after [n > 0] failures inside the span. *)
Record counted (n : Z) (st : authFailureState) : Prop := mk_counted {
  c_n : Failures st = n;
  c_pos : 0 < n <= maxF;
  c_start : within (WindowStart st);
  c_free : n < maxF → LockedUntil st = zero_time;
  c_locked : n = maxF → t0 + D <= LockedUntil st
}.

Lemma counted_locked n st now :
  counted n st → within now → is_locked st now = (maxF <=? n).
Proof.
  intros [Hn Hp Hs Hf Hl] Hnow. unfold is_locked, IsZero, Before, within in *.
  destruct (Z.leb_spec maxF n).
  - assert (n = maxF) by lia. specialize (Hl ltac:(done)).
    rewrite (proj2 (Z.eqb_neq _ _)) by lia. rewrite (proj2 (Z.ltb_lt _ _)) by lia. done.
  - by rewrite Hf, Z.eqb_refl by done.
Qed.

Lemma counted_reset n st now :
  counted n st → within now → resetExpiredFailureState st now window = st.
Proof.
  intros Hc Hnow. pose proof (counted_locked n st now Hc Hnow) as Hl.
  destruct Hc as [Hn Hp Hs Hf Hk]. unfold resetExpiredFailureState, is_locked in *.
  destruct (IsZero (LockedUntil st)) eqn:Ez; simpl in *.
  - unfold IsZero, within, Sub in *. rewrite (proj2 (Z.eqb_neq (WindowStart st) _)) by lia.
    rewrite (proj2 (Z.leb_gt _ _)); [done|]. unfold max_int64, min_int64 in *. lia.
  - rewrite Hl. destruct (Z.leb_spec maxF n); [done|].
    rewrite Hf in Ez by done. unfold IsZero in Ez. by rewrite Z.eqb_refl in Ez.
Qed.

Lemma recordFailure_counted n st now now' :
  within now → (n = 0 ∧ st = zero_failure ∨ counted n st) →
  counted (Z.min (n + 1) maxF) (fst (recordFailure st now now' maxF window lockout)).
Proof.
  intros Hnow Hst.
  assert (Hr : resetExpiredFailureState st now window = st).
  { destruct Hst as [[-> ->]|Hc]; [done|by eapply counted_reset]. }
  assert (Hp : Failures st = n ∧ 0 <= n <= maxF ∧ is_locked st now = (maxF <=? n) ∧
               (n < maxF → LockedUntil st = zero_time) ∧
               (n = maxF → t0 + D <= LockedUntil st) ∧
               within (if IsZero (WindowStart st) then now else WindowStart st)).
  { destruct Hst as [[-> ->]|Hc].
    - rewrite (proj2 (Z.leb_gt _ _)) by done. split_and!; try done; lia.
    - rewrite (counted_locked n) by done. destruct Hc as [Hn Hp Hs Hf Hl].
      split_and!; try done; try lia. by case_match. }
  destruct Hp as (Hn & Hp & Hk & Hf & Hl & Hs). unfold recordFailure. rewrite Hr. simpl.
  unfold is_locked in *. simpl. rewrite Hk. destruct (Z.leb_spec maxF n).
  - assert (n = maxF) by lia. subst n. rewrite Z.min_r by lia. destruct Hst as [[]|Hc]; [lia|].
    destruct Hc. constructor; simpl; try done; [lia|auto].
  - rewrite Hn, Hf by done. unfold within, TimeAdd in *.
    destruct (Z.leb_spec maxF (n + 1)); constructor; simpl; unfold within; try lia; done.
Qed.
End counting.

Section login_limit.
Context `{MapOrder} (cfg : Config) (key : string) (t0 D : Z).
Context (HmaxF : 0 < PasswordMaxFailures cfg) (HDw : D <= PasswordFailureWindow cfg)
        (HDl : D <= PasswordLockoutDuration cfg)
        (Hw : PasswordFailureWindow cfg <= max_int64) (Ht0 : zero_time < t0).

Let maxF := PasswordMaxFailures cfg.

(** The client has failed [n] times inside the span. *)
Definition failed (n : Z) (s : AuthMem) : Prop :=
  if n =? 0
  then passwordFailures s !! key = None ∧
       Z.of_nat (size (passwordFailures s)) < maxFailureEntries
  else ∃ st, passwordFailures s !! key = Some st ∧ counted maxF t0 D n st.

Lemma clientPasswordLocked_failed n s now :
  within t0 D now → 0 <= n → failed n s →
  let r := clientPasswordLocked cfg key now now s in
  failed n (fst r) ∧ (snd r = None ↔ n < maxF).
Proof.
  intros Hnow Hn Hf r. subst r. unfold failed, clientPasswordLocked, check_locked in *.
  destruct (Z.eqb_spec n 0) as [->|Hn0].
  - destruct Hf as [Hk Hs]. rewrite Hk. simpl. naive_solver.
  - destruct Hf as (st & Hk & Hc). rewrite Hk.
    assert (Hl : is_locked st now = (maxF <=? n)) by by eapply counted_locked.
    assert (Hr : resetExpiredFailureState st now (PasswordFailureWindow cfg) = st)
      by by eapply counted_reset.
    rewrite Hr, Hl. destruct (Z.leb_spec maxF n); simpl.
    + split; [|split; [done|lia]]. exists st. by rewrite lookup_insert_eq.
    + rewrite (c_n _ _ _ _ _ Hc), (proj2 (Z.eqb_neq _ _)) by done. simpl.
      split; [|done]. exists st. by rewrite lookup_insert_eq.
Qed.

Lemma recordClientPasswordFailure_failed n s now :
  within t0 D now → 0 <= n <= maxF → failed n s →
  failed (Z.min (n + 1) maxF) (fst (recordClientPasswordFailure cfg key now now s)).
Proof.
  intros Hnow Hn Hf. unfold recordClientPasswordFailure.
  set (m := sweep_failures now (PasswordFailureWindow cfg) (passwordFailures s)).
  assert (Hm : n = 0 ∧ m !! key = None ∧ Z.of_nat (size m) < maxFailureEntries ∨
               ∃ st, m !! key = Some st ∧ counted maxF t0 D n st).
  { unfold failed in Hf. destruct (Z.eqb_spec n 0) as [->|Hn0].
    - destruct Hf as [Hk Hs]. left. split_and!; [done|by apply sweep_None|].
      eapply Z.le_lt_trans; [apply inj_le, size_sweep_le|done].
    - destruct Hf as (st & Hk & Hc). right. exists st. split; [|done].
      unfold m, sweep_failures. rewrite lookup_omap, Hk. simpl.
      assert (Hr : resetExpiredFailureState st now (PasswordFailureWindow cfg) = st)
        by by eapply counted_reset.
      rewrite Hr. by rewrite (c_n _ _ _ _ _ Hc), (proj2 (Z.eqb_neq _ _)) by done. }
  destruct (pick_oldest failure_stamp (map_order m) ("", zero_time)) as [ok tt].
  set (m' := if bool_decide (m !! key = None) && _ then _ else m).
  assert (Hm' : m' = m).
  { unfold m'. destruct Hm as [(_ & _ & Hs)|(st & Hk & _)].
    - rewrite (proj2 (Z.leb_gt _ _)) by done. by rewrite andb_false_r.
    - by rewrite bool_decide_eq_false_2 by congruence. }
  rewrite Hm'. clear m' Hm'.
  assert (Hc : counted maxF t0 D (Z.min (n + 1) maxF) (fst (recordFailure (default zero_failure (m !! key))
    now now maxF (PasswordFailureWindow cfg) (PasswordLockoutDuration cfg)))).
  { eapply recordFailure_counted; eauto.
    destruct Hm as [(-> & Hk & _)|(st & Hk & Hct)]; rewrite Hk; auto. }
  unfold maxF in Hc. destruct (recordFailure _ _ _ _ _ _) as [st' r]. unfold failed.
  rewrite (proj2 (Z.eqb_neq _ _)) by lia. exists st'. simpl.
  by rewrite lookup_insert_eq.
Qed.

(** The invariant of a run of attempts. *)
Record attempts_inv (K : Z) (st : attempts) : Prop := mk_attempts_inv {
  ai_failed : failed (Z.min (at_failed st) maxF) (at_mem st);
  ai_pos : 0 <= at_failed st;
  ai_inflight : 0 <= at_inflight st <= K;
  ai_sum : at_admitted st = at_failed st + at_inflight st;
  ai_bound : at_failed st < maxF ∨ at_admitted st < maxF + K
}.

Lemma attempt_step_inv K st a :
  within t0 D (attempt_time a) → attempts_inv K st → attempts_inv K (attempt_step cfg key K st a).
Proof.
  intros Ht [Hf Hp Hi Hs Hb]. destruct a as [now|now]; simpl in *.
  - pose proof (clientPasswordLocked_failed (Z.min (at_failed st) maxF) _ now Ht ltac:(lia) Hf) as [Hf' Hl].
    destruct (clientPasswordLocked cfg key now now (at_mem st)) as [m [r|]]; simpl in *;
      [by constructor|].
    assert (at_failed st < maxF) by (apply proj1 in Hl; specialize (Hl eq_refl); lia).
    destruct (Z.ltb_spec (at_inflight st) K); constructor; simpl; auto; lia.
  - destruct (Z.ltb_spec (at_inflight st) 1); [by constructor|].
    pose proof (recordClientPasswordFailure_failed (Z.min (at_failed st) maxF) _ now Ht ltac:(lia) Hf) as Hf'.
    constructor; simpl; try lia.
    by replace (Z.min (at_failed st + 1) maxF) with (Z.min (Z.min (at_failed st) maxF + 1) maxF)
      by lia.
Qed.

Lemma attempts_run_inv K ats st :
  Forall (λ a, within t0 D (attempt_time a)) ats → attempts_inv K st →
  attempts_inv K (fold_left (attempt_step cfg key K) ats st).
Proof.
  intros Hats. revert st. induction Hats as [|a ats Ha _ IH]; intros st Hst; simpl; [done|].
  apply IH. by apply attempt_step_inv.
Qed.
End login_limit.

(** ** Histories of a pre-authentication record *)

Definition creates (key : string) (op : auth_op) : bool :=
  match op with OpCreatePreAuth _ _ k _ => String.eqb k key | _ => false end.
Definition releases (key : string) (op : auth_op) : bool :=
  match op with OpRelease k => String.eqb k key | _ => false end.
Definition bumps (key : string) (op : auth_op) : bool :=
  match op with OpBump k => String.eqb k key | _ => false end.

(** What a step may do to the record of [key]. *)
Definition pa_next (key : string) (op : auth_op) (p p' : preAuthState) : Prop :=
  pa_Expires p' = pa_Expires p ∧ pa_Remember p' = pa_Remember p ∧
  pa_ClientKey p' = pa_ClientKey p ∧
  pa_Attempts p' = pa_Attempts p + (if bumps key op then 1 else 0) ∧
  (pa_Busy p = true → releases key op = false → pa_Busy p' = true).

Lemma pa_next_refl key op p : bumps key op = false → pa_next key op p p.
Proof. unfold pa_next. intros ->. by rewrite Z.add_0_r. Qed.

(** The two shapes of an update at some key [k]. *)
Lemma pa_step_insert key op (m : gmap string preAuthState) k p0 p1 p' :
  m !! k = Some p0 → (k = key → pa_next key op p0 p1) → (k ≠ key → bumps key op = false) →
  <[k:=p1]> m !! key = Some p' → ∃ p, m !! key = Some p ∧ pa_next key op p p'.
Proof.
  intros Hk Hsame Hother. destruct (decide (k = key)) as [->|Hne].
  - rewrite lookup_insert_eq. intros [= <-]. eauto.
  - rewrite lookup_insert_ne by done. eauto using pa_next_refl.
Qed.

Lemma pa_step_sub key op (m m' : gmap string preAuthState) p' :
  m' ⊆ m → (m' !! key = Some p' → bumps key op = false) →
  m' !! key = Some p' → ∃ p, m !! key = Some p ∧ pa_next key op p p'.
Proof.
  intros Hsub Hb Hk. exists p'. split; [by eapply lookup_weaken|]. by apply pa_next_refl, Hb.
Qed.

Lemma preAuth_next `{MapOrder} cfg op s key p' :
  creates key op = false → preAuth (fst (run_op cfg op s)) !! key = Some p' →
  ∃ p, preAuth s !! key = Some p ∧ pa_next key op p p'.
Proof.
  intros Hc. destruct op; simpl in *;
    try (by intros; exists p'; split; [done|apply pa_next_refl]).
  - unfold clientPasswordLocked. destruct (check_locked _ _ _ _ _). simpl. eauto using pa_next_refl.
  - destruct (recordClientPasswordFailure cfg key0 now now' s) as [s' r] eqn:E. simpl.
    unfold recordClientPasswordFailure in E. destruct (pick_oldest _ _ _).
    destruct (recordFailure _ _ _ _ _ _). simplify_eq/=. eauto using pa_next_refl.
  - unfold reauthLocked. destruct (check_locked _ _ _ _ _). simpl. eauto using pa_next_refl.
  - unfold recordReauthFailure. destruct (recordFailure _ _ _ _ _ _). simpl. eauto using pa_next_refl.
  - unfold recordTOTPAuthFailure. destruct (recordFailure _ _ _ _ _ _) as [st r].
    destruct (0 <? r); simpl; eauto using pa_next_refl. by rewrite lookup_empty.
  - apply String.eqb_neq in Hc. rewrite lookup_insert_ne by done.
    apply pa_step_sub; [|done].
    assert (Hf : cleanupPreAuthLocked now (preAuth s) ⊆ preAuth s) by apply map_filter_subseteq.
    case_match; [|done]. etrans; [apply delete_subseteq|done].
  - apply pa_step_sub; [apply map_filter_subseteq|done].
  - unfold bumpPreAuthAttempt. destruct (preAuth s !! key0) as [p0|] eqn:E.
    + case_match; simpl.
      * intros Hk. assert (key0 ≠ key) by (intros ->; by rewrite lookup_delete_eq in Hk).
        revert Hk. apply pa_step_sub; [apply delete_subseteq|].
        intros _. by apply String.eqb_neq.
      * eapply pa_step_insert; [done| |by apply String.eqb_neq].
        intros ->. unfold pa_next. simpl. by rewrite String.eqb_refl.
    + simpl. intros Hk. exists p'. split; [done|]. apply pa_next_refl. simpl.
      apply String.eqb_neq. congruence.
  - unfold claimPreAuth. repeat case_match; simpl; eauto using pa_next_refl.
    + apply pa_step_sub; [apply delete_subseteq|done].
    + eapply pa_step_insert; [done| |done]. intros ->. unfold pa_next. simpl. by rewrite Z.add_0_r.
  - unfold releasePreAuth. case_match; simpl; eauto using pa_next_refl.
    eapply pa_step_insert; [done| |done]. intros ->. unfold pa_next. simpl.
    by rewrite Z.add_0_r, String.eqb_refl.
  - apply pa_step_sub; [apply delete_subseteq|done].
  - unfold storeTOTPSetup. case_match; simpl; eauto using pa_next_refl.
  - unfold loadTOTPSetup. repeat case_match; simplify_eq/=; eauto using pa_next_refl.
  - unfold clearTOTPSetupForSessionKey. case_match; simpl; eauto using pa_next_refl.
Qed.

(** Over a whole history. *)
Lemma preAuth_history `{MapOrder} cfg ops s key p' :
  Forall (λ op, creates key op = false) ops →
  preAuth (run_ops cfg ops s) !! key = Some p' →
  ∃ p, preAuth s !! key = Some p ∧
    pa_Expires p' = pa_Expires p ∧
    pa_Attempts p' = pa_Attempts p + Z.of_nat (length (filter (λ op, bumps key op = true) ops)) ∧
    (pa_Busy p = true → Forall (λ op, releases key op = false) ops → pa_Busy p' = true).
Proof.
  unfold run_ops. intros Hops. revert s.
  induction Hops as [|op ops Hop _ IH]; intros s Hk; simpl in *.
  { exists p'. split_and!; [done|done|rewrite Z.add_0_r; done|done]. }
  destruct (IH _ Hk) as (p1 & Hk1 & He1 & Ha1 & Hb1).
  destruct (preAuth_next cfg op s key p1 Hop Hk1) as (p & Hp & He & _ & _ & Ha & Hb).
  exists p. split_and!; [done|congruence| |].
  - rewrite filter_cons. case_decide as Hd; [|apply not_true_is_false in Hd];
      rewrite Hd in Ha; simpl; lia.
  - intros Hbusy [Hr Hrs]%Forall_cons_1. auto.
Qed.

Lemma empty_auth_bounded : auth_bounded empty_auth.
Proof. by constructor. Qed.

(** ** Properties *)





(** C22. A pre-authentication authorises one login at a time: once a request has
    claimed it, no other request claims it, whatever runs in between, until it
    is released (the transaction failed) or a new record is made. *)
Theorem claimPreAuth_exclusive `{MapOrder} cfg key now now' ops s :
  snd (claimPreAuth cfg key now s) = true →
  Forall (λ op, creates key op = false ∧ releases key op = false) ops →
  snd (claimPreAuth cfg key now' (run_ops cfg ops (fst (claimPreAuth cfg key now s)))) = false.
Proof.
  intros Hclaim [Hc Hr]%Forall_and. set (s' := run_ops _ _ _).
  unfold claimPreAuth at 1. destruct (preAuth s' !! key) as [p'|] eqn:Ek; [|done].
  destruct (preAuth_history _ _ _ _ _ Hc Ek) as (p & Hp & _ & _ & Hb).
  rewrite Hb; [by destruct (negb _)| |done].
  unfold claimPreAuth in *. repeat case_match; simplify_eq/=.
  rewrite lookup_insert_eq in Hp. by injection Hp as <-.
Qed.

Lemma claimPreAuth_exclusive_witness :
  let s := fst (run_op (H:=canonical_order) demo_config (OpCreatePreAuth false "c" "k" 0) empty_auth) in
  snd (claimPreAuth demo_config "k" 1 s) = true ∧
  snd (claimPreAuth demo_config "k" 2
    (run_ops (H:=canonical_order) demo_config [OpBump "k"; OpCleanupPreAuth 2]
       (fst (claimPreAuth demo_config "k" 1 s)))) = false.
Proof.
  split; [by vm_compute|].
  apply (claimPreAuth_exclusive (H:=canonical_order)); [by vm_compute|repeat constructor].
Defined.

(** C23. A pre-authentication admits at most [PreAuthMaxAttempts] wrong codes and
    dies at its expiry: after that many [bumpPreAuthAttempt] calls, or at any
    reading past [Expires], no history lets it be claimed. *)
Theorem preAuth_exhausted `{MapOrder} cfg key now ops s p :
  preAuth s !! key = Some p → 0 <= pa_Attempts p →
  Forall (λ op, creates key op = false) ops →
  PreAuthMaxAttempts cfg <= Z.of_nat (length (filter (λ op, bumps key op = true) ops))
  ∨ pa_Expires p <= now →
  snd (claimPreAuth cfg key now (run_ops cfg ops s)) = false.
Proof.
  intros Hp Ha Hc Hor. set (s' := run_ops _ _ _).
  unfold claimPreAuth. destruct (preAuth s' !! key) as [p'|] eqn:Ek; [|done].
  destruct (preAuth_history _ _ _ _ _ Hc Ek) as (p1 & Hp1 & He & Hat & _). simplify_eq.
  unfold Before. destruct (Z.ltb_spec now (pa_Expires p')); [|done]. simpl.
  assert (PreAuthMaxAttempts cfg <= pa_Attempts p') as Hle%Z.leb_le by lia.
  by rewrite Hle, orb_true_r.
Qed.

Lemma preAuth_exhausted_witness :
  let s := fst (run_op (H:=canonical_order) demo_config (OpCreatePreAuth false "c" "k" 0) empty_auth) in
  snd (claimPreAuth demo_config "k" 1
    (run_ops (H:=canonical_order) demo_config
       (replicate (Z.to_nat (PreAuthMaxAttempts demo_config)) (OpBump "k")) s)) = false.
Proof.
  eapply (preAuth_exhausted (H:=canonical_order)).
  - vm_compute. reflexivity.
  - done.
  - by repeat constructor.
  - left. by vm_compute.
Defined.
