(* ===== verification/Json.v ===== *)
(** * Package [encoding/json], for a list of strings

    What [json.Marshal] writes for a [[]string] and what [json.Unmarshal]
    accepts into one.  Structural characters are ASCII, so both work on the
    runes of the text; an ill-formed byte reads as U+FFFD. *)

From S2P Require Export GoLib.

(** ** Definitions *)

(** UTF-8 encoding of a rune. *)
Definition encode_rune (r : Z) : list Z :=
  if r <? 128 then [r]
  else if r <? 2048 then [192 + r / 64; 128 + r mod 64]
  else if r <? 65536 then [224 + r / 4096; 128 + r / 64 mod 64; 128 + r mod 64]
  else [240 + r / 262144; 128 + r / 4096 mod 64; 128 + r / 64 mod 64; 128 + r mod 64].

Definition string_of_runes (l : list Z) : string := unvals (flat_map encode_rune l).

Definition hex_digit (d : Z) : Z := if d <? 10 then 48 + d else 87 + d.

(** The [\uXXXX] escape of a code point below 65536. *)
Definition u_escape (r : Z) : list Z :=
  [92; 117; hex_digit (r / 4096 mod 16); hex_digit (r / 256 mod 16);
   hex_digit (r / 16 mod 16); hex_digit (r mod 16)].

(** One rune inside a string literal, HTML escaping on. *)
Definition json_rune (r : option Z) : list Z :=
  match r with
  | None => u_escape 65533
  | Some c =>
    if (c =? 34) || (c =? 92) then [92; c]
    else if c =? 8 then [92; 98]
    else if c =? 12 then [92; 102]
    else if c =? 10 then [92; 110]
    else if c =? 13 then [92; 114]
    else if c =? 9 then [92; 116]
    else if (c <? 32) || (c =? 60) || (c =? 62) || (c =? 38) || (c =? 8232) || (c =? 8233)
         then u_escape c
    else [c]
  end.

Definition json_string (s : string) : list Z := 34 :: flat_map json_rune (runes s) ++ [34].

Fixpoint json_items (l : list string) : list Z :=
  match l with
  | [] => []
  | [s] => json_string s
  | s :: rest => json_string s ++ 44 :: json_items rest
  end.

(** [json.Marshal] of a non-nil slice. *)
Definition MarshalStrings (l : list string) : string :=
  string_of_runes (91 :: json_items l ++ [93]).

Definition is_ws (r : Z) : bool := (r =? 32) || (r =? 9) || (r =? 10) || (r =? 13).
Definition skip_ws : list Z → list Z := drop_while is_ws.

Definition hex4 (a b c d : Z) : option Z :=
  match digit_val 16 a, digit_val 16 b, digit_val 16 c, digit_val 16 d with
  | Some a, Some b, Some c, Some d => Some (((a * 16 + b) * 16 + c) * 16 + d)
  | _, _, _, _ => None
  end.

Definition simple_escape (e : Z) : option Z :=
  if (e =? 34) || (e =? 92) || (e =? 47) then Some e
  else if e =? 98 then Some 8 else if e =? 102 then Some 12
  else if e =? 110 then Some 10 else if e =? 114 then Some 13
  else if e =? 116 then Some 9 else None.

Definition is_surrogate (u : Z) : bool := (55296 <=? u) && (u <? 57344).

(** The runes of a literal after its opening quote, and what follows. *)
Fixpoint scan_string (acc l : list Z) : option (list Z * list Z) :=
  match l with
  | [] => None
  | 34 :: t => Some (reverse acc, t)
  | 92 :: 117 :: a :: b :: c :: d :: t =>
    match hex4 a b c d with
    | None => None
    | Some u =>
      match t with
      | 92 :: 117 :: a2 :: b2 :: c2 :: d2 :: t2 =>
        match hex4 a2 b2 c2 d2 with
        | Some u2 =>
          if (55296 <=? u) && (u <? 56320) && (56320 <=? u2) && (u2 <? 57344)
          then scan_string (65536 + (u - 55296) * 1024 + (u2 - 56320) :: acc) t2
          else scan_string ((if is_surrogate u then 65533 else u) :: acc) t
        | None => None
        end
      | _ => scan_string ((if is_surrogate u then 65533 else u) :: acc) t
      end
    end
  | 92 :: e :: t =>
    match simple_escape e with
    | Some r => scan_string (r :: acc) t
    | None => None
    end
  | r :: t => if r <? 32 then None else scan_string (r :: acc) t
  end.

(** An element: a string, or [null], which leaves the empty string. *)
Definition scan_item (l : list Z) : option (string * list Z) :=
  match l with
  | 34 :: t => match scan_string [] t with
               | Some (rs, t') => Some (string_of_runes rs, t')
               | None => None
               end
  | 110 :: 117 :: 108 :: 108 :: t => Some ("", t)
  | _ => None
  end.

(** The elements up to the closing bracket; each takes at least one rune of
    fuel. *)
Fixpoint scan_items (fuel : nat) (l : list Z) : option (list string * list Z) :=
  match fuel with
  | O => None
  | S fuel =>
    match scan_item (skip_ws l) with
    | None => None
    | Some (s, t) =>
      match skip_ws t with
      | 93 :: t' => Some ([s], t')
      | 44 :: t' => match scan_items fuel t' with
                    | Some (rest, t'') => Some (s :: rest, t'')
                    | None => None
                    end
      | _ => None
      end
    end
  end.

Definition scan_list (l : list Z) : option (list string * list Z) :=
  match skip_ws l with
  | 93 :: t => Some ([], t)
  | l' => scan_items (S (length l')) l'
  end.

(** [json.Unmarshal] into a nil [[]string]: [None] is a non-nil error. *)
Definition UnmarshalStrings (s : string) : option (list string) :=
  match skip_ws (range_runes s) with
  | 91 :: t => match scan_list t with
               | Some (l, rest) => match skip_ws rest with [] => Some l | _ => None end
               | None => None
               end
  | 110 :: 117 :: 108 :: 108 :: t => match skip_ws t with [] => Some [] | _ => None end
  | _ => None
  end.

Example unmarshal_examples :
  UnmarshalStrings (of_bytes (map byte_of [32;91;34;99;92;117;48;48;55;48;34;44;110;117;108;108;93]))
  = Some ["cp"; ""] ∧
  UnmarshalStrings "[1]" = None ∧ UnmarshalStrings "null " = Some [] ∧
  UnmarshalStrings "[]x" = None.
Proof. by vm_compute. Qed.

(** ** Lemmas *)

(** A string of characters that stand for themselves in a literal. *)
Definition plain (s : string) : bool :=
  forallb (λ b, (32 <=? b) && (b <? 127) &&
    negb ((b =? 34) || (b =? 92) || (b =? 60) || (b =? 62) || (b =? 38))) (vals s).

Definition plain_char (b : Z) : Prop :=
  32 <= b < 127 ∧ b ≠ 34 ∧ b ≠ 92 ∧ b ≠ 60 ∧ b ≠ 62 ∧ b ≠ 38.

Lemma plain_chars s : plain s = true → Forall plain_char (vals s).
Proof.
  unfold plain. rewrite forallb_forall, Forall_forall. setoid_rewrite list_elem_of_In.
  intros H x Hx. specialize (H x Hx). unfold plain_char. lia.
Qed.

Lemma decode_ascii_list l : Forall (λ b, 0 <= b < 128) l → decode l = map Some l.
Proof.
  induction 1 as [|b l Hb _ IH]; simpl; [done|].
  rewrite (proj2 (Z.ltb_lt b 128)) by lia. by rewrite IH.
Qed.

Lemma string_of_ascii l :
  Forall (λ b, 0 <= b < 128) l → vals (string_of_runes l) = l.
Proof.
  intros H. unfold string_of_runes.
  assert (Hf : flat_map encode_rune l = l).
  { induction H as [|b l Hb _ IH]; simpl; [done|]. unfold encode_rune at 1.
    rewrite (proj2 (Z.ltb_lt b 128)) by lia. simpl. by rewrite IH. }
  rewrite Hf. apply vals_unvals. eapply Forall_impl; [exact H|]. intros; simpl in *; lia.
Qed.

Lemma json_string_plain s : plain s = true → json_string s = 34 :: vals s ++ [34].
Proof.
  intros Hp%plain_chars. unfold json_string, runes. fold (vals s).
  rewrite decode_ascii_list by (eapply Forall_impl; [exact Hp|]; intros b [? _]; lia).
  do 2 f_equal. induction Hp as [|b l Hb _ IH]; simpl; [done|]. rewrite IH.
  unfold json_rune, plain_char in *.
  repeat (match goal with |- context [?x =? ?y] => rewrite (proj2 (Z.eqb_neq x y)) by lia end).
  rewrite (proj2 (Z.ltb_ge _ _)) by lia. done.
Qed.

Lemma scan_string_cons acc r t :
  32 <= r → r ≠ 34 → r ≠ 92 → scan_string acc (r :: t) = scan_string (r :: acc) t.
Proof.
  intros H1 H2 H3. assert (Hlt : (r <? 32) = false) by (apply Z.ltb_ge; lia).
  destruct (decide (r < 128)); [|simpl; rewrite Hlt].
  - assert (Hin : r ∈ map Z.of_nat (seq 0 128)).
    { apply list_elem_of_In, in_map_iff. exists (Z.to_nat r). rewrite in_seq. lia. }
    revert H1 H2 H3 Hlt Hin. clear. intros H1 H2 H3 Hlt Hin.
    simpl in Hin. repeat (apply elem_of_cons in Hin as [->|Hin]; [first [done|lia]|]).
    by apply not_elem_of_nil in Hin.
  - destruct r as [|p|p]; try lia. do 7 (destruct p as [p|p|]; try lia; try reflexivity).
Qed.

Lemma scan_string_plain acc l t :
  Forall plain_char l → scan_string acc (l ++ 34 :: t) = Some (reverse acc ++ l, t).
Proof.
  intros Hl. revert acc. induction Hl as [|b l Hb _ IH]; intros acc; cbn [app].
  - by rewrite app_nil_r.
  - unfold plain_char in Hb. rewrite scan_string_cons by lia.
    rewrite IH, reverse_cons, <-(assoc_L (++)). done.
Qed.

Lemma plain_ascii l : Forall plain_char l → Forall (λ b, 0 <= b < 128) l.
Proof. intros H. eapply Forall_impl; [exact H|]. intros b [? _]. lia. Qed.

Lemma scan_item_plain s t :
  plain s = true → scan_item (34 :: vals s ++ 34 :: t) = Some (s, t).
Proof.
  intros Hp%plain_chars. unfold scan_item. rewrite scan_string_plain by done. simpl.
  do 2 f_equal. apply vals_inj. by apply string_of_ascii, plain_ascii.
Qed.

Lemma scan_items_marshal l t fuel :
  l ≠ [] → Forall (λ s, plain s = true) l → (length l <= fuel)%nat →
  scan_items fuel (json_items l ++ 93 :: t) = Some (l, t).
Proof.
  intros Hne Hl. revert fuel. induction Hl as [|s l Hs Hl IH]; intros fuel Hf; [done|].
  destruct fuel as [|fuel]; simpl in Hf; [lia|]. cbn [scan_items].
  assert (Hi : ∀ u, skip_ws (json_string s ++ u) = 34 :: vals s ++ 34 :: u).
  { intros u. rewrite json_string_plain by done. simpl. by rewrite <-(assoc_L (++)). }
  destruct l as [|s' l'].
  - cbn [json_items]. by rewrite Hi, scan_item_plain.
  - change (json_items (s :: s' :: l')) with (json_string s ++ 44 :: json_items (s' :: l')).
    rewrite <-(assoc_L (++)), Hi, scan_item_plain by done.
    change (skip_ws ((44 :: json_items (s' :: l')) ++ 93 :: t))
      with (44 :: json_items (s' :: l') ++ 93 :: t).
    cbv iota. rewrite IH; [done|done|lia].
Qed.

Lemma json_items_ascii l :
  Forall (λ s, plain s = true) l → Forall (λ b, 0 <= b < 128) (json_items l).
Proof.
  induction 1 as [|s l Hs Hl IH]; [constructor|].
  assert (Hj : Forall (λ b, 0 <= b < 128) (json_string s)).
  { rewrite json_string_plain by done. constructor; [lia|]. apply Forall_app. split.
    - by apply plain_ascii, plain_chars.
    - constructor; [lia|constructor]. }
  destruct l; cbn [json_items]; [done|]. apply Forall_app. split; [done|].
  constructor; [lia|done].
Qed.

Lemma length_json_items l : (length l <= length (json_items l))%nat.
Proof.
  induction l as [|s [|s' l] IH]; [done|simpl; lia|].
  change (json_items (s :: s' :: l)) with (json_string s ++ 44 :: json_items (s' :: l)).
  rewrite length_app. simpl in *. lia.
Qed.

(** Lists of plain strings survive a round trip through their JSON text. *)
Lemma UnmarshalStrings_MarshalStrings l :
  Forall (λ s, plain s = true) l → UnmarshalStrings (MarshalStrings l) = Some l.
Proof.
  intros Hl. unfold UnmarshalStrings, MarshalStrings, range_runes, runes.
  assert (Ha : Forall (λ b, 0 <= b < 128) (91 :: json_items l ++ [93])).
  { constructor; [lia|]. apply Forall_app. split; [by apply json_items_ascii|].
    constructor; [lia|constructor]. }
  fold (vals (string_of_runes (91 :: json_items l ++ [93]))).
  rewrite string_of_ascii, decode_ascii_list, map_map by done.
  rewrite (map_ext _ id), map_id by done.
  change (skip_ws (91 :: json_items l ++ [93])) with (91 :: json_items l ++ [93]).
  cbv iota. destruct l as [|s l]; [done|]. unfold scan_list.
  assert (Hs : skip_ws (json_items (s :: l) ++ [93]) = json_items (s :: l) ++ [93] ∧
               ∃ u, json_items (s :: l) ++ [93] = 34 :: u).
  { inversion Hl as [|? ? Hs _]; subst. pose proof (json_string_plain s Hs) as He.
    destruct l; cbn [json_items]; rewrite He; simpl; eauto. }
  destruct Hs as [-> [u Hu]]. rewrite Hu. cbv iota. rewrite <-Hu.
  rewrite scan_items_marshal; [done|done|done|].
  rewrite length_app. pose proof (length_json_items (s :: l)). simpl in *. lia.
Qed.
