(* ===== verification/Store.v ===== *)
(** * The store ([internal/server/store.go])

    The SQLite database is a record of tables.  A statement either fails or
    maps the database to a new one; failures are injected by a list of Booleans
    ([true]: this call to the database fails), so that a theorem for all lists
    covers every failure point.  A transaction whose body returns an error, or
    returns without committing, or whose COMMIT fails, leaves the database as it
    was.  The pool has one connection ([SetMaxOpenConns(1)]), so transactions do
    not interleave.

    A reading of [time.Now().Unix()] is an argument.  Passwords go through the
    interface [PasswordScheme]; the JSON text of a [SystemInfo] through
    [InfoCodec]. *)

From S2P Require Export Json.
From S2P Require Export Hash.
From S2P Require Export Password.
From S2P Require Export Validation.

(** ** Tables *)

Record dev_row : Type := mkDevRow {
  dr_name : string;
  dr_token_hash : string;
  dr_last_seen : Z;
  dr_info_json : string;
  dr_sort_order : Z;
  dr_metric_cards : string
}.

(** The one row of [admins] has [id = 1]. *)
Record admin_row : Type := mkAdminRow {
  ar_username : string;
  ar_password_hash : string;
  ar_totp_secret : string;
  ar_last_step : Z;
  ar_updated_at : Z
}.

Record enroll_row : Type := mkEnrollRow {
  er_label : string;
  er_token_hash : string;
  er_created_at : Z;
  er_expires_at : Z;
  er_used_at : Z
}.

Record sess_row : Type := mkSessRow {
  sr_created_at : Z;
  sr_expires_at : Z;
  sr_persistent : Z
}.

(** [devices] and [enrollment_tokens] are keyed by [id], [sessions] by
    [token_hash]. *)
Record DB : Type := mkDB {
  t_devices : gmap string dev_row;
  t_admins : option admin_row;
  t_enroll : gmap string enroll_row;
  t_sessions : gmap string sess_row
}.

Definition empty_db : DB := mkDB ∅ None ∅ ∅.

Definition set_devices m db := mkDB m (t_admins db) (t_enroll db) (t_sessions db).
Definition set_admins a db := mkDB (t_devices db) a (t_enroll db) (t_sessions db).
Definition set_enroll m db := mkDB (t_devices db) (t_admins db) m (t_sessions db).
Definition set_sessions m db := mkDB (t_devices db) (t_admins db) (t_enroll db) m.

(** ** The database monad *)

Record world : Type := mkWorld { w_db : DB; w_faults : list bool }.

Definition stm (A : Type) : Type := world → res A * world.

#[global] Instance stm_ret : MRet stm := λ A a w, (Ok a, w).
#[global] Instance stm_bind : MBind stm := λ A B k m w,
  match m w with
  | (Ok a, w') => k a w'
  | (Err e, w') => (Err e, w')
  end.

Definition throw {A} (e : string) : stm A := λ w, (Err e, w).

(** The outcome of a call as a value, for callers that ignore or inspect it. *)
Definition attempt {A} (m : stm A) : stm (res A) := λ w, let (r, w') := m w in (Ok r, w').

Definition lift_res {A} (r : res A) : stm A := λ w, (r, w).

(** One call to the database: takes its fault from the list. *)
Definition db_call : stm unit := λ w,
  match w_faults w with
  | true :: fs => (Err "db_error", mkWorld (w_db w) fs)
  | false :: fs => (Ok (), mkWorld (w_db w) fs)
  | [] => (Ok (), w)
  end.

Definition modify (f : DB → res (DB * Z)) : stm Z := λ w,
  match f (w_db w) with
  | Ok (db, n) => (Ok n, mkWorld db (w_faults w))
  | Err e => (Err e, w)
  end.

Definition gets {A} (f : DB → A) : stm A := λ w, (Ok (f (w_db w)), w).

(** [Exec]: the statement's effect and the number of rows it affected, or the
    constraint it violates. *)
Definition exec (f : DB → res (DB * Z)) : stm Z := _ ← db_call; modify f.

(** [res.RowsAffected()] *)
Definition rows_affected (n : Z) : stm Z := _ ← db_call; mret n.

(** [QueryRow(...).Scan(...)]: [None] is [sql.ErrNoRows]. *)
Definition query_row {A} (f : DB → option A) : stm (option A) := _ ← db_call; gets f.

(** A [rows.Next()] loop: the rows read and whether reading stopped early, the
    error [rows.Err()] then reports. *)
Fixpoint read_rows {A} (rows : list A) : stm (list A * bool) :=
  match rows with
  | [] => mret ([], false)
  | r :: rest =>
    ok ← attempt db_call;
    match ok with
    | Err _ => mret ([], true)
    | Ok _ => x ← read_rows rest; mret (r :: fst x, snd x)
    end
  end.

Definition query {A} (f : DB → list A) : stm (list A * bool) :=
  _ ← db_call; rows ← gets f; read_rows rows.

(** How the body of a transaction ends when it does not fail. *)
Inductive tx_end (A : Type) : Type :=
| Commit (a : A)
| Rollback (a : A).
Arguments Commit {A} a.
Arguments Rollback {A} a.

(** [Begin], the body, and [Commit] or the deferred [Rollback]. *)
Definition with_tx {A} (body : stm (tx_end A)) : stm A := λ w,
  match db_call w with
  | (Err e, w0) => (Err e, w0)
  | (Ok _, w0) =>
    match body w0 with
    | (Err e, w1) => (Err e, mkWorld (w_db w0) (w_faults w1))
    | (Ok (Rollback a), w1) => (Ok a, mkWorld (w_db w0) (w_faults w1))
    | (Ok (Commit a), w1) =>
      match db_call w1 with
      | (Err e, w2) => (Err e, mkWorld (w_db w0) (w_faults w2))
      | (Ok _, w2) => (Ok a, w2)
      end
    end
  end.

(** ** Records *)

Record DeviceRecord : Type := mkDevice {
  d_ID : string;
  d_Name : string;
  d_TokenHash : string;
  d_LastSeen : Z;
  d_Info : option SystemInfo;
  d_SortOrder : Z;
  d_MetricCards : list string
}.

Record AdminRecord : Type := mkAdmin {
  a_Username : string;
  a_PasswordHash : string;
  a_TOTPSecret : string;
  a_LastTOTPLoginStep : Z
}.

(** [protocol.MarshalSystemInfo] and [protocol.UnmarshalSystemInfo], calls of
    [encoding/json]; [None] is an error. *)
Class InfoCodec : Type := {
  marshal_info : SystemInfo → res string;
  unmarshal_info : string → option SystemInfo
}.

Definition hashToken (token : string) : string := unvals (sha256 (vals token)).

Definition sessionPersistentValue (persistent : bool) : Z := if persistent then 1 else 0.

(** ** Metric cards *)

Definition defaultMetricCardsJSON : string := MarshalStrings metricCardOrder.

Definition encodeMetricCards (cards : list string) : res string :=
  match cards with
  | [] => Ok defaultMetricCardsJSON
  | _ =>
    try normalized := NormalizeMetricCards cards 3 in
    Ok (MarshalStrings normalized)
  end.

Definition decodeMetricCards (encoded : string) : list string :=
  match UnmarshalStrings encoded with
  | Some cards =>
    match NormalizeMetricCards cards 3 with
    | Ok normalized => normalized
    | Err _ => DefaultMetricCards
    end
  | None => DefaultMetricCards
  end.

(** ** Statements *)

(** [(SELECT COALESCE(MAX(sort_order),-1)+1 FROM devices)] *)
Definition next_sort_order (m : gmap string dev_row) : Z :=
  map_fold (λ _ d acc, Z.max (dr_sort_order d) acc) (-1) m + 1.

Definition set_name n (d : dev_row) :=
  mkDevRow n (dr_token_hash d) (dr_last_seen d) (dr_info_json d) (dr_sort_order d) (dr_metric_cards d).
Definition set_sort n (d : dev_row) :=
  mkDevRow (dr_name d) (dr_token_hash d) (dr_last_seen d) (dr_info_json d) n (dr_metric_cards d).
Definition set_cards c (d : dev_row) :=
  mkDevRow (dr_name d) (dr_token_hash d) (dr_last_seen d) (dr_info_json d) (dr_sort_order d) c.
Definition set_heartbeat ls i (d : dev_row) :=
  mkDevRow (dr_name d) (dr_token_hash d) ls i (dr_sort_order d) (dr_metric_cards d).

(** [UPDATE devices SET ... WHERE id=?] *)
Definition upd_device (id : string) (f : dev_row → dev_row) (db : DB) : res (DB * Z) :=
  match t_devices db !! id with
  | Some d => Ok (set_devices (<[id := f d]> (t_devices db)) db, 1)
  | None => Ok (db, 0)
  end.

(** [INSERT INTO devices ...]: the primary key must be new. *)
Definition ins_device (id : string) (f : Z → dev_row) (db : DB) : res (DB * Z) :=
  match t_devices db !! id with
  | Some _ => Err "UNIQUE constraint failed: devices.id"
  | None => Ok (set_devices (<[id := f (next_sort_order (t_devices db))]> (t_devices db)) db, 1)
  end.

(** [INSERT ... ON CONFLICT(id) DO UPDATE SET name, token_hash, last_seen,
    info_json]. *)
Definition put_device (id name hash : string) (last_seen : Z) (info cards : string) (db : DB)
    : res (DB * Z) :=
  match t_devices db !! id with
  | Some d =>
    Ok (set_devices (<[id := mkDevRow name hash last_seen info (dr_sort_order d)
                               (dr_metric_cards d)]> (t_devices db)) db, 1)
  | None =>
    Ok (set_devices (<[id := mkDevRow name hash last_seen info
                               (next_sort_order (t_devices db)) cards]> (t_devices db)) db, 1)
  end.

(** [UPDATE admins SET ... WHERE id=1 AND cond] *)
Definition upd_admin (cond : admin_row → bool) (f : admin_row → admin_row) (db : DB)
    : res (DB * Z) :=
  match t_admins db with
  | Some a => if cond a then Ok (set_admins (Some (f a)) db, 1) else Ok (db, 0)
  | None => Ok (db, 0)
  end.

Definition ins_session (key : string) (row : sess_row) (db : DB) : res (DB * Z) :=
  match t_sessions db !! key with
  | Some _ => Err "UNIQUE constraint failed: sessions.token_hash"
  | None => Ok (set_sessions (<[key := row]> (t_sessions db)) db, 1)
  end.

(** [DELETE FROM sessions WHERE cond] *)
Definition del_sessions (keep : string → sess_row → bool) (db : DB) : res (DB * Z) :=
  let m := filter (λ kv, keep kv.1 kv.2 = true) (t_sessions db) in
  Ok (set_sessions m db, Z.of_nat (size (t_sessions db)) - Z.of_nat (size m)).

Definition all_sessions : string → sess_row → bool := λ _ _, false.

(** The tokens an unused, unexpired enrollment token selects. *)
Definition token_usable (hash : string) (now : Z) (e : enroll_row) : bool :=
  String.eqb (er_token_hash e) hash && (er_used_at e =? 0) && (now <=? er_expires_at e).

Definition set_used now (e : enroll_row) :=
  mkEnrollRow (er_label e) (er_token_hash e) (er_created_at e) (er_expires_at e) now.

(** [UPDATE enrollment_tokens SET used_at=? WHERE token_hash=? AND used_at=0 AND
    expires_at>=?] *)
Definition use_tokens (hash : string) (now : Z) (db : DB) : res (DB * Z) :=
  let hit := filter (λ kv, token_usable hash now kv.2 = true) (t_enroll db) in
  Ok (set_enroll ((λ e, if token_usable hash now e then set_used now e else e) <$> t_enroll db) db,
      Z.of_nat (size hit)).

(** [INSERT INTO enrollment_tokens]: [id] and [token_hash] must be new. *)
Definition ins_enroll (id : string) (row : enroll_row) (db : DB) : res (DB * Z) :=
  if bool_decide (t_enroll db !! id = None)
     && bool_decide (map_Forall (λ _ e, er_token_hash e ≠ er_token_hash row) (t_enroll db))
  then Ok (set_enroll (<[id := row]> (t_enroll db)) db, 1)
  else Err "UNIQUE constraint failed: enrollment_tokens".

(** [ORDER BY sort_order,id], identifiers compared as bytes. *)
Definition dev_le (x y : string * dev_row) : Prop :=
  dr_sort_order x.2 < dr_sort_order y.2
  ∨ dr_sort_order x.2 = dr_sort_order y.2 ∧ String.leb x.1 y.1 = true.

#[global] Instance dev_le_dec x y : Decision (dev_le x y).
Proof. unfold dev_le. apply _. Defined.

Definition sorted_devices (db : DB) : list (string * dev_row) :=
  merge_sort dev_le (map_to_list (t_devices db)).

(** ** Operations *)

Section operations.
Context {mo : MapOrder} {ic : InfoCodec} {ps : PasswordScheme}.

(** The [DeviceRecord] of a row: an [info_json] that does not decode leaves
  [Info] nil. *)
Definition device_of_row (id : string) (r : dev_row) : DeviceRecord :=
mkDevice id (dr_name r) (dr_token_hash r) (dr_last_seen r)
  (if String.eqb (dr_info_json r) "" then None else unmarshal_info (dr_info_json r))
  (dr_sort_order r) (decodeMetricCards (dr_metric_cards r)).

Definition info_json (info : option SystemInfo) : res string :=
match info with
| None => Ok ""
| Some i => marshal_info i
end.

Definition Get (id : string) : stm (option DeviceRecord) :=
query_row (λ db, device_of_row id <$> t_devices db !! id).

Definition Put (r : DeviceRecord) : stm unit :=
if String.eqb (d_ID r) "" || (slen (d_TokenHash r) =? 0) then throw "invalid device"
else
  info ← lift_res (info_json (d_Info r));
  cards ← lift_res (encodeMetricCards (d_MetricCards r));
  _ ← exec (put_device (d_ID r) (d_Name r) (d_TokenHash r) (d_LastSeen r) info cards);
  mret ().

Definition UpdateHeartbeat (id : string) (lastSeen : Z) (info : option SystemInfo) : stm unit :=
json ← lift_res (info_json info);
_ ← exec (upd_device id (set_heartbeat lastSeen json));
mret ().

Definition UpdateDeviceName (id name : string) : stm unit :=
_ ← exec (upd_device id (set_name name)); mret ().

Definition UpdateMetricCards (id : string) (cards : list string) : stm unit :=
encoded ← lift_res (encodeMetricCards cards);
n ← exec (upd_device id (set_cards encoded));
count ← rows_affected n;
if negb (count =? 1) then throw "device not found" else mret ().

(** The validation loop of [ReorderDevices]. *)
Fixpoint check_order (existing seen : gset string) (ids : list string) : bool :=
match ids with
| [] => true
| id :: rest =>
  if String.eqb id "" || bool_decide (id ∈ seen) || negb (bool_decide (id ∈ existing))
  then false
  else check_order existing ({[id]} ∪ seen) rest
end.

Fixpoint set_orders (index : Z) (ids : list string) : stm unit :=
match ids with
| [] => mret ()
| id :: rest => _ ← exec (upd_device id (set_sort index)); set_orders (index + 1) rest
end.

(** The rows are read in no particular order, and [rows.Err()] is not asked
  for. *)
Definition ReorderDevices (ids : list string) : stm unit :=
with_tx (
  rows ← query (λ db, (map_order (t_devices db)).*1);
  let existing : gset string := list_to_set rows.1 in
  _ ← db_call;                                  (* rows.Close() *)
  if negb (Z.of_nat (length ids) =? Z.of_nat (size existing))
  then throw "device order must contain every device exactly once"
  else if negb (check_order existing ∅ ids)
  then throw "device order contains an unknown or duplicate device"
  else
    _ ← db_call;                                (* tx.Prepare *)
    _ ← set_orders 0 ids;
    mret (Commit ())).

Definition DeleteDevice (id : string) : stm unit :=
_ ← exec (λ db, Ok (set_devices (delete id (t_devices db)) db,
                    if t_devices db !! id then 1 else 0));
mret ().

Definition List_ : stm (list DeviceRecord) :=
rows ← query sorted_devices;
if rows.2 : bool then throw "rows" else mret ((λ kv, device_of_row kv.1 kv.2) <$> rows.1).

(** *** The administrator *)

Definition GetAdmin : stm (option AdminRecord) :=
query_row (λ db, (λ a, mkAdmin (ar_username a) (ar_password_hash a) (ar_totp_secret a)
                         (ar_last_step a)) <$> t_admins db).

(** [salt] is the random salt [hashPassword] would read. *)
Definition EnsureAdmin (username password : string) (salt : res string) (now : Z) : stm unit :=
admin ← GetAdmin;
match admin with
| Some _ => mret ()
| None =>
  match normalizeUsername username with
  | Err e => throw ("admin_username: " +:+ e)
  | Ok username =>
    if String.eqb password "" then throw "admin_password is required for first startup"
    else if String.eqb password "CHANGE_ME_TO_A_LONG_RANDOM_PASSWORD"
    then throw "admin_password still uses the example placeholder"
    else
      match ps_hash salt password with
      | Err e => throw ("admin_password: " +:+ e)
      | Ok hash =>
        _ ← exec (λ db, match t_admins db with
                        | Some _ => Err "UNIQUE constraint failed: admins.id"
                        | None => Ok (set_admins (Some (mkAdminRow username hash "" (-1) now)) db, 1)
                        end);
        mret ()
      end
  end
end.

Definition set_password hash now (a : admin_row) :=
mkAdminRow (ar_username a) hash (ar_totp_secret a) (ar_last_step a) now.
Definition set_username name now (a : admin_row) :=
mkAdminRow name (ar_password_hash a) (ar_totp_secret a) (ar_last_step a) now.
Definition set_totp secret now (a : admin_row) :=
mkAdminRow (ar_username a) (ar_password_hash a) secret (-1) now.
Definition set_step step (a : admin_row) :=
mkAdminRow (ar_username a) (ar_password_hash a) (ar_totp_secret a) step (ar_updated_at a).

Definition always : admin_row → bool := λ _, true.

Definition VerifyAdminPassword (password : string) (salt : res string) (now : Z)
  : stm (option AdminRecord * bool) :=
a ← GetAdmin;
match a with
| None => mret (None, false)
| Some a =>
  let (ok, needsRehash) := ps_verify (a_PasswordHash a) password in
  if negb ok then mret (Some a, false)
  else if needsRehash : bool then
    match ps_rehash salt password with
    | Ok next =>
      r ← attempt (exec (upd_admin always (set_password next now)));
      mret (Some (if is_ok r
                  then mkAdmin (a_Username a) next (a_TOTPSecret a) (a_LastTOTPLoginStep a)
                  else a), true)
    | Err _ => mret (Some a, true)
    end
  else mret (Some a, true)
end.

Definition UpdateAdminUsername (username : string) (now : Z) : stm unit :=
_ ← exec (upd_admin always (set_username username now)); mret ().

(** The shared body: one update of the administrator, then [DELETE FROM
  sessions]. *)
Definition update_and_revoke (f : admin_row → admin_row) : stm unit :=
with_tx (
  _ ← exec (upd_admin always f);
  _ ← exec (del_sessions all_sessions);
  mret (Commit ())).

Definition UpdateAdminUsernameAndRevokeSessions (username : string) (now : Z) : stm unit :=
update_and_revoke (set_username username now).

Definition UpdateAdminPassword (password : string) (salt : res string) (now : Z) : stm unit :=
hash ← lift_res (ps_hash salt password);
_ ← exec (upd_admin always (set_password hash now)); mret ().

Definition UpdateAdminPasswordAndRevokeSessions (password : string) (salt : res string) (now : Z)
  : stm unit :=
hash ← lift_res (ps_hash salt password);
update_and_revoke (set_password hash now).

Definition SetAdminTOTP (secret : string) (now : Z) : stm unit :=
_ ← exec (upd_admin always (set_totp secret now)); mret ().

Definition EnableAdminTOTPAndRevokeSessions (secret : string) (now : Z) : stm unit :=
update_and_revoke (set_totp secret now).

Definition DisableAdminTOTPAndRevokeSessions (now : Z) : stm bool :=
with_tx (
  n ← exec (upd_admin (λ a, negb (String.eqb (ar_totp_secret a) "")) (set_totp "" now));
  n ← rows_affected n;
  if negb (n =? 1) then mret (Rollback false)
  else
    _ ← exec (del_sessions all_sessions);
    mret (Commit true)).

(** *** Sessions *)

Definition CreateSession (token : string) (expiresAt : Z) (persistent : bool) (now : Z) : stm unit :=
_ ← exec (ins_session (hashToken token)
            (mkSessRow now expiresAt (sessionPersistentValue persistent)));
mret ().

Definition ConsumeTOTPLoginStepAndCreateSession (step : Z) (token : string) (expiresAt : Z)
  (persistent : bool) (now : Z) : stm bool :=
with_tx (
  n ← exec (upd_admin (λ a, ar_last_step a <? step) (set_step step));
  n ← rows_affected n;
  if negb (n =? 1) then mret (Rollback false)
  else
    _ ← exec (ins_session (hashToken token)
                (mkSessRow now expiresAt (sessionPersistentValue persistent)));
    mret (Commit true)).

Definition delete_session (token : string) : stm unit :=
_ ← exec (λ db, Ok (set_sessions (delete (hashToken token) (t_sessions db)) db,
                    if t_sessions db !! hashToken token then 1 else 0));
mret ().

(** An expired session is deleted on the way; that error is ignored. *)
Definition SessionExpiry (token : string) (now : Z) : stm (option Z) :=
if String.eqb token "" then mret None
else
  row ← query_row (λ db, sr_expires_at <$> t_sessions db !! hashToken token);
  match row with
  | None => mret None
  | Some expires =>
    if expires <=? now then _ ← attempt (delete_session token); mret None
    else mret (Some expires)
  end.

Definition SessionValid (token : string) (now : Z) : stm bool :=
if String.eqb token "" then mret false
else
  row ← query_row (λ db, sr_expires_at <$> t_sessions db !! hashToken token);
  match row with
  | None => mret false
  | Some expires =>
    if expires <=? now then _ ← attempt (delete_session token); mret false
    else mret true
  end.

Definition DeleteSession : string → stm unit := delete_session.

Definition DeleteAllSessions : stm unit := _ ← exec (del_sessions all_sessions); mret ().

Definition CleanupSessions (now : Z) : stm unit :=
_ ← exec (del_sessions (λ _ r, negb (sr_expires_at r <=? now))); mret ().

(** *** Enrollment *)

Definition CreateEnrollmentToken (id label token : string) (expiresAt now : Z) : stm unit :=
let label := TrimSpace label in
label ← lift_res (if String.eqb label "" then Ok "" else normalizeDeviceName label);
_ ← exec (ins_enroll id (mkEnrollRow label (hashToken token) now expiresAt 0));
mret ().

Definition ConsumeEnrollmentToken (token : string) (now : Z) : stm bool :=
n ← exec (use_tokens (hashToken token) now);
n ← rows_affected n;
mret (n =? 1).

(** The name a new device gets: the token's label when it is a valid name. *)
Definition enrolled_name (label name : string) : string :=
let label := TrimSpace label in
if String.eqb label "" then name
else match normalizeDeviceName label with Ok normalized => normalized | Err _ => name end.

(** The row the SELECT returns; [token_hash] is unique, so there is at most
  one. *)
Definition usable_label (hash : string) (now : Z) (db : DB) : option string :=
match filter (λ kv, token_usable hash now kv.2 = true) (map_order (t_enroll db)) with
| kv :: _ => Some (er_label kv.2)
| [] => None
end.

Definition EnrollDevice (enrollmentToken : string) (d : DeviceRecord) (now : Z) : stm bool :=
if String.eqb (d_ID d) "" || (slen (d_TokenHash d) =? 0) then throw "invalid device enrollment"
else
  infoJSON ← lift_res (info_json (d_Info d));
  with_tx (
    label ← query_row (usable_label (hashToken enrollmentToken) now);
    match label with
    | None => mret (Rollback false)
    | Some label =>
      n ← exec (use_tokens (hashToken enrollmentToken) now);
      n ← rows_affected n;
      if negb (n =? 1) then mret (Rollback false)
      else
        cards ← lift_res (encodeMetricCards (d_MetricCards d));
        _ ← exec (ins_device (d_ID d) (λ order,
               mkDevRow (enrolled_name label (d_Name d)) (d_TokenHash d) (d_LastSeen d)
                 infoJSON order cards));
        mret (Commit true)
    end).

(** [time.Now().Add(-24*time.Hour).Unix()] is read twice. *)
Definition CleanupEnrollmentTokens (cutoff1 cutoff2 : Z) : stm unit :=
_ ← exec (λ db,
      let keep e := negb ((0 <? er_used_at e) && (er_used_at e <? cutoff1)
                          || (er_expires_at e <? cutoff2)) in
      let m := filter (λ kv, keep kv.2 = true) (t_enroll db) in
      Ok (set_enroll m db, Z.of_nat (size (t_enroll db)) - Z.of_nat (size m)));
mret ().

(** *** Legacy import *)

Record legacy_device : Type := mkLegacy {
l_ID : string;
l_Name : string;
l_Token : string;
l_LastSeen : Z;
l_Info : option SystemInfo
}.

Fixpoint import_devices (count : Z) (l : list legacy_device) : stm Z :=
match l with
| [] => mret count
| d :: rest =>
  if String.eqb (l_ID d) "" || String.eqb (l_Token d) "" then import_devices count rest
  else
    existing ← Get (l_ID d);
    match existing with
    | Some _ => import_devices count rest
    | None =>
      _ ← Put (mkDevice (l_ID d) (l_Name d) (hashToken (l_Token d)) (l_LastSeen d) (l_Info d) 0 []);
      import_devices (count + 1) rest
    end
end.

(** [file] is the decoded file: [None] when there is no file to import. *)
Definition ImportLegacyDeviceJSON (file : res (option (list legacy_device))) : stm Z :=
f ← lift_res file;
match f with
| None => mret 0
| Some l => import_devices 0 l
end.
End operations.
