(* ===== verification/StoreSpec.v ===== *)
(** * The store's specification and its refinement

    [effect] says what each operation of [Store] does to the database when it
    takes effect, as a pure function.  The lemmas of this file show that the
    code, whatever call to the database fails, either leaves the database as it
    was or applies [effect], and derive the store's guarantees. *)

From Stdlib Require OrderedTypeEx.
From S2P Require Export Store.

(** ** The store's operations as atomic updates

    The abstract specification: what each operation does to the database when
    it takes effect.  [run_store] runs the code; [effect] is a pure function. *)

Inductive store_op : Type :=
| SPut (r : DeviceRecord)
| SHeartbeat (id : string) (lastSeen : Z) (info : option SystemInfo)
| SDeviceName (id name : string)
| SMetricCards (id : string) (cards : list string)
| SReorder (ids : list string)
| SDeleteDevice (id : string)
| SEnsureAdmin (username password : string) (salt : res string) (now : Z)
| SVerifyPassword (password : string) (salt : res string) (now : Z)
| SUsername (username : string) (now : Z)
| SUsernameRevoke (username : string) (now : Z)
| SPassword (password : string) (salt : res string) (now : Z)
| SPasswordRevoke (password : string) (salt : res string) (now : Z)
| SSetTOTP (secret : string) (now : Z)
| SEnableTOTPRevoke (secret : string) (now : Z)
| SDisableTOTPRevoke (now : Z)
| SCreateSession (token : string) (expiresAt : Z) (persistent : bool) (now : Z)
| SConsumeTOTP (step : Z) (token : string) (expiresAt : Z) (persistent : bool) (now : Z)
| SSessionValid (token : string) (now : Z)
| SSessionExpiry (token : string) (now : Z)
| SDeleteSession (token : string)
| SDeleteAllSessions
| SCleanupSessions (now : Z)
| SCreateEnrollmentToken (id label token : string) (expiresAt now : Z)
| SConsumeEnrollmentToken (token : string) (now : Z)
| SEnroll (token : string) (d : DeviceRecord) (now : Z)
| SCleanupEnrollmentTokens (cutoff1 cutoff2 : Z).

(** A statement's new database; unchanged when it violates a constraint. *)
Definition applied (f : DB → res (DB * Z)) (db : DB) : DB :=
  match f db with Ok (db', _) => db' | Err _ => db end.

Fixpoint apply_orders (index : Z) (ids : list string) (db : DB) : DB :=
  match ids with
  | [] => db
  | id :: rest => apply_orders (index + 1) rest (applied (upd_device id (set_sort index)) db)
  end.

(** The administrator is updated and every session removed. *)
Definition revoked (f : admin_row → admin_row) (db : DB) : DB :=
  set_sessions ∅ (applied (upd_admin always f) db).

Definition delete_expired (token : string) (now : Z) (db : DB) : DB :=
  match t_sessions db !! hashToken token with
  | Some r => if negb (String.eqb token "") && (sr_expires_at r <=? now)
              then set_sessions (delete (hashToken token) (t_sessions db)) db else db
  | None => db
  end.

Section store_ops.
Context {mo : MapOrder} {ic : InfoCodec} {ps : PasswordScheme}.

(** The result is whether the operation granted what was asked. *)
Definition run_store (op : store_op) : stm bool :=
match op with
| SPut r => _ ← Put r; mret true
| SHeartbeat id ls info => _ ← UpdateHeartbeat id ls info; mret true
| SDeviceName id name => _ ← UpdateDeviceName id name; mret true
| SMetricCards id cards => _ ← UpdateMetricCards id cards; mret true
| SReorder ids => _ ← ReorderDevices ids; mret true
| SDeleteDevice id => _ ← DeleteDevice id; mret true
| SEnsureAdmin u p salt now => _ ← EnsureAdmin u p salt now; mret true
| SVerifyPassword p salt now => x ← VerifyAdminPassword p salt now; mret (snd x)
| SUsername u now => _ ← UpdateAdminUsername u now; mret true
| SUsernameRevoke u now => _ ← UpdateAdminUsernameAndRevokeSessions u now; mret true
| SPassword p salt now => _ ← UpdateAdminPassword p salt now; mret true
| SPasswordRevoke p salt now => _ ← UpdateAdminPasswordAndRevokeSessions p salt now; mret true
| SSetTOTP s now => _ ← SetAdminTOTP s now; mret true
| SEnableTOTPRevoke s now => _ ← EnableAdminTOTPAndRevokeSessions s now; mret true
| SDisableTOTPRevoke now => DisableAdminTOTPAndRevokeSessions now
| SCreateSession t e p now => _ ← CreateSession t e p now; mret true
| SConsumeTOTP step t e p now => ConsumeTOTPLoginStepAndCreateSession step t e p now
| SSessionValid t now => SessionValid t now
| SSessionExpiry t now => x ← SessionExpiry t now; mret (bool_decide (is_Some x))
| SDeleteSession t => _ ← DeleteSession t; mret true
| SDeleteAllSessions => _ ← DeleteAllSessions; mret true
| SCleanupSessions now => _ ← CleanupSessions now; mret true
| SCreateEnrollmentToken id label t e now => _ ← CreateEnrollmentToken id label t e now; mret true
| SConsumeEnrollmentToken t now => ConsumeEnrollmentToken t now
| SEnroll t d now => EnrollDevice t d now
| SCleanupEnrollmentTokens c1 c2 => _ ← CleanupEnrollmentTokens c1 c2; mret true
end.

Definition effect (op : store_op) (db : DB) : DB :=
match op with
| SPut r =>
  match info_json (d_Info r), encodeMetricCards (d_MetricCards r) with
  | Ok info, Ok cards =>
    applied (put_device (d_ID r) (d_Name r) (d_TokenHash r) (d_LastSeen r) info cards) db
  | _, _ => db
  end
| SHeartbeat id ls info =>
  match info_json info with
  | Ok json => applied (upd_device id (set_heartbeat ls json)) db
  | Err _ => db
  end
| SDeviceName id name => applied (upd_device id (set_name name)) db
| SMetricCards id cards =>
  match encodeMetricCards cards with
  | Ok c => applied (upd_device id (set_cards c)) db
  | Err _ => db
  end
| SReorder ids => apply_orders 0 ids db
| SDeleteDevice id => set_devices (delete id (t_devices db)) db
| SEnsureAdmin u p salt now =>
  match t_admins db, normalizeUsername u, ps_hash salt p with
  | None, Ok username, Ok hash =>
    set_admins (Some (mkAdminRow username hash "" (-1) now)) db
  | _, _, _ => db
  end
| SVerifyPassword p salt now =>
  match t_admins db, ps_rehash salt p with
  | Some a, Ok next =>
    if bool_decide (ps_verify (ar_password_hash a) p = (true, true))
    then applied (upd_admin always (set_password next now)) db else db
  | _, _ => db
  end
| SUsername u now => applied (upd_admin always (set_username u now)) db
| SUsernameRevoke u now => revoked (set_username u now) db
| SPassword p salt now =>
  match ps_hash salt p with
  | Ok hash => applied (upd_admin always (set_password hash now)) db
  | Err _ => db
  end
| SPasswordRevoke p salt now =>
  match ps_hash salt p with
  | Ok hash => revoked (set_password hash now) db
  | Err _ => db
  end
| SSetTOTP s now => applied (upd_admin always (set_totp s now)) db
| SEnableTOTPRevoke s now => revoked (set_totp s now) db
| SDisableTOTPRevoke now => revoked (set_totp "" now) db
| SCreateSession t e p now =>
  applied (ins_session (hashToken t) (mkSessRow now e (sessionPersistentValue p))) db
| SConsumeTOTP step t e p now =>
  applied (ins_session (hashToken t) (mkSessRow now e (sessionPersistentValue p)))
    (applied (upd_admin (λ a, ar_last_step a <? step) (set_step step)) db)
| SSessionValid t now | SSessionExpiry t now => delete_expired t now db
| SDeleteSession t => set_sessions (delete (hashToken t) (t_sessions db)) db
| SDeleteAllSessions => set_sessions ∅ db
| SCleanupSessions now =>
  set_sessions (filter (λ kv, now < sr_expires_at kv.2) (t_sessions db)) db
| SCreateEnrollmentToken id label t e now =>
  match (if String.eqb (TrimSpace label) "" then Ok "" else normalizeDeviceName (TrimSpace label)) with
  | Ok label => applied (ins_enroll id (mkEnrollRow label (hashToken t) now e 0)) db
  | Err _ => db
  end
| SConsumeEnrollmentToken t now => applied (use_tokens (hashToken t) now) db
| SEnroll t d now =>
  match info_json (d_Info d), encodeMetricCards (d_MetricCards d),
        usable_label (hashToken t) now db with
  | Ok info, Ok cards, Some label =>
    applied (ins_device (d_ID d) (λ order,
        mkDevRow (enrolled_name label (d_Name d)) (d_TokenHash d) (d_LastSeen d) info order cards))
      (applied (use_tokens (hashToken t) now) db)
  | _, _, _ => db
  end
| SCleanupEnrollmentTokens c1 c2 =>
  set_enroll (filter (λ kv, ¬ (0 < er_used_at kv.2 ∧ er_used_at kv.2 < c1)
                            ∧ c2 <= er_expires_at kv.2) (t_enroll db)) db
end.

(** A history: each operation with the failures it meets. *)
Definition run_history (ops : list (store_op * list bool)) (db : DB) : DB :=
fold_left (λ db op, w_db (snd (run_store op.1 (mkWorld db op.2)))) ops db.
End store_ops.

(** ** Lemmas on statements and transactions *)

(** A call fails and changes nothing, or passes. *)
Lemma db_call_db w : w_db (snd (db_call w)) = w_db w.
Proof. unfold db_call. destruct (w_faults w) as [|[] fs]; done. Qed.

Lemma bind_ok {A B} (m : stm A) (k : A → stm B) w b w' :
  (m ≫= k) w = (Ok b, w') ↔ ∃ a w1, m w = (Ok a, w1) ∧ k a w1 = (Ok b, w').
Proof. unfold mbind, stm_bind. destruct (m w) as [[a|e] w1]; naive_solver. Qed.

Lemma bind_cases {A B} (m : stm A) (k : A → stm B) w r w' :
  (m ≫= k) w = (r, w') →
  (∃ e, m w = (Err e, w') ∧ r = Err e) ∨ ∃ a w1, m w = (Ok a, w1) ∧ k a w1 = (r, w').
Proof. unfold mbind, stm_bind. destruct (m w) as [[a|e] w1]; naive_solver. Qed.

Lemma db_call_cases w r w' : db_call w = (r, w') → w_db w' = w_db w.
Proof. intros Hc. rewrite <-(db_call_db w). by rewrite Hc. Qed.

Lemma exec_cases f w r w' :
  exec f w = (r, w') →
  (∃ e, r = Err e ∧ w_db w' = w_db w) ∨
  (∃ n, r = Ok n ∧ f (w_db w) = Ok (w_db w', n)).
Proof.
  unfold exec. intros [(e & H1 & ->)|(a & w1 & H1 & H2)]%bind_cases;
    apply db_call_cases in H1; [eauto|].
  unfold modify in H2. rewrite H1 in H2.
  destruct (f (w_db w)) as [[db n]|e] eqn:E; simplify_eq/=; eauto.
Qed.

Lemma exec_ok f w n w' : exec f w = (Ok n, w') → f (w_db w) = Ok (w_db w', n).
Proof. intros [(e & ? & _)|(n' & [= <-] & Hf)]%exec_cases; done. Qed.

Lemma rows_affected_ok n w m w' :
  rows_affected n w = (Ok m, w') → m = n ∧ w_db w' = w_db w.
Proof.
  unfold rows_affected. intros (a & w1 & H1%db_call_cases & [= <- <-])%bind_ok. done.
Qed.

Lemma rows_affected_cases n w r w' : rows_affected n w = (r, w') → w_db w' = w_db w.
Proof.
  unfold rows_affected.
  intros [(e & H1 & ->)|(a & w1 & H1 & [= _ <-])]%bind_cases; by apply db_call_cases in H1.
Qed.

Lemma query_row_ok {A} (f : DB → option A) w x w' :
  query_row f w = (Ok x, w') → x = f (w_db w) ∧ w_db w' = w_db w.
Proof.
  unfold query_row, gets. intros (a & w1 & H1%db_call_cases & [= <- <-])%bind_ok. by rewrite H1.
Qed.

Lemma query_row_cases {A} (f : DB → option A) w r w' :
  query_row f w = (r, w') → w_db w' = w_db w.
Proof.
  unfold query_row, gets.
  intros [(e & H1 & ->)|(a & w1 & H1 & [= _ <-])]%bind_cases; by apply db_call_cases in H1.
Qed.

(** Reading stops at a prefix; it is complete when no error is reported. *)
Lemma read_rows_ok {A} (rows : list A) w r w' :
  read_rows rows w = (r, w') →
  w_db w' = w_db w ∧ ∃ x, r = Ok x ∧ x.1 `prefix_of` rows ∧ (x.2 = false → x.1 = rows).
Proof.
  revert w r w'. induction rows as [|a rows IH]; intros w r w'; simpl.
  - intros [= <- <-]. split; [done|]. eexists. split_and!; [done|simpl; apply prefix_nil|done].
  - intros [(e & H1 & ->)|(x & w1 & H1 & H2)]%bind_cases.
    { unfold attempt in H1. by destruct (db_call w). }
    unfold attempt in H1. destruct (db_call w) as [y w2] eqn:Ec.
    apply db_call_cases in Ec. injection H1 as <- <-. destruct y as [[]|e].
    + apply bind_cases in H2 as [(e & H3 & ->)|(x & w3 & H3 & H4)].
      * by apply IH in H3 as (_ & ? & ? & _).
      * apply IH in H3 as (Hd & ? & [= <-] & Hp & Hf). injection H4 as <- <-.
        split; [congruence|]. eexists. split_and!; [done|by apply prefix_cons|].
        simpl. intros ?. by rewrite Hf.
    + injection H2 as <- <-. split; [done|]. eexists.
      split_and!; [done|simpl; apply prefix_nil|done].
Qed.

(** Atomicity of transactions: the body committed, or nothing changed. *)
Lemma with_tx_cases {A} (body : stm (tx_end A)) w r w' :
  with_tx body w = (r, w') →
  (w_db w' = w_db w ∧ ∀ a, r = Ok a → ∃ w0 w1,
     w_db w0 = w_db w ∧ body w0 = (Ok (Rollback a), w1)) ∨
  (∃ a w0 w1, r = Ok a ∧ w_db w0 = w_db w ∧ body w0 = (Ok (Commit a), w1) ∧
     w_db w' = w_db w1).
Proof.
  unfold with_tx. destruct (db_call w) as [r0 w0] eqn:E0. apply db_call_cases in E0.
  destruct r0 as [[]|e]; [|intros [= <- <-]; naive_solver].
  destruct (body w0) as [[[a|a]|e] w1] eqn:Eb.
  - destruct (db_call w1) as [[[]|e] w2] eqn:E2; intros [= <- <-].
    + right. exists a, w0, w1. split_and!; try done. by apply db_call_cases in E2.
    + left. simpl. naive_solver.
  - intros [= <- <-]. left. simpl. split; [done|]. intros ? [= ->]. eauto.
  - intros [= <- <-]. left. naive_solver.
Qed.

(** *** Without failures *)

Definition clean (w : world) : Prop := w_faults w = [].

Lemma db_call_clean db : db_call (mkWorld db []) = (Ok (), mkWorld db []).
Proof. done. Qed.

Lemma exec_clean f db :
  exec f (mkWorld db []) =
  match f db with
  | Ok (db', n) => (Ok n, mkWorld db' [])
  | Err e => (Err e, mkWorld db [])
  end.
Proof. done. Qed.

Lemma read_rows_clean {A} (rows : list A) db :
  read_rows rows (mkWorld db []) = (Ok (rows, false), mkWorld db []).
Proof.
  induction rows as [|a rows IH]; [done|]. cbn [read_rows].
  unfold mbind, stm_bind, attempt. rewrite db_call_clean. simpl in *. by rewrite IH.
Qed.

Lemma bind_eval {A B} (m : stm A) (k : A → stm B) w :
  (m ≫= k) w = match m w with (Ok a, w') => k a w' | (Err e, w') => (Err e, w') end.
Proof. done. Qed.

(** ** Atomicity *)

(** Run from [w], [m] leaves the database as it is or turns it into [db'], and
    does the latter whenever it returns a value satisfying [ok]. *)
Definition yields {A} (m : stm A) (w : world) (db' : DB) (ok : A → Prop) : Prop :=
  ∀ r w', m w = (r, w') →
    (w_db w' = w_db w ∨ w_db w' = db') ∧ (∀ a, r = Ok a → ok a → w_db w' = db').

Lemma yields_ret {A} (a : A) w db' (ok : A → Prop) :
  (ok a → w_db w = db') → yields (mret a) w db' ok.
Proof. intros Ha r w' [= <- <-]. split; [auto|]. naive_solver. Qed.

Lemma yields_throw {A} e w db' (ok : A → Prop) : yields (throw e) w db' ok.
Proof. intros r w' [= <- <-]. split; [auto|done]. Qed.

Lemma yields_exec f w (ok : Z → Prop) : yields (exec f) w (applied f (w_db w)) ok.
Proof.
  intros r w' [(e & -> & Hd)|(n & -> & Hf)]%exec_cases; [split; [by left|done]|].
  unfold applied. rewrite Hf. auto.
Qed.

(** What follows an update only computes a result. *)
Lemma yields_then {A B} (m : stm A) (g : A → B) w db' (ok : B → Prop) :
  yields m w db' (λ a, ok (g a)) → yields (a ← m; mret (g a)) w db' ok.
Proof.
  intros Hm r w' [(e & H1 & ->)|(a & w1 & H1 & [= <- <-])]%bind_cases;
    apply Hm in H1 as [H1 H2]; split; naive_solver.
Qed.

(** A prefix that only reads. *)
Lemma yields_read {A B} (m : stm A) (k : A → stm B) w db' (ok : B → Prop) :
  (∀ r w1, m w = (r, w1) → w_db w1 = w_db w) →
  (∀ a w1, m w = (Ok a, w1) → yields (k a) w1 db' ok) →
  yields (m ≫= k) w db' ok.
Proof.
  intros Hr Hk r w' [(e & H1 & ->)|(a & w1 & H1 & H2)]%bind_cases.
  - apply Hr in H1. split; [by left|done].
  - pose proof (Hr _ _ H1) as Hd. rewrite <-Hd. by apply (Hk a w1 H1).
Qed.

Lemma yields_query_row {A B} (f : DB → option A) (k : option A → stm B) w db' (ok : B → Prop) :
  (∀ w1, w_db w1 = w_db w → yields (k (f (w_db w))) w1 db' ok) →
  yields (query_row f ≫= k) w db' ok.
Proof.
  intros Hk. apply yields_read; [intros; by eapply query_row_cases|].
  intros a w1 [-> Hd]%query_row_ok. auto.
Qed.

Lemma yields_lift {A B} (x : res A) (k : A → stm B) w db' (ok : B → Prop) :
  (∀ a, x = Ok a → yields (k a) w db' ok) → yields (lift_res x ≫= k) w db' ok.
Proof.
  intros Hk r w'. unfold lift_res, mbind, stm_bind. destruct x as [a|e]; [by apply Hk|].
  intros [= <- <-]. split; [auto|done].
Qed.

(** A transaction takes effect as a whole. *)
Lemma yields_tx {A} (body : stm (tx_end A)) w db' (ok : A → Prop) :
  (∀ w0 w1 a, w_db w0 = w_db w → body w0 = (Ok (Commit a), w1) → w_db w1 = db') →
  (∀ w0 w1 a, w_db w0 = w_db w → body w0 = (Ok (Rollback a), w1) → ok a → db' = w_db w) →
  yields (with_tx body) w db' ok.
Proof.
  intros Hc Hr r w' [[Hd Ha]|(a & w0 & w1 & -> & Hd & Hb & Hd')]%with_tx_cases.
  - split; [by left|]. intros a -> Hok. destruct (Ha a eq_refl) as (w0 & w1 & H0 & Hb).
    by rewrite Hd, (Hr w0 w1 a H0 Hb Hok).
  - rewrite Hd', (Hc w0 w1 a Hd Hb). auto.
Qed.

Lemma yields_weaken {A} (m : stm A) w db' (ok ok' : A → Prop) :
  (∀ a, ok' a → ok a) → yields m w db' ok → yields m w db' ok'.
Proof. intros Hi Hm r w' H. apply Hm in H as [H1 H2]. split; [done|]. naive_solver. Qed.

Create HintDb yields.
#[export] Hint Resolve yields_exec yields_then yields_throw : yields.

(** *** The transactions' bodies *)

Lemma del_all_sessions db : applied (del_sessions all_sessions) db = set_sessions ∅ db.
Proof.
  unfold applied, del_sessions. f_equal. apply map_empty. intros k.
  apply map_lookup_filter_None_2. right. by intros v _ [=].
Qed.

Lemma exec_applied f w n w' : exec f w = (Ok n, w') → w_db w' = applied f (w_db w).
Proof. intros Hf%exec_ok. unfold applied. by rewrite Hf. Qed.

Lemma yields_revoke f w (ok : unit → Prop) :
  yields (update_and_revoke f) w (revoked f (w_db w)) ok.
Proof.
  unfold update_and_revoke. apply yields_tx.
  - intros w0 w1 [] <- H.
    apply bind_ok in H as (n & w2 & H1%exec_applied & H).
    apply bind_ok in H as (n' & w3 & H2%exec_applied & [= <-]).
    by rewrite H2, del_all_sessions, H1.
  - intros w0 w1 a _ H.
    apply bind_ok in H as (n & w2 & _ & H). apply bind_ok in H as (n' & w3 & _ & H). done.
Qed.

Lemma set_orders_db ids index w w' :
  set_orders index ids w = (Ok (), w') → w_db w' = apply_orders index ids (w_db w).
Proof.
  revert index w. induction ids as [|id ids IH]; intros index w; cbn [set_orders apply_orders].
  - by intros [= <-].
  - intros (n & w1 & H1%exec_applied & H2)%bind_ok. apply IH in H2. by rewrite H2, H1.
Qed.

Lemma upd_admin_rows cond f db db' n :
  upd_admin cond f db = Ok (db', n) →
  (n = 1 ∧ ∃ a, t_admins db = Some a ∧ cond a = true ∧ db' = set_admins (Some (f a)) db) ∨
  (n = 0 ∧ db' = db ∧ ∀ a, t_admins db = Some a → cond a = false).
Proof.
  unfold upd_admin. intros H. destruct (t_admins db) as [a|] eqn:E; [|naive_solver].
  destruct (cond a) eqn:Ec; simplify_eq; [left|right]; naive_solver.
Qed.

Section atomic.
Context {mo : MapOrder} {ic : InfoCodec} {ps : PasswordScheme}.

Lemma yields_reorder ids w (ok : unit → Prop) :
yields (ReorderDevices ids) w (apply_orders 0 ids (w_db w)) ok.
Proof.
unfold ReorderDevices. apply yields_tx; intros w0 w1 [] Hd Hb; rewrite <-Hd.
- apply bind_ok in Hb as (rows & w2 & Hq & Hb).
  unfold query in Hq. apply bind_ok in Hq as ([] & w3 & H1%db_call_cases & Hq).
  apply bind_ok in Hq as (l & w4 & [= <- <-] & Hr). apply read_rows_ok in Hr as (H2 & _).
  apply bind_ok in Hb as ([] & w5 & H3%db_call_cases & Hb).
  repeat case_match; try done.
  apply bind_ok in Hb as ([] & w6 & H4%db_call_cases & Hb).
  apply bind_ok in Hb as ([] & w7 & H5%set_orders_db & [= <-]). congruence.
- apply bind_ok in Hb as (rows & w2 & _ & Hb). apply bind_ok in Hb as ([] & w5 & _ & Hb).
  repeat case_match; try done.
  apply bind_ok in Hb as ([] & w6 & _ & Hb). apply bind_ok in Hb as ([] & w7 & _ & Hb). done.
Qed.

Lemma yields_disable now w :
yields (DisableAdminTOTPAndRevokeSessions now) w (revoked (set_totp "" now) (w_db w))
  (λ a, a = true).
Proof.
unfold DisableAdminTOTPAndRevokeSessions. apply yields_tx; intros w0 w1 b Hd Hb; rewrite <-Hd.
- apply bind_ok in Hb as (n & w2 & H1%exec_ok & Hb).
  apply bind_ok in Hb as (n' & w3 & [-> H2]%rows_affected_ok & Hb).
  destruct (negb (n =? 1)) eqn:En; [done|]. bool_to_prop.
  apply upd_admin_rows in H1 as [(_ & a & Ha & _ & Hw2)|(-> & _)]; [|done].
  apply bind_ok in Hb as (n' & w4 & H3%exec_applied & [= _ <-]).
  rewrite H3, del_all_sessions, H2, Hw2. unfold revoked, applied, upd_admin. by rewrite Ha.
- apply bind_ok in Hb as (n & w2 & _ & Hb). apply bind_ok in Hb as (n' & w3 & _ & Hb).
  destruct (negb (n' =? 1)); [by injection Hb as <- <-|].
  apply bind_ok in Hb as (n'' & w4 & _ & Hb). done.
Qed.

Lemma yields_consume step t e p now w :
yields (ConsumeTOTPLoginStepAndCreateSession step t e p now) w
  (effect (SConsumeTOTP step t e p now) (w_db w)) (λ a, a = true).
Proof.
unfold ConsumeTOTPLoginStepAndCreateSession. apply yields_tx; intros w0 w1 b Hd Hb; rewrite <-Hd.
- apply bind_ok in Hb as (n & w2 & H1%exec_applied & Hb).
  apply bind_ok in Hb as (n' & w3 & [-> H2]%rows_affected_ok & Hb).
  destruct (negb (n =? 1)); [done|].
  apply bind_ok in Hb as (n' & w4 & H3%exec_applied & [= _ <-]). by rewrite H3, H2, H1.
- apply bind_ok in Hb as (n & w2 & _ & Hb). apply bind_ok in Hb as (n' & w3 & _ & Hb).
  destruct (negb (n' =? 1)); [by injection Hb as <- <-|].
  apply bind_ok in Hb as (n'' & w4 & _ & Hb). done.
Qed.

Lemma yields_enroll t d now w :
yields (EnrollDevice t d now) w (effect (SEnroll t d now) (w_db w)) (λ a, a = true).
Proof.
unfold EnrollDevice. destruct (String.eqb (d_ID d) "" || _); [apply yields_throw|].
apply yields_lift. intros info Hi. cbn [effect]. rewrite Hi.
apply yields_tx; intros w0 w1 b Hd Hb; rewrite <-Hd.
- apply bind_ok in Hb as (label & w2 & [-> H1]%query_row_ok & Hb).
  destruct (usable_label (hashToken t) now (w_db w0)) as [label|]; [|done].
  apply bind_ok in Hb as (n & w3 & H2%exec_applied & Hb).
  apply bind_ok in Hb as (n' & w4 & [-> H3]%rows_affected_ok & Hb).
  destruct (negb (n =? 1)); [done|].
  apply bind_ok in Hb as (cards & w5 & [= Hc <-] & Hb). rewrite Hc.
  apply bind_ok in Hb as (n' & w6 & H5%exec_applied & [= _ <-]). by rewrite H5, H3, H2, H1.
- apply bind_ok in Hb as (label & w2 & _ & Hb). destruct label; [|by injection Hb as <- <-].
  apply bind_ok in Hb as (n & w3 & _ & Hb). apply bind_ok in Hb as (n' & w4 & _ & Hb).
  destruct (negb (n' =? 1)); [by injection Hb as <- <-|].
  apply bind_ok in Hb as (cards & w5 & _ & Hb). apply bind_ok in Hb as (n'' & w6 & _ & Hb). done.
Qed.

Lemma attempt_cases {A} (m : stm A) w r w' :
attempt m w = (r, w') → ∃ x, r = Ok x ∧ m w = (x, w').
Proof. unfold attempt. destruct (m w). naive_solver. Qed.

(** The deletion of an expired session: its outcome is ignored. *)
Lemma yields_expired {A} t now r (a : A) w (ok : A → Prop) :
t_sessions (w_db w) !! hashToken t = Some r → t ≠ "" → sr_expires_at r <= now → ¬ ok a →
yields (_ ← attempt (delete_session t); mret a) w (delete_expired t now (w_db w)) ok.
Proof.
intros Hr Ht%String.eqb_neq He%Z.leb_le Ha.
assert (Hd : applied (λ db, Ok (set_sessions (delete (hashToken t) (t_sessions db)) db,
               if t_sessions db !! hashToken t then 1 else 0)) (w_db w)
             = delete_expired t now (w_db w))
  by (unfold delete_expired; by rewrite Hr, He, Ht).
intros r' w' Hrun. assert (Hrun' : r' = Ok a ∧ ∃ y, delete_session t w = (y, w')).
{ apply bind_cases in Hrun as [(e & (y & ? & _)%attempt_cases & _)|(x & w1 & Hm & [= <- <-])];
    [done|]. apply attempt_cases in Hm as (y & _ & Hm). eauto. }
destruct Hrun' as [-> [y Hm]]. split; [|intros ? [= <-]; done]. unfold delete_session in Hm.
rewrite <-Hd. by eapply (yields_then _ (λ _, ()) _ _ (λ _, False)) in Hm as [Hm _];
  [|apply yields_exec].
Qed.

Definition is_verify (op : store_op) : bool :=
match op with SVerifyPassword _ _ _ => true | _ => false end.

Lemma yields_verify p salt now w :
yields (VerifyAdminPassword p salt now) w (effect (SVerifyPassword p salt now) (w_db w))
  (λ _, False).
Proof.
unfold VerifyAdminPassword, GetAdmin. apply yields_query_row. intros w1 Hd.
cbn [effect]. rewrite <-Hd. destruct (t_admins (w_db w1)) as [a|] eqn:Ea; [|by apply yields_ret].
simpl. destruct (ps_verify (ar_password_hash a) p) as [ok rehash].
destruct ok; [|by apply yields_ret]. destruct rehash; [|by apply yields_ret].
destruct (ps_rehash salt p) as [next|e]; [|by apply yields_ret]. simpl.
intros r w' [(e & (y & ? & _)%attempt_cases & _)|(x & w2 & Hm & [= <- <-])]%bind_cases; [done|].
apply attempt_cases in Hm as (y & _ & Hm).
apply yields_exec with (ok := λ _, False) in Hm as [Hm _]. by split.
Qed.
End atomic.

Section refinement.
Context {mo : MapOrder} {ic : InfoCodec} {ps : PasswordScheme}.

Lemma yields_skip {A} (m : stm A) (g : A → bool) w db' :
yields m w db' (λ _, True) → yields (a ← m; mret (g a)) w db' (λ b, b = true).
Proof. intros Hm. apply yields_then. by eapply yields_weaken, Hm. Qed.

Lemma yields_ensure u p salt now w :
yields (EnsureAdmin u p salt now) w (effect (SEnsureAdmin u p salt now) (w_db w)) (λ _, True).
Proof.
unfold EnsureAdmin, GetAdmin. apply yields_query_row. intros w1 Hd. cbn [effect]. rewrite <-Hd.
destruct (t_admins (w_db w1)) as [a|] eqn:Ea; [by apply yields_ret|]. simpl.
destruct (normalizeUsername u) as [username|e]; [|apply yields_throw].
destruct (String.eqb p ""); [apply yields_throw|].
destruct (String.eqb p _); [apply yields_throw|].
destruct (ps_hash salt p) as [hash|e]; [|apply yields_throw].
apply yields_then. match goal with |- yields (exec ?f) _ _ _ =>
  pose proof (yields_exec f w1 (λ _, True)) as Hy end.
unfold applied in Hy. by rewrite Ea in Hy.
Qed.

Lemma yields_session_check {A} t now w (gone : A) (live : Z → A) (ok : A → Prop) :
¬ ok gone →
yields (if String.eqb t "" then mret gone
        else
          row ← query_row (λ db, sr_expires_at <$> t_sessions db !! hashToken t);
          match row with
          | None => mret gone
          | Some expires =>
            if expires <=? now then _ ← attempt (delete_session t); mret gone
            else mret (live expires)
          end) w (delete_expired t now (w_db w)) ok.
Proof.
intros Hg. destruct (String.eqb t "") eqn:Et; [by apply yields_ret|].
apply yields_query_row. intros w1 Hd. rewrite <-Hd. bool_to_prop.
destruct (t_sessions (w_db w1) !! hashToken t) as [r|] eqn:Er; [|by apply yields_ret]. simpl.
destruct (Z.leb_spec (sr_expires_at r) now); [by eapply yields_expired|].
apply yields_ret. intros _. unfold delete_expired. rewrite Er.
rewrite (proj2 (Z.leb_gt _ _)) by done. by rewrite andb_false_r.
Qed.

Lemma filter_keep_expired now (m : gmap string sess_row) :
filter (λ kv, negb (sr_expires_at kv.2 <=? now) = true) m = filter (λ kv, now < sr_expires_at kv.2) m.
Proof. apply map_filter_ext. intros k r _. simpl. rewrite negb_true_iff, Z.leb_gt. lia. Qed.

Lemma filter_keep_tokens c1 c2 (m : gmap string enroll_row) :
filter (λ kv, negb ((0 <? er_used_at kv.2) && (er_used_at kv.2 <? c1)
                    || (er_expires_at kv.2 <? c2)) = true) m
= filter (λ kv, ¬ (0 < er_used_at kv.2 ∧ er_used_at kv.2 < c1) ∧ c2 <= er_expires_at kv.2) m.
Proof.
apply map_filter_ext. intros k r _. simpl.
rewrite negb_true_iff, orb_false_iff, andb_false_iff, !Z.ltb_ge. lia.
Qed.

(** An update whose row count is then inspected. *)
Lemma yields_count {B} f (k : Z → stm B) w (ok : B → Prop) :
(∀ c w r w', k c w = (r, w') → w_db w' = w_db w) →
yields (n ← exec f; c ← rows_affected n; k c) w (applied f (w_db w)) ok.
Proof.
intros Hk r w' [(e & H1 & ->)|(n & w1 & H1 & H2)]%bind_cases.
- by eapply yields_exec with (ok := λ _, False) in H1 as [H1 _].
- apply exec_applied in H1. rewrite <-H1. enough (w_db w' = w_db w1) by auto.
  apply bind_cases in H2 as [(e & H2 & _)|(c & w2 & H2 & H3)].
  + by eapply rows_affected_cases.
  + apply Hk in H3. apply rows_affected_cases in H2. congruence.
Qed.

(** Every operation, at every failure point. *)
Lemma run_store_yields op w :
yields (run_store op) w (effect op (w_db w)) (λ b, b = true ∧ is_verify op = false).
Proof.
destruct op; cbn [run_store effect is_verify];
  try (apply yields_then; solve [apply yields_then, yields_exec | apply yields_revoke]).
- apply yields_then. unfold Put. destruct (_ || _); [apply yields_throw|].
  apply yields_lift. intros info ->. apply yields_lift. intros cards ->.
  apply yields_then, yields_exec.
- apply yields_then. unfold UpdateHeartbeat. apply yields_lift. intros json ->.
  apply yields_then, yields_exec.
- apply yields_then. unfold UpdateMetricCards. apply yields_lift. intros c ->.
  apply yields_count. intros n w1 r w2. by destruct (negb (n =? 1)); intros [= _ <-].
- apply yields_then, yields_reorder.
- apply yields_then. eapply yields_weaken, yields_ensure. naive_solver.
- apply yields_then. eapply yields_weaken, yields_verify. naive_solver.
- apply yields_then. unfold UpdateAdminPassword. apply yields_lift. intros hash ->.
  apply yields_then, yields_exec.
- apply yields_then. unfold UpdateAdminPasswordAndRevokeSessions. apply yields_lift.
  intros hash ->. apply yields_revoke.
- eapply yields_weaken, yields_disable. naive_solver.
- eapply yields_weaken, yields_consume. naive_solver.
- apply yields_session_check. naive_solver.
- apply yields_then, yields_session_check. by intros [? _].
- apply yields_then. rewrite <-del_all_sessions. apply yields_then, yields_exec.
- apply yields_then. rewrite <-filter_keep_expired. apply yields_then.
  apply (yields_exec (del_sessions (λ _ r, negb (sr_expires_at r <=? now)))).
- apply yields_then. unfold CreateEnrollmentToken. apply yields_lift. intros l ->.
  apply yields_then, yields_exec.
- unfold ConsumeEnrollmentToken. apply yields_count. by intros n w1 r w2 [= _ <-].
- eapply yields_weaken, yields_enroll. naive_solver.
- apply yields_then. rewrite <-filter_keep_tokens. apply yields_then.
  match goal with |- yields (exec ?f) _ _ _ => apply (yields_exec f) end.
Qed.
End refinement.

(** ** Order of the device list *)

Lemma leb_trans s1 s2 s3 :
  String.leb s1 s2 = true → String.leb s2 s3 = true → String.leb s1 s3 = true.
Proof.
  assert (Hle : ∀ a b, String.leb a b = true ↔ a = b ∨ OrderedTypeEx.String_as_OT.lt a b).
  { intros a b. unfold String.leb.
    pose proof (OrderedTypeEx.String_as_OT.cmp_lt a b) as Hlt.
    change (OrderedTypeEx.String_as_OT.cmp a b) with (String.compare a b) in Hlt.
    destruct (String.compare a b) eqn:E.
    - apply String.compare_eq_iff in E. naive_solver.
    - naive_solver.
    - split; [done|]. intros [->|H%Hlt]; [|done].
      destruct (String.leb_total b b) as [Hx|Hx]; unfold String.leb in Hx; by rewrite E in Hx. }
  rewrite !Hle. intros [->|H1] [->|H2]; auto. right. by eapply OrderedTypeEx.String_as_OT.lt_trans.
Qed.

#[global] Instance dev_le_trans : Transitive dev_le.
Proof.
  intros x y z [H1|[H1 H1']] [H2|[H2 H2']]; unfold dev_le; [left; lia..|].
  right. split; [congruence|by eapply leb_trans].
Qed.

#[global] Instance dev_le_total : Total dev_le.
Proof.
  intros x y. unfold dev_le. destruct (Z.lt_trichotomy (dr_sort_order x.2) (dr_sort_order y.2))
    as [?|[?|?]]; [auto| |auto]. destruct (String.leb_total x.1 y.1); auto.
Qed.

Lemma dev_le_antisymm x y : dev_le x y → dev_le y x → x.1 = y.1.
Proof.
  intros [?|[? ?]] [?|[? ?]]; try lia. by apply String.leb_antisym.
Qed.

Lemma sorted_devices_perm db : sorted_devices db ≡ₚ map_to_list (t_devices db).
Proof. apply merge_sort_Permutation. Qed.

Lemma sorted_devices_sorted db : StronglySorted dev_le (sorted_devices db).
Proof. apply Sorted_StronglySorted; [apply _|]. apply Sorted_merge_sort, _. Qed.

Lemma elem_of_sorted_devices db k r :
  (k, r) ∈ sorted_devices db ↔ t_devices db !! k = Some r.
Proof. by rewrite sorted_devices_perm, elem_of_map_to_list. Qed.

(** The order is the only sorted arrangement of the table. *)
Lemma sorted_devices_unique db l :
  StronglySorted dev_le l → l ≡ₚ map_to_list (t_devices db) → l = sorted_devices db.
Proof.
  intros Hs Hp. apply (StronglySorted_unique_strong dev_le); [|done|apply sorted_devices_sorted|].
  - intros [k1 r1] [k2 r2] H1 H2 H3 H4. pose proof (dev_le_antisymm _ _ H3 H4) as Hk.
    simpl in Hk. subst k2. rewrite Hp, elem_of_map_to_list in H1.
    rewrite elem_of_sorted_devices in H2. congruence.
  - by rewrite sorted_devices_perm.
Qed.

Lemma next_sort_order_gt m k r : m !! k = Some r → dr_sort_order r < next_sort_order m.
Proof.
  unfold next_sort_order. revert k r.
  apply (map_fold_weak_ind (λ a (m : gmap string dev_row), ∀ k r, m !! k = Some r →
    dr_sort_order r < a + 1)); [by intros ??; rewrite lookup_empty|].
  intros i x m' a Hi IH k r. rewrite lookup_insert_Some.
  intros [[<- <-]|[_ Hk]]; [lia|]. specialize (IH k r Hk). lia.
Qed.

(** A device inserted with the next order comes last. *)
Lemma sorted_devices_append db id f :
  t_devices db !! id = None → (∀ order, dr_sort_order (f order) = order) →
  sorted_devices (applied (ins_device id f) db) =
  sorted_devices db ++ [(id, f (next_sort_order (t_devices db)))].
Proof.
  intros Hid Hf. unfold applied, ins_device. rewrite Hid. symmetry.
  apply sorted_devices_unique.
  - apply StronglySorted_app. split_and!.
    + intros [k r] y Hk ->%list_elem_of_singleton. left. simpl. rewrite Hf.
      apply elem_of_sorted_devices in Hk. by eapply next_sort_order_gt.
    + apply sorted_devices_sorted.
    + repeat constructor.
  - simpl. rewrite map_to_list_insert by done. rewrite sorted_devices_perm.
    symmetry. apply Permutation_cons_append.
Qed.

(** ** Histories *)

Section histories.
Context {mo : MapOrder} {ic : InfoCodec} {ps : PasswordScheme}.

(** A property every allowed effect keeps holds after every history of allowed
  operations, whatever failed. *)
Lemma history_inv (allowed : store_op → Prop) (P : DB → Prop) ops db :
(∀ op db, allowed op → P db → P (effect op db)) →
Forall (λ op, allowed op.1) ops → P db → P (run_history ops db).
Proof.
intros Heff Hops. unfold run_history. revert db.
induction Hops as [|[op fs] ops Hop _ IH]; intros db Hdb; simpl; [done|].
apply IH. destruct (run_store op (mkWorld db fs)) as [r w'] eqn:E.
apply run_store_yields in E as [[E|E] _]; simpl in *; rewrite E; auto.
Qed.

(** No unused token has this digest. *)
Definition spent (hash : string) (db : DB) : Prop :=
map_Forall (λ _ e, er_token_hash e = hash → er_used_at e ≠ 0) (t_enroll db).

(** The operations of [store_op] that touch only one table. *)
Lemma enroll_upd_device id f db : t_enroll (applied (upd_device id f) db) = t_enroll db.
Proof. unfold applied, upd_device. by repeat (case_match; simplify_eq/=). Qed.
Lemma enroll_put_device id n h l i c db : t_enroll (applied (put_device id n h l i c) db) = t_enroll db.
Proof. unfold applied, put_device. by repeat (case_match; simplify_eq/=). Qed.
Lemma enroll_ins_device id f db : t_enroll (applied (ins_device id f) db) = t_enroll db.
Proof. unfold applied, ins_device. by repeat (case_match; simplify_eq/=). Qed.
Lemma enroll_upd_admin c f db : t_enroll (applied (upd_admin c f) db) = t_enroll db.
Proof. unfold applied, upd_admin. by repeat (case_match; simplify_eq/=). Qed.
Lemma enroll_ins_session k r db : t_enroll (applied (ins_session k r) db) = t_enroll db.
Proof. unfold applied, ins_session. by repeat (case_match; simplify_eq/=). Qed.
Lemma enroll_orders i ids db : t_enroll (apply_orders i ids db) = t_enroll db.
Proof.
revert i db. induction ids as [|id ids IH]; intros i db; simpl; [done|].
by rewrite IH, enroll_upd_device.
Qed.

Lemma admins_upd_device id f db : t_admins (applied (upd_device id f) db) = t_admins db.
Proof. unfold applied, upd_device. by repeat (case_match; simplify_eq/=). Qed.
Lemma admins_put_device id n h l i c db : t_admins (applied (put_device id n h l i c) db) = t_admins db.
Proof. unfold applied, put_device. by repeat (case_match; simplify_eq/=). Qed.
Lemma admins_ins_device id f db : t_admins (applied (ins_device id f) db) = t_admins db.
Proof. unfold applied, ins_device. by repeat (case_match; simplify_eq/=). Qed.
Lemma admins_ins_session k r db : t_admins (applied (ins_session k r) db) = t_admins db.
Proof. unfold applied, ins_session. by repeat (case_match; simplify_eq/=). Qed.
Lemma admins_ins_enroll i r db : t_admins (applied (ins_enroll i r) db) = t_admins db.
Proof. unfold applied, ins_enroll. by repeat (case_match; simplify_eq/=). Qed.
Lemma admins_orders i ids db : t_admins (apply_orders i ids db) = t_admins db.
Proof.
revert i db. induction ids as [|id ids IH]; intros i db; simpl; [done|].
by rewrite IH, admins_upd_device.
Qed.

Lemma sessions_upd_device id f db : t_sessions (applied (upd_device id f) db) = t_sessions db.
Proof. unfold applied, upd_device. by repeat (case_match; simplify_eq/=). Qed.
Lemma sessions_put_device id n h l i c db :
t_sessions (applied (put_device id n h l i c) db) = t_sessions db.
Proof. unfold applied, put_device. by repeat (case_match; simplify_eq/=). Qed.
Lemma sessions_ins_device id f db : t_sessions (applied (ins_device id f) db) = t_sessions db.
Proof. unfold applied, ins_device. by repeat (case_match; simplify_eq/=). Qed.
Lemma sessions_upd_admin c f db : t_sessions (applied (upd_admin c f) db) = t_sessions db.
Proof. unfold applied, upd_admin. by repeat (case_match; simplify_eq/=). Qed.
Lemma sessions_ins_enroll i r db : t_sessions (applied (ins_enroll i r) db) = t_sessions db.
Proof. unfold applied, ins_enroll. by repeat (case_match; simplify_eq/=). Qed.
Lemma sessions_orders i ids db : t_sessions (apply_orders i ids db) = t_sessions db.
Proof.
revert i db. induction ids as [|id ids IH]; intros i db; simpl; [done|].
by rewrite IH, sessions_upd_device.
Qed.
End histories.

Create HintDb tables.
#[export] Hint Rewrite enroll_upd_device enroll_put_device enroll_ins_device enroll_upd_admin
  enroll_ins_session enroll_orders
  admins_upd_device admins_put_device admins_ins_device admins_ins_session admins_ins_enroll
  admins_orders
  sessions_upd_device sessions_put_device sessions_ins_device sessions_upd_admin
  sessions_ins_enroll sessions_orders : tables.

(** *** Frames: the table an operation leaves alone *)

Definition touches_enroll (op : store_op) : bool :=
  match op with
  | SCreateEnrollmentToken _ _ _ _ _ | SConsumeEnrollmentToken _ _ | SEnroll _ _ _
  | SCleanupEnrollmentTokens _ _ => true
  | _ => false
  end.

Definition touches_admins (op : store_op) : bool :=
  match op with
  | SEnsureAdmin _ _ _ _ | SVerifyPassword _ _ _ | SUsername _ _ | SUsernameRevoke _ _
  | SPassword _ _ _ | SPasswordRevoke _ _ _ | SSetTOTP _ _ | SEnableTOTPRevoke _ _
  | SDisableTOTPRevoke _ | SConsumeTOTP _ _ _ _ _ => true
  | _ => false
  end.

Definition touches_sessions (op : store_op) : bool :=
  match op with
  | SUsernameRevoke _ _ | SPasswordRevoke _ _ _ | SEnableTOTPRevoke _ _ | SDisableTOTPRevoke _
  | SCreateSession _ _ _ _ | SConsumeTOTP _ _ _ _ _ | SSessionValid _ _ | SSessionExpiry _ _
  | SDeleteSession _ | SDeleteAllSessions | SCleanupSessions _ => true
  | _ => false
  end.

Ltac frame :=
  repeat match goal with
  | |- context [match ?x with _ => _ end] => destruct x eqn:?
  end; simpl; autorewrite with tables; try done.

Section frames.
Context {mo : MapOrder} {ic : InfoCodec} {ps : PasswordScheme}.

Lemma effect_enroll op db : touches_enroll op = false → t_enroll (effect op db) = t_enroll db.
Proof.
destruct op; try done; intros _; cbn [effect]; unfold revoked, delete_expired; frame.
Qed.

Lemma effect_admins op db : touches_admins op = false → t_admins (effect op db) = t_admins db.
Proof.
destruct op; try done; intros _; cbn [effect]; unfold delete_expired; frame.
Qed.

Lemma effect_sessions op db : touches_sessions op = false → t_sessions (effect op db) = t_sessions db.
Proof.
destruct op; try done; intros _; cbn [effect]; unfold delete_expired; frame.
Qed.
End frames.

(** *** Invariants of the tables *)

Section invariants.
Context {mo : MapOrder} {ic : InfoCodec} {ps : PasswordScheme}.

Definition creates_token (hash : string) (op : store_op) : bool :=
match op with SCreateEnrollmentToken _ _ t _ _ => String.eqb (hashToken t) hash | _ => false end.

Lemma use_tokens_spent hash h now db : spent hash db → spent hash (applied (use_tokens h now) db).
Proof.
unfold spent, applied, use_tokens. simpl. intros Hs k e. rewrite lookup_fmap_Some.
intros (e0 & <- & Hk) Hh. destruct (token_usable h now e0) eqn:Eu; [|by eapply Hs].
simpl in *. exfalso. unfold token_usable in Eu. bool_to_prop. by eapply (Hs k e0).
Qed.

Lemma spent_frame hash db db' : t_enroll db' = t_enroll db → spent hash db → spent hash db'.
Proof. unfold spent. by intros ->. Qed.

Lemma ins_enroll_spent hash id row db :
er_token_hash row ≠ hash → spent hash db → spent hash (applied (ins_enroll id row) db).
Proof.
intros Hr Hs. unfold applied, ins_enroll. destruct (_ && _); [|done].
unfold spent. simpl. by apply map_Forall_insert_2.
Qed.

Lemma spent_effect hash op db :
creates_token hash op = false → spent hash db → spent hash (effect op db).
Proof.
intros Hc Hs. destruct (touches_enroll op) eqn:Et;
  [|by eapply spent_frame; [apply effect_enroll|]].
destruct op; try done; cbn [effect creates_token] in *.
- case_match; [|done]. apply ins_enroll_spent; [by apply String.eqb_neq|done].
- by apply use_tokens_spent.
- repeat case_match; try done. eapply spent_frame; [apply enroll_ins_device|].
  by apply use_tokens_spent.
- intros k e [Hk _]%map_lookup_filter_Some. by apply (Hs k e).
Qed.

(** The schema's [token_hash BLOB NOT NULL UNIQUE]. *)
Definition unique_tokens (db : DB) : Prop :=
∀ i j e f, t_enroll db !! i = Some e → t_enroll db !! j = Some f →
  er_token_hash e = er_token_hash f → i = j.

Lemma unique_tokens_use h now db : unique_tokens db → unique_tokens (applied (use_tokens h now) db).
Proof.
intros Hu i j e f. unfold applied, use_tokens. simpl. rewrite !lookup_fmap_Some.
intros (e0 & <- & Hi) (f0 & <- & Hj) He. eapply Hu; [done|done|].
by repeat case_match.
Qed.

Lemma unique_tokens_frame db db' : t_enroll db' = t_enroll db → unique_tokens db → unique_tokens db'.
Proof. unfold unique_tokens. by intros ->. Qed.

Lemma unique_tokens_effect op db : unique_tokens db → unique_tokens (effect op db).
Proof.
intros Hu. destruct (touches_enroll op) eqn:Et;
  [|by eapply unique_tokens_frame; [apply effect_enroll|]].
destruct op; try done; cbn [effect].
- case_match; [|done]. unfold applied, ins_enroll. destruct (_ && _) eqn:E; [|done].
  apply andb_true_iff in E as [_ Hnew%bool_decide_eq_true]. intros i j e f. simpl. rewrite !lookup_insert_Some.
  intros [[<- <-]|[? Hi]] [[<- <-]|[? Hj]] He; [done| | |by eapply Hu].
  + by destruct (Hnew j f Hj).
  + by destruct (Hnew i e Hi).
- by apply unique_tokens_use.
- repeat case_match; try done. eapply unique_tokens_frame; [apply enroll_ins_device|].
  by apply unique_tokens_use.
- intros i j e f. simpl. rewrite !map_lookup_filter_Some. intros [Hi _] [Hj _]. by eapply Hu.
Qed.

Lemma usable_label_some hash now db l :
usable_label hash now db = Some l →
∃ k e, t_enroll db !! k = Some e ∧ er_label e = l ∧ token_usable hash now e = true.
Proof.
unfold usable_label. destruct (filter _ (map_order (t_enroll db))) as [|[k e] rest] eqn:E; [done|].
intros [= <-]. assert (Hin : (k, e) ∈ filter (λ kv, token_usable hash now kv.2 = true)
  (map_order (t_enroll db))) by (rewrite E; left).
apply list_elem_of_filter in Hin as [Hu Hin%elem_of_map_order]. eauto.
Qed.

Lemma usable_label_none hash now db :
spent hash db → usable_label hash now db = None.
Proof.
intros Hs. destruct (usable_label hash now db) as [l|] eqn:E; [|done].
apply usable_label_some in E as (k & e & Hk & _ & Hu). unfold token_usable in Hu.
bool_to_prop. by destruct (Hs k e Hk).
Qed.

(** After a usable token was used it is spent. *)
Lemma use_tokens_spends hash now db :
now ≠ 0 → unique_tokens db →
(∃ k e, t_enroll db !! k = Some e ∧ token_usable hash now e = true) →
spent hash (applied (use_tokens hash now) db).
Proof.
intros Hn Hu (k0 & e0 & Hk0 & He0) k e. unfold applied, use_tokens. simpl.
rewrite lookup_fmap_Some. intros (e1 & <- & Hk) Hh.
destruct (token_usable hash now e1) eqn:Eu; [done|]. simpl in *. exfalso.
assert (Hhe : er_token_hash e0 = hash) by (unfold token_usable in He0; by bool_to_prop).
assert (k0 = k) as -> by (eapply Hu; [done|done|congruence]). congruence.
Qed.

(** The last accepted TOTP step is at least [n]. *)
Definition step_reached (n : Z) (db : DB) : Prop :=
∃ a, t_admins db = Some a ∧ n <= ar_last_step a.

Definition resets_totp (op : store_op) : bool :=
match op with SSetTOTP _ _ | SEnableTOTPRevoke _ _ | SDisableTOTPRevoke _ => true | _ => false end.

Lemma step_reached_upd n cond f db :
(∀ a, cond a = true → ar_last_step a <= ar_last_step (f a)) →
step_reached n db → step_reached n (applied (upd_admin cond f) db).
Proof.
intros Hf (a & Ha & Hn). unfold applied, upd_admin. rewrite Ha.
destruct (cond a) eqn:E; [|by exists a]. exists (f a). split; [done|].
specialize (Hf a E). lia.
Qed.

Lemma step_reached_frame n db db' :
t_admins db' = t_admins db → step_reached n db → step_reached n db'.
Proof. unfold step_reached. by intros ->. Qed.

Lemma step_reached_effect n op db :
resets_totp op = false → step_reached n db → step_reached n (effect op db).
Proof.
intros Hr Hs. destruct (touches_admins op) eqn:Et;
  [|by eapply step_reached_frame; [apply effect_admins|]].
assert (Hu : ∀ f, (∀ a, ar_last_step (f a) = ar_last_step a) →
  step_reached n (applied (upd_admin always f) db)).
{ intros f Hf. apply step_reached_upd; [|done]. intros a _. rewrite Hf. lia. }
destruct op; try done; cbn [effect]; unfold revoked; repeat case_match; try done;
  try (by apply Hu); try (eapply step_reached_frame; [|by apply Hu]; done).
- destruct Hs as (row & Ha & _). congruence.
- eapply step_reached_frame; [apply admins_ins_session|]. apply step_reached_upd; [|done].
  intros a Ha. bool_to_prop. simpl. lia.
Qed.

(** No session with this digest. *)
Definition no_session (key : string) (db : DB) : Prop := t_sessions db !! key = None.

Definition creates_session (key : string) (op : store_op) : bool :=
match op with
| SCreateSession t _ _ _ | SConsumeTOTP _ t _ _ _ => String.eqb (hashToken t) key
| _ => false
end.

Lemma ins_session_other key k row db :
k ≠ key → t_sessions (applied (ins_session k row) db) !! key = t_sessions db !! key.
Proof.
intros Hne. unfold applied, ins_session. destruct (t_sessions db !! k); [done|].
simpl. by rewrite lookup_insert_ne.
Qed.

Lemma no_session_effect key op db :
creates_session key op = false → no_session key db → no_session key (effect op db).
Proof.
unfold no_session. intros Hc Hn. destruct (touches_sessions op) eqn:Et;
  [|by rewrite effect_sessions].
destruct op; try done; cbn [effect creates_session] in *; unfold revoked, delete_expired;
  repeat case_match; simpl; try done.
- rewrite ins_session_other; [done|by apply String.eqb_neq].
- rewrite ins_session_other by by apply String.eqb_neq. by rewrite sessions_upd_admin.
- by apply lookup_delete_None; right.
- by apply lookup_delete_None; right.
- by apply lookup_delete_None; right.
- apply map_lookup_filter_None. by left.
Qed.

(** The operations that may end the session [key] before it expires. *)
Definition ends_session (key : string) (expires : Z) (op : store_op) : bool :=
match op with
| SUsernameRevoke _ _ | SPasswordRevoke _ _ _ | SEnableTOTPRevoke _ _ | SDisableTOTPRevoke _
| SDeleteAllSessions => true
| SDeleteSession t => String.eqb (hashToken t) key
| SSessionValid t now | SSessionExpiry t now => String.eqb (hashToken t) key && (expires <=? now)
| SCleanupSessions now => expires <=? now
| _ => false
end.

Lemma session_effect key row op db :
ends_session key (sr_expires_at row) op = false → t_sessions db !! key = Some row →
t_sessions (effect op db) !! key = Some row.
Proof.
intros He Hk. destruct (touches_sessions op) eqn:Et; [|by rewrite effect_sessions].
assert (Hins : ∀ k r, t_sessions (applied (ins_session k r) db) !! key = Some row).
{ intros k r. destruct (decide (k = key)) as [->|]; [|by rewrite ins_session_other].
  unfold applied, ins_session. by rewrite Hk. }
assert (Hexp : ∀ t now, String.eqb (hashToken t) key && (sr_expires_at row <=? now) = false →
  t_sessions (delete_expired t now db) !! key = Some row).
{ intros t now Ht. unfold delete_expired. destruct (t_sessions db !! hashToken t) eqn:E; [|done].
  destruct (negb (t =? "")%string && _) eqn:Ec; [|done]. simpl.
  rewrite lookup_delete_ne; [done|]. intros Heq. rewrite Heq, Hk in E. injection E as <-.
  rewrite Heq, String.eqb_refl in Ht. simpl in Ht. bool_to_prop. lia. }
destruct op; try done; cbn [effect ends_session] in *; auto.
- destruct (decide (hashToken token = key)) as [<-|].
  + unfold applied at 1, ins_session. rewrite sessions_upd_admin, Hk. by rewrite sessions_upd_admin.
  + by rewrite ins_session_other, sessions_upd_admin.
- simpl. rewrite lookup_delete_ne; [done|by apply String.eqb_neq].
- simpl. bool_to_prop. by apply map_lookup_filter_Some.
Qed.
End invariants.
