(* ===== verification/StoreProps.v ===== *)
(** * Guarantees of the store

    Theorems about [internal/server/store.go] that hold for every history of
    operations and every pattern of database failures. *)

From S2P Require Export StoreSpec.

(** ** Lemmas *)

Section lemmas.
Context {mo : MapOrder} {ic : InfoCodec} {ps : PasswordScheme}.

(** Using a token changes its row only: the digest is unique. *)
Lemma use_tokens_row hash now db k e :
unique_tokens db → t_enroll db !! k = Some e → token_usable hash now e = true →
use_tokens hash now db = Ok (set_enroll (<[k := set_used now e]> (t_enroll db)) db, 1).
Proof.
intros Hu Hk He. unfold use_tokens.
assert (Hone : ∀ j f, t_enroll db !! j = Some f → token_usable hash now f = true → j = k).
{ intros j f Hj Hf. eapply Hu; [done|done|]. unfold token_usable in *. bool_to_prop. congruence. }
do 2 f_equal.
- f_equal. apply map_eq. intros j. rewrite lookup_fmap.
  destruct (decide (j = k)) as [->|Hne].
  + rewrite Hk, lookup_insert_eq. simpl. by rewrite He.
  + rewrite lookup_insert_ne by done. destruct (t_enroll db !! j) as [f|] eqn:Ej; [|done].
    simpl. destruct (token_usable hash now f) eqn:Ef; [|done]. by destruct Hne; eapply Hone.
- assert (Hf : filter (λ kv, token_usable hash now kv.2 = true) (t_enroll db) = {[k := e]}).
  { apply map_eq. intros j. destruct (decide (j = k)) as [->|Hne].
    - rewrite lookup_singleton_eq. by apply map_lookup_filter_Some.
    - rewrite lookup_singleton_ne by done. apply map_lookup_filter_None. right.
      intros f Hj Hf. destruct Hne. by eapply Hone. }
  rewrite Hf. by rewrite map_size_singleton.
Qed.

Lemma ins_device_ok id f db db' n :
ins_device id f db = Ok (db', n) →
t_devices db !! id = None ∧
db' = set_devices (<[id := f (next_sort_order (t_devices db))]> (t_devices db)) db.
Proof. unfold ins_device. intros Hi. by repeat (case_match; simplify_eq/=). Qed.

Lemma EnrollDevice_ok t d now w w' :
EnrollDevice t d now w = (Ok true, w') → unique_tokens (w_db w) →
∃ k e info cards,
  t_enroll (w_db w) !! k = Some e ∧ token_usable (hashToken t) now e = true ∧
  t_devices (w_db w) !! d_ID d = None ∧
  info_json (d_Info d) = Ok info ∧ encodeMetricCards (d_MetricCards d) = Ok cards ∧
  w_db w' = applied (ins_device (d_ID d) (λ order,
      mkDevRow (enrolled_name (er_label e) (d_Name d)) (d_TokenHash d) (d_LastSeen d) info order cards))
    (set_enroll (<[k := set_used now e]> (t_enroll (w_db w))) (w_db w)).
Proof.
unfold EnrollDevice. intros Hrun Hu. destruct (_ || _); [done|].
apply bind_ok in Hrun as (info & w1 & [= Hi <-] & Hrun).
apply with_tx_cases in Hrun as [[_ Hr]|(a & w0 & w2 & _ & Hd & Hb & Hw')].
- destruct (Hr true eq_refl) as (w0 & w1 & _ & Hb).
  apply bind_ok in Hb as (label & w2 & _ & Hb). destruct label; [|done].
  apply bind_ok in Hb as (n & w3 & _ & Hb). apply bind_ok in Hb as (n' & w4 & _ & Hb).
  destruct (negb (n' =? 1)); [done|].
  apply bind_ok in Hb as (cards & w5 & _ & Hb). by apply bind_ok in Hb as (n'' & w6 & _ & Hb).
- apply bind_ok in Hb as (label & w1 & [Hl Hd1]%query_row_ok & Hb).
  rewrite Hd in Hl. destruct label as [label|]; [|done]. symmetry in Hl.
  apply usable_label_some in Hl as (k & e & Hk & <- & He).
  apply bind_ok in Hb as (n & w3 & Hx%exec_ok & Hb).
  rewrite Hd1, Hd, (use_tokens_row _ _ _ k e) in Hx by done. injection Hx as Hx <-.
  apply bind_ok in Hb as (n' & w4 & [-> Hd4]%rows_affected_ok & Hb).
  apply bind_ok in Hb as (cards & w5 & [= Hc <-] & Hb).
  apply bind_ok in Hb as (n & w6 & Hx2%exec_ok & [= _ <-]).
  exists k, e, info, cards. rewrite Hd4, <-Hx in Hx2. rewrite Hw'.
  unfold applied. rewrite Hx2. apply ins_device_ok in Hx2 as [Hn _]. split_and!; done.
Qed.

(** Without failures a valid enrollment succeeds. *)
Lemma EnrollDevice_succeeds t d now db k e info cards :
d_ID d ≠ "" → slen (d_TokenHash d) ≠ 0 → unique_tokens db →
t_enroll db !! k = Some e → token_usable (hashToken t) now e = true →
t_devices db !! d_ID d = None →
info_json (d_Info d) = Ok info → encodeMetricCards (d_MetricCards d) = Ok cards →
fst (EnrollDevice t d now (mkWorld db [])) = Ok true.
Proof.
intros Hid%String.eqb_neq Hh%Z.eqb_neq Hu Hk He Hd Hi Hc. unfold EnrollDevice. rewrite Hid, Hh.
unfold mbind, stm_bind, lift_res. rewrite Hi. simpl. unfold with_tx. simpl.
assert (∃ l, usable_label (hashToken t) now db = Some l) as [l Hl].
{ unfold usable_label. destruct (filter _ (map_order (t_enroll db))) eqn:E; [|eauto].
  exfalso. apply (not_elem_of_nil (k, e)). rewrite <-E.
  apply list_elem_of_filter. by rewrite elem_of_map_order. }
unfold query_row, rows_affected, exec, modify, gets, mbind, stm_bind, db_call, mret, stm_ret.
cbn -[use_tokens usable_label ins_device encodeMetricCards]. rewrite Hl.
cbn -[use_tokens ins_device encodeMetricCards]. rewrite (use_tokens_row _ _ _ k e) by done.
cbn -[ins_device encodeMetricCards]. rewrite Hc. unfold ins_device. simpl. by rewrite Hd.
Qed.

(** The rows of the sorted list after an insertion. *)
Lemma enrolled_list db id f k e now :
t_devices db !! id = None → (∀ order, dr_sort_order (f order) = order) →
sorted_devices (applied (ins_device id f) (set_enroll (<[k := set_used now e]> (t_enroll db)) db))
= sorted_devices db ++ [(id, f (next_sort_order (t_devices db)))].
Proof. intros Hn Hf. by rewrite sorted_devices_append. Qed.
End lemmas.

(** ** Concrete environment *)

#[export] Instance demo_codec : InfoCodec := {|
  marshal_info i := Ok (Hostname i);
  unmarshal_info s := None
|}.

Definition demo_passwords : PasswordScheme :=
  argon2_scheme id demo_IDKey (λ _ _, false) 19 demo_IDKey_length ltac:(done).

(** ** Enrollment *)

Section enrollment.
Context {mo : MapOrder} {ic : InfoCodec} {ps : PasswordScheme}.

(** C6. Enrolling a device is all or nothing at every failure point.  When it
  succeeds, exactly one unused and unexpired token was consumed, the device
  was not known before, its row holds the token's label (or the given name),
  and it comes last in the device list; administrators and sessions are
  untouched.  In every other case the database is unchanged, so the token can
  be used again.  Without failures every valid enrollment succeeds. *)
Theorem EnrollDevice_correct t d now w r w' :
EnrollDevice t d now w = (r, w') → unique_tokens (w_db w) →
(r ≠ Ok true → w_db w' = w_db w) ∧
(r = Ok true → ∃ k e info cards,
   let row := mkDevRow (enrolled_name (er_label e) (d_Name d)) (d_TokenHash d) (d_LastSeen d)
                info (next_sort_order (t_devices (w_db w))) cards in
   t_enroll (w_db w) !! k = Some e ∧ token_usable (hashToken t) now e = true ∧
   t_devices (w_db w) !! d_ID d = None ∧ info_json (d_Info d) = Ok info ∧
   encodeMetricCards (d_MetricCards d) = Ok cards ∧
   w_db w' = set_enroll (<[k := set_used now e]> (t_enroll (w_db w)))
               (set_devices (<[d_ID d := row]> (t_devices (w_db w))) (w_db w)) ∧
   sorted_devices (w_db w') = sorted_devices (w_db w) ++ [(d_ID d, row)]) ∧
(w_faults w = [] → d_ID d ≠ "" → slen (d_TokenHash d) ≠ 0 →
 t_devices (w_db w) !! d_ID d = None →
 is_ok (info_json (d_Info d)) = true → is_ok (encodeMetricCards (d_MetricCards d)) = true →
 (∃ k e, t_enroll (w_db w) !! k = Some e ∧ token_usable (hashToken t) now e = true) →
 r = Ok true).
Proof.
intros Hrun Hu. split_and!.
- intros Hr. unfold EnrollDevice in Hrun. destruct (_ || _); [by injection Hrun as <- <-|].
  apply bind_cases in Hrun as [(e & [= ? <-] & _)|(info & w1 & [= _ <-] & Hrun)]; [done|].
  apply with_tx_cases in Hrun as [[Hd _]|(b & w0 & w2 & -> & _ & Hb & _)]; [done|].
  exfalso. apply Hr. f_equal. apply bind_ok in Hb as (label & w3 & _ & Hb).
  destruct label; [|done]. apply bind_ok in Hb as (n & w4 & _ & Hb).
  apply bind_ok in Hb as (n' & w5 & _ & Hb). destruct (negb _); [done|].
  apply bind_ok in Hb as (c & w6 & _ & Hb). by apply bind_ok in Hb as (n'' & w7 & _ & [= <- _]).
- intros ->. destruct (EnrollDevice_ok _ _ _ _ _ Hrun Hu)
    as (k & e & info & cards & Hk & He & Hd & Hi & Hc & Hw').
  exists k, e, info, cards. split_and!; try done; rewrite Hw'.
  + unfold applied, ins_device. simpl. by rewrite Hd.
  + by rewrite enrolled_list.
- intros Hf Hid Hh Hd Hi Hc (k & e & Hk & He).
  destruct (info_json (d_Info d)) as [info|] eqn:Ei; [|done].
  destruct (encodeMetricCards (d_MetricCards d)) as [cards|] eqn:Ec; [|done].
  destruct w as [db fs]. simpl in *. subst fs.
  pose proof (EnrollDevice_succeeds t d now db k e info cards) as Hs.
  rewrite Hrun in Hs. by apply Hs.
Qed.

(** C15. An enrollment token enrolls at most one device: once an enrollment with
  it has succeeded, no later enrollment or consumption of the same token
  succeeds, whatever operations and failures come in between, unless a token
  with the same digest is created again. *)
Theorem enrollment_token_single_use t d now w w' ops d' now' fs :
EnrollDevice t d now w = (Ok true, w') → now ≠ 0 → unique_tokens (w_db w) →
Forall (λ op, creates_token (hashToken t) op.1 = false) ops →
fst (EnrollDevice t d' now' (mkWorld (run_history ops (w_db w')) fs)) ≠ Ok true ∧
fst (ConsumeEnrollmentToken t now' (mkWorld (run_history ops (w_db w')) fs)) ≠ Ok true.
Proof.
intros Hrun Hn Hu Hops.
destruct (EnrollDevice_ok _ _ _ _ _ Hrun Hu) as (k & e & info & cards & Hk & He & _ & _ & _ & Hw').
assert (Hs : spent (hashToken t) (run_history ops (w_db w'))).
{ apply (history_inv (λ op, creates_token (hashToken t) op = false));
    [by intros; apply spent_effect|done|].
  rewrite Hw'. eapply spent_frame; [apply enroll_ins_device|].
  pose proof (use_tokens_spends (hashToken t) now (w_db w) Hn Hu (ex_intro _ k (ex_intro _ e (conj Hk He)))) as Hs.
  unfold applied in Hs. by rewrite (use_tokens_row _ _ _ k e) in Hs. }
split.
- intros Hr0. destruct (EnrollDevice t d' now' _) as [r w2] eqn:E. simpl in Hr0. subst r.
  unfold EnrollDevice in E. destruct (_ || _); [done|].
  apply bind_ok in E as (i & w3 & [= _ <-] & E).
  apply with_tx_cases in E as [[_ Hr]|(b & w0 & w4 & _ & Hd & Hb & _)].
  + destruct (Hr true eq_refl) as (w0 & w1 & Hd & Hb).
    apply bind_ok in Hb as (label & w4 & [-> _]%query_row_ok & Hb). rewrite Hd in Hb.
    simpl in Hb. by rewrite usable_label_none in Hb.
  + apply bind_ok in Hb as (label & w5 & [-> _]%query_row_ok & Hb). rewrite Hd in Hb.
    simpl in Hb. by rewrite usable_label_none in Hb.
- intros Hr0. destruct (ConsumeEnrollmentToken t now' _) as [r w2] eqn:E. simpl in Hr0. subst r.
  apply bind_ok in E as (n & w3 & Hx%exec_ok & E).
  apply bind_ok in E as (n' & w4 & [-> _]%rows_affected_ok & [= Hn1 _]). bool_to_prop. subst n.
  unfold use_tokens in Hx. injection Hx as _ Hsz. simpl in Hsz.
  rewrite (map_empty_filter_2 _ (t_enroll _)) in Hsz; [by rewrite map_size_empty in Hsz|].
  intros j f Hj Hf. unfold token_usable in Hf. bool_to_prop. by eapply (Hs j f).
Qed.
End enrollment.

(** *** A concrete enrollment *)

Definition demo_order : MapOrder := canonical_order.

Definition demo_device : DeviceRecord :=
  mkDevice "dev-1" "box" "digest" 7 None 0 ["cpu"; "disk"; "memory"].

(** The database after one token was created. *)
Definition demo_db : DB :=
  mkDB ∅ (Some (mkAdminRow "admin" "hash" "SECRET" 10 0))
    {[ "t1" := mkEnrollRow "Living room" (hashToken "tok") 0 1000 0 ]} ∅.

Lemma demo_unique_tokens : unique_tokens demo_db.
Proof.
  intros i j e f Hi Hj _. unfold demo_db in *. cbn [t_enroll] in *.
  apply lookup_singleton_Some in Hi as [<- _].
  by apply lookup_singleton_Some in Hj as [<- _].
Qed.

Lemma EnrollDevice_correct_witness :
  let run := EnrollDevice (mo:=demo_order) "tok" demo_device 5 (mkWorld demo_db []) in
  fst run = Ok true ∧ (sorted_devices (w_db (snd run))).*1 = ["dev-1"].
Proof.
  pose proof (EnrollDevice_correct (mo:=demo_order) "tok" demo_device 5 (mkWorld demo_db []) _ _
    (surjective_pairing _) demo_unique_tokens) as (_ & H2 & H3).
  assert (Hr : fst (EnrollDevice (mo:=demo_order) "tok" demo_device 5 (mkWorld demo_db [])) = Ok true).
  { apply H3; [reflexivity|discriminate|discriminate|reflexivity|reflexivity|vm_compute; reflexivity|].
    exists "t1", (mkEnrollRow "Living room" (hashToken "tok") 0 1000 0).
    split; vm_compute; reflexivity. }
  split; [exact Hr|]. destruct (H2 Hr) as (k & e & info & cards & _ & _ & _ & _ & _ & _ & ->).
  vm_compute. reflexivity.
Defined.

Lemma enrollment_token_single_use_witness :
  let w' := snd (EnrollDevice (mo:=demo_order) "tok" demo_device 5 (mkWorld demo_db [])) in
  fst (EnrollDevice (mo:=demo_order) "tok" (mkDevice "dev-2" "b" "h" 0 None 0 []) 6
    (mkWorld (run_history (mo:=demo_order) (ps:=demo_passwords) [(SDeleteDevice "dev-1", [])] (w_db w')) []))
  ≠ Ok true.
Proof.
  intros w'.
  refine (proj1 (enrollment_token_single_use (mo:=demo_order) (ps:=demo_passwords) "tok" demo_device
    5 (mkWorld demo_db []) w' [(SDeleteDevice "dev-1", [])] (mkDevice "dev-2" "b" "h" 0 None 0 []) 6 []
    _ _ demo_unique_tokens _)).
  - vm_compute. reflexivity.
  - discriminate.
  - repeat constructor.
Defined.

(** ** Refinement *)

Section refinement_property.
Context {mo : MapOrder} {ic : InfoCodec} {ps : PasswordScheme}.

(** The results of a history, in order. *)
Fixpoint history_results (ops : list (store_op * list bool)) (db : DB) : list (res bool) :=
match ops with
| [] => []
| op :: rest =>
  let (r, w') := run_store op.1 (mkWorld db op.2) in
  r :: history_results rest (w_db w')
end.

(** Runs of the specification: an operation takes effect as a whole or is
  skipped; it is never skipped when it reported success.  (A password check
  reports the verdict; the rehash it may do is best effort.) *)
Inductive spec_run : list (store_op * res bool) → DB → DB → Prop :=
| spec_nil db : spec_run [] db db
| spec_take op r rest db db' :
  spec_run rest (effect op db) db' → spec_run ((op, r) :: rest) db db'
| spec_skip op r rest db db' :
  (r = Ok true → is_verify op = true) →
  spec_run rest db db' → spec_run ((op, r) :: rest) db db'.

(** C5. The store refines its specification: for every history of operations
  and every pattern of database failures, the final database is the one
  obtained by applying, in order, the effects of a set of operations that
  includes all those that reported success; no operation leaves a partial
  effect behind. *)
Theorem store_refines_spec ops db :
spec_run (zip ops.*1 (history_results ops db)) db (run_history ops db).
Proof.
revert db. induction ops as [|[op fs] ops IH]; intros db; [constructor|].
cbn [history_results fmap list_fmap fst snd]. unfold run_history. cbn [fold_left fst snd].
destruct (run_store op (mkWorld db fs)) as [r w'] eqn:E. cbn [zip zip_with].
apply run_store_yields in E as [Hd Ht]. simpl in Hd, Ht.
destruct (decide (r = Ok true ∧ is_verify op = false)) as [[-> Hv]|Hn].
- apply spec_take. rewrite <-(Ht true) by done. apply IH.
- destruct Hd as [Hd|Hd]; simpl; rewrite Hd.
  + apply spec_skip; [|apply IH]. intros ->. destruct (is_verify op); [done|]. by destruct Hn.
  + apply spec_take, IH.
Qed.
End refinement_property.

(** ** Sessions, passwords and TOTP steps *)

Section sessions.
Context {mo : MapOrder} {ic : InfoCodec} {ps : PasswordScheme}.

(** C12. A TOTP code works once: after a login consumed step [step], no login
  with the same or an earlier step succeeds, and none leaves a session,
  whatever happens in between, as long as TOTP is not set up anew. *)
Theorem totp_step_not_replayed step t e p now w w' ops step' t' e' p' now' fs :
ConsumeTOTPLoginStepAndCreateSession step t e p now w = (Ok true, w') →
Forall (λ op, resets_totp op.1 = false) ops → step' <= step →
let run := ConsumeTOTPLoginStepAndCreateSession step' t' e' p' now'
             (mkWorld (run_history ops (w_db w')) fs) in
fst run ≠ Ok true ∧ w_db (snd run) = run_history ops (w_db w').
Proof.
intros Hrun Hops Hle run.
assert (Hs : step_reached step (run_history ops (w_db w'))).
{ apply (history_inv (λ op, resets_totp op = false));
    [by intros; apply step_reached_effect|done|].
  apply with_tx_cases in Hrun as [[_ Hr]|(a & w0 & w1 & _ & Hd & Hb & Hw')].
  - destruct (Hr true eq_refl) as (w0 & w1 & _ & Hb).
    apply bind_ok in Hb as (n & w2 & _ & Hb). apply bind_ok in Hb as (n' & w3 & _ & Hb).
    destruct (negb _); [done|]. by apply bind_ok in Hb as (n'' & w4 & _ & Hb).
  - rewrite Hw'. apply bind_ok in Hb as (n & w2 & H1%exec_ok & Hb).
    apply bind_ok in Hb as (n' & w3 & [-> H2]%rows_affected_ok & Hb).
    destruct (negb (n =? 1)) eqn:En; [done|]. bool_to_prop.
    apply upd_admin_rows in H1 as [(_ & a0 & Ha & Hc & Hw2)|(-> & _)]; [|done].
    apply bind_ok in Hb as (n' & w4 & H3%exec_applied & [= _ <-]).
    rewrite H3. eapply step_reached_frame; [apply admins_ins_session|].
    rewrite H2, Hw2. exists (set_step step a0). split; [done|simpl; lia]. }
destruct Hs as (a & Ha & Hst).
assert (Hno : ∀ w0 w1 (b : tx_end bool), w_db w0 = run_history ops (w_db w') →
  (n ← exec (upd_admin (λ a, ar_last_step a <? step') (set_step step'));
   n ← rows_affected n;
   if negb (n =? 1) then mret (Rollback false)
   else _ ← exec (ins_session (hashToken t') (mkSessRow now' e' (sessionPersistentValue p')));
        mret (Commit true)) w0 = (Ok b, w1) → b = Rollback false).
{ intros w0 w1 b Hd Hb. apply bind_ok in Hb as (n & w2 & H1%exec_ok & Hb).
  apply bind_ok in Hb as (n' & w3 & [-> H2]%rows_affected_ok & Hb). rewrite Hd in H1.
  apply upd_admin_rows in H1 as [(_ & a0 & Ha0 & Hc & _)|(-> & _)]; [|by injection Hb].
  rewrite Ha in Ha0. injection Ha0 as <-. bool_to_prop. lia. }
subst run. destruct (ConsumeTOTPLoginStepAndCreateSession step' _ _ _ _ _) as [r w2] eqn:E.
apply with_tx_cases in E as [[Hd Hr]|(b & w0 & w1 & _ & Hd & Hb & _)].
- split; [|done]. simpl. intros ->. destruct (Hr true eq_refl) as (w0 & w1 & Hd0 & Hb).
  by apply Hno in Hb.
- by apply Hno in Hb.
Qed.

Lemma SessionValid_true t now w w' :
SessionValid t now w = (Ok true, w') →
∃ row, t_sessions (w_db w) !! hashToken t = Some row ∧ now < sr_expires_at row.
Proof.
unfold SessionValid. intros Hv. destruct (String.eqb t ""); [done|].
apply bind_ok in Hv as (row & w1 & [-> Hd]%query_row_ok & Hv).
destruct (t_sessions (w_db w) !! hashToken t) as [row|]; [|done]. simpl in Hv.
destruct (Z.leb_spec (sr_expires_at row) now); [|eauto].
by apply bind_ok in Hv as (x & w2 & _ & Hv).
Qed.

Definition revokes (op : store_op) : bool :=
match op with
| SUsernameRevoke _ _ | SPasswordRevoke _ _ _ | SEnableTOTPRevoke _ _ | SDisableTOTPRevoke _
| SDeleteAllSessions => true
| _ => false
end.

(** C13. Changing the username or the password, enabling or disabling TOTP logs
  every browser out: once the operation has succeeded, a session token is
  valid only if a session with its digest is created afterwards. *)
Theorem credential_change_revokes op w w' ops t now fs :
revokes op = true → run_store op w = (Ok true, w') →
Forall (λ op, creates_session (hashToken t) op.1 = false) ops →
fst (SessionValid t now (mkWorld (run_history ops (w_db w')) fs)) ≠ Ok true.
Proof.
intros Hrev Hrun Hops Hv.
assert (Hn : no_session (hashToken t) (run_history ops (w_db w'))).
{ apply (history_inv (λ op, creates_session (hashToken t) op = false));
    [by intros; apply no_session_effect|done|].
  pose proof (run_store_yields _ _ _ _ Hrun) as [_ Ht]. unfold no_session.
  rewrite (Ht true eq_refl) by by destruct op.
  destruct op; try done; cbn [effect]; unfold revoked; simpl; try apply lookup_empty.
  apply bind_ok in Hrun as (x & w1 & Hx & _).
  apply bind_ok in Hx as (h & w2 & [= -> _] & _). apply lookup_empty. }
destruct (SessionValid t now _) as [r w2] eqn:E. simpl in Hv. subst r.
apply SessionValid_true in E as (row & Hrow & _). simpl in Hrow. unfold no_session in Hn. congruence.
Qed.
End sessions.

Section sessions2.
Context {mo : MapOrder} {ic : InfoCodec} {ps : PasswordScheme}.

(** C28. A session is valid exactly until it expires: after [CreateSession], and
  any history that neither revokes it nor deletes it, [SessionValid] answers
  true before [expires_at] and false from then on. *)
Theorem session_lifetime t e p now w w' ops now' :
CreateSession t e p now w = (Ok (), w') → t ≠ "" →
Forall (λ op, ends_session (hashToken t) e op.1 = false) ops →
fst (SessionValid t now' (mkWorld (run_history ops (w_db w')) [])) = Ok (now' <? e).
Proof.
intros Hc Ht%String.eqb_neq Hops.
apply bind_ok in Hc as (n & w1 & Hx%exec_ok & [= <-]).
assert (Hs : t_sessions (run_history ops (w_db w1)) !! hashToken t
             = Some (mkSessRow now e (sessionPersistentValue p))).
{ apply (history_inv (λ op, ends_session (hashToken t) e op = false)
    (λ db, t_sessions db !! hashToken t = Some (mkSessRow now e (sessionPersistentValue p))));
    [intros op db Ho Hd; by apply session_effect|done|].
  unfold ins_session in Hx. destruct (t_sessions (w_db w) !! hashToken t); [done|].
  injection Hx as <- _. apply lookup_insert_eq. }
unfold SessionValid. rewrite Ht. unfold query_row, gets, mbind, stm_bind, db_call.
cbn [w_faults w_db fst snd]. rewrite Hs. cbn -[delete_session Z.leb].
destruct (Z.leb_spec e now'); cbn -[delete_session].
- rewrite (proj2 (Z.ltb_ge now' e)) by done.
  unfold attempt. by match goal with |- context [delete_session t ?w0] => destruct (delete_session t w0) end.
- by rewrite (proj2 (Z.ltb_lt now' e)).
Qed.

(** C26. A password change either fails and changes nothing, or stores a hash
  that the new password verifies, leaves the rest of the account as it was
  and removes every session; the next check of the new password succeeds. *)
Theorem password_change_correct password salt now w r w' :
UpdateAdminPasswordAndRevokeSessions password (Ok salt) now w = (r, w') →
slen salt = argonSaltBytes →
(r ≠ Ok () → w_db w' = w_db w) ∧
(r = Ok () →
   t_sessions (w_db w') = ∅ ∧ t_devices (w_db w') = t_devices (w_db w) ∧
   t_enroll (w_db w') = t_enroll (w_db w) ∧
   ∃ hash, ps_hash (Ok salt) password = Ok hash ∧ ps_verify hash password = (true, false) ∧
     t_admins (w_db w') = set_password hash now <$> t_admins (w_db w) ∧
     (is_Some (t_admins (w_db w)) → ∀ salt' now',
        ∃ a, fst (VerifyAdminPassword password salt' now' (mkWorld (w_db w') [])) = Ok (Some a, true)
             ∧ a_PasswordHash a = hash)).
Proof.
intros Hrun Hsalt. split.
- intros Hr. apply bind_cases in Hrun as [(e & [= ? <-] & _)|(h & w1 & [= _ <-] & Hrun)]; [done|].
  apply with_tx_cases in Hrun as [[Hd _]|([] & _ & _ & -> & _)]; done.
- intros ->. apply bind_ok in Hrun as (hash & w1 & [= Hh <-] & Hrun).
  pose proof (yields_revoke _ _ (λ _, True) _ _ Hrun) as [_ Hy].
  specialize (Hy () eq_refl I).
  assert (Ha : t_admins (w_db w') = set_password hash now <$> t_admins (w_db w)).
  { rewrite Hy. unfold revoked, applied, upd_admin. simpl. by destruct (t_admins (w_db w)) eqn:E; simpl; rewrite ?E. }
  pose proof (ps_hash_verifies _ _ _ Hsalt Hh) as Hv.
  split_and!; [by rewrite Hy| | |].
  1,2: rewrite Hy; unfold revoked, applied, upd_admin; simpl; by destruct (t_admins (w_db w)).
  exists hash. split_and!; [done|done|done|]. intros [a Hadm] salt' now'.
  unfold VerifyAdminPassword, GetAdmin, query_row, gets, mbind, stm_bind, db_call.
  cbn [w_faults w_db fst snd]. rewrite Ha, Hadm. simpl. rewrite Hv. simpl. eauto.
Qed.
End sessions2.

(** *** Concrete runs *)

Lemma totp_step_not_replayed_witness :
  let w' := snd (ConsumeTOTPLoginStepAndCreateSession 11 "s1" 100 false 5 (mkWorld demo_db [])) in
  fst (ConsumeTOTPLoginStepAndCreateSession 11 "s2" 100 false 6
    (mkWorld (run_history (mo:=demo_order) (ps:=demo_passwords) [(SDeleteSession "s1", [])] (w_db w')) []))
  ≠ Ok true.
Proof.
  intros w'.
  refine (proj1 (totp_step_not_replayed (mo:=demo_order) (ps:=demo_passwords) 11 "s1" 100 false 5
    (mkWorld demo_db []) w' [(SDeleteSession "s1", [])] 11 "s2" 100 false 6 [] _ _ _)).
  - vm_compute. reflexivity.
  - repeat constructor.
  - lia.
Defined.

Definition demo_sessions : DB :=
  set_sessions {[ hashToken "s1" := mkSessRow 0 100 1 ]} demo_db.

Lemma credential_change_revokes_witness :
  let w' := snd (run_store (mo:=demo_order) (ps:=demo_passwords) (SEnableTOTPRevoke "S" 5)
                   (mkWorld demo_sessions [])) in
  fst (SessionValid "s1" 6
    (mkWorld (run_history (mo:=demo_order) (ps:=demo_passwords) [] (w_db w')) [])) ≠ Ok true.
Proof.
  intros w'.
  refine (credential_change_revokes (mo:=demo_order) (ps:=demo_passwords) (SEnableTOTPRevoke "S" 5)
    (mkWorld demo_sessions []) w' [] "s1" 6 [] _ _ _).
  - reflexivity.
  - vm_compute. reflexivity.
  - constructor.
Defined.

Lemma session_lifetime_witness :
  let w' := snd (CreateSession "s1" 100 true 5 (mkWorld demo_db [])) in
  fst (SessionValid "s1" 99
    (mkWorld (run_history (mo:=demo_order) (ps:=demo_passwords) [(SCleanupSessions 50, [])] (w_db w')) []))
  = Ok true.
Proof.
  intros w'.
  refine (session_lifetime (mo:=demo_order) (ps:=demo_passwords) "s1" 100 true 5
    (mkWorld demo_db []) w' [(SCleanupSessions 50, [])] 99 _ _ _).
  - vm_compute. reflexivity.
  - discriminate.
  - repeat constructor.
Defined.

Lemma password_change_correct_witness :
  let run := UpdateAdminPasswordAndRevokeSessions (ps:=demo_passwords) "correct horse battery"
               (Ok "0123456789abcdef") 5 (mkWorld demo_sessions []) in
  t_sessions (w_db (snd run)) = ∅.
Proof.
  intros run.
  refine (proj1 (proj2 (password_change_correct (ps:=demo_passwords) "correct horse battery"
    "0123456789abcdef" 5 (mkWorld demo_sessions []) (fst run) (snd run) _ _) _)).
  - apply surjective_pairing.
  - vm_compute. reflexivity.
  - vm_compute. reflexivity.
Defined.

(** ** The device order *)

Lemma StronglySorted_lookup {A} (R : relation A) l :
  (∀ i j x y, (i < j)%nat → l !! i = Some x → l !! j = Some y → R x y) → StronglySorted R l.
Proof.
  induction l as [|a l IH]; intros Hl; constructor.
  - apply IH. intros i j x y Hij Hi Hj. apply (Hl (S i) (S j)); [lia|done|done].
  - apply Forall_lookup. intros j y Hj. apply (Hl 0%nat (S j)); [lia|done|done].
Qed.

Lemma check_order_ok existing seen ids :
  check_order existing seen ids = true ↔
  NoDup ids ∧ "" ∉ ids ∧ ∀ id, id ∈ ids → id ∈ existing ∧ id ∉ seen.
Proof.
  revert seen. induction ids as [|id ids IH]; intros seen; cbn [check_order].
  { split; [|done]. intros _. split_and!; [constructor|set_solver|set_solver]. }
  destruct (String.eqb id "" || bool_decide (id ∈ seen) || negb (bool_decide (id ∈ existing))) eqn:E.
  - split; [done|]. intros (_ & H1 & H2). exfalso.
    destruct (H2 id ltac:(left)) as [Hex Hns].
    rewrite bool_decide_eq_false_2, bool_decide_eq_true_2, !orb_false_r in E by done.
    bool_to_prop. subst. apply H1. left.
  - rewrite IH, NoDup_cons. bool_to_prop.
    assert (id ≠ "") by done. split.
    + intros (Hd & Hn & Hs). split_and!; [|done|set_solver|].
      * intros Hin. destruct (Hs id Hin). set_solver.
      * intros x [->|Hx]%elem_of_cons; [done|]. specialize (Hs x Hx). set_solver.
    + intros ([Hni Hd] & Hn & Hs). split_and!; [done|set_solver|].
      intros x Hx. destruct (Hs x) as [? ?]; [by right|]. split; [done|].
      assert (x ≠ id) by congruence. set_solver.
Qed.

(** What [set_orders] writes. *)
Lemma apply_orders_spec i ids db id :
  NoDup ids →
  (id ∉ ids → t_devices (apply_orders i ids db) !! id = t_devices db !! id) ∧
  (∀ k, ids !! k = Some id →
     t_devices (apply_orders i ids db) !! id = set_sort (i + Z.of_nat k) <$> t_devices db !! id).
Proof.
  intros Hd. revert i db. induction Hd as [|x ids Hx Hd IH]; intros i db; cbn [apply_orders].
  { split; [done|]. intros k. by rewrite lookup_nil. }
  assert (Hl : t_devices (applied (upd_device x (set_sort i)) db) !! id =
               if decide (id = x) then set_sort i <$> t_devices db !! id else t_devices db !! id).
  { unfold applied, upd_device. destruct (t_devices db !! x) as [r|] eqn:E; simpl.
    - case_decide as Hc; [subst; by rewrite lookup_insert_eq, E|by rewrite lookup_insert_ne].
    - case_decide as Hc; [subst; by rewrite E|done]. }
  destruct (IH (i + 1) (applied (upd_device x (set_sort i)) db)) as [H1 H2]. split.
  - intros [Hne Hni]%not_elem_of_cons. rewrite H1, Hl by done. by rewrite decide_False.
  - intros [|k]; simpl.
    + intros [= ->]. rewrite H1, Hl by done. rewrite decide_True by done. by rewrite Z.add_0_r.
    + intros Hk. rewrite (H2 k Hk), Hl. rewrite decide_False.
      * f_equal. f_equal. lia.
      * intros ->. apply Hx. by eapply list_elem_of_lookup_2.
Qed.

(** The list after the orders [0, 1, ...] were written along a permutation. *)
Lemma sorted_after_orders ids db :
  ids ≡ₚ (map_to_list (t_devices db)).*1 → (sorted_devices (apply_orders 0 ids db)).*1 = ids.
Proof.
  intros Hp. assert (Hd : NoDup ids) by (rewrite Hp; apply NoDup_fst_map_to_list).
  set (m := t_devices (apply_orders 0 ids db)).
  assert (Hin : ∀ id, is_Some (t_devices db !! id) ↔ id ∈ ids).
  { intros id. rewrite Hp, list_elem_of_fmap. split.
    - intros [r Hr]. exists (id, r). split; [done|by apply elem_of_map_to_list].
    - intros ([k r] & -> & Hr%elem_of_map_to_list). eauto. }
  assert (Hk : ∀ k id, ids !! k = Some id → ∃ r, m !! id = Some (set_sort (Z.of_nat k) r)).
  { intros k id Hk. destruct (proj2 (Hin id)) as [r Hr]; [by eapply list_elem_of_lookup_2|].
    exists r. unfold m. rewrite (proj2 (apply_orders_spec 0 ids db id Hd) k Hk), Hr. done. }
  assert (Hm : ∀ id, is_Some (m !! id) ↔ id ∈ ids).
  { intros id. split.
    - intros Hs. destruct (decide (id ∈ ids)) as [|Hn]; [done|]. apply Hin.
      unfold m in Hs. by rewrite (proj1 (apply_orders_spec 0 ids db id Hd)) in Hs.
    - intros [k Hl]%list_elem_of_lookup_1. destruct (Hk k id Hl) as [r ->]. eauto. }
  set (row id := default (mkDevRow "" "" 0 "" 0 "") (m !! id)).
  assert (Hs : (λ id, (id, row id)) <$> ids = sorted_devices (apply_orders 0 ids db)).
  { apply sorted_devices_unique.
    - apply StronglySorted_lookup. intros i j x y Hij.
      rewrite !list_lookup_fmap, !fmap_Some. intros (a & Ha & ->) (b & Hb & ->).
      destruct (Hk i a Ha) as [ra Hra], (Hk j b Hb) as [rb Hrb].
      left. unfold row. simpl. rewrite Hra, Hrb. simpl. lia.
    - apply NoDup_Permutation; [|apply NoDup_map_to_list|].
      { apply NoDup_fmap_2_strong; [|done]. by intros a b _ _ [= ? _]. }
      intros [id r]. rewrite elem_of_map_to_list, list_elem_of_fmap. split.
      + intros (id' & [= -> ->] & Hi). unfold row.
        destruct (proj2 (Hm id') Hi) as [r' Hr']. fold m. by rewrite Hr'.
      + intros Hr. fold m in Hr. exists id. unfold row. rewrite Hr. split; [done|]. apply Hm. eauto. }
  rewrite <-Hs, <-list_fmap_compose. apply list_fmap_id.
Qed.

Lemma set_orders_clean i ids db :
  set_orders i ids (mkWorld db []) = (Ok (), mkWorld (apply_orders i ids db) []).
Proof.
  revert i db. induction ids as [|id ids IH]; intros i db; cbn [set_orders apply_orders]; [done|].
  rewrite bind_eval, exec_clean. unfold applied at 1.
  destruct (upd_device id (set_sort i) db) as [[db' n]|e] eqn:E; [by rewrite IH|].
  unfold upd_device in E. by destruct (t_devices db !! id).
Qed.

Section reorder.
Context {mo : MapOrder} {ic : InfoCodec} {ps : PasswordScheme}.

Lemma ReorderDevices_clean ids db :
ReorderDevices ids (mkWorld db []) =
let existing : gset string := dom (t_devices db) in
if negb (Z.of_nat (length ids) =? Z.of_nat (size existing))
then (Err "device order must contain every device exactly once", mkWorld db [])
else if negb (check_order existing ∅ ids)
then (Err "device order contains an unknown or duplicate device", mkWorld db [])
else (Ok (), mkWorld (apply_orders 0 ids db) []).
Proof.
unfold ReorderDevices, with_tx. rewrite db_call_clean.
unfold query. rewrite !bind_eval, db_call_clean. unfold gets. cbn [w_db].
rewrite bind_eval, read_rows_clean. cbv beta zeta. cbn [fst w_db].
assert (Hdom : (list_to_set (map_order (t_devices db)).*1 : gset string) = dom (t_devices db)).
{ apply set_eq. intros id. rewrite elem_of_list_to_set, elem_of_dom, list_elem_of_fmap. split.
  - intros ([k r] & -> & Hr%elem_of_map_order). eauto.
  - intros [r Hr]. exists (id, r). split; [done|]. by apply elem_of_map_order. }
rewrite Hdom, bind_eval, db_call_clean. cbv zeta.
destruct (negb (Z.of_nat _ =? _)); [done|]. destruct (negb (check_order _ _ _)); [done|].
rewrite !bind_eval, db_call_clean, bind_eval, set_orders_clean. unfold mret, stm_ret.
by rewrite db_call_clean.
Qed.

(** C27. Reordering is total and exact: without failures it accepts precisely the
  permutations of the existing identifiers (none empty), after which the
  device list is in the requested order and nothing but the sort orders has
  changed; at every failure point, and for every other request, a
  [ReorderDevices] that does not report success leaves the database as it
  was. *)
Theorem ReorderDevices_correct ids w :
let r := fst (ReorderDevices ids w) in
let db' := w_db (snd (ReorderDevices ids w)) in
(r ≠ Ok () → db' = w_db w) ∧
(w_faults w = [] →
   (r = Ok () ↔ ids ≡ₚ (map_to_list (t_devices (w_db w))).*1 ∧ "" ∉ ids)) ∧
(w_faults w = [] → r = Ok () →
   (sorted_devices db').*1 = ids ∧
   ∀ k id, ids !! k = Some id →
     t_devices db' !! id = set_sort (Z.of_nat k) <$> t_devices (w_db w) !! id).
Proof.
intros r db'. split.
{ intros Hr. subst r db'. destruct (ReorderDevices ids w) as [r w'] eqn:E.
  apply with_tx_cases in E as [[Hd _]|([] & _ & _ & -> & _)]; done. }
enough (Hall : w_faults w = [] →
  (r = Ok () ↔ ids ≡ₚ (map_to_list (t_devices (w_db w))).*1 ∧ "" ∉ ids) ∧
  (r = Ok () → db' = apply_orders 0 ids (w_db w))).
{ split; [by intros Hf; apply Hall|]. intros Hf Hr. destruct (Hall Hf) as [Hiff Hdb].
  destruct (proj1 Hiff Hr) as [Hp _]. rewrite (Hdb Hr). split; [by apply sorted_after_orders|].
  intros k id Hk. apply (proj2 (apply_orders_spec 0 ids (w_db w) id
    ltac:(rewrite Hp; apply NoDup_fst_map_to_list)) k Hk). }
intros Hf. destruct w as [db fs]. cbn in Hf. subst fs. subst r db'. cbn [w_db].
rewrite ReorderDevices_clean. cbv zeta.
assert (Hdp : elements (dom (t_devices db)) ≡ₚ (map_to_list (t_devices db)).*1).
{ apply NoDup_Permutation; [apply NoDup_elements|apply NoDup_fst_map_to_list|].
  intros id. rewrite elem_of_elements, elem_of_dom, list_elem_of_fmap. split.
  - intros [r Hr]. exists (id, r). split; [done|by apply elem_of_map_to_list].
  - intros ([k r] & -> & Hr%elem_of_map_to_list). eauto. }
assert (Hiff : (Z.of_nat (length ids) = Z.of_nat (size (dom (t_devices db))) ∧
          check_order (dom (t_devices db)) ∅ ids = true) ↔
        ids ≡ₚ (map_to_list (t_devices db)).*1 ∧ "" ∉ ids).
{ rewrite check_order_ok, <-Hdp. split.
  - intros (Hl & Hd & Hn & Hs). split; [|done].
    apply submseteq_length_Permutation.
    + apply NoDup_submseteq; [done|]. intros x Hx. by apply elem_of_elements, Hs.
    + unfold size, set_size in Hl. simpl in Hl. lia.
  - intros [Hp Hn]. split_and!; [|by rewrite Hp; apply NoDup_elements|done|].
    + rewrite Hp. done.
    + intros x Hx. split; [|set_solver]. rewrite Hp in Hx. by apply elem_of_elements. }
rewrite <-Hiff. destruct (Z.eqb_spec (Z.of_nat (length ids)) (Z.of_nat (size (dom (t_devices db)))));
  simpl; [|naive_solver].
destruct (check_order (dom (t_devices db)) ∅ ids) eqn:Ec; simpl; naive_solver.
Qed.
End reorder.


Lemma ReorderDevices_correct_witness :
  let row n := mkDevRow "" "h" 0 "" n "" in
  let db := mkDB {["a" := row 0; "b" := row 1]} None ∅ ∅ in
  (sorted_devices (w_db (snd (ReorderDevices (mo:=demo_order) ["b"; "a"] (mkWorld db []))))).*1
  = ["b"; "a"].
Proof.
  intros row db.
  pose proof (ReorderDevices_correct (mo:=demo_order) ["b"; "a"] (mkWorld db [])) as (_ & _ & Hr).
  apply Hr; vm_compute; reflexivity.
Defined.

(** ** Metric cards *)

Lemma cards_plain cards : cards ⊆ metricCardOrder → Forall (λ s, plain s = true) cards.
Proof.
  intros Hs. apply Forall_forall. intros s Hin. specialize (Hs s Hin).
  assert (Hall : Forall (λ s, plain s = true) metricCardOrder) by (repeat constructor).
  rewrite Forall_forall in Hall. auto.
Qed.

Lemma normalized_valid cards out :
  NormalizeMetricCards cards 3 = Ok out → NormalizeMetricCards out 3 = Ok out.
Proof.
  intros Hn. pose proof (NormalizeMetricCards_perm _ _ _ Hn) as Hp.
  apply NormalizeMetricCards_ok in Hn as (H1 & H2 & H3 & H4 & ->).
  apply NormalizeMetricCards_ok. split; [lia|]. split; [by rewrite Hp|].
  split; [intros x [_ Hx]%list_elem_of_filter; exact Hx|]. split; [rewrite Hp; lia|].
  apply list_filter_iff. intros x. by rewrite Hp.
Qed.

(** Metric cards round-trip through the database: what [encodeMetricCards]
    stores for an accepted choice decodes to the same cards in display order
    (the default ones for an empty choice), and whatever text a row holds
    decodes to at least three distinct known cards in display order. *)
Theorem metric_cards_roundtrip cards j :
  encodeMetricCards cards = Ok j →
  (cards ≠ [] → NormalizeMetricCards cards 3 = Ok (decodeMetricCards j) ∧
                decodeMetricCards j ≡ₚ cards) ∧
  (cards = [] → decodeMetricCards j = DefaultMetricCards) ∧
  ∀ text, let out := decodeMetricCards text in
    NoDup out ∧ out `sublist_of` metricCardOrder ∧ (3 <= length out)%nat.
Proof.
  intros He. split_and!.
  - intros Hne. unfold encodeMetricCards in He. destruct cards as [|c cards]; [done|].
    apply res_bind_ok in He as (n & Hn & [= <-]).
    pose proof (NormalizeMetricCards_ok (c :: cards) 3 n) as [Hok _].
    destruct (Hok Hn) as (_ & _ & _ & _ & Hf).
    assert (Hd : decodeMetricCards (MarshalStrings n) = n).
    { unfold decodeMetricCards. rewrite UnmarshalStrings_MarshalStrings.
      - by rewrite (normalized_valid _ _ Hn).
      - apply cards_plain. rewrite Hf. intros x [_ Hx]%list_elem_of_filter. done. }
    rewrite Hd. split; [done|]. by apply NormalizeMetricCards_perm in Hn.
  - intros ->. injection He as <-. by vm_compute.
  - intros text out. subst out. unfold decodeMetricCards.
    assert (Hdef : NoDup DefaultMetricCards ∧ DefaultMetricCards `sublist_of` metricCardOrder ∧
                   (3 <= length DefaultMetricCards)%nat).
    { split_and!; [apply metricCardOrder_NoDup|done|]. simpl. lia. }
    destruct (UnmarshalStrings text) as [cs|]; [|done].
    destruct (NormalizeMetricCards cs 3) as [n|] eqn:En; [|done].
    pose proof (NormalizeMetricCards_perm _ _ _ En) as Hp.
    apply NormalizeMetricCards_ok in En as (_ & Hd & _ & Hl & ->).
    split_and!; [by rewrite Hp|apply sublist_filter|rewrite Hp; lia].
Qed.

Lemma metric_cards_roundtrip_witness :
  decodeMetricCards (match encodeMetricCards ["disk"; "cpu"; "network"] with Ok j => j | Err _ => "" end) = ["cpu"; "disk"; "network"].
Proof.
  destruct (encodeMetricCards ["disk"; "cpu"; "network"]) as [j|e] eqn:E.
  - pose proof (metric_cards_roundtrip _ _ E) as [Hr _]. destruct Hr as [Hn _]; [discriminate|].
    assert (Hc : NormalizeMetricCards ["disk"; "cpu"; "network"] 3 = Ok ["cpu"; "disk"; "network"])
      by (vm_compute; reflexivity). rewrite Hc in Hn. injection Hn as Hn. symmetry. exact Hn.
  - vm_compute in E. discriminate E.
Defined.
