(* ===== verification/Http.v ===== *)
(** * Requests and responses

    The parts of [net/http], [net] and [strings] the handlers use: cookies and
    headers of a request, [net.SplitHostPort], [strings.EqualFold] and
    [strings.Trim], and the response a handler writes. *)

From S2P Require Export GoNet.
From S2P Require Export GoTime.

(** ** Definitions *)

Record request : Type := mkRequest {
  rq_Method : string;
  rq_Path : string;
  rq_RemoteAddr : string;
  rq_Header : list (string * string);   (** in the order received *)
  rq_Cookies : list (string * string);
  rq_PathId : string;                   (** [r.PathValue("id")] *)
  rq_Query : list (string * string)
}.

Record cookie : Type := mkCookie {
  ck_Name : string;
  ck_Value : string;
  ck_Path : string;
  ck_HttpOnly : bool;
  ck_Secure : bool;
  ck_SameSiteStrict : bool;
  ck_MaxAge : Z;
  ck_Expires : option Z
}.

(** The values a JSON response is made of. *)
Inductive jval : Type :=
| JStr (s : string)
| JBool (b : bool)
| JInt (n : Z)
| JStrs (l : list string)
| JObj (fields : list (string * jval))
| JArr (l : list jval).

Inductive body : Type :=
| BJson (v : jval)
| BText (s : string).

Record response : Type := mkResponse {
  rs_Status : Z;
  rs_Body : body;
  rs_Cookies : list cookie;            (** Set-Cookie headers, in order *)
  rs_Header : list (string * string)
}.

(** [writeJSON(w, status, v)] and [http.Error(w, text, status)], after the
    cookies [cs] were set. *)
Definition reply_json (cs : list cookie) (status : Z) (fields : list (string * jval)) : response :=
  mkResponse status (BJson (JObj fields)) cs [].
Definition http_error (cs : list cookie) (text : string) (status : Z) : response :=
  mkResponse status (BText text) cs [].
Definition json_error (cs : list cookie) (status : Z) (err : string) : response :=
  reply_json cs status [("error", JStr err)].

Definition find_value (name : string) (l : list (string * string)) : option string :=
  match filter (λ kv, String.eqb kv.1 name = true) l with
  | kv :: _ => Some kv.2
  | [] => None
  end.

(** [r.Cookie(name)]: the first cookie of that name. *)
Definition Cookie (r : request) (name : string) : option string := find_value name (rq_Cookies r).

Definition lower_byte (b : Z) : Z := if (65 <=? b) && (b <=? 90) then b + 32 else b.
Definition ascii_lower (s : string) : string := unvals (map lower_byte (vals s)).

(** [r.Header.Get(name)]: header names are compared without case. *)
Definition HeaderGet (r : request) (name : string) : string :=
  default "" (find_value (ascii_lower name) ((λ kv, (ascii_lower kv.1, kv.2)) <$> rq_Header r)).

(** Simple case folding of a rune to a lower-case ASCII letter; U+017F and
    U+212A fold to [s] and [k]. *)
Definition fold_rune (r : Z) : Z :=
  if r =? 383 then 115 else if r =? 8490 then 107 else lower_byte r.

(** [strings.EqualFold(s, t)] for a lower-case ASCII [t]. *)
Definition EqualFold (s t : string) : bool :=
  bool_decide (map fold_rune (range_runes s) = vals t).

(** [strings.Trim(s, "[]")] *)
Definition is_bracket (b : Z) : bool := (b =? 91) || (b =? 93).
Definition TrimBrackets (s : string) : string :=
  unvals (reverse (drop_while is_bracket (reverse (drop_while is_bracket (vals s))))).

(** [net.SplitHostPort(s)], the host; [None] is an error. *)
Definition SplitHost (s : string) : option string :=
  match after_last s ":" with
  | None => None
  | Some port =>
    let i := slen s - slen port - 1 in         (* the last colon *)
    let upto_i := of_bytes (take (Z.to_nat i) (to_bytes s)) in
    if HasPrefix s "[" then
      match Cut s "]" with
      | None => None
      | Some (before, _) =>
        let e := slen before in                (* the first closing bracket *)
        let rest := of_bytes (drop (Z.to_nat (e + 1)) (to_bytes s)) in
        if e + 1 =? i
        then if smem "[" (of_bytes (drop 1 (to_bytes s))) || smem "]" rest then None
             else Some (of_bytes (drop 1 (to_bytes before)))
        else None
      end
    else if smem ":" upto_i then None
    else if smem "[" s || smem "]" s then None
    else Some upto_i
  end.

Example split_host_examples :
  SplitHost "10.0.0.1:80" = Some "10.0.0.1" ∧ SplitHost "[::1]:80" = Some "::1" ∧
  SplitHost "::1" = None ∧ SplitHost "10.0.0.1" = None ∧ SplitHost "[::1]" = None ∧
  EqualFold "Cross-Site" "cross-site" = true ∧ TrimBrackets "[::1]" = "::1".
Proof. vm_compute. done. Qed.
