(* ===== verification/Mux.v ===== *)
(** * [net/http]: ServeMux

    The patterns, the path cleaning and the matching of Go 1.22 and later, for
    patterns without a host, and [url.PathUnescape].  A request is matched by its
    escaped path; [r.URL.Path] is the unescaped one. *)

From S2P Require Export Http.

(** ** [url.PathUnescape] *)

Definition unhex (c : ascii) : option Z :=
  let b := Z.of_N (N_of_ascii c) in
  if (48 <=? b) && (b <=? 57) then Some (b - 48)
  else if (97 <=? b) && (b <=? 102) then Some (b - 87)
  else if (65 <=? b) && (b <=? 70) then Some (b - 55)
  else None.

Fixpoint PathUnescape (s : string) : option string :=
  match s with
  | EmptyString => Some ""
  | String c rest =>
    if Ascii.eqb c "%" then
      match rest with
      | String a (String b rest') =>
        x ← unhex a; y ← unhex b;
        String (ascii_of_N (Z.to_N (16 * x + y))) <$> PathUnescape rest'
      | _ => None
      end
    else String c <$> PathUnescape rest
  end.

(** A segment that does not unescape is used as it is. *)
Definition pathUnescape (s : string) : string := default s (PathUnescape s).

(** ** Patterns *)

(** [Wild] is a named wildcard; a pattern that ends in a slash matches every
    path below it. *)
Inductive pseg : Type := Lit (s : string) | Wild.

Record pattern : Type := mkPattern {
  pt_Method : string;       (** empty: every method *)
  pt_Segments : list pseg;
  pt_Multi : bool           (** ends in a slash *)
}.

(** [cleanPath] *)
Definition cleanPath (p : string) : string :=
  if String.eqb p "" then "/"
  else
    let p := if HasPrefix p "/" then p else String "/" p in
    let np := Clean p in
    if HasSuffix p "/" && negb (String.eqb np "/") then np +:+ "/" else np.

(** The segments after the first slash; the last one is empty after a slash. *)
Definition segments (path : string) : list string := tail (Split path "/").

(** The values of the wildcards, if the segments match. *)
Fixpoint match_segs (multi : bool) (p : list pseg) (segs : list string) : option (list string) :=
  match p, segs with
  | [], [] => if multi then None else Some []
  | [], _ :: _ => if multi then Some [] else None
  | Lit l :: p, s :: segs => if String.eqb (pathUnescape s) l then match_segs multi p segs else None
  | Wild :: p, s :: segs =>
    let v := pathUnescape s in
    if String.eqb s "" || String.eqb v "/" then None else cons v <$> match_segs multi p segs
  | _ :: _, [] => None
  end.

Definition match_path (p : pattern) (path : string) : option (list string) :=
  match_segs (pt_Multi p) (pt_Segments p) (segments path).

Section mux.
Context {E : Type}.

(** The patterns of one method. *)
Fixpoint find_method (method path : string) (table : list (pattern * E)) : option (E * list string) :=
  match table with
  | [] => None
  | (p, e) :: table =>
    if String.eqb (pt_Method p) method then
      match match_path p path with
      | Some values => Some (e, values)
      | None => find_method method path table
      end
    else find_method method path table
  end.

(** [matchMethodAndPath]: GET also serves HEAD; patterns without a method last. *)
Definition find_pattern (table : list (pattern * E)) (method path : string) : option (E * list string) :=
  match find_method method path table with
  | Some r => Some r
  | None =>
    match (if String.eqb method "HEAD" then find_method "GET" path table else None) with
    | Some r => Some r
    | None => find_method "" path table
    end
  end.

Inductive routed : Type :=
| Route (e : E) (values : list string)
| Redirect (path : string)
| NoRoute.

(** [findHandler]; [escaped] is [r.URL.EscapedPath()]. *)
Definition find_handler (table : list (pattern * E)) (method escaped : string) : routed :=
  let path := if String.eqb method "CONNECT" then escaped else cleanPath escaped in
  if negb (String.eqb path escaped) then Redirect path
  else match find_pattern table method path with
       | Some (e, values) => Route e values
       | None => NoRoute
       end.

Lemma find_method_elem table method path e values :
  find_method method path table = Some (e, values) →
  ∃ p, (p, e) ∈ table ∧ pt_Method p = method ∧ match_path p path = Some values.
Proof.
  induction table as [|[p e'] table IH]; [done|]. simpl. destruct (String.eqb_spec (pt_Method p) method).
  - destruct (match_path p path) eqn:Em.
    + intros [= <- <-]. exists p. split; [set_solver|done].
    + intros (p' & ? & ?)%IH. exists p'. split; [set_solver|done].
  - intros (p' & ? & ?)%IH. exists p'. split; [set_solver|done].
Qed.

Lemma find_pattern_elem table method path e values :
  find_pattern table method path = Some (e, values) →
  ∃ p, (p, e) ∈ table ∧ match_path p path = Some values ∧
       (pt_Method p = method ∨ pt_Method p = "GET" ∧ method = "HEAD" ∨ pt_Method p = "").
Proof.
  unfold find_pattern. destruct (find_method method path table) as [[e1 v1]|] eqn:E1.
  { intros [= <- <-]. apply find_method_elem in E1 as (p & ? & ? & ?). exists p. split; [done|]. split; [done|]. naive_solver. }
  destruct (String.eqb_spec method "HEAD") as [Hh|Hh].
  - destruct (find_method "GET" path table) as [[e1 v1]|] eqn:E2.
    { intros [= <- <-]. apply find_method_elem in E2 as (p & ? & ? & ?). exists p. split; [done|]. split; [done|]. naive_solver. }
    intros (p & ? & ? & ?)%find_method_elem. exists p. split; [done|]. split; [done|]. naive_solver.
  - intros (p & ? & ? & ?)%find_method_elem. exists p. split; [done|]. split; [done|]. naive_solver.
Qed.

Lemma find_handler_elem table method escaped e values :
  find_handler table method escaped = Route e values →
  ∃ p, (p, e) ∈ table ∧ match_path p escaped = Some values ∧
       (pt_Method p = method ∨ pt_Method p = "GET" ∧ method = "HEAD" ∨ pt_Method p = "") ∧
       (method = "CONNECT" ∨ cleanPath escaped = escaped).
Proof.
  unfold find_handler. intros Hf. destruct (String.eqb _ escaped) eqn:E1; [|done].
  apply String.eqb_eq in E1. rewrite E1 in Hf. cbn [negb] in Hf.
  destruct (find_pattern table method escaped) as [[e1 v1]|] eqn:Ef; [|done].
  injection Hf as -> ->. apply find_pattern_elem in Ef as (p & ? & ? & ?). exists p.
  split; [done|]. split; [done|]. split; [done|]. destruct (String.eqb_spec method "CONNECT"); auto.
Qed.
End mux.
Arguments routed E : clear implicits.

(** ** The unescaped path *)

Lemma PathUnescape_app a a' b :
  PathUnescape a = Some a' → PathUnescape (a +:+ b) = append a' <$> PathUnescape b.
Proof.
  remember (String.length a) as n eqn:Hn. revert a a' Hn. induction (lt_wf n) as [n _ IH].
  intros a a' ->. destruct a as [|c a]; [intros [= <-]; change ("" +:+ b) with b; destruct (PathUnescape b); reflexivity|].
  change (String c a +:+ b) with (String c (a +:+ b)). cbn [PathUnescape]. destruct (Ascii.eqb c "%").
  - destruct a as [|x [|y a]]; [done|done|].
    change (String x (String y a) +:+ b) with (String x (String y (a +:+ b))). cbn iota.
    destruct (unhex x) as [i|]; [|done]. destruct (unhex y) as [j|]; [|done]. cbn.
    intros (t & Ht & ->)%fmap_Some. rewrite (IH (String.length a) ltac:(simpl; lia) a t eq_refl Ht).
    destruct (PathUnescape b); reflexivity.
  - intros (t & Ht & ->)%fmap_Some. rewrite (IH (String.length a) ltac:(simpl; lia) a t eq_refl Ht).
    destruct (PathUnescape b); reflexivity.
Qed.

(** A path that matches a pattern below [/l/] begins so when unescaped. *)
Lemma match_path_prefix p path values l q rest full :
  match_path p path = Some values → pt_Segments p = Lit l :: q :: rest →
  HasPrefix path "/" = true → PathUnescape path = Some full → PathUnescape l = Some l →
  HasPrefix full (String "/" (l +:+ "/")) = true.
Proof.
  intros Hm Hp Hs Hu Hl. unfold match_path, segments in Hm. rewrite Hp in Hm.
  apply HasPrefix_true in Hs as [path' ->]. change ("/" +:+ path') with (String "/" path') in *.
  change (Split (String "/" path') "/") with ("" :: Split path' "/") in Hm. cbn [tail] in Hm.
  pose proof (Join_Split path' "/") as Hj. destruct (Split path' "/") as [|s1 segs]; [discriminate Hm|].
  cbn [match_segs] in Hm. destruct (String.eqb_spec (pathUnescape s1) l) as [E|]; [|done].
  destruct segs as [|s2 segs]; [by destruct q|].
  change (Join (s1 :: s2 :: segs) (String "/" ""))
    with (s1 +:+ String "/" (Join (s2 :: segs) (String "/" ""))) in Hj.
  assert (E1 : PathUnescape s1 = Some l).
  { unfold pathUnescape in E. destruct (PathUnescape s1) as [u|] eqn:Eu; simpl in E; congruence. }
  rewrite <- Hj in Hu. cbn [PathUnescape] in Hu. rewrite (PathUnescape_app _ _ _ E1) in Hu.
  change (Ascii.eqb "/" "%") with false in Hu. cbn [PathUnescape] in Hu.
  destruct (PathUnescape (Join _ _)) as [t|]; [|done]. injection Hu as <-.
  apply HasPrefix_true. exists t. change (String "/" (l +:+ "/") +:+ t) with (String "/" ((l +:+ "/") +:+ t)).
  by rewrite sapp_assoc.
Qed.

Lemma cleanPath_slash p : HasPrefix (cleanPath p) "/" = true.
Proof.
  unfold cleanPath. destruct (String.eqb p ""); [done|].
  set (q := if HasPrefix p "/" then p else String "/" p).
  assert (Hq : IsAbs q = true) by (unfold q, IsAbs; destruct (HasPrefix p "/") eqn:E; [exact E|apply HasPrefix_true; by exists p]).
  assert (Hc : ∃ t, Clean q = String "/" t) by (unfold Clean; rewrite Hq; eauto).
  destruct Hc as [t ->]. destruct (_ && _); apply HasPrefix_true; eexists; reflexivity.
Qed.
