(* ===== verification/Telemetry.v ===== *)
(** * The Agent's telemetry ([cmd/agent/telemetry.go])

    What the Agent reads from the kernel's text files and how it turns counters
    into rates.  The operating system is a record of the calls the code makes; a
    collector is a function from the host, the time and the collector's state to
    its metrics and its next state, as each runs under [telemetryState.mu]. *)

From S2P Require Export Protocol.
From S2P Require Export GoTime.

(** ** The host *)

(** [h_file]: the bytes that can be read, [None] when the file cannot be opened;
    [h_dir]: the names in a directory in order; [h_stat]: whether [os.Stat]
    succeeds; [h_link]: [filepath.EvalSymlinks]; [h_glob]: [filepath.Glob];
    [h_statfs]: block size, blocks and available blocks. *)
Record Host : Type := mkHost {
  h_file : string → option string;
  h_dir : string → option (list string);
  h_stat : string → bool;
  h_link : string → option string;
  h_glob : string → list string;
  h_statfs : string → option (Z * Z * Z)
}.

Definition readFile (h : Host) (p : string) : string := default "" (h_file h p).

(** [bufio.Scanner] with its default limit: the lines before the first that does
    not fit its buffer of 64 KiB. *)
Fixpoint take_fitting (l : list string) : list string :=
  match l with
  | [] => []
  | x :: l => if slen x <? 65536 then x :: take_fitting l else []
  end.

Definition newline : ascii := ascii_of_N 10.

Definition Lines (text : string) : list string :=
  let l := Split text newline in
  let l := match reverse l with "" :: r => reverse r | _ => l end in
  (λ x, TrimSuffix x (String (ascii_of_N 13) "")) <$> take_fitting l.

(** [scanner.Scan()] over an opened file. *)
Definition scan (h : Host) (p : string) : option (list string) := Lines <$> h_file h p.

(** ** Time *)

(** [d.Seconds()] *)
Definition Seconds (d : Z) : float64 :=
  f64_add (f64_of_Z (Z.quot d Second)) (f64_div (f64_of_Z (Z.rem d Second)) (f64_of_Z 1000000000)).

(** ** Constants and data *)

Definition processCacheTTL : Z := 60 * Second.
Definition temperatureCacheTTL : Z := 60 * Second.
Definition networkPeakWindow : Z := 5 * Minute.
Definition maxNetworkPeakSamples : Z := 600.

Record networkCounterSample : Type := mkNetCounters {
  nc_At : Z; nc_Interface : string; nc_RXBytes : Z; nc_TXBytes : Z
}.

Record networkPeakSample : Type := mkPeak { pk_At : Z; pk_RXBPS : float64; pk_TXBPS : float64 }.

Record networkMetrics : Type := mkNetMetrics {
  nm_Interface : string;
  nm_LinkBPS : Z;
  nm_RXBPS : float64;
  nm_TXBPS : float64;
  nm_RXPeakBPS : float64;
  nm_TXPeakBPS : float64
}.

Record processMetrics : Type := mkProcMetrics { pm_Total : Z; pm_Running : Z; pm_Sleeping : Z; pm_Zombie : Z }.

Record diskCounters : Type := mkDiskCounters {
  dc_ReadBytes : Z; dc_WriteBytes : Z; dc_Operations : Z; dc_ServiceMS : Z; dc_CPUTotal : Z; dc_CPUIOWait : Z
}.

Record diskIOMetrics : Type := mkDiskMetrics {
  dm_ReadBPS : float64; dm_WriteBPS : float64; dm_IOPS : float64; dm_IOWaitPct : float64; dm_LatencyMS : float64
}.

(** [ts_net], [ts_disk]: the previous samples, [None] until primed. *)
Record telemetryState : Type := mkTelemetry {
  ts_net : option networkCounterSample;
  ts_peaks : list networkPeakSample;
  ts_disk : option (Z * diskCounters);
  ts_procAt : Z;
  ts_procs : processMetrics;
  ts_tempAt : Z;
  ts_temp : option float64
}.

Definition no_network : networkMetrics := mkNetMetrics "" 0 f64_zero f64_zero f64_zero f64_zero.
Definition no_processes : processMetrics := mkProcMetrics 0 0 0 0.
Definition no_disk : diskIOMetrics := mkDiskMetrics f64_zero f64_zero f64_zero f64_zero f64_zero.

Definition new_telemetry : telemetryState :=
  mkTelemetry None [] None zero_time no_processes zero_time None.

(** ** Network *)

(** One line of [/proc/net/route] against the best so far. *)
Definition route_step (best : string * Z) (line : string) : string * Z :=
  match Fields line with
  | iface :: dst :: _ :: flags :: _ :: _ :: metric :: _ :: _ =>
    if negb (String.eqb dst "00000000") then best
    else
      match ParseUint flags 16 32 with
      | None => best
      | Some flags =>
        if Z.land flags 1 =? 0 then best
        else
          let metric := default (snd best) (ParseInt metric 10 64) in
          if String.eqb (fst best) "" || (metric <? snd best) then (iface, metric) else best
      end
  | _ => best
  end.

Definition defaultRouteInterface (h : Host) (path : string) : string :=
  match scan h path with
  | None => ""
  | Some lines => fst (fold_left route_step lines ("", max_int64))
  end.

(** One line of [/proc/net/dev]. *)
Definition counter_step (all : gmap string (Z * Z)) (line : string) : gmap string (Z * Z) :=
  match Cut line ":" with
  | None => all
  | Some (name, rest) =>
    let name := TrimSpace name in
    let fields := Fields rest in
    if String.eqb name "" || String.eqb name "lo" || (Z.of_nat (length fields) <? 9) then all
    else
      match ParseUint (nth 0 fields "") 10 64, ParseUint (nth 8 fields "") 10 64 with
      | Some rx, Some tx => <[name := (rx, tx)]> all
      | _, _ => all
      end
  end.

(** [rx + tx], or the largest number when that wraps. *)
Definition activity (v : Z * Z) : Z :=
  let a := wrap_u64 (fst v + snd v) in if a <? fst v then max_uint64 else a.

Definition busier (best : string * Z) (e : string * (Z * Z)) : string * Z :=
  let a := activity (snd e) in
  if String.eqb (fst best) "" || (snd best <? a) || ((a =? snd best) && String.ltb (fst e) (fst best))
  then (fst e, a) else best.

Definition networkCounters `{MapOrder} (h : Host) (path preferred : string) : option (string * Z * Z) :=
  match scan h path with
  | None => None
  | Some lines =>
    let all := fold_left counter_step lines ∅ in
    match all !! preferred with
    | Some (rx, tx) => Some (preferred, rx, tx)
    | None =>
      if bool_decide (all = ∅) then None
      else
        let best := fst (fold_left busier (map_order all) ("", 0)) in
        let v := default (0, 0) (all !! best) in
        Some (best, fst v, snd v)
    end
  end.

Definition networkLinkBPS (h : Host) (sysNetRoot iface : string) : Z :=
  match ParseUint (TrimSpace (readFile h (JoinPath (JoinPath sysNetRoot iface) "speed"))) 10 64 with
  | None => 0
  | Some v => if (v =? 0) || (max_uint64 / 1000000 <? v) then 0 else v * 1000000
  end.

(** The rates since the previous sample, when it is comparable. *)
Definition rates (prev : option networkCounterSample) (now : Z) (iface : string) (rx tx : Z)
    : option (option (float64 * float64)) :=
  match prev with
  | Some p =>
    if String.eqb (nc_Interface p) iface then
      let seconds := Seconds (Sub now (nc_At p)) in
      if f64_ltb f64_zero seconds && (nc_RXBytes p <=? rx) && (nc_TXBytes p <=? tx)
      then Some (Some (f64_div (f64_of_Z (rx - nc_RXBytes p)) seconds,
                       f64_div (f64_of_Z (tx - nc_TXBytes p)) seconds))
      else Some None
    else None
  | None => None
  end.

(** The samples of the window, the newest 600 of them. *)
Fixpoint drop_before (cutoff : Z) (l : list networkPeakSample) : list networkPeakSample :=
  match l with
  | x :: rest => if Before (pk_At x) cutoff then drop_before cutoff rest else l
  | [] => []
  end.

Definition window (now : Z) (l : list networkPeakSample) : list networkPeakSample :=
  let l := drop_before (TimeAdd now (- networkPeakWindow)) l in
  drop (length l - Z.to_nat maxNetworkPeakSamples) l.

Definition peak (f : networkPeakSample → float64) (l : list networkPeakSample) : float64 :=
  fold_left (λ best x, if f64_ltb best (f x) then f x else best) l f64_zero.

Definition network `{MapOrder} (h : Host) (now : Z) (routePath devPath sysNetRoot : string) (t : telemetryState)
    : networkMetrics * telemetryState :=
  let preferred := defaultRouteInterface h routePath in
  match networkCounters h devPath preferred with
  | None => (no_network, t)
  | Some (iface, rx, tx) =>
    let r := rates (ts_net t) now iface rx tx in
    let rate := default (f64_zero, f64_zero) (mjoin r) in
    let peaks := match r with
                 | None => []
                 | Some None => ts_peaks t
                 | Some (Some (rx, tx)) => ts_peaks t ++ [mkPeak now rx tx]
                 end in
    let peaks := window now peaks in
    (mkNetMetrics iface (networkLinkBPS h sysNetRoot iface) (fst rate) (snd rate)
       (peak pk_RXBPS peaks) (peak pk_TXBPS peaks),
     mkTelemetry (Some (mkNetCounters now iface rx tx)) peaks (ts_disk t) (ts_procAt t) (ts_procs t)
       (ts_tempAt t) (ts_temp t))
  end.

(** ** Processes *)

Definition processState (stat : string) : option ascii :=
  match after_last stat ")" with
  | None => None
  | Some rest =>
    match Fields rest with
    | String c "" :: _ => Some c
    | _ => None
    end
  end.

Definition count_process (state : ascii) (p : processMetrics) : processMetrics :=
  let among l := str_mem (String state "") l in
  mkProcMetrics (pm_Total p + 1)
    (if among ["R"] then pm_Running p + 1 else pm_Running p)
    (if among ["S"; "D"; "I"] then pm_Sleeping p + 1 else pm_Sleeping p)
    (if among ["Z"] then pm_Zombie p + 1 else pm_Zombie p).

Definition process_step (h : Host) (procRoot : string) (p : processMetrics) (name : string) : processMetrics :=
  match ParseUint name 10 64 with
  | None => p
  | Some _ =>
    match processState (readFile h (JoinPath (JoinPath procRoot name) "stat")) with
    | None => p
    | Some state => count_process state p
    end
  end.

Definition scanProcesses (h : Host) (procRoot : string) : processMetrics :=
  match h_dir h procRoot with
  | None => no_processes
  | Some entries => fold_left (process_step h procRoot) entries no_processes
  end.

(** Whether a value cached at [at_] may still be used. *)
Definition cache_valid (now at_ ttl : Z) : bool :=
  let elapsed := Sub now at_ in negb (IsZero at_) && (0 <=? elapsed) && (elapsed <? ttl).

Definition processes (h : Host) (now : Z) (procRoot : string) (t : telemetryState)
    : processMetrics * telemetryState :=
  if cache_valid now (ts_procAt t) processCacheTTL then (ts_procs t, t)
  else
    let p := scanProcesses h procRoot in
    (p, mkTelemetry (ts_net t) (ts_peaks t) (ts_disk t) now p (ts_tempAt t) (ts_temp t)).

(** ** Disk input and output *)

Definition counterDelta (current previous : Z) : option Z :=
  if current <? previous then None else Some (current - previous).

Definition includeBlockDevice (h : Host) (sysBlockRoot name : string) : bool :=
  if existsb (HasPrefix name) ["loop"; "ram"; "fd"; "sr"; "zram"] then false
  else
    let path := JoinPath sysBlockRoot name in
    if h_stat h (JoinPath path "partition") then false
    else match h_dir h (JoinPath path "holders") with Some [] => true | _ => false end.

(** The sum wraps at 64 bits. *)
Definition sum_u64 (l : list Z) : Z := fold_left (λ a v, wrap_u64 (a + v)) l 0.

Definition cpuTotalAndIOWait (h : Host) (path : string) : option (Z * Z) :=
  match scan h path with
  | Some (line :: _) =>
    match Fields line with
    | "cpu" :: fields =>
      if Z.of_nat (length fields) <? 5 then None
      else
        match mapM (λ f, ParseUint f 10 64) fields with
        | None => None
        | Some values => Some (sum_u64 (take 8 values), nth 4 values 0)
        end
    | _ => None
    end
  | _ => None
  end.

Definition disk_step (h : Host) (sysBlockRoot : string) (acc : diskCounters * bool) (line : string)
    : diskCounters * bool :=
  let f := Fields line in
  if (Z.of_nat (length f) <? 14) || negb (includeBlockDevice h sysBlockRoot (nth 2 f "")) then acc
  else
    match mapM (λ k, ParseUint (nth k f "") 10 64) [3; 5; 6; 7; 9; 10]%nat with
    | Some [reads; sectorsRead; readMS; writes; sectorsWritten; writeMS] =>
      if (max_uint64 / 512 <? sectorsRead) || (max_uint64 / 512 <? sectorsWritten) then acc
      else
        let c := fst acc in
        (mkDiskCounters (wrap_u64 (dc_ReadBytes c + sectorsRead * 512))
           (wrap_u64 (dc_WriteBytes c + sectorsWritten * 512))
           (wrap_u64 (dc_Operations c + wrap_u64 (reads + writes)))
           (wrap_u64 (dc_ServiceMS c + wrap_u64 (readMS + writeMS)))
           (dc_CPUTotal c) (dc_CPUIOWait c), true)
    | _ => acc
    end.

Definition readDiskCounters (h : Host) (diskstatsPath statPath sysBlockRoot : string) : option diskCounters :=
  match scan h diskstatsPath with
  | None => None
  | Some lines =>
    let (c, found) := fold_left (disk_step h sysBlockRoot) lines (mkDiskCounters 0 0 0 0 0 0, false) in
    let cpu := default (0, 0) (cpuTotalAndIOWait h statPath) in
    if found
    then Some (mkDiskCounters (dc_ReadBytes c) (dc_WriteBytes c) (dc_Operations c) (dc_ServiceMS c)
                 (fst cpu) (snd cpu))
    else None
  end.

(** The metrics between two samples [seconds] apart; zero when a counter went back. *)
Definition disk_rates (seconds : float64) (c p : diskCounters) : diskIOMetrics :=
  match counterDelta (dc_ReadBytes c) (dc_ReadBytes p), counterDelta (dc_WriteBytes c) (dc_WriteBytes p),
        counterDelta (dc_Operations c) (dc_Operations p), counterDelta (dc_ServiceMS c) (dc_ServiceMS p),
        counterDelta (dc_CPUTotal c) (dc_CPUTotal p), counterDelta (dc_CPUIOWait c) (dc_CPUIOWait p) with
  | Some readBytes, Some writeBytes, Some operations, Some serviceMS, Some cpuTotal, Some cpuIOWait =>
    let pct := f64_div (f64_mul (f64_of_Z cpuIOWait) (f64_of_Z 100)) (f64_of_Z cpuTotal) in
    mkDiskMetrics (f64_div (f64_of_Z readBytes) seconds) (f64_div (f64_of_Z writeBytes) seconds)
      (f64_div (f64_of_Z operations) seconds)
      (if 0 <? cpuTotal then (if f64_ltb (f64_of_Z 100) pct then f64_of_Z 100 else pct) else f64_zero)
      (if 0 <? operations then f64_div (f64_of_Z serviceMS) (f64_of_Z operations) else f64_zero)
  | _, _, _, _, _, _ => no_disk
  end.

Definition diskIO (h : Host) (now : Z) (diskstatsPath statPath sysBlockRoot : string) (t : telemetryState)
    : diskIOMetrics * telemetryState :=
  match readDiskCounters h diskstatsPath statPath sysBlockRoot with
  | None => (no_disk, t)
  | Some c =>
    (match ts_disk t with
     | None => no_disk
     | Some (at_, p) =>
       let seconds := Seconds (Sub now at_) in
       if f64_ltb f64_zero seconds then disk_rates seconds c p else no_disk
     end,
     mkTelemetry (ts_net t) (ts_peaks t) (Some (now, c)) (ts_procAt t) (ts_procs t) (ts_tempAt t) (ts_temp t))
  end.

(** ** Temperature *)

Definition temperatureLabelPreferred (label : string) : bool :=
  existsb (Contains label) ["cpu"; "package"; "soc"; "core"; "x86_pkg"].

Section temperature.
Context (ParseFloat : string → option float64) (toLower : string → string).

(** [value >= n || value <= -n] *)
Definition beyond (value : float64) (n : Z) : bool :=
  f64_leb (f64_of_Z n) value || f64_leb value (f64_of_Z (- n)).

Definition temperatureValue (h : Host) (path : string) : option float64 :=
  match ParseFloat (TrimSpace (readFile h path)) with
  | None => None
  | Some value =>
    let value := if beyond value 1000000 then f64_div value (f64_of_Z 1000000)
                 else if beyond value 1000 then f64_div value (f64_of_Z 1000) else value in
    if f64_leb (f64_of_Z (-50)) value && f64_leb value (f64_of_Z 200) then Some value else None
  end.

(** The loops: a preferred sensor ends the search, the first other is the
    fallback. *)
Fixpoint first_preferred (sensors : list (string * (string → bool) * string)) (h : Host) (fallback : option float64)
    : float64 + option float64 :=
  match sensors with
  | [] => inr fallback
  | (input, preferred, label) :: rest =>
    match temperatureValue h input with
    | None => first_preferred rest h fallback
    | Some v =>
      if preferred (toLower (TrimSpace (readFile h label))) then inl v
      else first_preferred rest h (match fallback with None => Some v | Some _ => fallback end)
    end
  end.

Definition zone_sensors (h : Host) (thermalRoot : string) : list (string * (string → bool) * string) :=
  (λ name, (JoinPath (JoinPath thermalRoot name) "temp", temperatureLabelPreferred,
            JoinPath (JoinPath thermalRoot name) "type"))
  <$> filter (λ name, HasPrefix name "thermal_zone" = true) (default [] (h_dir h thermalRoot)).

Definition hwmon_sensors (h : Host) (hwmonRoot : string) : list (string * (string → bool) * string) :=
  flat_map (λ name,
    (λ input, (input, λ label, String.eqb label "" || temperatureLabelPreferred label,
               TrimSuffix input "_input" +:+ "_label"))
    <$> h_glob h (JoinPath (JoinPath hwmonRoot name) "temp*_input"))
  (default [] (h_dir h hwmonRoot)).

Definition readCPUTemperature (h : Host) (thermalRoot hwmonRoot : string) : option float64 :=
  match first_preferred (zone_sensors h thermalRoot) h None with
  | inl v => Some v
  | inr fallback =>
    match first_preferred (hwmon_sensors h hwmonRoot) h fallback with
    | inl v => Some v
    | inr fallback => fallback
    end
  end.
End temperature.

(** ** The metric policy *)

Definition changed (old current : list string) (card : string) : bool :=
  negb (Bool.eqb (HasMetricCard old card) (HasMetricCard current card)).

Definition resetChangedCollectors (old current : list string) (t : telemetryState) : telemetryState :=
  let net := changed old current MetricNetwork in
  let keep_procs := HasMetricCard current MetricProcesses in
  let cpu := changed old current MetricCPU in
  mkTelemetry (if net then None else ts_net t) (if net then [] else ts_peaks t)
    (if changed old current MetricDiskIO then None else ts_disk t)
    (if keep_procs then ts_procAt t else zero_time) (if keep_procs then ts_procs t else no_processes)
    (if cpu then zero_time else ts_tempAt t) (if cpu then None else ts_temp t).

(** The Agent's metric state: the policy, the previous CPU times, the collectors. *)
Record metrics : Type := mkMetrics {
  mt_cards : list string;
  mt_cpu : option (Z * Z);
  mt_telemetry : telemetryState
}.

Definition new_metrics : metrics := mkMetrics [] None new_telemetry.

Definition setMetricCards (cards : list string) (s : metrics) : bool * metrics :=
  let cards := match cards with [] => DefaultMetricCards | _ => cards end in
  match NormalizeMetricCards cards 3 with
  | Err _ => (false, s)
  | Ok normalized =>
    (true, mkMetrics normalized (if changed (mt_cards s) normalized MetricCPU then None else mt_cpu s)
             (resetChangedCollectors (mt_cards s) normalized (mt_telemetry s)))
  end.

Definition metricCardsSnapshot (s : metrics) : list string :=
  match mt_cards s with [] => DefaultMetricCards | l => l end.
