(* ===== verification/Proc.v ===== *)
(** * Handlers as sequences of atomic steps

    Handlers of different requests interleave.  A handler is a sequence of
    atomic steps (a critical section, a database or file operation, a channel
    operation) on a shared state; before each step the environment, that is
    every other goroutine, may have changed the state in any way.  A [tick]
    holds what one step meets: that change, the clock readings, failures, random
    bytes, how a wait ends.

    [run_inv] takes a run apart; [triple] is a Hoare triple for handlers whose
    environment is known. *)

From S2P Require Export Prelude.

(** How a wait ends. *)
Inductive slot_wait : Type :=
| WaitSlot      (** what was waited for arrived *)
| WaitCancelled (** the context ended, or the other side closed *)
| WaitTimeout.  (** the timer fired *)

#[export] Instance slot_wait_eq_dec : EqDecision slot_wait.
Proof. solve_decision. Defined.

(** [tk_io]: the error of an I/O operation of the step, if any; [tk_count]: how
    many bytes it moved before. *)
Record ptick (S : Type) : Type := mkTick {
  tk_env : S → S;
  tk_now : Z;
  tk_now' : Z;
  tk_faults : list bool;
  tk_random : string;
  tk_salt : res string;
  tk_wait : slot_wait;
  tk_send_fails : bool;
  tk_io : option string;
  tk_count : Z
}.
Arguments mkTick {S}. Arguments tk_env {S}. Arguments tk_now {S}. Arguments tk_now' {S}.
Arguments tk_faults {S}. Arguments tk_random {S}. Arguments tk_salt {S}. Arguments tk_wait {S}.
Arguments tk_send_fails {S}. Arguments tk_io {S}. Arguments tk_count {S}.

(** [r_seen]: the states the steps found, oldest first. *)
Record prun (S : Type) : Type := mkRun {
  r_sys : S;
  r_ticks : list (ptick S);
  r_seen : list S
}.
Arguments mkRun {S}. Arguments r_sys {S}. Arguments r_ticks {S}. Arguments r_seen {S}.

Definition proc (S A : Type) : Type := prun S → A * prun S.

#[global] Instance proc_ret {S} : MRet (proc S) := λ A a h, (a, h).
#[global] Instance proc_bind {S} : MBind (proc S) := λ A B k m h, let (a, h') := m h in k a h'.

Section proc.
Context {S : Type}.

(** A step without interference, failures or randomness. *)
Definition idle_tick : ptick S :=
  mkTick id 0 0 [] "" (Err "no entropy") WaitSlot false None 0.

Definition step {A} (f : ptick S → S → A * S) : proc S A := λ h,
  let (t, ts) := match r_ticks h with t :: ts => (t, ts) | [] => (idle_tick, []) end in
  let s := tk_env t (r_sys h) in
  let (a, s') := f t s in
  (a, mkRun s' ts (r_seen h ++ [s])).

(** A run of a handler from [s]. *)
Definition run_handler {A} (m : proc S A) (s : S) (ts : list (ptick S)) : A * prun S :=
  m (mkRun s ts []).

(** A step after the last tick. *)
Lemma step_idle {A} (f : ptick S → S → A * S) s seen :
  step f (mkRun s [] seen) = (fst (f idle_tick s), mkRun (snd (f idle_tick s)) [] (seen ++ [s])).
Proof.
  unfold step. simpl. change (tk_env idle_tick s) with s. by destruct (f idle_tick s).
Qed.

(** ** Inversion of runs *)

Lemma bind_run {A B} (m : proc S A) (k : A → proc S B) h :
  (m ≫= k) h = k (fst (m h)) (snd (m h)).
Proof. unfold mbind, proc_bind. by destruct (m h). Qed.

Lemma bind_inv {A B} (m : proc S A) (k : A → proc S B) h b h2 :
  (m ≫= k) h = (b, h2) → ∃ a h1, m h = (a, h1) ∧ k a h1 = (b, h2).
Proof. unfold mbind, proc_bind. destruct (m h) as [a h1]. eauto. Qed.

Lemma ret_inv {A} (a b : A) (h h' : prun S) :
  (mret a : proc S A) h = (b, h') → b = a ∧ h' = h.
Proof. by intros [= <- <-]. Qed.

Lemma step_inv {A} (f : ptick S → S → A * S) h a h' :
  step f h = (a, h') → ∃ t s, f t s = (a, r_sys h') ∧ r_seen h' = r_seen h ++ [s].
Proof.
  unfold step.
  destruct (match r_ticks h with t :: ts => (t, ts) | [] => (idle_tick, []) end) as [t ts].
  destruct (f t (tk_env t (r_sys h))) as [x s'] eqn:E. intros [= <- <-].
  exists t, (tk_env t (r_sys h)). done.
Qed.

(** ** The states seen only accumulate *)

Definition grows {A} (m : proc S A) : Prop := ∀ h, r_seen h ⊆ r_seen (snd (m h)).

Lemma grows_ret {A} (a : A) : grows (mret a).
Proof. by intros h. Qed.

Lemma grows_step {A} (f : ptick S → S → A * S) : grows (step f).
Proof.
  intros h. destruct (step f h) as [a h'] eqn:E. apply step_inv in E as (t & s & _ & Hs).
  simpl. rewrite Hs. set_solver.
Qed.

Lemma grows_bind {A B} (m : proc S A) (k : A → proc S B) :
  grows m → (∀ a, grows (k a)) → grows (m ≫= k).
Proof.
  intros Hm Hk h. rewrite bind_run. etrans; [apply Hm|apply Hk].
Qed.

Lemma grows_run {A} (m : proc S A) h a h' : grows m → m h = (a, h') → r_seen h ⊆ r_seen h'.
Proof. intros Hm E. specialize (Hm h). by rewrite E in Hm. Qed.
End proc.

Create HintDb grows.
#[export] Hint Resolve grows_ret grows_step grows_bind : grows.

(** Take one run apart: binds, returns and steps. *)
Ltac run_inv_core :=
  match goal with
  | H : (_ ≫= _) _ = (_, _) |- _ =>
    let a := fresh "a" in let h := fresh "h" in
    let H1 := fresh "Hm" in apply bind_inv in H as (a & h & H1 & H)
  | H : mret _ _ = (_, _) |- _ => apply ret_inv in H as [? ?]; subst
  | H : step _ _ = (_, _) |- _ =>
    let t := fresh "t" in let s := fresh "s" in let Hf := fresh "Hf" in
    let Hs := fresh "Hs" in apply step_inv in H as (t & s & Hf & Hs)
  end.

(** A state found by one of the steps is among those seen at the end. *)
Ltac seen :=
  repeat match goal with H : r_seen _ = _ ++ _ |- _ => first [rewrite H | rewrite H in *]; clear H end;
  set_solver.

(** ** Reasoning about a handler among other goroutines

    A plan lists, for every step of a handler, the events the other goroutines
    perform before it.  An assertion speaks of the state and of the events still
    to come; it is stable when the next event carries it over to the rest.
    Between two steps of the handler only stable assertions survive. *)

Section rely.
Context {S E : Type} (run_event : E → S → S).

Definition run_events (l : list E) (s : S) : S := foldl (λ s e, run_event e s) s l.

Definition with_env (f : S → S) (t : ptick S) : ptick S :=
  mkTick f (tk_now t) (tk_now' t) (tk_faults t) (tk_random t) (tk_salt t) (tk_wait t)
    (tk_send_fails t) (tk_io t) (tk_count t).

Definition plan : Type := list (list E * ptick S).

Definition ticks_of (p : plan) : list (ptick S) := (λ x, with_env (run_events x.1) x.2) <$> p.

(** The events of a plan, in order. *)
Definition events_of (p : plan) : list E := concat p.*1.

Definition assertion : Type := S → list E → Prop.

Definition stable (P : assertion) : Prop := ∀ e l s, P s (e :: l) → P (run_event e s) l.

Lemma stable_events P l l' s : stable P → P s (l ++ l') → P (run_events l s) l'.
Proof.
  intros Hst. revert s. induction l as [|e l IH]; intros s HP; [done|]. simpl. by apply IH, Hst.
Qed.

Definition triple {A} (P : assertion) (m : proc S A) (Q : A → assertion) : Prop :=
  ∀ h p, r_ticks h = ticks_of p → P (r_sys h) (events_of p) →
  ∃ p', r_ticks (snd (m h)) = ticks_of p' ∧ Q (fst (m h)) (r_sys (snd (m h))) (events_of p').

Lemma triple_ret {A} (a : A) (P : assertion) (Q : A → assertion) :
  (∀ s l, P s l → Q a s l) → triple P (mret a) Q.
Proof. intros HPQ h p Hp HP. exists p. split; [done|by apply HPQ]. Qed.

Lemma triple_bind {A B} (m : proc S A) (k : A → proc S B) P R Q :
  triple P m R → (∀ a, triple (R a) (k a) Q) → triple P (m ≫= k) Q.
Proof.
  intros Hm Hk h p Hp HP. destruct (Hm h p Hp HP) as (p' & Hp' & HR).
  rewrite bind_run. by apply (Hk _ _ p').
Qed.

Lemma triple_step {A} (f : ptick S → S → A * S) (P : assertion) (Q : A → assertion) :
  stable P → (∀ t s l, P s l → Q (fst (f t s)) (snd (f t s)) l) → triple P (step f) Q.
Proof.
  intros Hst Hf h p Hp HP. unfold step. destruct p as [|[evs t] p].
  - rewrite Hp. simpl. exists []. destruct (f idle_tick (r_sys h)) as [a s'] eqn:Ef. simpl.
    split; [done|]. specialize (Hf idle_tick _ _ HP). by rewrite Ef in Hf.
  - rewrite Hp. simpl. exists p.
    pose proof (stable_events _ evs (events_of p) _ Hst HP) as HP'.
    specialize (Hf (with_env (run_events evs) t) _ _ HP').
    by destruct (f (with_env (run_events evs) t) (run_events evs (r_sys h))) as [a s'].
Qed.

Lemma triple_conseq {A} (m : proc S A) P P' (Q Q' : A → assertion) :
  triple P' m Q' → (∀ s l, P s l → P' s l) → (∀ a s l, Q' a s l → Q a s l) → triple P m Q.
Proof.
  intros Hm HP HQ h p Hp H1. destruct (Hm h p Hp (HP _ _ H1)) as (p' & Hp' & H2).
  exists p'. split; [done|by apply HQ].
Qed.

Lemma stable_impl (φ : Prop) P : stable P → stable (λ s l, φ → P s l).
Proof. intros Hst e l s H Hφ. by apply Hst, H. Qed.

(** A step whose effect does not matter to the assertion. *)
Lemma triple_frame {A} (f : ptick S → S → A * S) (P : assertion) :
  stable P → (∀ t s l, P s l → P (snd (f t s)) l) → triple P (step f) (λ _, P).
Proof. intros Hst Hf. by apply triple_step. Qed.

(** Handlers that only consume their steps. *)
Definition runs {A} (m : proc S A) : Prop := triple (λ _ _, True) m (λ _ _ _, True).

Lemma runs_ret {A} (a : A) : runs (mret a).
Proof. by apply triple_ret. Qed.

Lemma runs_step {A} (f : ptick S → S → A * S) : runs (step f).
Proof. by apply triple_step. Qed.

Lemma runs_bind {A B} (m : proc S A) (k : A → proc S B) :
  runs m → (∀ a, runs (k a)) → runs (m ≫= k).
Proof. intros Hm Hk. by eapply triple_bind. Qed.

(** After such a clean-up the result is a fixed one. *)
Lemma triple_finally {A B} (m : proc S A) (b : B) P (Q : B → assertion) :
  runs m → (∀ s l, Q b s l) → triple P (m ≫= λ _, mret b) Q.
Proof.
  intros Hm HQ. eapply (triple_conseq _ _ (λ _ _, True)); [|done|intros a s l H; exact H].
  eapply triple_bind; [exact Hm|]. intros a. by apply triple_ret.
Qed.

(** The events the handler did not consume happen afterwards. *)
Definition afterwards (h : prun S) : S := foldl (λ s t, tk_env t s) (r_sys h) (r_ticks h).

Lemma afterwards_events h p :
  r_ticks h = ticks_of p → afterwards h = run_events (events_of p) (r_sys h).
Proof.
  unfold afterwards. intros ->. generalize (r_sys h). induction p as [|[evs t] p IH]; intros s; [done|].
  unfold events_of in *. simpl. rewrite IH. unfold run_events. by rewrite foldl_app.
Qed.

Lemma triple_run {A} (m : proc S A) P Q s p :
  triple P m Q → stable (Q (fst (run_handler m s (ticks_of p)))) → P s (events_of p) →
  Q (fst (run_handler m s (ticks_of p))) (afterwards (snd (run_handler m s (ticks_of p)))) [].
Proof.
  intros Hm Hst HP. destruct (Hm (mkRun s (ticks_of p) []) p eq_refl HP) as (p' & Hp' & HQ).
  unfold run_handler. erewrite afterwards_events by done.
  apply stable_events; [done|]. by rewrite app_nil_r.
Qed.
End rely.

(** ** Crash reasoning

    For a process that works alone: [crash I P m Q] says that from a state
    satisfying [P] every state in which [m] may be interrupted satisfies [I], and
    that [Q] holds of its result and final state. *)

Section crash.
Context {S : Type}.

Definition alone (ts : list (ptick S)) : Prop := Forall (λ t, tk_env t = id) ts.

Definition crash {A} (I : S → Prop) (P : S → Prop) (m : proc S A) (Q : A → S → Prop) : Prop :=
  ∀ h, alone (r_ticks h) → P (r_sys h) →
  alone (r_ticks (snd (m h))) ∧ Q (fst (m h)) (r_sys (snd (m h))) ∧
  ∃ l, r_seen (snd (m h)) = r_seen h ++ l ∧ Forall I l.

Lemma crash_ret {A} I (P : S → Prop) (a : A) (Q : A → S → Prop) :
  (∀ s, P s → Q a s) → crash I P (mret a) Q.
Proof.
  intros HPQ h Ht HP. split; [done|]. split; [by apply HPQ|]. exists []. by rewrite app_nil_r.
Qed.

Lemma crash_bind {A B} I P (m : proc S A) (k : A → proc S B) R Q :
  crash I P m R → (∀ a, crash I (R a) (k a) Q) → crash I P (m ≫= k) Q.
Proof.
  intros Hm Hk h Ht HP. destruct (Hm h Ht HP) as (Ht1 & HR & l1 & Hl1 & HI1).
  destruct (Hk _ _ Ht1 HR) as (Ht2 & HQ & l2 & Hl2 & HI2). rewrite bind_run.
  split; [done|]. split; [done|]. exists (l1 ++ l2). rewrite Hl2, Hl1, app_assoc.
  split; [done|]. by apply Forall_app.
Qed.

Lemma crash_step {A} (I P : S → Prop) (f : ptick S → S → A * S) (Q : A → S → Prop) :
  (∀ s, P s → I s) → (∀ t s, P s → Q (fst (f t s)) (snd (f t s))) → crash I P (step f) Q.
Proof.
  intros HI Hf h Ht HP. unfold step. destruct (r_ticks h) as [|t ts] eqn:E.
  - specialize (Hf idle_tick _ HP). change (tk_env idle_tick (r_sys h)) with (r_sys h).
    destruct (f idle_tick (r_sys h)) as [a s']. simpl.
    split; [constructor|]. split; [done|]. exists [r_sys h]. split; [done|]. by repeat constructor; apply HI.
  - apply Forall_cons in Ht as [He Ht]. specialize (Hf t _ HP). rewrite He. unfold id.
    destruct (f t (r_sys h)) as [a s']. simpl.
    split; [done|]. split; [done|]. exists [r_sys h]. split; [done|]. by repeat constructor; apply HI.
Qed.

Lemma crash_conseq {A} I (P P' : S → Prop) (m : proc S A) (Q Q' : A → S → Prop) :
  crash I P' m Q' → (∀ s, P s → P' s) → (∀ a s, Q' a s → Q a s) → crash I P m Q.
Proof.
  intros Hm HP HQ h Ht H. destruct (Hm h Ht (HP _ H)) as (H1 & H2 & H3). split; [done|].
  split; [by apply HQ|done].
Qed.

Lemma crash_run {A} I P (m : proc S A) Q s ts :
  crash I P m Q → alone ts → P s →
  Q (fst (run_handler m s ts)) (r_sys (snd (run_handler m s ts))) ∧
  Forall I (r_seen (snd (run_handler m s ts))).
Proof.
  intros Hm Ht HP. destruct (Hm (mkRun s ts []) Ht HP) as (_ & HQ & l & Hl & HI).
  unfold run_handler. split; [done|]. by rewrite Hl.
Qed.
End crash.
