(* ===== verification/AgentInfo.v ===== *)
(** * What the Agent reports ([cmd/agent/main.go], [collectInfo] and below)

    Disk space, memory, processor and system facts read from the host, and the
    heartbeat's [SystemInfo], which is collected in steps between which the
    Server may change the metric policy. *)

From S2P Require Export Telemetry.
From S2P Require Export Proc.

(** ** Mounted file systems *)

Definition rootDiskUsage (h : Host) : Z * Z :=
  match h_statfs h "/" with
  | Some (bsize, blocks, bavail) =>
    if bsize <=? 0 then (0, 0) else (wrap_u64 (blocks * bsize), wrap_u64 (bavail * bsize))
  | None => (0, 0)
  end.

Definition excludedDiskDevice (source blockName : string) (prefixes : list string) : bool :=
  existsb (λ prefix,
    let prefix := TrimSpace prefix in
    let namePrefix := TrimPrefix prefix "/dev/" in
    negb (String.eqb prefix "")
    && (HasPrefix source prefix || (negb (String.eqb namePrefix "") && HasPrefix blockName namePrefix)))
  prefixes.

(** The four escapes of a mount table, replaced from left to right. *)
Fixpoint unescapeMountField (s : string) : string :=
  match s with
  | String "\" (String "0" (String "4" (String "0" rest))) => String " " (unescapeMountField rest)
  | String "\" (String "0" (String "1" (String "1" rest))) => String (ascii_of_N 9) (unescapeMountField rest)
  | String "\" (String "0" (String "1" (String "2" rest))) => String (ascii_of_N 10) (unescapeMountField rest)
  | String "\" (String "1" (String "3" (String "4" rest))) => String "\" (unescapeMountField rest)
  | String c rest => String c (unescapeMountField rest)
  | EmptyString => ""
  end.

(** The index of the separator ["-"] from the seventh field on. *)
Fixpoint separator (i : nat) (fields : list string) : option nat :=
  match fields with
  | [] => None
  | f :: rest => if (6 <=? i)%nat && String.eqb f "-" then Some i else separator (S i) rest
  end.

Record usage : Type := mkUsage { us_seen : gset string; us_total : Z; us_available : Z }.

Definition mount_step (h : Host) (sysDevBlockRoot : string) (excluded : list string) (u : usage) (line : string)
    : usage :=
  let f := Fields line in
  if Z.of_nat (length f) <? 10 then u
  else
    match separator 0 f with
    | None => u
    | Some k =>
      if (length f <=? k + 2)%nat then u
      else
        let deviceID := nth 2 f "" in
        match h_link h (JoinPath sysDevBlockRoot deviceID) with
        | None => u
        | Some blockPath =>
          if excludedDiskDevice (unescapeMountField (nth (k + 2) f "")) (Base blockPath) excluded
             || bool_decide (deviceID ∈ us_seen u)
          then u
          else
            match h_statfs h (unescapeMountField (nth 4 f "")) with
            | None => u
            | Some (bsize, blocks, bavail) =>
              if bsize <=? 0 then u
              else mkUsage ({[deviceID]} ∪ us_seen u)
                     (wrap_u64 (us_total u + wrap_u64 (blocks * bsize)))
                     (wrap_u64 (us_available u + wrap_u64 (bavail * bsize)))
            end
        end
    end.

Definition mountedFilesystemUsage (h : Host) (mountInfoPath sysDevBlockRoot : string) (excluded : list string)
    : Z * Z :=
  match scan h mountInfoPath with
  | None => rootDiskUsage h
  | Some lines =>
    let u := fold_left (mount_step h sysDevBlockRoot excluded) lines (mkUsage ∅ 0 0) in
    if us_total u =? 0 then rootDiskUsage h else (us_total u, us_available u)
  end.

(** ** Physical disks *)

Definition capacity_step (h : Host) (root : string) (by_device : gmap string Z) (name : string)
    : gmap string Z :=
  let blockPath := JoinPath root name in
  if h_stat h (JoinPath blockPath "partition") then by_device
  else
    match h_link h (JoinPath blockPath "device") with
    | None => by_device
    | Some device =>
      match ParseUint (TrimSpace (readFile h (JoinPath blockPath "size"))) 10 64 with
      | None => by_device
      | Some sectors =>
        if (sectors =? 0) || (max_uint64 / 512 <? sectors) then by_device
        else if default 0 (by_device !! device) <? sectors * 512
             then <[device := sectors * 512]> by_device else by_device
      end
    end.

Definition physicalDiskCapacityAt `{MapOrder} (h : Host) (root : string) : Z * Z :=
  match h_dir h root with
  | None => (0, 0)
  | Some entries =>
    let by_device := fold_left (capacity_step h root) entries ∅ in
    (sum_u64 (snd <$> map_order by_device), Z.of_nat (size by_device))
  end.

(** ** Processor, memory and system facts *)

(** [for _, raw := range fields[1:]]: at most eight values, the first that does
    not parse fails. *)
Definition cpuTimes (h : Host) : option (Z * Z) :=
  match scan h "/proc/stat" with
  | Some (line :: _) =>
    match Fields line with
    | "cpu" :: fields =>
      if Z.of_nat (length fields) <? 4 then None
      else
        match mapM (λ f, ParseUint f 10 64) (take 8 fields) with
        | None => None
        | Some values =>
          Some (sum_u64 values,
                if (4 <? length values)%nat then wrap_u64 (nth 3 values 0 + nth 4 values 0) else nth 3 values 0)
        end
    | _ => None
    end
  | _ => None
  end.

Definition minus_one : float64 := f64_of_Z (-1).

(** The share of busy time since the previous call, -1 when it is unknown. *)
Definition cpu_share (prev current : Z * Z) : float64 :=
  let dTotal := wrap_u64 (fst current - fst prev) in
  let dIdle := wrap_u64 (snd current - snd prev) in
  if (dTotal =? 0) || (dTotal <? dIdle) then minus_one
  else
    let usage := f64_div (f64_mul (f64_of_Z (dTotal - dIdle)) (f64_of_Z 100)) (f64_of_Z dTotal) in
    if f64_ltb usage f64_zero then f64_zero
    else if f64_ltb (f64_of_Z 100) usage then f64_of_Z 100 else usage.

Definition cpuUsage (h : Host) (s : metrics) : float64 * metrics :=
  match cpuTimes h with
  | None => (minus_one, s)
  | Some current =>
    (match mt_cpu s with None => minus_one | Some prev => cpu_share prev current end,
     mkMetrics (mt_cards s) (Some current) (mt_telemetry s))
  end.

(** What [ParseUint] returns besides its error: 0 for a syntax error, the largest
    value when the digits read so far are out of range. *)
Fixpoint parse_value (acc : Z) (l : list Z) : Z :=
  match l with
  | [] => acc
  | b :: t =>
    match digit_val 10 b with
    | None => 0
    | Some d => let n := acc * 10 + d in if n <? 2 ^ 64 then parse_value n t else max_uint64
    end
  end.

Definition ParseUint_value (s : string) : Z := parse_value 0 (vals s).

Definition mem_step (acc : Z * Z) (line : string) : Z * Z :=
  match Fields line with
  | key :: value :: _ =>
    let v := wrap_u64 (ParseUint_value value * 1024) in
    let key := TrimSuffix key ":" in
    if String.eqb key "MemTotal" then (v, snd acc)
    else if String.eqb key "MemAvailable" then (fst acc, v) else acc
  | _ => acc
  end.

Definition memInfo (h : Host) : Z * Z :=
  match scan h "/proc/meminfo" with None => (0, 0) | Some lines => fold_left mem_step lines (0, 0) end.

(** [strings.Trim(s, c)] for one byte. *)
Fixpoint drop_byte (c : ascii) (l : list ascii) : list ascii :=
  match l with
  | x :: t => if Ascii.eqb x c then drop_byte c t else l
  | [] => []
  end.

Definition trim_byte (c : ascii) (s : string) : string :=
  of_bytes (reverse (drop_byte c (reverse (drop_byte c (to_bytes s))))).

Definition osRelease (goos : string) (h : Host) : string :=
  match find (λ l, HasPrefix l "PRETTY_NAME=") (Split (readFile h "/etc/os-release") newline) with
  | Some l => trim_byte (ascii_of_N 34) (TrimPrefix l "PRETTY_NAME=")
  | None => goos
  end.

(** The text after the first colon of a line that names the model. *)
Definition model_of (l : string) : option string :=
  if HasPrefix l "model name" || HasPrefix l "Hardware"
  then (λ p, TrimSpace (snd p)) <$> Cut l ":" else None.

Definition cpuModel (h : Host) : string :=
  match scan h "/proc/cpuinfo" with
  | None => ""
  | Some lines => default "" (head (omap model_of lines))
  end.

Definition firstField (s : string) : string := default "" (head (Fields s)).

(** Interfaces: loopback, up, and for each address what [net.ParseCIDR] makes of
    it: whether it is a loopback address, and its text. *)
Definition interface : Type := bool * bool * list (option (bool * string)).

Definition ipAddrs (ifs : list interface) : list string :=
  flat_map (λ i, let '(loopback, up, addrs) := i in
    if (loopback : bool) || negb up then []
    else omap (λ a : option (bool * string), match a with Some (false, ip) => Some ip | _ => None end) addrs) ifs.

(** ** The report *)

(** The machine: what the host shows, and the Agent's metric state. *)
Record machine : Type := mkMachine {
  mc_host : Host;
  mc_interfaces : list interface;
  mc_hostname : string;
  mc_uname : string;
  mc_metrics : metrics
}.

Definition on_metrics (f : metrics → metrics) (s : machine) : machine :=
  mkMachine (mc_host s) (mc_interfaces s) (mc_hostname s) (mc_uname s) (f (mc_metrics s)).

Notation mproc := (proc machine).

(** What the program was built with. *)
Record build : Type := mkBuild { bd_os : string; bd_arch : string; bd_cpus : Z; bd_version : string }.

Section report.
Context {mo : MapOrder} (ParseFloat : string → option float64) (ParseFloatValue : string → float64)
  (to_uint64 : float64 → Z) (toLower : string → string) (bd : build) (excluded : list string).

Definition observe {A} (f : Host → A) : mproc A := step (λ _ s, (f (mc_host s), s)).

(** A collector's turn: what it measures and its next state. *)
Definition collect {A} (f : Host → Z → metrics → A * metrics) : mproc A :=
  step (λ t s, let (x, m) := f (mc_host s) (tk_now t) (mc_metrics s) in (x, on_metrics (λ _, m) s)).

Definition with_telemetry {A} (f : Host → Z → telemetryState → A * telemetryState)
    (h : Host) (now : Z) (s : metrics) : A * metrics :=
  let (x, t) := f h now (mt_telemetry s) in (x, mkMetrics (mt_cards s) (mt_cpu s) t).

Definition when {A} (b : bool) (zero : A) (m : mproc A) : mproc A := if b then m else mret zero.

Definition uptime (h : Host) : Z := to_uint64 (ParseFloatValue (firstField (readFile h "/proc/uptime"))).

Definition cached_temperature (now : Z) (s : metrics) : option (option float64) :=
  if cache_valid now (ts_tempAt (mt_telemetry s)) temperatureCacheTTL then Some (ts_temp (mt_telemetry s)) else None.

(** The first look at the sensors' cache, the reading, and the update. *)
Definition cpuTemperature : mproc (option float64) :=
  c ← step (λ (t : ptick machine) (s : machine), ((cached_temperature (tk_now t) (mc_metrics s), tk_now t), s));
  let (cached, now) := c : option (option float64) * Z in
  match cached with
  | Some v => mret v
  | None =>
    v ← observe (λ h, readCPUTemperature ParseFloat toLower h "/sys/class/thermal" "/sys/class/hwmon");
    collect (λ _ _ s, let t := mt_telemetry s in
      (v, mkMetrics (mt_cards s) (mt_cpu s)
            (mkTelemetry (ts_net t) (ts_peaks t) (ts_disk t) (ts_procAt t) (ts_procs t) now v)))
  end.

Definition collectInfo : mproc SystemInfo :=
  x ← step (λ (t : ptick machine) (s : machine), ((mc_hostname s, mc_uname s, ipAddrs (mc_interfaces s), Unix (tk_now t)), s));
  let '(host, kernel, ips, at_) := x : string * string * list string * Z in
  sys ← observe (λ h, (osRelease (bd_os bd) h, cpuModel h, uptime h));
  let '(os, model, up) := sys : string * string * Z in
  cards ← step (λ (_ : ptick machine) (s : machine), (metricCardsSnapshot (mc_metrics s), s));
  let has := HasMetricCard cards in
  cpu ← when (has MetricCPU) f64_zero (collect (λ h _ s, cpuUsage h s));
  load ← when (has MetricCPU) "" (observe (λ h, firstField (readFile h "/proc/loadavg")));
  temp ← when (has MetricCPU) None cpuTemperature;
  mem ← when (has MetricMemory) (0, 0) (observe memInfo);
  disk ← when (has MetricDisk) (0, 0)
           (observe (λ h, mountedFilesystemUsage h "/proc/self/mountinfo" "/sys/dev/block" excluded));
  phys ← when (has MetricDisk) (0, 0) (observe (λ h, physicalDiskCapacityAt h "/sys/class/block"));
  net ← when (has MetricNetwork) no_network
          (collect (with_telemetry (λ h now, network h now "/proc/net/route" "/proc/net/dev" "/sys/class/net")));
  procs ← when (has MetricProcesses) no_processes (collect (with_telemetry (λ h now, processes h now "/proc")));
  io ← when (has MetricDiskIO) no_disk
         (collect (with_telemetry (λ h now, diskIO h now "/proc/diskstats" "/proc/stat" "/sys/class/block")));
  mret {|
    Hostname := host; OS := os; Kernel := kernel; Arch := bd_arch bd; CPUModel := model; CPUCores := bd_cpus bd;
    CPUUsage := cpu; Load1 := load; CPUTempC := temp;
    MemTotal := fst mem; MemAvail := snd mem; DiskTotal := fst disk; DiskFree := snd disk;
    DiskPhysicalTotal := fst phys; DiskPhysicalCount := snd phys;
    NetInterface := nm_Interface net; NetLinkBPS := nm_LinkBPS net; NetRXBPS := nm_RXBPS net;
    NetTXBPS := nm_TXBPS net; NetRXPeak5mBPS := nm_RXPeakBPS net; NetTXPeak5mBPS := nm_TXPeakBPS net;
    ProcessTotal := pm_Total procs; ProcessRunning := pm_Running procs; ProcessSleeping := pm_Sleeping procs;
    ProcessZombie := pm_Zombie procs;
    DiskReadBPS := dm_ReadBPS io; DiskWriteBPS := dm_WriteBPS io; DiskIOPS := dm_IOPS io;
    DiskIOWaitPct := dm_IOWaitPct io; DiskLatencyMS := dm_LatencyMS io;
    UptimeSec := up; IPAddrs := ips; AgentVer := bd_version bd; ReportedAt := at_
  |}.
End report.
