(* ===== verification/TelemetryProps.v ===== *)
(** * Properties of the telemetry

    The network rates over any history of reports and policy changes, and the
    groups of metrics a report contains. *)

From S2P Require Export AgentInfo.
From Stdlib Require Import OrdersEx.

(** ** Orders *)

Lemma string_ltb_trans a b c : String.ltb a b = true → String.ltb b c = true → String.ltb a c = true.
Proof.
  assert (H : ∀ x y, String.ltb x y = true ↔ String_as_OT.lt x y).
  { intros x y. unfold String.ltb. change (String.compare x y) with (String_as_OT.compare x y).
    destruct (String_as_OT.compare_spec x y) as [->|H|H]; (split; [try done|intros H']; try done).
    - by apply String_as_OT.lt_strorder in H'.
    - exfalso. eapply String_as_OT.lt_strorder. etrans; eassumption. }
  rewrite !H. intros. etrans; eassumption.
Qed.

Lemma string_ltb_total a b : String.ltb a b = false → String.ltb b a = false → a = b.
Proof.
  unfold String.ltb. rewrite (String.compare_antisym b a).
  destruct (String.compare a b) eqn:E; simpl; try done. intros _ _. by apply String.compare_eq_iff.
Qed.

(** [SFcompare] of finite numbers is lexicographic, hence [<] is transitive whatever
    the arguments are. *)
Lemma f64_ltb_trans a b c : f64_ltb a b = true → f64_ltb b c = true → f64_ltb a c = true.
Proof.
  unfold f64_ltb, SFltb.
  destruct a as [[]|[]| |[] m1 e1], b as [[]|[]| |[] m2 e2], c as [[]|[]| |[] m3 e3]; simpl; try done;
    destruct (Z.compare_spec e1 e2), (Z.compare_spec e2 e3), (Z.compare_spec e1 e3); subst; try done; try lia;
    unfold Pos.compare;
    repeat match goal with |- context [Pos.compare_cont Eq ?x ?y] => fold (Pos.compare x y) end;
    try (destruct (Pos.compare_spec m1 m2), (Pos.compare_spec m2 m3), (Pos.compare_spec m1 m3);
         subst; try done; try lia).
Qed.

Lemma f64_ltb_irrefl a : f64_ltb a a = false.
Proof.
  unfold f64_ltb, SFltb. destruct a as [[]|[]| |[] m e]; simpl; try done;
    rewrite Z.compare_refl; unfold Pos.compare; fold (Pos.compare m m); by rewrite Pos.compare_refl.
Qed.

(** ** The interface that is chosen *)

Definition beats (x y : string * Z) : bool :=
  (snd y <? snd x) || ((snd x =? snd y) && String.ltb (fst x) (fst y)).

Definition scored (e : string * (Z * Z)) : string * Z := (fst e, activity (snd e)).

Lemma beats_trans x y z : beats x y = true → beats z y = false → beats z x = false.
Proof.
  unfold beats. intros Hxy Hzy. apply orb_false_iff in Hzy as [H1 H2]. apply not_true_iff_false. intros Hzx.
  apply orb_true_iff in Hxy as [Hxy|[Hxy Lxy]%andb_true_iff], Hzx as [Hzx|[Hzx Lzx]%andb_true_iff];
    bool_to_prop; try lia.
  assert (String.ltb z.1 y.1 = true) by by eapply string_ltb_trans.
  destruct (Z.eqb_spec z.2 y.2); [|lia]. destruct H2; congruence.
Qed.

Lemma beats_total x y : beats x y = false → beats y x = false → x = y.
Proof.
  unfold beats. intros H1 H2. apply orb_false_iff in H1 as [H1 L1], H2 as [H2 L2]. bool_to_prop.
  assert (E : x.2 = y.2) by lia.
  destruct L1 as [?%Z.eqb_neq|L1]; [lia|]. destruct L2 as [?%Z.eqb_neq|L2]; [lia|].
  destruct x, y. simpl in *. subst. f_equal. by apply string_ltb_total.
Qed.

Lemma beats_irrefl x : beats x x = false.
Proof.
  unfold beats. rewrite Z.ltb_irrefl, Z.eqb_refl. simpl. unfold String.ltb.
  destruct (String.compare x.1 x.1) eqn:E; try done. pose proof (String.compare_antisym x.1 x.1) as H.
  by rewrite E in H.
Qed.

Lemma busier_fold l :
  l ≠ [] → Forall (λ e, e.1 ≠ "") l →
  ∃ e, e ∈ l ∧ fold_left busier l ("", 0) = scored e ∧ ∀ x, x ∈ l → beats (scored x) (scored e) = false.
Proof.
  induction l as [|y l IH] using rev_ind; [done|]. intros _ [Hl Hy]%Forall_app.
  apply Forall_cons in Hy as [Hy _]. rewrite fold_left_app. simpl.
  destruct l as [|z l].
  { exists y. split; [set_solver|]. split; [done|]. intros x Hx. simpl in Hx.
    apply list_elem_of_singleton in Hx as ->. apply beats_irrefl. }
  destruct IH as (e & He & -> & Hmax); [done..|].
  assert (Hne : e.1 ≠ "") by (rewrite Forall_forall in Hl; by apply Hl).
  unfold busier. simpl. rewrite (proj2 (String.eqb_neq _ _)) by done. simpl.
  change ((activity e.2 <? activity y.2) || (activity y.2 =? activity e.2) && (y.1 <? e.1)%string)
    with (beats (scored y) (scored e)).
  destruct (beats (scored y) (scored e)) eqn:Eb.
  - exists y. split; [set_solver|]. split; [done|]. intros x Hx.
    rewrite app_comm_cons, elem_of_app in Hx; destruct Hx as [Hx|Hx]; [by eapply beats_trans, Hmax|].
    apply list_elem_of_singleton in Hx as ->. apply beats_irrefl.
  - exists e. split; [set_solver|]. split; [done|]. intros x Hx.
    rewrite app_comm_cons, elem_of_app in Hx; destruct Hx as [Hx|Hx]; [by apply Hmax|].
    by apply list_elem_of_singleton in Hx as ->.
Qed.

(** The names and counters read from the file. *)
Definition counters_ok (all : gmap string (Z * Z)) : Prop :=
  map_Forall (λ name v, name ≠ "" ∧ 0 <= fst v < 2 ^ 64 ∧ 0 <= snd v < 2 ^ 64) all.

Lemma counters_read lines all : counters_ok all → counters_ok (fold_left counter_step lines all).
Proof.
  revert all. induction lines as [|line lines IH]; intros all H; [done|]. simpl. apply IH.
  unfold counter_step. destruct (Cut line ":") as [[name rest]|]; [|done].
  destruct (String.eqb (TrimSpace name) "") eqn:En; [done|]. simpl.
  destruct (_ || _); [done|]. destruct (ParseUint _ 10 64) as [rx|] eqn:Er; [|done].
  destruct (ParseUint (nth 8 _ _) 10 64) as [tx|] eqn:Et; [|done].
  apply map_Forall_insert_2; [|done]. apply String.eqb_neq in En. split; [done|].
  split; by eapply ParseUint_range.
Qed.

Lemma networkCounters_order (mo1 mo2 : MapOrder) h path preferred :
  @networkCounters mo1 h path preferred = @networkCounters mo2 h path preferred.
Proof.
  unfold networkCounters. destruct (scan h path) as [lines|]; [|done].
  pose proof (counters_read lines ∅ ltac:(apply map_Forall_empty)) as Hok.
  set (all := fold_left counter_step lines ∅) in *.
  destruct (all !! preferred) as [[]|]; [done|]. case_bool_decide as Hemp; [done|].
  assert (Hb : ∀ mo : MapOrder, ∃ e, all !! e.1 = Some e.2 ∧
    fold_left busier (map_order all) ("", 0) = scored e ∧
    ∀ x, all !! x.1 = Some x.2 → beats (scored x) (scored e) = false).
  { intros mo. destruct (busier_fold (map_order all)) as (e & He & Hf & Hmax).
    - intros E. apply Hemp. apply map_eq. intros k. rewrite lookup_empty.
      destruct (all !! k) eqn:Ek; [|done]. apply elem_of_map_order in Ek. rewrite E in Ek. set_solver.
    - apply Forall_forall. intros [k v] Hkv%elem_of_map_order. by apply Hok in Hkv as [? _].
    - exists e. destruct e as [k v]. apply elem_of_map_order in He. split; [done|]. split; [done|].
      intros [k' v'] Hx. by apply Hmax, elem_of_map_order. }
  destruct (Hb mo1) as (e1 & H1 & -> & M1), (Hb mo2) as (e2 & H2 & -> & M2).
  assert (E : scored e1 = scored e2) by (apply beats_total; [by apply M2|by apply M1]).
  by rewrite E.
Qed.

Lemma networkCounters_range `{MapOrder} h path preferred iface rx tx :
  networkCounters h path preferred = Some (iface, rx, tx) → 0 <= rx < 2 ^ 64 ∧ 0 <= tx < 2 ^ 64.
Proof.
  unfold networkCounters. destruct (scan h path) as [lines|]; [|done].
  pose proof (counters_read lines ∅ ltac:(apply map_Forall_empty)) as Hok.
  set (all := fold_left counter_step lines ∅) in *.
  destruct (all !! preferred) as [[]|] eqn:E; [intros [= <- <- <-]; by apply Hok in E as [_ ?]|].
  destruct (bool_decide _); [done|]. intros [= <- <- <-].
  generalize (fold_left busier (map_order all) ("", 0)).1. intros best. destruct (all !! best) as [v|] eqn:Ev; simpl; [by apply Hok in Ev as [_ ?]|lia].
Qed.

(** ** The window of samples *)

Definition by_time : list networkPeakSample → Prop := StronglySorted (λ x y, pk_At x <= pk_At y).

Lemma drop_before_suffix c l : drop_before c l `suffix_of` l.
Proof.
  induction l as [|x l IH]; simpl; [done|]. destruct (Before _ _); [by apply suffix_cons_r|done].
Qed.

Lemma drop_before_after c l x : by_time l → x ∈ drop_before c l → c <= pk_At x.
Proof.
  induction l as [|y l IH]; simpl; intros Hs Hx; [set_solver|]. apply StronglySorted_inv in Hs as [Hs Hall].
  unfold Before in Hx. destruct (Z.ltb_spec (pk_At y) c) as [?|Hy]; [by apply IH|].
  apply elem_of_cons in Hx as [->|Hx]; [done|]. rewrite Forall_forall in Hall. specialize (Hall x Hx). lia.
Qed.

Lemma drop_before_snoc c l x : c <= pk_At x → drop_before c (l ++ [x]) = drop_before c l ++ [x].
Proof.
  intros Hx. induction l as [|y l IH]; simpl; unfold Before in *.
  - by rewrite (proj2 (Z.ltb_ge _ _)).
  - destruct (_ <? _); [apply IH|done].
Qed.

Lemma by_time_suffix k l : k `suffix_of` l → by_time l → by_time k.
Proof. intros [pre ->] Hs. induction pre as [|x pre IH]; [done|]. apply StronglySorted_inv in Hs as [? _]. by apply IH. Qed.

Lemma by_time_snoc l x : by_time l → Forall (λ y, pk_At y <= pk_At x) l → by_time (l ++ [x]).
Proof.
  induction 1 as [|y l Hs IH Hy]; simpl; intros Hf; [by repeat constructor|].
  apply Forall_cons in Hf as [Hyx Hf]. constructor; [by apply IH|]. apply Forall_app. split; [done|]. by constructor.
Qed.

Lemma window_suffix now l : window now l `suffix_of` l.
Proof. etrans; [apply suffix_drop|apply drop_before_suffix]. Qed.

Lemma window_length now l : Z.of_nat (length (window now l)) <= maxNetworkPeakSamples.
Proof. unfold window, maxNetworkPeakSamples. rewrite length_drop. lia. Qed.

Lemma window_recent now l x : by_time l → x ∈ window now l → now - networkPeakWindow <= pk_At x.
Proof.
  intros Hs Hx. change (now - networkPeakWindow) with (TimeAdd now (- networkPeakWindow)).
  apply (drop_before_after _ l); [done|].
  assert (H : window now l `suffix_of` drop_before (TimeAdd now (- networkPeakWindow)) l) by apply suffix_drop.
  destruct H as [pre E]. rewrite E. set_solver.
Qed.

Lemma window_snoc now l x : pk_At x = now → x ∈ window now (l ++ [x]).
Proof.
  intros Hx. unfold window. rewrite drop_before_snoc
    by (unfold TimeAdd, networkPeakWindow, Minute, Second; lia).
  rewrite drop_app_le by (rewrite length_app; simpl; unfold maxNetworkPeakSamples; lia). set_solver.
Qed.

(** The peak is a sample's value, or zero, and no sample exceeds it. *)
Lemma peak_spec f l :
  (peak f l = f64_zero ∨ ∃ x, x ∈ l ∧ peak f l = f x) ∧ ∀ x, x ∈ l → f64_ltb (peak f l) (f x) = false.
Proof.
  unfold peak. induction l as [|y l IH] using rev_ind; [split; [by left|set_solver]|].
  rewrite fold_left_app. simpl. set (p := fold_left _ l f64_zero) in *. destruct IH as [Hp Hmax].
  destruct (f64_ltb p (f y)) eqn:E.
  - split; [right; exists y; set_solver|]. intros x [Hx|Hx]%elem_of_app.
    + apply not_true_iff_false. intros Hlt. pose proof (f64_ltb_trans _ _ _ E Hlt). rewrite Hmax in *; done.
    + apply list_elem_of_singleton in Hx as ->. apply not_true_iff_false. intros Hlt.
      by rewrite f64_ltb_irrefl in Hlt.
  - split; [destruct Hp as [|(x & ? & ?)]; [by left|right; exists x; set_solver]|].
    intros x [Hx|Hx]%elem_of_app; [by apply Hmax|]. by apply list_elem_of_singleton in Hx as ->.
Qed.

(** ** Histories of reports and policy changes *)

Section history.
Context (routePath devPath sysNetRoot : string).
Notation report mo h now t := (@network mo h now routePath devPath sysNetRoot t).

Inductive net_op : Type :=
| NReport (h : Host) (now : Z)
| NPolicy (old current : list string).

Definition net_step `{MapOrder} (t : telemetryState) (op : net_op) : telemetryState :=
  match op with
  | NReport h now => snd (report _ h now t)
  | NPolicy old current => resetChangedCollectors old current t
  end.

Definition run_net `{MapOrder} (ops : list net_op) : telemetryState := fold_left net_step ops new_telemetry.

(** The clock does not go back, and reads at most [now] at the end. *)
Fixpoint clocked (last : Z) (ops : list net_op) (now : Z) : Prop :=
  match ops with
  | [] => last <= now
  | NReport _ at_ :: ops => last <= at_ ∧ clocked at_ ops now
  | NPolicy _ _ :: ops => clocked last ops now
  end.

Record net_inv (now : Z) (t : telemetryState) : Prop := {
  ni_length : Z.of_nat (length (ts_peaks t)) <= maxNetworkPeakSamples;
  ni_sorted : by_time (ts_peaks t);
  ni_past : Forall (λ x, pk_At x <= now) (ts_peaks t);
  ni_prev : ∀ p, ts_net t = Some p → nc_At p <= now ∧ 0 <= nc_RXBytes p < 2 ^ 64 ∧ 0 <= nc_TXBytes p < 2 ^ 64
}.

Lemma net_inv_later now now' t : now <= now' → net_inv now t → net_inv now' t.
Proof.
  intros Hn [H1 H2 H3 H4]. split; [done|done| |].
  - eapply Forall_impl; [exact H3|]. simpl. lia.
  - intros p Hp. destruct (H4 p Hp) as [? ?]. split; [lia|done].
Qed.

(** What one report returns and keeps. *)
Lemma network_cases `{MapOrder} h now t iface rx tx :
  networkCounters h devPath (defaultRouteInterface h routePath) = Some (iface, rx, tx) →
  let r := report _ h now t in
  nm_Interface (fst r) = iface ∧
  ts_net (snd r) = Some (mkNetCounters now iface rx tx) ∧
  nm_RXPeakBPS (fst r) = peak pk_RXBPS (ts_peaks (snd r)) ∧
  nm_TXPeakBPS (fst r) = peak pk_TXBPS (ts_peaks (snd r)) ∧
  ((nm_RXBPS (fst r) = f64_zero ∧ nm_TXBPS (fst r) = f64_zero ∧
    (ts_peaks (snd r) = [] ∨ ts_peaks (snd r) = window now (ts_peaks t))) ∨
   ∃ p, ts_net t = Some p ∧ nc_Interface p = iface ∧ nc_RXBytes p <= rx ∧ nc_TXBytes p <= tx ∧
     f64_ltb f64_zero (Seconds (Sub now (nc_At p))) = true ∧
     nm_RXBPS (fst r) = f64_div (f64_of_Z (rx - nc_RXBytes p)) (Seconds (Sub now (nc_At p))) ∧
     nm_TXBPS (fst r) = f64_div (f64_of_Z (tx - nc_TXBytes p)) (Seconds (Sub now (nc_At p))) ∧
     ts_peaks (snd r) = window now (ts_peaks t ++ [mkPeak now (nm_RXBPS (fst r)) (nm_TXBPS (fst r))])).
Proof.
  intros E. unfold network. rewrite E. unfold rates. simpl.
  destruct (ts_net t) as [p|]; [|by do 4 (split; [done|]); left; split_and!; [| |left]].
  destruct (String.eqb_spec (nc_Interface p) iface) as [Hi|Hi];
    [|by do 4 (split; [done|]); left; split_and!; [| |left]].
  destruct (f64_ltb f64_zero (Seconds (Sub now (nc_At p)))) eqn:Es; simpl;
    [|by do 4 (split; [done|]); left; split_and!; [| |right]].
  destruct (Z.leb_spec (nc_RXBytes p) rx); simpl; [|by do 4 (split; [done|]); left; split_and!; [| |right]].
  destruct (Z.leb_spec (nc_TXBytes p) tx); simpl; [|by do 4 (split; [done|]); left; split_and!; [| |right]].
  do 4 (split; [done|]). right. by exists p.
Qed.

Lemma window_inv now l :
  by_time l → Forall (λ x, pk_At x <= now) l →
  Z.of_nat (length (window now l)) <= maxNetworkPeakSamples ∧ by_time (window now l) ∧
  Forall (λ x, pk_At x <= now) (window now l).
Proof.
  intros Hs Hp. split; [apply window_length|]. split; [by eapply by_time_suffix, Hs; apply window_suffix|].
  destruct (window_suffix now l) as [pre E]. rewrite E in Hp. by apply Forall_app in Hp as [_ ?].
Qed.

Lemma report_inv `{MapOrder} h now t : net_inv now t → net_inv now (snd (report _ h now t)).
Proof.
  intros Hinv. destruct (networkCounters h devPath (defaultRouteInterface h routePath)) as [[[iface rx] tx]|] eqn:E.
  2: { unfold network. by rewrite E. }
  destruct (network_cases h now t _ _ _ E) as (_ & Hnet & _ & _ & Hp).
  destruct Hinv as [H1 H2 H3 H4].
  assert (Hw : Z.of_nat (length (ts_peaks (snd (report _ h now t)))) <= maxNetworkPeakSamples ∧
               by_time (ts_peaks (snd (report _ h now t))) ∧
               Forall (λ x, pk_At x <= now) (ts_peaks (snd (report _ h now t)))).
  { destruct Hp as [(_ & _ & [->| ->])|(p & _ & _ & _ & _ & _ & _ & _ & ->)].
    - split_and!; [done|constructor|constructor].
    - by apply window_inv.
    - apply window_inv; [by apply by_time_snoc|]. apply Forall_app. split; [done|]. by repeat constructor. }
  destruct Hw as (? & ? & ?). split; try done. rewrite Hnet. intros p [= <-]. simpl. split; [done|].
  by eapply networkCounters_range.
Qed.

Lemma policy_inv old current now t : net_inv now t → net_inv now (resetChangedCollectors old current t).
Proof.
  intros [H1 H2 H3 H4]. unfold resetChangedCollectors. destruct (changed old current MetricNetwork).
  - split; simpl; [done|constructor|constructor|done].
  - by split.
Qed.

Lemma run_net_inv `{MapOrder} ops now :
  clocked zero_time ops now → net_inv now (run_net ops).
Proof.
  unfold run_net. assert (H0 : net_inv zero_time new_telemetry) by (split; simpl; [done|constructor|constructor|done]).
  revert H0. generalize zero_time. generalize new_telemetry. induction ops as [|op ops IH]; intros t last Ht Hc; simpl in *.
  - by eapply net_inv_later.
  - destruct op as [h at_|old current]; [destruct Hc as [Hle Hc]|].
    + eapply IH; [|exact Hc]. apply report_inv. by eapply net_inv_later.
    + eapply IH; [|exact Hc]. by apply policy_inv.
Qed.
End history.


(** *** A concrete history *)

Definition demo_host (rx tx : Z) : Host :=
  mkHost (λ p, if String.eqb p "/proc/net/dev"
               then Some ("eth0: " +:+ Itoa rx +:+ " 0 0 0 0 0 0 0 " +:+ Itoa tx +:+ " 0")
               else None)
    (λ _, None) (λ _, false) (λ _, None) (λ _, []) (λ _, None).


(** ** The metric policy *)

Lemma when_inv {A} b (zero : A) (m : mproc A) h x h' :
  when b zero m h = (x, h') → (b = false → x = zero) ∧ (b = true → m h = (x, h')).
Proof. unfold when. destruct b; [by split|]. intros [-> ->]%ret_inv. by split. Qed.

Lemma observe_inv {A} (f : Host → A) h x h' :
  observe f h = (x, h') → ∃ s, x = f (mc_host s) ∧ r_seen h' = r_seen h ++ [s].
Proof. intros (t & s & [= <- _] & Hs)%step_inv. by exists s. Qed.

Lemma grows_when {A} b (zero : A) (m : mproc A) : grows m → grows (when b zero m).
Proof. unfold when. destruct b; auto with grows. Qed.

Section policy.
Context {mo : MapOrder} (ParseFloat : string → option float64) (ParseFloatValue : string → float64)
  (to_uint64 : float64 → Z) (toLower : string → string) (bd : build) (excluded : list string).

Lemma grows_temperature : grows (cpuTemperature ParseFloat toLower).
Proof.
  unfold cpuTemperature. apply grows_bind; [apply grows_step|]. intros [[v|] now]; [apply grows_ret|].
  apply grows_bind; [apply grows_step|]. intros v. apply grows_step.
Qed.

(** The groups of a report and the card that selects each. *)
Definition groups_zero (cards : list string) (i : SystemInfo) : Prop :=
  let off card := HasMetricCard cards card = false in
  (off MetricCPU → CPUUsage i = f64_zero ∧ Load1 i = "" ∧ CPUTempC i = None) ∧
  (off MetricMemory → MemTotal i = 0 ∧ MemAvail i = 0) ∧
  (off MetricDisk → DiskTotal i = 0 ∧ DiskFree i = 0 ∧ DiskPhysicalTotal i = 0 ∧ DiskPhysicalCount i = 0) ∧
  (off MetricNetwork → NetInterface i = "" ∧ NetLinkBPS i = 0 ∧ NetRXBPS i = f64_zero ∧ NetTXBPS i = f64_zero ∧
                       NetRXPeak5mBPS i = f64_zero ∧ NetTXPeak5mBPS i = f64_zero) ∧
  (off MetricProcesses → ProcessTotal i = 0 ∧ ProcessRunning i = 0 ∧ ProcessSleeping i = 0 ∧ ProcessZombie i = 0) ∧
  (off MetricDiskIO → DiskReadBPS i = f64_zero ∧ DiskWriteBPS i = f64_zero ∧ DiskIOPS i = f64_zero ∧
                      DiskIOWaitPct i = f64_zero ∧ DiskLatencyMS i = f64_zero).

Lemma collectInfo_groups h i h' :
  collectInfo ParseFloat ParseFloatValue to_uint64 toLower bd excluded h = (i, h') →
  ∃ s, s ∈ r_seen h' ∧ groups_zero (metricCardsSnapshot (mc_metrics s)) i ∧
    (HasMetricCard (metricCardsSnapshot (mc_metrics s)) MetricMemory = true →
     ∃ s', s' ∈ r_seen h' ∧ (MemTotal i, MemAvail i) = memInfo (mc_host s')).
Proof.
  unfold collectInfo. intros H.
  apply bind_inv in H as ([[[host kernel] ips] at_] & h1 & _ & H).
  apply bind_inv in H as ([[os model] up] & h2 & _ & H).
  apply bind_inv in H as (cards & h3 & Hcards & H).
  apply step_inv in Hcards as (t & s & [= <- _] & Hs). set (cards := metricCardsSnapshot (mc_metrics s)) in *.
  exists s.
  apply bind_inv in H as (cpu & h4 & Hcpu & H). pose proof (grows_run _ _ _ _ (grows_when _ _ _ ltac:(apply grows_step)) Hcpu) as G1.
  apply bind_inv in H as (load & h5 & Hload & H). pose proof (grows_run _ _ _ _ (grows_when _ _ _ ltac:(apply grows_step)) Hload) as G2.
  apply bind_inv in H as (temp & h6 & Htemp & H). pose proof (grows_run _ _ _ _ (grows_when _ _ _ grows_temperature) Htemp) as G3.
  apply bind_inv in H as (mem & h7 & Hmem & H). pose proof (grows_run _ _ _ _ (grows_when _ _ _ ltac:(apply grows_step)) Hmem) as G4.
  assert (G : r_seen h7 ⊆ r_seen h').
  { eapply grows_run; [|exact H].
    repeat (apply grows_bind; [apply grows_when, grows_step|intros ?]). apply grows_ret. }
  apply bind_inv in H as (disk & h8 & Hdisk & H). apply bind_inv in H as (phys & h9 & Hphys & H).
  apply bind_inv in H as (net & h10 & Hnet & H). apply bind_inv in H as (procs & h11 & Hprocs & H).
  apply bind_inv in H as (io & h12 & Hio & H). apply ret_inv in H as [-> ->].
  apply when_inv in Hcpu as [Hcpu _], Hload as [Hload _], Htemp as [Htemp _], Hmem as [Hmem Hmem'],
    Hdisk as [Hdisk _], Hphys as [Hphys _], Hnet as [Hnet _], Hprocs as [Hprocs _], Hio as [Hio _].
  split; [|split].
  - apply G, G4, G3, G2, G1. rewrite Hs. set_solver.
  - unfold groups_zero. simpl. fold cards. split_and!; intros Hoff.
    + by rewrite Hcpu, Hload, Htemp.
    + by rewrite Hmem.
    + by rewrite Hdisk, Hphys.
    + by rewrite Hnet.
    + by rewrite Hprocs.
    + by rewrite Hio.
  - intros Hon. destruct (observe_inv _ _ _ _ (Hmem' Hon)) as (s' & -> & Hs'). exists s'. simpl.
    split; [apply G; rewrite Hs'; set_solver|by rewrite <-surjective_pairing].
Qed.
End policy.

Lemma setMetricCards_spec cards s :
  let cards' := match cards with [] => DefaultMetricCards | _ => cards end in
  let r := setMetricCards cards s in
  (fst r = true ↔ NoDup cards' ∧ cards' ⊆ metricCardOrder ∧ 3 <= Z.of_nat (length cards')) ∧
  (fst r = false → snd r = s) ∧
  (fst r = true → mt_cards (snd r) = filter (λ c, c ∈ cards') metricCardOrder ∧
     mt_telemetry (snd r) = resetChangedCollectors (mt_cards s) (mt_cards (snd r)) (mt_telemetry s) ∧
     mt_cpu (snd r) = if changed (mt_cards s) (mt_cards (snd r)) MetricCPU then None else mt_cpu s).
Proof.
  intros cards' r. unfold r, setMetricCards. fold cards'.
  destruct (NormalizeMetricCards cards' 3) as [out|e] eqn:E; simpl.
  - apply NormalizeMetricCards_ok in E as (_ & Hd & Hsub & Hlen & ->). split; [|done]. done.
  - split; [|done]. split; [done|]. intros (Hd & Hsub & Hlen).
    assert (Ho : NormalizeMetricCards cards' 3 = Ok (filter (λ c, c ∈ cards') metricCardOrder))
      by (apply NormalizeMetricCards_ok; split_and!; [lia|lia|done..]).
    congruence.
Qed.

