(* ===== verification/AgentConfig.v ===== *)
(** * The Agent's configuration ([cmd/agent/config.go])

    [loadAgentConfig] on a file decoded over its default values.  The URL parser
    and the file's metadata come from outside. *)

From S2P Require Export GoTime.
From S2P Require Export Validation.

(** ** Data *)

(** [serverURL], as far as it is inspected. *)
Record parsedURL : Type := mkURL {
  u_Scheme : string;
  u_Host : string;
  u_User : bool;
  u_Fragment : string
}.

(** The seven durations parsed last. *)
Record agentDurations : Type := mkDurations {
  c_heartbeatDuration : Z;
  c_reconnectMinDur : Z;
  c_reconnectMaxDur : Z;
  c_dialTimeoutDur : Z;
  c_handshakeTimeoutDur : Z;
  c_writeTimeoutDur : Z;
  c_commandTimeoutDur : Z
}.

Record agentConfig : Type := mkAgentConfig {
  c_Server : string;
  c_Name : string;
  c_EnrollToken : string;
  c_StateFile : string;
  c_HeartbeatInterval : string;
  c_ReconnectMin : string;
  c_ReconnectMax : string;
  c_DialTimeout : string;
  c_HandshakeTimeout : string;
  c_WriteTimeout : string;
  c_CommandTimeout : string;
  c_MaxCommandOutputBytes : Z;
  c_Shell : string;
  c_ExecEnabled : bool;
  c_TerminalEnabled : bool;
  c_FileBrowserEnabled : bool;
  c_FileBrowserRoot : string;
  c_FileTransferChunkBytes : Z;
  c_MaxFileTransferBytes : Z;
  c_DiskExcludeDevicePrefixes : list string;
  c_ClientID : string;
  c_ClientSecret : string;
  c_InsecureSkipVerify : bool;
  c_dur : agentDurations
}.

Definition defaultAgentConfig : agentConfig := {|
  c_Server := "";
  c_Name := "";
  c_EnrollToken := "";
  c_StateFile := "state.json";
  c_HeartbeatInterval := "10s";
  c_ReconnectMin := "1s";
  c_ReconnectMax := "30s";
  c_DialTimeout := "15s";
  c_HandshakeTimeout := "15s";
  c_WriteTimeout := "10s";
  c_CommandTimeout := "30s";
  c_MaxCommandOutputBytes := Z.shiftl 512 10;
  c_Shell := "/bin/bash";
  c_ExecEnabled := true;
  c_TerminalEnabled := true;
  c_FileBrowserEnabled := false;
  c_FileBrowserRoot := "/";
  c_FileTransferChunkBytes := Z.shiftl 64 10;
  c_MaxFileTransferBytes := Z.shiftl 1 30;
  c_DiskExcludeDevicePrefixes := ["/dev/loop"; "/dev/zram"; "/dev/ram"];
  c_ClientID := "";
  c_ClientSecret := "";
  c_InsecureSkipVerify := false;
  c_dur := mkDurations 0 0 0 0 0 0 0
|}.

(** ** Operations *)

Definition positiveDuration (name value : string) : res Z :=
  match ParseDuration value with
  | Some d => if d <=? 0 then Err ("invalid " +:+ name +:+ " " +:+ value) else Ok d
  | None => Err ("invalid " +:+ name +:+ " " +:+ value)
  end.

Definition require (ok : bool) (err : string) : res unit := if ok then Ok () else Err err.

Definition parse_durations (c : agentConfig) : res agentDurations :=
  try heartbeat := positiveDuration "heartbeat_interval" (c_HeartbeatInterval c) in
  try reconnectMin := positiveDuration "reconnect_min" (c_ReconnectMin c) in
  try reconnectMax := positiveDuration "reconnect_max" (c_ReconnectMax c) in
  try _ := require (negb (reconnectMax <? reconnectMin)) "reconnect_max must be >= reconnect_min" in
  try dial := positiveDuration "dial_timeout" (c_DialTimeout c) in
  try handshake := positiveDuration "handshake_timeout" (c_HandshakeTimeout c) in
  try write := positiveDuration "write_timeout" (c_WriteTimeout c) in
  try command := positiveDuration "command_timeout" (c_CommandTimeout c) in
  Ok (mkDurations heartbeat reconnectMin reconnectMax dial handshake write command).

(** The text fields with surrounding white space removed. *)
Definition trim_config (c : agentConfig) : agentConfig :=
  mkAgentConfig (TrimSpace (c_Server c)) (TrimSpace (c_Name c)) (TrimSpace (c_EnrollToken c))
    (TrimSpace (c_StateFile c)) (c_HeartbeatInterval c) (c_ReconnectMin c) (c_ReconnectMax c)
    (c_DialTimeout c) (c_HandshakeTimeout c) (c_WriteTimeout c) (c_CommandTimeout c)
    (c_MaxCommandOutputBytes c) (TrimSpace (c_Shell c)) (c_ExecEnabled c) (c_TerminalEnabled c)
    (c_FileBrowserEnabled c) (TrimSpace (c_FileBrowserRoot c)) (c_FileTransferChunkBytes c)
    (c_MaxFileTransferBytes c) (map TrimSpace (c_DiskExcludeDevicePrefixes c))
    (TrimSpace (c_ClientID c)) (TrimSpace (c_ClientSecret c)) (c_InsecureSkipVerify c) (c_dur c).

(** The fields the checks compute: the state file's path, the cleaned root and
    the durations. *)
Definition resolved_config (stateFile root : string) (d : agentDurations) (c : agentConfig) : agentConfig :=
  mkAgentConfig (c_Server c) (c_Name c) (c_EnrollToken c) stateFile (c_HeartbeatInterval c)
    (c_ReconnectMin c) (c_ReconnectMax c) (c_DialTimeout c) (c_HandshakeTimeout c)
    (c_WriteTimeout c) (c_CommandTimeout c) (c_MaxCommandOutputBytes c) (c_Shell c)
    (c_ExecEnabled c) (c_TerminalEnabled c) (c_FileBrowserEnabled c) root
    (c_FileTransferChunkBytes c) (c_MaxFileTransferBytes c) (c_DiskExcludeDevicePrefixes c)
    (c_ClientID c) (c_ClientSecret c) (c_InsecureSkipVerify c) d.

Definition valid_server_url (u : option parsedURL) : bool :=
  match u with
  | None => false
  | Some u => (String.eqb (u_Scheme u) "ws" || String.eqb (u_Scheme u) "wss")
              && negb (String.eqb (u_Host u) "") && negb (u_User u) && String.eqb (u_Fragment u) ""
  end.

(** [decoded]: the file's single JSON value decoded over the defaults.  [parse]
    is [url.Parse]; [executable] tells whether a path is a regular file someone
    may execute. *)
Definition loadAgentConfig (parse : string → option parsedURL) (executable : string → bool)
    (path : string) (decoded : res agentConfig) : res agentConfig :=
  try raw := decoded in
  let c := trim_config raw in
  try _ := require (negb (String.eqb (c_Server c) "")) "server is required" in
  try _ := require (valid_server_url (parse (c_Server c)))
             "server must be a valid ws:// or wss:// URL without user info or fragment" in
  try _ := validateAgentName (c_Name c) in
  try _ := require (negb (512 <? slen (c_EnrollToken c))) "enroll_token is too long" in
  try _ := require (Bool.eqb (String.eqb (c_ClientID c) "") (String.eqb (c_ClientSecret c) ""))
             "cloudflare_access.client_id and client_secret must be configured together" in
  try _ := require (negb ((1024 <? slen (c_ClientID c)) || (4096 <? slen (c_ClientSecret c))))
             "cloudflare_access credentials are too long" in
  try _ := require (negb (String.eqb (c_StateFile c) "")) "state_file is required" in
  let stateFile := if IsAbs (c_StateFile c) then c_StateFile c else JoinPath (Dir path) (c_StateFile c) in
  try _ := require (negb (String.eqb (c_Shell c) "") && IsAbs (c_Shell c))
             "shell must be an absolute path" in
  try _ := require (executable (c_Shell c)) "shell must point to an existing executable regular file" in
  let root := if String.eqb (c_FileBrowserRoot c) "" then "/" else c_FileBrowserRoot c in
  try _ := require (IsAbs root) "file_browser_root must be an absolute path" in
  let root := Clean root in
  try _ := require (negb ((c_MaxCommandOutputBytes c <? 4096)
                          || (Z.shiftl 16 20 <? c_MaxCommandOutputBytes c)))
             "max_command_output_bytes must be between 4096 and 16777216" in
  try _ := require (negb ((c_FileTransferChunkBytes c <? 4096)
                          || (Z.shiftl 512 10 <? c_FileTransferChunkBytes c)))
             "file_transfer_chunk_bytes must be between 4096 and 524288" in
  try _ := require (negb (c_MaxFileTransferBytes c <? 0))
             "max_file_transfer_bytes must be >= 0; use 0 for unlimited" in
  try d := parse_durations c in
  Ok (resolved_config stateFile root d c).

(** ** Lemmas *)

(** What the rest of the Agent relies on. *)
Record agent_config_ok (c : agentConfig) : Prop := mk_agent_config_ok {
  ok_name : validateAgentName (c_Name c) = Ok ();
  ok_shell : IsAbs (c_Shell c) = true;
  ok_root : IsAbs (c_FileBrowserRoot c) = true;
  ok_output : 4096 <= c_MaxCommandOutputBytes c <= Z.shiftl 16 20;
  ok_agent_chunk : 4096 <= c_FileTransferChunkBytes c <= Z.shiftl 512 10;
  ok_agent_max : 0 <= c_MaxFileTransferBytes c;
  ok_reconnect : 0 < c_reconnectMinDur (c_dur c) <= c_reconnectMaxDur (c_dur c);
  ok_heartbeat : 0 < c_heartbeatDuration (c_dur c);
  ok_timeouts : 0 < c_dialTimeoutDur (c_dur c) ∧ 0 < c_handshakeTimeoutDur (c_dur c) ∧
                0 < c_writeTimeoutDur (c_dur c) ∧ 0 < c_commandTimeoutDur (c_dur c)
}.

Lemma require_ok ok err u : require ok err = Ok u → ok = true.
Proof. by destruct ok. Qed.

Lemma positiveDuration_ok name value d : positiveDuration name value = Ok d → 0 < d.
Proof. unfold positiveDuration. intros H. split_matches. done. Qed.

Lemma parse_durations_ok c d : parse_durations c = Ok d →
  0 < c_heartbeatDuration d ∧ 0 < c_reconnectMinDur d <= c_reconnectMaxDur d ∧
  0 < c_dialTimeoutDur d ∧ 0 < c_handshakeTimeoutDur d ∧ 0 < c_writeTimeoutDur d ∧
  0 < c_commandTimeoutDur d.
Proof.
  unfold parse_durations. intros H.
  repeat (apply res_bind_ok in H as (? & ?%positiveDuration_ok & H) ||
          apply res_bind_ok in H as (? & ?%require_ok & H)).
  injection H as <-. bool_to_prop. simpl. lia.
Qed.

Lemma loadAgentConfig_ok parse executable path decoded c :
  loadAgentConfig parse executable path decoded = Ok c → agent_config_ok c.
Proof.
  unfold loadAgentConfig. intros H. apply res_bind_ok in H as (raw & -> & H).
  do 2 apply res_bind_ok in H as (? & _ & H).
  apply res_bind_ok in H as ([] & Hn & H).
  do 4 apply res_bind_ok in H as (? & _ & H).
  apply res_bind_ok in H as (? & [_ Hsh]%require_ok%andb_true_iff & H).
  apply res_bind_ok in H as (? & _ & H).
  apply res_bind_ok in H as (? & Hr%require_ok & H).
  apply res_bind_ok in H as (? & Ho%require_ok & H).
  apply res_bind_ok in H as (? & Hc%require_ok & H).
  apply res_bind_ok in H as (? & Hm%require_ok & H).
  apply res_bind_ok in H as (d & Hd & H). injection H as <-.
  apply parse_durations_ok in Hd as (? & ? & ? & ? & ? & ?).
  bool_to_prop. split; simpl in *; try done || lia. by apply Clean_abs.
Qed.

Example default_config_loads :
  is_ok (loadAgentConfig (λ _, Some (mkURL "wss" "home.example" false "")) (λ _, true)
    "/etc/homectl/agent.json"
    (Ok (mkAgentConfig " wss://home.example/agent/ws " "nas" "" "state.json" "10s" "1s" "30s" "15s"
           "15s" "10s" "30s" 524288 "/bin/bash" true true false "" 65536 1073741824 [] "" "" false
           (mkDurations 0 0 0 0 0 0 0)))) = true.
Proof. by vm_compute. Qed.
