(* ===== verification/Fs.v ===== *)
(** * Files beneath a root directory ([os.Root] and [os.File] on Linux)

    What the Agent uses of package [os]: a tree of names and inodes, operations
    that resolve a relative path beneath a root, following symbolic links as long
    as they stay beneath it, and files opened by inode.  Every operation may also
    fail with an error of the system; callers pass it in.  [unix.Renameat2] is a
    third-party package and stays a parameter with the behaviour its manual
    documents. *)

From S2P Require Export GoLib.
From S2P Require Export Proc.

(** ** [io/fs.ValidPath] and [filepath.Localize] *)

Definition valid_elem (e : string) : bool :=
  negb (String.eqb e "" || String.eqb e "." || String.eqb e "..").

Definition ValidPath (p : string) : bool :=
  valid_utf8 p && (String.eqb p "." || forallb valid_elem (Split p "/")).

Definition Localize (p : string) : res string :=
  if negb (ValidPath p) || smem (ascii_of_N 0) p then Err "invalid path" else Ok p.

(** ** The tree *)

Inductive file_kind : Type := KRegular | KDirectory | KSymlink | KOther.

#[export] Instance file_kind_eq_dec : EqDecision file_kind.
Proof. solve_decision. Defined.

(** [in_data]: the content of a regular file, the target of a link. *)
Record inode : Type := mkInode {
  in_kind : file_kind;
  in_data : string;
  in_perm : Z;
  in_mtime : Z
}.

(** Elements from the root down; the root itself is []. *)
Definition fpath : Type := list string.

Record filesys : Type := mkFS {
  fs_names : gmap fpath Z;
  fs_inodes : gmap Z inode;
  fs_next : Z
}.

Definition node (fs : filesys) (p : fpath) : option (Z * inode) :=
  match p with
  | [] => Some (-1, mkInode KDirectory "" 0 0)
  | _ => i ← fs_names fs !! p; n ← fs_inodes fs !! i; Some (i, n)
  end.

Definition comps (rel : string) : fpath := Split rel "/".

(** Resolve the elements [todo] below [cur].  [keep] leaves a link in the last
    element alone; a missing last element is allowed. *)
Fixpoint walk (fs : filesys) (links : nat) (keep : bool) : fpath → fpath → res fpath :=
  fix go (cur todo : fpath) : res fpath :=
    match todo with
    | [] => Ok cur
    | e :: rest =>
      if String.eqb e "" || String.eqb e "." then go cur rest
      else if String.eqb e ".." then
        match cur with
        | [] => Err "path escapes from parent"
        | _ => go (take (length cur - 1) cur) rest
        end
      else
        match node fs (cur ++ [e]), rest with
        | None, [] => Ok (cur ++ [e])
        | None, _ => Err "no such file or directory"
        | Some (_, n), _ =>
          match in_kind n, rest with
          | KSymlink, _ =>
            if keep && match rest with [] => true | _ => false end then Ok (cur ++ [e])
            else
              match links with
              | O => Err "too many levels of symbolic links"
              | S links =>
                if IsAbs (in_data n) then Err "path escapes from parent"
                else walk fs links keep cur (Split (in_data n) "/" ++ rest)
              end
          | KDirectory, _ | _, [] => go (cur ++ [e]) rest
          | _, _ => Err "not a directory"
          end
        end
    end.

Definition resolve (fs : filesys) (keep : bool) (rel : string) : res fpath :=
  walk fs 40 keep [] (comps rel).

(** ** Operations: the error of the system, when there is one, comes first *)

Definition sys_error {A} (io : option string) (k : res A) : res A :=
  match io with Some e => Err e | None => k end.

Definition os_stat (io : option string) (rel : string) (fs : filesys) : res (Z * inode) :=
  sys_error io (
    try p := resolve fs false rel in
    match node fs p with Some x => Ok x | None => Err "no such file or directory" end).

(** Opening for reading gives the inode. *)
Definition os_open (io : option string) (rel : string) (fs : filesys) : res Z :=
  try x := os_stat io rel fs in Ok (fst x).

Definition has_child (fs : filesys) (p : fpath) : bool :=
  negb (bool_decide (filter (λ kv, p `prefix_of` kv.1 ∧ kv.1 ≠ p) (map_to_list (fs_names fs)) = [])).

(** A new name: its directory must exist, it must not. *)
Definition new_name (fs : filesys) (rel : string) : res fpath :=
  try p := resolve fs true rel in
  match node fs p with
  | Some _ => Err "file exists"
  | None =>
    match node fs (take (length p - 1) p) with
    | Some (_, n) => if bool_decide (in_kind n = KDirectory) then Ok p else Err "not a directory"
    | None => Err "no such file or directory"
    end
  end.

Definition add_node (p : fpath) (n : inode) (fs : filesys) : filesys :=
  mkFS (<[p := fs_next fs]> (fs_names fs)) (<[fs_next fs := n]> (fs_inodes fs)) (fs_next fs + 1).

Definition os_mkdir (io : option string) (rel : string) (perm : Z) (fs : filesys) : res filesys :=
  sys_error io (try p := new_name fs rel in Ok (add_node p (mkInode KDirectory "" perm 0) fs)).

(** [O_WRONLY|O_CREATE|O_EXCL]: the new inode. *)
Definition os_create (io : option string) (rel : string) (perm : Z) (fs : filesys) : res (Z * filesys) :=
  sys_error io (
    try p := new_name fs rel in
    Ok (fs_next fs, add_node p (mkInode KRegular "" perm 0) fs)).

Definition os_remove (io : option string) (rel : string) (fs : filesys) : res filesys :=
  sys_error io (
    try p := resolve fs true rel in
    match p, node fs p with
    | [], _ => Err "invalid argument"
    | _, None => Err "no such file or directory"
    | _, Some _ =>
      if has_child fs p then Err "directory not empty"
      else Ok (mkFS (delete p (fs_names fs)) (fs_inodes fs) (fs_next fs))
    end).

Definition upd_inode (i : Z) (f : inode → inode) (fs : filesys) : filesys :=
  mkFS (fs_names fs) (alter f i (fs_inodes fs)) (fs_next fs).

(** The first [n] bytes of a text; zeros. *)
Definition stake (n : Z) (s : string) : string := of_bytes (take (Z.to_nat n) (to_bytes s)).
Definition zeros (n : Z) : string := of_bytes (repeat (ascii_of_N 0) (Z.to_nat n)).

(** [b] written at offset [off]; a hole reads as zeros. *)
Definition write_at (off : Z) (b d : string) : string :=
  stake off d +:+ zeros (off - slen d) +:+ b +:+ sdrop (Z.to_nat (off + slen b)) d.

(** [File.Write] on an open file: how many bytes were written and the error.  A
    failed write may have written a part. *)
Definition os_write (io : option string) (count : Z) (i off : Z) (b : string) (fs : filesys)
    : (Z * option string) * filesys :=
  let n := match io with None => slen b | Some _ => Z.max 0 (Z.min count (slen b)) end in
  ((n, io), upd_inode i (λ x, mkInode (in_kind x) (write_at off (stake n b) (in_data x))
                                (in_perm x) (in_mtime x)) fs).

Definition os_chmod (io : option string) (i mode : Z) (fs : filesys) : res unit * filesys :=
  match io with
  | Some e => (Err e, fs)
  | None => (Ok (), upd_inode i (λ x, mkInode (in_kind x) (in_data x) mode (in_mtime x)) fs)
  end.

(** [File.Read] into a buffer of [len] bytes: the text read, and ["EOF"] at the
    end.  A read may return less than there is, but not nothing. *)
Definition os_read (io : option string) (count len i off : Z) (fs : filesys) : string * option string :=
  match io with
  | Some e => ("", Some e)
  | None =>
    let rest := sdrop (Z.to_nat off) (match fs_inodes fs !! i with Some n => in_data n | None => "" end) in
    let avail := Z.min len (slen rest) in
    if (len =? 0) then ("", None)
    else if avail <=? 0 then ("", Some "EOF")
    else (stake (if (0 <? count) && (count <? avail) then count else avail) rest, None)
  end.

(** [ReadDir]: the entries of a directory. *)
Definition dir_entries (p : fpath) (fs : filesys) : list (string * inode) :=
  omap (λ kv : fpath * Z,
    if bool_decide (p `prefix_of` kv.1 ∧ length kv.1 = S (length p))
    then n ← fs_inodes fs !! kv.2; e ← last kv.1; Some (e, n) else None)
    (map_to_list (fs_names fs)).

(** ** [unix.Renameat2] with [RENAME_NOREPLACE]

    Renaming is atomic, fails when the new name exists, and moves what was at
    the old name, with everything beneath it, to the new one; inodes stay. *)
Class Renameat2 : Type := {
  renameat2 : fpath → fpath → filesys → res filesys;
  renameat2_law : ∀ from to fs fs',
    renameat2 from to fs = Ok fs' →
    fs_names fs !! to = None ∧ is_Some (fs_names fs !! from) ∧
    fs_names fs' !! to = fs_names fs !! from ∧ fs_names fs' !! from = None ∧
    (∀ q, ¬ from `prefix_of` q → ¬ to `prefix_of` q → fs_names fs' !! q = fs_names fs !! q) ∧
    fs_inodes fs' = fs_inodes fs
}.

(** A file system that only renames entries without children. *)
Definition rename_leaf (from to : fpath) (fs : filesys) : res filesys :=
  match fs_names fs !! from, fs_names fs !! to with
  | None, _ => Err "no such file or directory"
  | Some _, Some _ => Err "file exists"
  | Some i, None =>
    if has_child fs from then Err "invalid argument"
    else Ok (mkFS (<[to := i]> (delete from (fs_names fs))) (fs_inodes fs) (fs_next fs))
  end.

#[export, refine] Instance leaf_rename : Renameat2 := {| renameat2 := rename_leaf |}.
Proof.
  intros from to fs fs' H. unfold rename_leaf in H.
  destruct (fs_names fs !! from) as [i|] eqn:Ef; [|done].
  destruct (fs_names fs !! to) as [j|] eqn:Et; [done|].
  destruct (has_child fs from); [done|]. injection H as <-. simpl.
  assert (Hne : to ≠ from) by (intros ->; congruence).
  split_and!; try done.
  - by rewrite lookup_insert_eq.
  - by rewrite lookup_insert_ne, lookup_delete_eq.
  - intros q Hf Ht. rewrite lookup_insert_ne, lookup_delete_ne; [done| |].
    + intros <-. by apply Hf.
    + intros <-. by apply Ht.
Defined.

(** The concatenation of texts. *)
Definition sconcat (l : list string) : string := foldr append "" l.

(** ** Lemmas *)

Lemma to_bytes_stake n s : to_bytes (stake n s) = take (Z.to_nat n) (to_bytes s).
Proof. apply to_of_bytes. Qed.

Lemma stake_all n s : slen s <= n → stake n s = s.
Proof.
  intros Hn. unfold stake. rewrite firstn_all2; [apply of_to_bytes|].
  rewrite length_to_bytes. unfold slen in Hn. lia.
Qed.

Lemma stake_0 s : stake 0 s = "".
Proof. done. Qed.

Lemma slen_stake n s : 0 <= n → slen (stake n s) = Z.min n (slen s).
Proof.
  intros Hn. unfold slen at 1, stake. rewrite length_of_bytes, length_take, length_to_bytes.
  unfold slen. lia.
Qed.

Lemma to_bytes_sdrop n s : to_bytes (sdrop n s) = drop n (to_bytes s).
Proof. revert n. induction s as [|a s IH]; intros [|n]; try done. apply IH. Qed.

Lemma sdrop_all n s : (String.length s <= n)%nat → sdrop n s = "".
Proof.
  intros Hn. apply to_bytes_inj. rewrite to_bytes_sdrop. apply drop_ge. by rewrite length_to_bytes.
Qed.

Lemma stake_sdrop n s : stake n s +:+ sdrop (Z.to_nat n) s = s.
Proof. apply to_bytes_inj. rewrite to_bytes_app, to_bytes_stake, to_bytes_sdrop. apply take_drop. Qed.

Lemma slen_sdrop n s : slen (sdrop n s) = Z.max 0 (slen s - Z.of_nat n).
Proof. unfold slen. rewrite <-!length_to_bytes, to_bytes_sdrop, length_drop. lia. Qed.

Lemma sdrop_add m n s : sdrop m (sdrop n s) = sdrop (n + m) s.
Proof. apply to_bytes_inj. rewrite !to_bytes_sdrop. apply drop_drop. Qed.

(** Writing at the end appends. *)
Lemma write_at_end b d : write_at (slen d) b d = d +:+ b.
Proof.
  unfold write_at. rewrite stake_all by done. rewrite Z.sub_diag.
  rewrite sdrop_all by (unfold slen; lia). unfold zeros. simpl. by rewrite sapp_nil_r.
Qed.

Lemma lookup_upd_inode i f fs j :
  fs_inodes (upd_inode i f fs) !! j = if decide (i = j) then f <$> fs_inodes fs !! j else fs_inodes fs !! j.
Proof.
  simpl. case_decide as Hij; [subst; apply lookup_alter_eq|by apply lookup_alter_ne].
Qed.
