(* ===== verification/StoreSchema.v ===== *)
(** * Opening the store ([internal/server/store.go], down to [migrateDevicePreferences])

    The database file is made private, then its schema is created or migrated, one
    autocommitted statement after the other.  Each system call and statement is a
    step that may fail, and the process may stop between any two. *)

From S2P Require Export Store.
From S2P Require Export Fs.
From S2P Require Export Proc.

(** ** The database file and its schema *)

(** [sc_admins]: the declared type of [password_hash], trimmed and in upper case,
    and whether [totp_last_login_step] exists; [sc_devices]: whether [sort_order]
    and [metric_cards] exist.  What [sc_rows] holds for a column that does not
    exist means nothing. *)
Record schema : Type := mkSchema {
  sc_version : Z;
  sc_admins : option (string * bool);
  sc_devices : option (bool * bool);
  sc_enroll : bool;
  sc_sessions : bool;
  sc_rows : DB
}.

Definition new_schema : schema := mkSchema 0 None None false false empty_db.

Record storage : Type := mkStorage {
  sg_file : option file_kind;
  sg_mode : Z;
  sg_schema : schema
}.

Notation sproc := (proc storage).

Definition currentSchemaVersion : Z := 2.

(** ** Steps *)

Definition attempt_io (f : storage → storage) : sproc (res unit) :=
  step (λ t s, match tk_io t with Some e => (Err e, s) | None => (Ok (), f s) end).

Definition on_schema (f : schema → schema) (s : storage) : storage :=
  mkStorage (sg_file s) (sg_mode s) (f (sg_schema s)).

(** A statement: it may fail by itself, or be refused by the database. *)
Definition statement (f : schema → res schema) : sproc (res unit) :=
  step (λ t s,
    match tk_io t, f (sg_schema s) with
    | Some e, _ | None, Err e => (Err e, s)
    | None, Ok c => (Ok (), on_schema (λ _, c) s)
    end).

Definition ask {A} (f : storage → A) : sproc (res A) :=
  step (λ t s, (match tk_io t with Some e => Err e | None => Ok (f s) end, s)).

(** Steps that stop at the first error. *)
Definition then_do {A B} (m : sproc (res A)) (k : A → sproc (res B)) : sproc (res B) :=
  r ← m; match r with Ok x => k x | Err e => mret (Err e) end.

(** The error wrapped with [fmt.Errorf]. *)
Definition wrap {A} (prefix : string) (m : sproc (res A)) : sproc (res A) :=
  r ← m; mret (match r with Ok x => Ok x | Err e => Err (prefix +:+ ": " +:+ e) end).

(** ** The file *)

Definition chmod_private (s : storage) : storage := mkStorage (sg_file s) 384 (sg_schema s).

(** [os.OpenFile(path, O_RDWR|O_CREATE|O_EXCL, 0600)] *)
Definition create_exclusive : sproc (res unit) :=
  step (λ t s,
    match tk_io t, sg_file s with
    | Some e, _ => (Err e, s)
    | None, Some _ => (Err "file exists", s)
    | None, None => (Ok (), mkStorage (Some KRegular) 384 new_schema)
    end).

Definition prepareDatabaseFile : sproc (res unit) :=
  then_do (wrap "create database directory" (attempt_io id)) (λ _,
  then_do (wrap "inspect database" (ask sg_file)) (λ info,
  match info with
  | Some k =>
    if bool_decide (k = KRegular) then wrap "secure database" (attempt_io chmod_private)
    else mret (Err "database must be a regular file, not a symlink or special file")
  | None =>
    then_do (wrap "create database" create_exclusive) (λ _, wrap "close database" (attempt_io id))
  end)).

(** ** The schema *)

Definition set_version n c := mkSchema n (sc_admins c) (sc_devices c) (sc_enroll c) (sc_sessions c) (sc_rows c).
Definition set_admins_table a f c :=
  mkSchema (sc_version c) (Some a) (sc_devices c) (sc_enroll c) (sc_sessions c)
    (set_admins (f <$> t_admins (sc_rows c)) (sc_rows c)).
Definition set_devices_table d f c :=
  mkSchema (sc_version c) (sc_admins c) (Some d) (sc_enroll c) (sc_sessions c)
    (set_devices (f (t_devices (sc_rows c))) (sc_rows c)).

(** [CREATE TABLE IF NOT EXISTS], for each table. *)
Definition create_devices (c : schema) : schema :=
  match sc_devices c with
  | Some _ => c
  | None => set_devices_table (true, true) (λ _, ∅) c
  end.

Definition create_admins (c : schema) : schema :=
  match sc_admins c with
  | Some _ => c
  | None => mkSchema (sc_version c) (Some ("TEXT", true)) (sc_devices c) (sc_enroll c) (sc_sessions c)
              (set_admins None (sc_rows c))
  end.

Definition create_enroll (c : schema) : schema :=
  if sc_enroll c then c
  else mkSchema (sc_version c) (sc_admins c) (sc_devices c) true (sc_sessions c) (set_enroll ∅ (sc_rows c)).

Definition create_sessions (c : schema) : schema :=
  if sc_sessions c then c
  else mkSchema (sc_version c) (sc_admins c) (sc_devices c) (sc_enroll c) true (set_sessions ∅ (sc_rows c)).

(** The statements in order; an index changes nothing here. *)
Fixpoint statements (l : list (schema → schema)) : sproc (res unit) :=
  match l with
  | [] => mret (Ok ())
  | f :: l => then_do (wrap "init sqlite schema" (statement (λ c, Ok (f c)))) (λ _, statements l)
  end.

Definition ensureSchemaObjects : sproc (res unit) :=
  statements [create_devices; create_admins; create_enroll; id; create_sessions; id].

(** [PRAGMA table_info]: names and declared types. *)
Definition admins_columns (s : storage) : list (string * string) :=
  match sc_admins (sg_schema s) with
  | None => []
  | Some (typ, has) =>
    [("id", "INTEGER"); ("username", "TEXT"); ("password_hash", typ); ("totp_secret", "TEXT");
     ("updated_at", "INTEGER")] ++ if has : bool then [("totp_last_login_step", "INTEGER")] else []
  end.

Definition devices_columns (s : storage) : list (string * string) :=
  match sc_devices (sg_schema s) with
  | None => []
  | Some (order, cards) =>
    [("id", "TEXT"); ("name", "TEXT"); ("token_hash", "BLOB"); ("last_seen", "INTEGER"); ("info_json", "TEXT")]
    ++ (if order : bool then [("sort_order", "INTEGER")] else [])
    ++ if cards : bool then [("metric_cards", "TEXT")] else []
  end.

(** The [rows.Next()] loop: a failure ends it early, and [rows.Err()] is not asked. *)
Fixpoint next_rows {A} (rows : list A) : sproc (list A) :=
  match rows with
  | [] => mret []
  | x :: rows =>
    ok ← attempt_io id;
    match ok with Ok _ => l ← next_rows rows; mret (x :: l) | Err _ => mret [] end
  end.

Definition table_info (columns : storage → list (string * string)) : sproc (res (list (string * string))) :=
  then_do (ask columns) (λ rows,
  l ← next_rows rows;
  then_do (attempt_io id) (λ _, mret (Ok l))).

Definition find_column (name : string) (l : list (string * string)) : option string :=
  snd <$> find (λ c, String.eqb (fst c) name) l.

(** The statements of a transaction: each may fail; the effect is that of the
    COMMIT. *)
Fixpoint in_tx (names : list string) (commit : sproc (res unit)) : sproc (res unit) :=
  match names with
  | [] => commit
  | n :: names => then_do (wrap n (attempt_io id)) (λ _, in_tx names commit)
  end.

(** The copy of the table, with the step column of the old one if it was seen. *)
Definition rebuild_admins (hasLastStep : bool) (c : schema) : res schema :=
  match sc_admins c with
  | None => Err "no such table: admins"
  | Some (_, has) =>
    if hasLastStep && negb has then Err "no such column: totp_last_login_step"
    else Ok (set_admins_table ("TEXT", true) (if hasLastStep then id else set_step (-1)) c)
  end.

(** [ALTER TABLE admins ADD COLUMN totp_last_login_step] *)
Definition add_last_step (c : schema) : res schema :=
  match sc_admins c with
  | None => Err "no such table: admins"
  | Some (_, true) => Err "duplicate column name: totp_last_login_step"
  | Some (typ, false) => Ok (set_admins_table (typ, true) (set_step (-1)) c)
  end.

Definition migrateAdminSchema : sproc (res unit) :=
  then_do (table_info admins_columns) (λ l,
  let declaredType := default "" (find_column "password_hash" l) in
  let hasLastStep := bool_decide (is_Some (find_column "totp_last_login_step" l)) in
  if negb (String.eqb declaredType "") && negb (String.eqb declaredType "TEXT") then
    then_do (attempt_io id) (λ _,                                      (* Begin *)
    in_tx ["drop temporary admins table"; "create temporary admins table"; "copy admins data";
           "drop admins table"; "rename admins table"]
      (statement (rebuild_admins hasLastStep)))
  else if String.eqb declaredType "TEXT" && negb hasLastStep then
    wrap "add totp replay column" (statement add_last_step)
  else mret (Ok ())).

(** Before [sort_order], devices were listed by name and identifier. *)
Definition name_le (x y : string * dev_row) : bool :=
  String.ltb (dr_name x.2) (dr_name y.2)
  || (String.eqb (dr_name x.2) (dr_name y.2) && String.leb x.1 y.1).

(** The number of devices up to this one in that order, less one. *)
Definition previous_order (m : gmap string dev_row) (id : string) (d : dev_row) : Z :=
  Z.of_nat (length (filter (λ prior, name_le prior (id, d) = true) (map_to_list m))) - 1.

(** [ALTER TABLE devices ADD COLUMN sort_order] and [metric_cards] *)
Definition add_sort_order (c : schema) : res schema :=
  match sc_devices c with
  | None => Err "no such table: devices"
  | Some (true, _) => Err "duplicate column name: sort_order"
  | Some (false, cards) => Ok (set_devices_table (true, cards) (fmap (set_sort 0)) c)
  end.

Definition add_metric_cards (c : schema) : res schema :=
  match sc_devices c with
  | None => Err "no such table: devices"
  | Some (_, true) => Err "duplicate column name: metric_cards"
  | Some (order, false) => Ok (set_devices_table (order, true) (fmap (set_cards defaultMetricCardsJSON)) c)
  end.

(** [UPDATE devices SET sort_order=(SELECT COUNT of the devices before - 1)] *)
Definition initialize_order (c : schema) : res schema :=
  match sc_devices c with
  | None => Err "no such table: devices"
  | Some (false, _) => Err "no such column: sort_order"
  | Some (true, cards) =>
    Ok (set_devices_table (true, cards) (λ m, map_imap (λ id r, Some (set_sort (previous_order m id r) r)) m) c)
  end.

Definition migrateDevicePreferences : sproc (res unit) :=
  then_do (table_info devices_columns) (λ l,
  let has name := bool_decide (is_Some (find_column name l)) in
  let addedSortOrder := negb (has "sort_order") in
  then_do (if addedSortOrder then wrap "add device sort order" (statement add_sort_order) else mret (Ok ())) (λ _,
  then_do (if has "metric_cards" then mret (Ok ()) else wrap "add device metric cards" (statement add_metric_cards)) (λ _,
  if addedSortOrder then wrap "initialize device sort order" (statement initialize_order) else mret (Ok ())))).

Definition initSchema : sproc (res unit) :=
  then_do (wrap "read schema version" (ask (λ s, sc_version (sg_schema s)))) (λ version,
  if currentSchemaVersion <? version
  then mret (Err ("database schema version " +:+ Itoa version +:+ " is newer than supported version "
                  +:+ Itoa currentSchemaVersion))
  else
    then_do ensureSchemaObjects (λ _,
    if version =? currentSchemaVersion then mret (Ok ())
    else
      then_do migrateAdminSchema (λ _,
      then_do migrateDevicePreferences (λ _,
      wrap "set schema version" (statement (λ c, Ok (set_version currentSchemaVersion c))))))).

(** [OpenStore]: the settings of the connection change nothing here. *)
Definition OpenStore : sproc (res unit) :=
  then_do prepareDatabaseFile (λ _,
  then_do (wrap "open sqlite" (attempt_io id)) (λ _,
  then_do (wrap "sqlite PRAGMA foreign_keys=ON" (attempt_io id)) (λ _,
  then_do (wrap "sqlite PRAGMA busy_timeout=5000" (attempt_io id)) (λ _,
  then_do initSchema (λ _,
  then_do (wrap "sqlite PRAGMA journal_mode=WAL" (attempt_io id)) (λ _,
  then_do (wrap "sqlite PRAGMA synchronous=NORMAL" (attempt_io id)) (λ _,
  _ ← attempt_io chmod_private; mret (Ok ())))))))).
