(* ===== verification/StoreSchemaProps.v ===== *)
(** * Guarantees of opening the store

    What a migration keeps under failures and interruption, and what it makes of
    an old database when nothing fails. *)

From S2P Require Export StoreSpec.
From S2P Require Export StoreSchema.

(** ** The order of earlier releases *)

Lemma name_le_spec x y :
  name_le x y = true ↔
  String.leb (dr_name x.2) (dr_name y.2) = true ∧
  (dr_name x.2 = dr_name y.2 → String.leb x.1 y.1 = true).
Proof.
  unfold name_le, String.ltb. destruct (String.eqb_spec (dr_name x.2) (dr_name y.2)) as [E|E].
  - rewrite E. assert (Hr : String.leb (dr_name y.2) (dr_name y.2) = true)
      by by destruct (String.leb_total (dr_name y.2) (dr_name y.2)).
    rewrite Hr. destruct (String.compare _ _) eqn:Hc; simpl; try naive_solver.
    pose proof (String.compare_antisym (dr_name y.2) (dr_name y.2)) as Ha. by rewrite Hc in Ha.
  - unfold String.leb at 2. destruct (String.compare (dr_name x.2) (dr_name y.2)) eqn:Hc; [|naive_solver..].
    by apply String.compare_eq_iff in Hc.
Qed.

Definition before (x y : string * dev_row) : Prop := name_le x y = true.

#[global] Instance before_dec x y : Decision (before x y).
Proof. unfold before. apply _. Defined.

#[global] Instance before_trans : Transitive before.
Proof.
  unfold before. intros x y z. rewrite !name_le_spec. intros [H1 H1'] [H2 H2'].
  split; [by eapply leb_trans|]. intros E.
  assert (dr_name x.2 = dr_name y.2 ∧ dr_name y.2 = dr_name z.2) as [E1 E2].
  { assert (dr_name x.2 = dr_name y.2) by (apply String.leb_antisym; congruence). split; congruence. }
  eapply leb_trans; eauto.
Qed.

#[global] Instance before_total : Total before.
Proof.
  unfold before. intros x y. rewrite !name_le_spec.
  destruct (String.leb_total x.1 y.1), (decide (dr_name x.2 = dr_name y.2)) as [E|E],
    (String.leb_total (dr_name x.2) (dr_name y.2)); rewrite ?E in *; naive_solver.
Qed.

Lemma before_antisymm x y : before x y → before y x → x.1 = y.1.
Proof.
  unfold before. rewrite !name_le_spec. intros [H1 H1'] [H2 H2'].
  pose proof (String.leb_antisym _ _ H1 H2) as E. by apply String.leb_antisym; eauto.
Qed.

(** The devices as earlier releases listed them. *)
Definition listed_by_name (m : gmap string dev_row) : list (string * dev_row) :=
  merge_sort before (map_to_list m).

Lemma length_filter_mono {A} (P Q : A → Prop) `{∀ x, Decision (P x)} `{∀ x, Decision (Q x)} l :
  (∀ x, x ∈ l → P x → Q x) → (length (filter P l) <= length (filter Q l))%nat.
Proof.
  induction l as [|x l IH]; intros Hl; [done|].
  assert (IH' : (length (filter P l) <= length (filter Q l))%nat) by (apply IH; set_solver).
  rewrite !filter_cons. repeat case_decide; simpl; try lia. exfalso. set_solver.
Qed.

Lemma length_filter_lt {A} (P Q : A → Prop) `{∀ x, Decision (P x)} `{∀ x, Decision (Q x)} l y :
  (∀ x, x ∈ l → P x → Q x) → y ∈ l → Q y → ¬ P y →
  (length (filter P l) < length (filter Q l))%nat.
Proof.
  intros Hl Hy HQ HP. apply list_elem_of_split in Hy as (l1 & l2 & ->).
  rewrite !filter_app, !filter_cons, !length_app.
  destruct (decide (P y)); [done|]. destruct (decide (Q y)); [|done]. simpl.
  assert ((length (filter P l1) <= length (filter Q l1))%nat) by (apply length_filter_mono; set_solver).
  assert ((length (filter P l2) <= length (filter Q l2))%nat) by (apply length_filter_mono; set_solver).
  lia.
Qed.

Lemma previous_order_lt m x y :
  m !! x.1 = Some x.2 → m !! y.1 = Some y.2 → before x y → x.1 ≠ y.1 →
  previous_order m x.1 x.2 < previous_order m y.1 y.2.
Proof.
  destruct x as [k1 r1], y as [k2 r2]. simpl. intros Hx Hy Hxy Hne. unfold previous_order.
  apply Z.sub_lt_mono_r, inj_lt.
  apply (length_filter_lt _ _ _ (k2, r2)); [|by apply elem_of_map_to_list| |].
  - intros z _ Hz. by eapply (before_trans z (k1, r1) (k2, r2)).
  - destruct (before_total (k2, r2) (k2, r2)); done.
  - intros H. by apply Hne, (before_antisymm _ _ Hxy).
Qed.

Definition with_order (m : gmap string dev_row) (x : string * dev_row) : string * dev_row :=
  (x.1, set_sort (previous_order m x.1 x.2) x.2).

Lemma map_to_list_initialized m :
  map_to_list (map_imap (λ id r, Some (set_sort (previous_order m id r) r)) m)
  ≡ₚ with_order m <$> map_to_list m.
Proof.
  apply NoDup_Permutation; [apply NoDup_map_to_list| |].
  - apply (NoDup_fmap_1 fst). rewrite <- list_fmap_compose. apply NoDup_fst_map_to_list.
  - intros [k r]. rewrite elem_of_map_to_list, list_elem_of_fmap, map_lookup_imap. split.
    + intros (r0 & Hr0 & [= <-])%bind_Some. exists (k, r0). by rewrite elem_of_map_to_list.
    + intros ([k0 r0] & [= -> ->] & Hr0%elem_of_map_to_list). by rewrite Hr0.
Qed.

Lemma with_order_sorted m l :
  Forall (λ x, m !! x.1 = Some x.2) l → StronglySorted before l →
  StronglySorted dev_le (with_order m <$> l).
Proof.
  intros Hin Hs. induction Hs as [|x l Hs IH Hx]; [constructor|].
  apply Forall_cons in Hin as [Hx0 Hin]. simpl. constructor; [by apply IH|].
  apply Forall_fmap. rewrite Forall_forall in *. intros y Hy. unfold dev_le. simpl.
  destruct (decide (x.1 = y.1)) as [E|E].
  - right. specialize (Hin y Hy). simpl in Hin.
    assert (x.2 = y.2) as -> by (rewrite E in Hx0; congruence).
    rewrite E. split; [done|]. by destruct (String.leb_total y.1 y.1).
  - left. apply previous_order_lt; auto.
Qed.

(** Sorting by the orders so computed lists the devices as before. *)
Lemma initialized_order db m :
  t_devices db = map_imap (λ id r, Some (set_sort (previous_order m id r) r)) m →
  (sorted_devices db).*1 = (listed_by_name m).*1.
Proof.
  intros Hdb.
  assert (Hp : listed_by_name m ≡ₚ map_to_list m) by apply merge_sort_Permutation.
  rewrite <- (sorted_devices_unique db (with_order m <$> listed_by_name m)).
  - rewrite <- list_fmap_compose. by apply list_fmap_ext.
  - apply with_order_sorted.
    + rewrite Hp. apply Forall_forall. by intros [k r] ?%elem_of_map_to_list.
    + apply Sorted_StronglySorted; [apply _|]. apply Sorted_merge_sort, _.
  - rewrite Hdb, map_to_list_initialized. by rewrite Hp.
Qed.

(** ** What a migration keeps *)

Definition device_data (cols : bool * bool) (r : dev_row) :=
  (dr_name r, dr_token_hash r, dr_last_seen r, dr_info_json r,
   if cols.1 then Some (dr_sort_order r) else None, if cols.2 then Some (dr_metric_cards r) else None).

Definition admin_data (r : admin_row) :=
  (ar_username r, ar_password_hash r, ar_totp_secret r, ar_updated_at r).

(** Every table, column and value there was, except for the last TOTP step. *)
Record keeps (c c' : schema) : Prop := mkKeeps {
  k_devices : ∀ cols, sc_devices c = Some cols → ∃ cols', sc_devices c' = Some cols' ∧
    (cols.1 = true → cols'.1 = true) ∧ (cols.2 = true → cols'.2 = true) ∧
    device_data cols <$> t_devices (sc_rows c') = device_data cols <$> t_devices (sc_rows c);
  k_admins : is_Some (sc_admins c) → is_Some (sc_admins c') ∧
    admin_data <$> t_admins (sc_rows c') = admin_data <$> t_admins (sc_rows c);
  k_enroll : sc_enroll c = true → sc_enroll c' = true ∧ t_enroll (sc_rows c') = t_enroll (sc_rows c);
  k_sessions : sc_sessions c = true → sc_sessions c' = true ∧ t_sessions (sc_rows c') = t_sessions (sc_rows c)
}.

Definition tables (c : schema) : Prop :=
  is_Some (sc_devices c) ∧ is_Some (sc_admins c) ∧ sc_enroll c = true ∧ sc_sessions c = true.

Lemma keeps_refl c : keeps c c.
Proof. split; eauto. Qed.

(** A change of the devices table that keeps the columns there were. *)
Lemma keeps_devices c0 c cols cols' f :
  keeps c0 c → sc_devices c = Some cols →
  (cols.1 = true → cols'.1 = true) → (cols.2 = true → cols'.2 = true) →
  (∀ cols0, sc_devices c0 = Some cols0 → (cols0.1 = true → cols.1 = true) → (cols0.2 = true → cols.2 = true) →
    device_data cols0 <$> f (t_devices (sc_rows c)) = device_data cols0 <$> t_devices (sc_rows c)) →
  keeps c0 (set_devices_table cols' f c).
Proof.
  intros [Hd Ha He Hs] Hc H1 H2 Hf. split; simpl; auto.
  intros cols0 Hc0. destruct (Hd _ Hc0) as (colsx & Hcx & Hx1 & Hx2 & Hx).
  assert (colsx = cols) as -> by congruence. exists cols'. split; [done|].
  split; [auto|]. split; [auto|]. by rewrite Hf.
Qed.

Lemma keeps_admins c0 c a f :
  keeps c0 c → is_Some (sc_admins c) → (∀ r, admin_data (f r) = admin_data r) →
  keeps c0 (set_admins_table a f c).
Proof.
  intros [Hd Ha He Hs] Hc Hf. split; simpl; auto.
  intros [_ H0]%Ha. split; [done|]. rewrite <- H0, <- option_fmap_compose. by apply option_fmap_ext.
Qed.

(** The tables created when missing. *)
Definition ensured (c : schema) : schema := create_sessions (create_enroll (create_admins (create_devices c))).

Lemma create_keeps c0 c f :
  f ∈ [create_devices; create_admins; create_enroll; id; create_sessions; id] →
  keeps c0 c → keeps c0 (f c) ∧ sc_version (f c) = sc_version c.
Proof.
  intros Hf Hk. pose proof Hk as [Hd Ha He Hs].
  repeat (apply elem_of_cons in Hf as [->|Hf]); [..|by apply not_elem_of_nil in Hf];
    unfold create_devices, create_admins, create_enroll, create_sessions;
    try case_match; split; try done; split; simpl; auto.
  - intros cols (cols' & ? & _)%Hd. congruence.
  - intros [[? ?] _]%Ha. congruence.
  - intros [? _]%He. congruence.
  - intros [? _]%Hs. congruence.
Qed.

Lemma ensured_tables c : tables (ensured c).
Proof.
  unfold tables, ensured, create_devices, create_admins, create_enroll, create_sessions.
  repeat (case_match; simpl in *; simplify_eq); eauto 10.
Qed.

(** ** Safety under failures and interruption *)

Section rules.
Context {E : storage → Prop}.

(** [m] from [P]: every state on the way and after an error satisfies [E], and a
    result [Ok a] leaves [R a]. *)
Definition safe {A} (P : storage → Prop) (m : sproc (res A)) (R : A → storage → Prop) : Prop :=
  crash E P m (λ r s, match r with Ok a => R a s | Err _ => E s end).

Lemma safe_ret {A} P (a : A) (R : A → storage → Prop) : (∀ s, P s → R a s) → safe P (mret (Ok a)) R.
Proof. intros H. by apply crash_ret. Qed.

Lemma safe_err {A} P e (R : A → storage → Prop) : (∀ s, P s → E s) → safe P (mret (Err e)) R.
Proof. intros H. by apply crash_ret. Qed.

Lemma safe_then {A B} P (m : sproc (res A)) (k : A → sproc (res B)) Q R :
  safe P m Q → (∀ a, safe (Q a) (k a) R) → safe P (then_do m k) R.
Proof.
  intros Hm Hk. eapply crash_bind; [exact Hm|]. intros [a|e]; [apply Hk|]. by apply safe_err.
Qed.

Lemma safe_wrap {A} P pre (m : sproc (res A)) R : safe P m R → safe P (wrap pre m) R.
Proof.
  intros Hm. eapply crash_bind; [exact Hm|]. intros [a|e]; [by apply safe_ret|by apply safe_err].
Qed.

Lemma safe_attempt (P : storage → Prop) f (R : unit → storage → Prop) :
  (∀ s, P s → E s) → (∀ s, P s → R () (f s)) → safe P (attempt_io f) R.
Proof. intros HI HR. apply crash_step; [done|]. intros t s HP. destruct (tk_io t); simpl; auto. Qed.

Lemma safe_ask {A} (P : storage → Prop) (f : storage → A) :
  (∀ s, P s → E s) → safe P (ask f) (λ a s, P s ∧ a = f s).
Proof. intros HI. apply crash_step; [done|]. intros t s HP. destruct (tk_io t); simpl; auto. Qed.

Lemma safe_statement (P : storage → Prop) f (R : unit → storage → Prop) :
  (∀ s, P s → E s) →
  (∀ s c, P s → f (sg_schema s) = Ok c → R () (on_schema (λ _, c) s)) →
  safe P (statement f) R.
Proof.
  intros HI HR. apply crash_step; [done|]. intros t s HP.
  destruct (tk_io t); simpl; auto. destruct (f (sg_schema s)) eqn:Ef; simpl; auto.
Qed.

Lemma safe_conseq {A} (P P' : storage → Prop) (m : sproc (res A)) (Q R : A → storage → Prop) :
  safe P' m Q → (∀ s, P s → P' s) → (∀ a s, Q a s → R a s) → safe P m R.
Proof. intros Hm HP HR. eapply crash_conseq; [exact Hm|done|]. intros [a|e] s; eauto. Qed.

Lemma safe_false {A} (m : sproc (res A)) R : safe (λ _, False) m R.
Proof. by intros h Ht. Qed.

Lemma safe_pure {A} (φ : Prop) (P : storage → Prop) (m : sproc (res A)) (R : A → storage → Prop) :
  (φ → safe P m R) → safe (λ s, P s ∧ φ) m R.
Proof. intros Hm h Ht [HP Hφ]. by apply Hm. Qed.

Lemma safe_table_info (P : storage → Prop) cols :
  (∀ s, P s → E s) → safe P (table_info cols) (λ _, P).
Proof.
  intros HI. eapply safe_then; [by apply safe_ask|]. intros rows.
  eapply (crash_bind _ _ _ _ (λ _, P)).
  - apply (crash_conseq _ _ P _ _ (λ _, P)); [|naive_solver..].
    induction rows as [|x rows IH]; [by apply crash_ret|].
    eapply (crash_bind _ _ _ _ (λ _, P)).
    { apply crash_step; [done|]. intros t s HP. by destruct (tk_io t). }
    intros [u|e]; [|by apply crash_ret]. eapply (crash_bind _ _ _ _ (λ _, P)); [exact IH|].
    intros l. by apply crash_ret.
  - intros l. eapply (safe_then _ _ _ (λ _, P)); [by apply safe_attempt|]. intros u. by apply safe_ret.
Qed.

End rules.

Lemma safe_mono {A} (E E' : storage → Prop) P (m : sproc (res A)) R :
  (∀ s, E s → E' s) → @safe E A P m R → @safe E' A P m R.
Proof.
  intros HE Hm h Ht HP. destruct (Hm h Ht HP) as (H1 & H2 & l & Hl & HI). split; [done|].
  split; [destruct (fst (m h)); auto|]. exists l. split; [done|]. by eapply Forall_impl.
Qed.

Arguments safe E {A}.

(** From [c0], whatever fails. *)

Section safety.
Context (c0 : schema).

Definition intact (s : storage) : Prop :=
  keeps c0 (sg_schema s) ∧ (sc_version (sg_schema s) = sc_version c0 ∨ sc_version (sg_schema s) = currentSchemaVersion).

Definition unchanged (s : storage) : Prop := sg_schema s = c0.

Definition ready (φ : schema → Prop) (s : storage) : Prop :=
  sg_file s = Some KRegular ∧ sg_mode s = 384 ∧ φ (sg_schema s).

Lemma ready_unchanged s : ready (eq c0) s → unchanged s.
Proof. by intros (_ & _ & H). Qed.

Lemma unchanged_intact s : unchanged s → intact s.
Proof. unfold unchanged, intact. intros ->. split; [apply keeps_refl|by left]. Qed.

Definition current (c : schema) : Prop := keeps c0 c ∧ sc_version c = sc_version c0.

Lemma ready_intact (φ : schema → Prop) s : (∀ c, φ c → current c) → ready φ s → intact s.
Proof. intros Hφ (_ & _ & [? ?]%Hφ). split; auto. Qed.

Lemma safe_ready_statement (φ ψ : schema → Prop) f :
  (∀ c, φ c → current c) → (∀ c c', φ c → f c = Ok c' → ψ c') →
  safe intact (ready φ) (statement f) (λ _, ready ψ).
Proof.
  intros HI Hf. apply safe_statement; [by intros s; apply ready_intact|].
  intros s c (H1 & H2 & H3) E. split; [done|]. split; [done|]. simpl. eauto.
Qed.

Lemma safe_statements l c :
  current c → (∀ f, f ∈ l → ∀ c, current c → current (f c)) →
  safe intact (ready (eq c)) (statements l) (λ _, ready (eq (foldl (λ c f, f c) c l))).
Proof.
  revert c. induction l as [|f l IH]; intros c Hc Hl; [by apply safe_ret|].
  cbn [statements]. eapply (safe_then _ _ _ (λ _, ready (eq (f c)))).
  - apply safe_wrap, safe_ready_statement; [by intros c' <-|]. by intros c1 c2 <- [= <-].
  - intros u. apply IH; [apply Hl; [set_solver|done]|]. set_solver.
Qed.

Lemma safe_ensureSchemaObjects :
  safe intact (ready (eq c0)) ensureSchemaObjects (λ _, ready (λ c, current c ∧ tables c)).
Proof.
  assert (Hcur : ∀ f, f ∈ [create_devices; create_admins; create_enroll; id; create_sessions; id] →
    ∀ c, current c → current (f c)).
  { intros f Hf c [Hk Hv]. destruct (create_keeps c0 c f Hf Hk) as [? E]. split; [done|congruence]. }
  assert (H0 : current c0) by (split; [apply keeps_refl|done]).
  eapply safe_conseq; [by apply safe_statements|done|].
  intros u s (H1 & H2 & H3). split; [done|]. split; [done|]. rewrite <- H3.
  split; [|apply (ensured_tables c0)]. cbn [foldl]. repeat (apply Hcur; [set_solver|]). done.
Qed.

Lemma safe_in_tx φ names commit R :
  (∀ c, φ c → current c) → safe intact (ready φ) commit R → safe intact (ready φ) (in_tx names commit) R.
Proof.
  intros Hφ Hc. induction names as [|n names IH]; [done|].
  eapply (safe_then _ _ _ (λ _, ready φ)); [|by intros u].
  apply safe_wrap, safe_attempt; [intros s; by apply ready_intact|done].
Qed.

Notation migrating := (λ c, current c ∧ tables c).

Lemma safe_migrateAdminSchema : safe intact (ready migrating) migrateAdminSchema (λ _, ready migrating).
Proof.
  assert (Hm : ∀ c, migrating c → current c) by naive_solver.
  assert (Hset : ∀ a f c, (∀ r, admin_data (f r) = admin_data r) → migrating c →
    migrating (set_admins_table a f c)).
  { intros a f c Hf [[Hk Hv] (Hd & Ha & He & Hs)]. split; [split; [by apply keeps_admins|done]|].
    unfold tables. simpl. eauto. }
  eapply (safe_then _ _ _ (λ _, ready migrating)).
  { apply safe_table_info. intros s. by apply ready_intact. }
  intros l. set (has := bool_decide _). cbv zeta. case_match; [|case_match].
  - eapply (safe_then _ _ _ (λ _, ready migrating)).
    { apply safe_attempt; [intros s; by apply ready_intact|done]. }
    intros u. apply safe_in_tx; [done|]. apply safe_ready_statement; [done|].
    intros c c' Hc. unfold rebuild_admins. repeat case_match; try done; intros [= <-]; by apply Hset.
  - apply safe_wrap, safe_ready_statement; [done|].
    intros c c' Hc. unfold add_last_step. repeat case_match; try done; intros [= <-]; by apply Hset.
  - by apply safe_ret.
Qed.

(** A change of the devices table that keeps every value of an old column. *)
Lemma migrating_devices c cols cols' g :
  migrating c → sc_devices c = Some cols →
  (cols.1 = true → cols'.1 = true) → (cols.2 = true → cols'.2 = true) →
  (∀ cols0, sc_devices c0 = Some cols0 → (cols0.1 = true → cols.1 = true) → (cols0.2 = true → cols.2 = true) →
    ∀ id r, device_data cols0 (g id r) = device_data cols0 r) →
  migrating (set_devices_table cols' (map_imap (λ id r, Some (g id r))) c).
Proof.
  intros [[Hk Hv] (Hd & Ha & He & Hs)] Hc H1 H2 Hg.
  split; [split; [|done]|unfold tables; simpl; eauto].
  eapply keeps_devices; [done..|]. intros cols0 Hc0 Hx Hy. apply map_eq. intros id.
  rewrite !lookup_fmap, map_lookup_imap. destruct (_ !! id) as [r|]; [|done]. simpl. by rewrite Hg.
Qed.

Lemma imap_fmap {A} (f : A → A) (m : gmap string A) : map_imap (λ _ r, Some (f r)) m = f <$> m.
Proof. apply map_eq. intros id. rewrite map_lookup_imap, lookup_fmap. by destruct (m !! id). Qed.

(** The order column is a new one. *)
Definition unordered : Prop := ∀ cols, sc_devices c0 = Some cols → cols.1 = false.

Lemma add_sort_order_migrating c c' :
  migrating c → add_sort_order c = Ok c' → migrating c' ∧ unordered.
Proof.
  unfold add_sort_order. intros Hc. destruct (sc_devices c) as [[[|] cards]|] eqn:E; [done| |done].
  intros [= <-]. split.
  - pose proof (migrating_devices c _ (true, cards) (λ _, set_sort 0) Hc E) as H.
    unfold set_devices_table in *. rewrite imap_fmap in H. apply H; [done..|].
    intros [[|] x] _ H1 _ id r; [by specialize (H1 eq_refl)|done].
  - intros cols (cols' & Hc' & H1 & _)%(k_devices _ _ (proj1 (proj1 Hc))).
    rewrite E in Hc'. injection Hc' as <-. destruct (cols.1); [by discriminate H1|done].
Qed.

Lemma add_metric_cards_migrating c c' :
  migrating c → add_metric_cards c = Ok c' → migrating c'.
Proof.
  unfold add_metric_cards. intros Hc. destruct (sc_devices c) as [[order [|]]|] eqn:E; [done| |done].
  intros [= <-].
  pose proof (migrating_devices c _ (order, true) (λ _, set_cards defaultMetricCardsJSON) Hc E) as H.
  unfold set_devices_table in *. rewrite imap_fmap in H. apply H; [done..|].
  intros [x [|]] _ _ H2 id r; [by specialize (H2 eq_refl)|done].
Qed.

Lemma initialize_order_migrating c c' :
  migrating c → unordered → initialize_order c = Ok c' → migrating c'.
Proof.
  unfold initialize_order. intros Hc Hu. destruct (sc_devices c) as [[[|] cards]|] eqn:E; [|done..].
  intros [= <-].
  pose proof (migrating_devices c _ (true, cards)
    (λ id r, set_sort (previous_order (t_devices (sc_rows c)) id r) r) Hc E) as H.
  unfold set_devices_table in *. apply H; [done..|].
  intros cols Hcols _ _ id r. unfold device_data. by rewrite (Hu _ Hcols).
Qed.

Lemma safe_migrateDevicePreferences :
  safe intact (ready migrating) migrateDevicePreferences (λ _, ready migrating).
Proof.
  assert (Hm : ∀ c, migrating c → current c) by naive_solver.
  eapply (safe_then _ _ _ (λ _, ready migrating)).
  { apply safe_table_info. intros s. by apply ready_intact. }
  intros l. cbv beta zeta. generalize (negb (bool_decide (is_Some (find_column "sort_order" l)))).
  intros added.
  set (φ := λ c, migrating c ∧ (added = true → unordered)).
  assert (Hφ : ∀ c, φ c → current c) by (intros c [? _]; auto).
  eapply (safe_then _ _ _ (λ _, ready φ)); [|intros u; eapply (safe_then _ _ _ (λ _, ready φ)); [|intros u']].
  - destruct added eqn:Ea.
    + apply safe_wrap, safe_ready_statement; [done|]. intros c c' Hc Hf.
      destruct (add_sort_order_migrating c c' Hc Hf). by split.
    + apply safe_ret. intros s (H1 & H2 & H3). split; [done|]. split; [done|]. split; [done|discriminate].
  - case_match; [by apply safe_ret|]. apply safe_wrap, safe_ready_statement; [done|].
    intros c c' [Hc Hu] Hf. split; [by eapply add_metric_cards_migrating|done].
  - destruct added eqn:Ea.
    + apply safe_wrap, safe_ready_statement; [done|]. intros c c' [Hc Hu] Hf.
      by eapply initialize_order_migrating; eauto.
    + apply safe_ret. intros s (H1 & H2 & H3 & _). by split.
Qed.

Notation migrated := (λ c, keeps c0 c ∧ sc_version c = currentSchemaVersion ∧ tables c).

Lemma safe_initSchema :
  sc_version c0 <= currentSchemaVersion →
  safe intact (ready (eq c0)) initSchema (λ _, ready migrated).
Proof.
  intros Hv. assert (H0 : ∀ s, ready (eq c0) s → intact s).
  { intros s. apply ready_intact. intros c <-. split; [apply keeps_refl|done]. }
  eapply safe_then; [apply safe_wrap, (safe_ask _ _ H0)|]. intros v.
  apply (safe_conseq _ (λ s, ready (eq c0) s ∧ v = sc_version c0) _ (λ _, ready migrated)); [apply safe_pure| |done].
  2:{ intros s [Hr ->]. split; [done|]. by destruct Hr as (_ & _ & <-). }
  intros ->. rewrite (proj2 (Z.ltb_ge _ _) Hv).
  eapply safe_then; [apply safe_ensureSchemaObjects|]. intros u. cbn beta.
  destruct (Z.eqb_spec (sc_version c0) currentSchemaVersion) as [E|E].
  { apply safe_ret. intros s (H1 & H2 & [Hk Hx] & Ht). split; [done|]. split; [done|]. split; [done|]. split; [congruence|done]. }
  eapply safe_then; [apply safe_migrateAdminSchema|]. intros u'.
  eapply safe_then; [apply safe_migrateDevicePreferences|]. intros u''.
  apply safe_wrap, safe_ready_statement; [naive_solver|].
  intros c c' [[Hk Hx] Ht] [= <-]. split; [|by split]. destruct Hk. by split.
Qed.

(** A version from the future is left alone. *)
Lemma safe_initSchema_newer :
  currentSchemaVersion < sc_version c0 → safe unchanged unchanged initSchema (λ _ _, False).
Proof.
  intros Hv. eapply safe_then; [by apply safe_wrap, safe_ask|]. intros v.
  apply (safe_conseq _ (λ s, unchanged s ∧ v = sc_version c0) _ (λ _ _, False)); [apply safe_pure| |done].
  2:{ intros s [Hs ->]. split; [done|]. by rewrite Hs. }
  intros ->. rewrite (proj2 (Z.ltb_lt _ _) Hv). by apply safe_err.
Qed.

(** The file is there and private, or the store is refused. *)
Lemma safe_prepareDatabaseFile k :
  (k = None → c0 = new_schema) →
  safe unchanged (λ s, unchanged s ∧ sg_file s = k) prepareDatabaseFile
    (λ _ s, ready (eq c0) s ∧ k ∈ [None; Some KRegular]).
Proof.
  intros Hk. set (P := λ s, unchanged s ∧ sg_file s = k).
  assert (HP : ∀ s, P s → unchanged s) by by intros s [? _].
  eapply (safe_then _ _ _ (λ _, P)); [by apply safe_wrap, safe_attempt|]. intros u.
  eapply safe_then; [by apply safe_wrap, safe_ask|]. intros info.
  apply (safe_conseq _ (λ s, P s ∧ info = k) _ (λ _ s, ready (eq c0) s ∧ k ∈ [None; Some KRegular]));
    [apply safe_pure| |done].
  2:{ intros s [[? ?] ->]. done. }
  intros ->. destruct k as [kind|].
  - case_bool_decide as Hreg; [subst kind|by apply safe_err].
    apply safe_wrap, safe_attempt; [done|]. intros s [Hs Hf]. split; [by split|set_solver].
  - eapply (safe_then _ _ _ (λ _ s, ready (eq c0) s ∧ None ∈ [None; Some KRegular])).
    + apply safe_wrap, crash_step; [done|]. intros t s [Hs Hf]. rewrite Hf.
      destruct (tk_io t); simpl; [done|]. split; [split; [done|split; [done|by apply Hk]]|set_solver].
    + intros u'. apply safe_wrap, safe_attempt; [by intros s [? _]; apply ready_unchanged|done].
Qed.

Lemma safe_OpenStore k :
  (k = None → c0 = new_schema) → sc_version c0 <= currentSchemaVersion →
  safe intact (λ s, unchanged s ∧ sg_file s = k) OpenStore (λ _, ready migrated).
Proof.
  intros Hk Hv. assert (H0 : ∀ s, ready (eq c0) s → intact s) by (by intros s ?%ready_unchanged; apply unchanged_intact).
  assert (H1 : ∀ s, ready migrated s → intact s) by (intros s (_ & _ & ? & ? & _); split; auto).
  eapply (safe_then _ _ _ (λ _, ready (eq c0))).
  { eapply safe_conseq; [eapply safe_mono; [apply unchanged_intact|by apply safe_prepareDatabaseFile]|done|].
    by intros u s [? _]. }
  intros u. do 3 (eapply (safe_then _ _ _ (λ _, ready (eq c0))); [by apply safe_wrap, safe_attempt|intros ?]).
  eapply safe_then; [by apply safe_initSchema|]. intros u'. cbn beta.
  do 2 (eapply (safe_then _ _ _ (λ _, ready migrated)); [by apply safe_wrap, safe_attempt|intros ?]).
  eapply (crash_bind _ _ _ _ (λ _, ready migrated)); [|intros r; by apply safe_ret].
  apply crash_step; [done|]. intros t s H. destruct (tk_io t); [done|]. by destruct H as (? & ? & ?).
Qed.

Lemma safe_OpenStore_refused k :
  (k = None → c0 = new_schema) → (currentSchemaVersion < sc_version c0 ∨ k ∉ [None; Some KRegular]) →
  safe unchanged (λ s, unchanged s ∧ sg_file s = k) OpenStore (λ _ _, False).
Proof.
  intros Hk Hr. eapply (safe_then _ _ _ (λ _ s, ready (eq c0) s ∧ currentSchemaVersion < sc_version c0)).
  { eapply safe_conseq; [by apply safe_prepareDatabaseFile|done|]. intros u s [? ?]. split; [done|]. by destruct Hr. }
  intros u. apply safe_pure. intros Hv.
  pose proof ready_unchanged as H0.
  do 3 (eapply (safe_then _ _ _ (λ _, ready (eq c0))); [by apply safe_wrap, safe_attempt|intros ?]).
  eapply (safe_then _ _ _ (λ _ _, False)); [|intros u'; apply safe_false].
  eapply safe_conseq; [by apply safe_initSchema_newer|done|done].
Qed.
End safety.

(** ** Without failures *)

Definition quiet (t : ptick storage) : Prop := tk_env t = id ∧ tk_io t = None.

Definition quietly {A} (m : sproc A) (s : storage) (a : A) (s' : storage) : Prop :=
  ∀ h, Forall quiet (r_ticks h) → r_sys h = s →
  ∃ h', m h = (a, h') ∧ Forall quiet (r_ticks h') ∧ r_sys h' = s'.

Lemma quiet_ret {A} (a : A) s : quietly (mret a) s a s.
Proof. intros h Hq Hs. by exists h. Qed.

Lemma quiet_bind {A B} (m : sproc A) (k : A → sproc B) s a s1 b s2 :
  quietly m s a s1 → quietly (k a) s1 b s2 → quietly (m ≫= k) s b s2.
Proof.
  intros Hm Hk h Hq Hs. destruct (Hm h Hq Hs) as (h1 & E1 & Hq1 & Hs1).
  destruct (Hk h1 Hq1 Hs1) as (h2 & E2 & Hq2 & Hs2). exists h2. split; [|done].
  rewrite bind_run, E1. done.
Qed.

Lemma quiet_step {A} (f : ptick storage → storage → A * storage) s a s' :
  (∀ t, tk_io t = None → f t s = (a, s')) → quietly (step f) s a s'.
Proof.
  intros Hf h Hq Hs. unfold step. rewrite Hs. destruct (r_ticks h) as [|t ts].
  - change (tk_env idle_tick s) with s. rewrite Hf by done. eexists. split; [done|]. by split.
  - apply Forall_cons in Hq as [[He Hi] Hq]. rewrite He. unfold id. rewrite Hf by done.
    eexists. split; [done|]. by split.
Qed.

Lemma quiet_then {A B} (m : sproc (res A)) (k : A → sproc (res B)) s a s1 r s2 :
  quietly m s (Ok a) s1 → quietly (k a) s1 r s2 → quietly (then_do m k) s r s2.
Proof. intros Hm Hk. by eapply quiet_bind. Qed.

Lemma quiet_wrap {A} pre (m : sproc (res A)) s a s' :
  quietly m s (Ok a) s' → quietly (wrap pre m) s (Ok a) s'.
Proof. intros Hm. eapply quiet_bind; [exact Hm|]. apply quiet_ret. Qed.

Lemma quiet_attempt f s : quietly (attempt_io f) s (Ok ()) (f s).
Proof. apply quiet_step. by intros t ->. Qed.

Lemma quiet_ask {A} (f : storage → A) s : quietly (ask f) s (Ok (f s)) s.
Proof. apply quiet_step. by intros t ->. Qed.

Lemma quiet_statement f s c :
  f (sg_schema s) = Ok c → quietly (statement f) s (Ok ()) (on_schema (λ _, c) s).
Proof. intros Hf. apply quiet_step. intros t ->. by rewrite Hf. Qed.

Lemma quiet_table_info cols s : quietly (table_info cols) s (Ok (cols s)) s.
Proof.
  eapply quiet_then; [apply quiet_ask|].
  apply (quiet_bind _ _ s (cols s) s).
  - generalize (cols s). intros l. induction l as [|x l IH]; [apply quiet_ret|].
    eapply quiet_bind; [apply (quiet_attempt id)|]. cbn beta iota.
    eapply quiet_bind; [exact IH|]. apply quiet_ret.
  - eapply quiet_then; [apply (quiet_attempt id)|]. apply quiet_ret.
Qed.

Lemma quiet_statements l s :
  quietly (statements l) s (Ok ()) (on_schema (λ c, foldl (λ c f, f c) c l) s).
Proof.
  revert s. induction l as [|f l IH]; intros s; [destruct s; apply quiet_ret|].
  eapply quiet_then; [by apply quiet_wrap, quiet_statement|]. apply IH.
Qed.

(** What becomes of the [admins] table. *)
Definition upgraded_admins (c : schema) : schema :=
  match sc_admins c with
  | Some (_, has) => set_admins_table ("TEXT", true) (if has : bool then id else set_step (-1)) c
  | None => c
  end.

Lemma set_admins_table_id typ has c :
  sc_admins c = Some (typ, has) → set_admins_table (typ, has) id c = c.
Proof.
  destruct c as [v a d e ss [td ta te ts]]. unfold set_admins_table, set_admins. simpl. intros ->.
  by rewrite option_fmap_id.
Qed.

Lemma quiet_migrateAdminSchema s typ has :
  sc_admins (sg_schema s) = Some (typ, has) → typ ≠ "" →
  quietly migrateAdminSchema s (Ok ()) (on_schema upgraded_admins s).
Proof.
  intros Ha Ht. eapply quiet_then; [apply quiet_table_info|].
  assert (Htyp : find_column "password_hash" (admins_columns s) = Some typ) by by unfold admins_columns; rewrite Ha.
  assert (Hlast : is_Some (find_column "totp_last_login_step" (admins_columns s)) ↔ has = true).
  { unfold admins_columns. rewrite Ha. destruct has; split; try done. by intros [? ?]. }
  cbv zeta. rewrite Htyp. change (default "" (Some typ)) with typ. rewrite (proj2 (String.eqb_neq typ "") Ht).
  assert (Hb : bool_decide (is_Some (find_column "totp_last_login_step" (admins_columns s))) = has).
  { destruct has; [apply bool_decide_eq_true_2|apply bool_decide_eq_false_2]; rewrite Hlast; done. }
  rewrite Hb. cbn [negb andb].
  assert (Hon : ∀ c, upgraded_admins (sg_schema s) = c → on_schema (λ _, c) s = on_schema upgraded_admins s)
    by by intros c <-.
  unfold upgraded_admins in Hon at 1. rewrite Ha in Hon.
  destruct (String.eqb_spec typ "TEXT") as [->|Hne]; cbn [negb andb].
  - destruct has; cbn [negb].
    + rewrite <- (Hon _ eq_refl), set_admins_table_id by done. destruct s. apply quiet_ret.
    + rewrite <- (Hon _ eq_refl). apply quiet_wrap, quiet_statement. unfold add_last_step. by rewrite Ha.
  - eapply quiet_then; [apply (quiet_attempt id)|]. cbn [in_tx].
    do 5 (eapply quiet_then; [apply quiet_wrap, (quiet_attempt id)|]).
    rewrite <- (Hon _ eq_refl). apply quiet_statement. unfold rebuild_admins. rewrite Ha. by destruct has.
Qed.

(** What becomes of the [devices] table. *)
Definition upgraded_devices (c : schema) : schema :=
  match sc_devices c with
  | Some (order, cards) =>
    let added := if cards : bool then id else set_cards defaultMetricCardsJSON in
    if order : bool then set_devices_table (true, true) (fmap added) c
    else set_devices_table (true, true)
           (λ m, let m := added <$> (set_sort 0 <$> m) in
                 map_imap (λ id r, Some (set_sort (previous_order m id r) r)) m) c
  | None => c
  end.

Lemma set_devices_table_twice d d' f g c :
  set_devices_table d' g (set_devices_table d f c) = set_devices_table d' (g ∘ f) c.
Proof. done. Qed.

Lemma set_devices_table_id d c : sc_devices c = Some d → set_devices_table d id c = c.
Proof. destruct c as [v a dd e ss [td ta te ts]]. unfold set_devices_table, set_devices. by simpl; intros ->. Qed.

Lemma quiet_migrateDevicePreferences s cols :
  sc_devices (sg_schema s) = Some cols →
  quietly migrateDevicePreferences s (Ok ()) (on_schema upgraded_devices s).
Proof.
  intros Hd. destruct cols as [order cards]. eapply quiet_then; [apply quiet_table_info|].
  cbv beta zeta.
  assert (Ho : bool_decide (is_Some (find_column "sort_order" (devices_columns s))) = order).
  { unfold devices_columns. rewrite Hd. by destruct order, cards. }
  assert (Hc : bool_decide (is_Some (find_column "metric_cards" (devices_columns s))) = cards).
  { unfold devices_columns. rewrite Hd. by destruct order, cards. }
  rewrite Ho, Hc. unfold on_schema at 1, upgraded_devices. rewrite Hd.
  destruct s as [file mode c]. cbn [sg_schema sg_file sg_mode] in *. destruct order; cbn [negb].
  - eapply quiet_then; [apply quiet_ret|]. destruct cards.
    + eapply quiet_then; [apply quiet_ret|].
      replace (set_devices_table _ _ c) with c; [apply quiet_ret|].
      rewrite <- (set_devices_table_id (true, true) c Hd) at 1. unfold set_devices_table. by rewrite map_fmap_id.
    + eapply quiet_then; [|apply quiet_ret].
      apply quiet_wrap, (quiet_statement _ (mkStorage _ _ _)). simpl. unfold add_metric_cards. by rewrite Hd.
  - set (c1 := set_devices_table (true, cards) (fmap (set_sort 0)) c).
    eapply (quiet_then _ _ _ _ (mkStorage file mode c1)).
    { apply quiet_wrap, (quiet_statement _ (mkStorage _ _ _) c1). simpl. unfold add_sort_order. by rewrite Hd. }
    set (init := λ m, map_imap (λ id r, Some (set_sort (previous_order m id r) r)) m).
    destruct cards.
    + eapply quiet_then; [apply quiet_ret|].
      replace (set_devices_table _ _ c) with (set_devices_table (true, true) init c1).
      { by apply quiet_wrap, (quiet_statement _ (mkStorage _ _ c1)). }
      unfold c1, set_devices_table. cbn. by rewrite map_fmap_id.
    + set (c2 := set_devices_table (true, true) (fmap (set_cards defaultMetricCardsJSON)) c1).
      eapply (quiet_then _ _ _ _ (mkStorage file mode c2)).
      { by apply quiet_wrap, (quiet_statement _ (mkStorage _ _ c1)). }
      replace (set_devices_table _ _ c) with (set_devices_table (true, true) init c2) by done.
      by apply quiet_wrap, (quiet_statement _ (mkStorage _ _ c2)).
Qed.

(** ** Opening a database *)

(** The tables of an older version brought to the present one. *)
Definition upgraded (c : schema) : schema :=
  set_version currentSchemaVersion (upgraded_devices (upgraded_admins (ensured c))).

Lemma quiet_prepareDatabaseFile s :
  sg_file s ∈ [None; Some KRegular] → (sg_file s = None → sg_schema s = new_schema) →
  quietly prepareDatabaseFile s (Ok ()) (mkStorage (Some KRegular) 384 (sg_schema s)).
Proof.
  intros Hf Hn. destruct s as [file mode c]. simpl in *.
  eapply quiet_then; [apply quiet_wrap, (quiet_attempt id)|].
  eapply quiet_then; [apply quiet_wrap, quiet_ask|]. cbn [sg_file].
  apply elem_of_cons in Hf as [->|Hf%list_elem_of_singleton].
  - eapply quiet_then; [|apply quiet_wrap, (quiet_attempt id)].
    apply quiet_wrap, quiet_step. intros t ->. by rewrite Hn.
  - subst file. apply quiet_wrap, (quiet_attempt chmod_private).
Qed.

Definition typed_admins (c : schema) : Prop := ∀ typ has, sc_admins c = Some (typ, has) → typ ≠ "".

Lemma quiet_initSchema s :
  sc_version (sg_schema s) < currentSchemaVersion → typed_admins (sg_schema s) →
  quietly initSchema s (Ok ()) (on_schema upgraded s).
Proof.
  intros Hv Ht. eapply quiet_then; [apply quiet_wrap, quiet_ask|].
  rewrite (proj2 (Z.ltb_ge _ _)) by lia. rewrite (proj2 (Z.eqb_neq _ _)) by lia.
  eapply quiet_then; [apply quiet_statements|].
  assert (Hd : is_Some (sc_devices (upgraded_admins (ensured (sg_schema s))))).
  { destruct (ensured_tables (sg_schema s)) as [Hd _]. unfold upgraded_admins. by repeat case_match. }
  assert (Ha : ∃ typ has, sc_admins (ensured (sg_schema s)) = Some (typ, has) ∧ typ ≠ "").
  { unfold ensured, create_sessions, create_enroll, create_admins, create_devices, set_devices_table.
    unfold typed_admins in Ht. destruct (sc_admins (sg_schema s)) as [[typ has]|] eqn:Ea.
    - exists typ, has. specialize (Ht typ has eq_refl). repeat (case_match; simpl in *; simplify_eq); done.
    - exists "TEXT", true. repeat (case_match; simpl in *; simplify_eq); done. }
  destruct Hd as [cols Hd], Ha as (typ & has & Ha & Htyp).
  eapply quiet_then; [by apply (quiet_migrateAdminSchema _ typ has)|].
  eapply quiet_then; [by apply (quiet_migrateDevicePreferences _ cols)|].
  set (s3 := on_schema (λ c, upgraded_devices (upgraded_admins (ensured c))) s).
  by apply quiet_wrap, (quiet_statement _ s3).
Qed.

Lemma quiet_OpenStore s :
  sg_file s ∈ [None; Some KRegular] → (sg_file s = None → sg_schema s = new_schema) →
  sc_version (sg_schema s) < currentSchemaVersion → typed_admins (sg_schema s) →
  quietly OpenStore s (Ok ()) (mkStorage (Some KRegular) 384 (upgraded (sg_schema s))).
Proof.
  intros Hf Hn Hv Ht. set (s1 := mkStorage (Some KRegular) 384 (sg_schema s)).
  eapply quiet_then; [by apply quiet_prepareDatabaseFile|].
  do 3 (eapply quiet_then; [apply quiet_wrap, (quiet_attempt id)|]).
  eapply quiet_then; [by apply (quiet_initSchema s1)|].
  do 2 (eapply quiet_then; [apply quiet_wrap, (quiet_attempt id)|]).
  eapply quiet_bind; [apply (quiet_attempt chmod_private)|]. apply quiet_ret.
Qed.

Lemma before_sorted l : StronglySorted before (merge_sort before l).
Proof. apply Sorted_StronglySorted; [apply _|]. apply Sorted_merge_sort, _. Qed.

(** The order does not depend on the other columns. *)
Lemma listed_by_name_fmap (f : dev_row → dev_row) m :
  (∀ r, dr_name (f r) = dr_name r) → (listed_by_name (f <$> m)).*1 = (listed_by_name m).*1.
Proof.
  intros Hf.
  assert (Hp : listed_by_name (f <$> m) ≡ₚ map_to_list (f <$> m)) by apply merge_sort_Permutation.
  assert (Hp' : prod_map id f <$> listed_by_name m ≡ₚ map_to_list (f <$> m)).
  { rewrite map_to_list_fmap. apply fmap_Permutation, merge_sort_Permutation. }
  assert (listed_by_name (f <$> m) = prod_map id f <$> listed_by_name m) as ->.
  { apply (StronglySorted_unique_strong before); [|apply before_sorted| |by rewrite Hp, Hp'].
    - intros [k1 r1] [k2 r2] H1 H2 H3 H4. pose proof (before_antisymm _ _ H3 H4) as Hk. simpl in Hk. subst k2.
      rewrite Hp, elem_of_map_to_list in H1. rewrite Hp', elem_of_map_to_list in H2. congruence.
    - pose proof (before_sorted (map_to_list m)) as Hs. unfold listed_by_name.
      induction Hs as [|x l Hs IH Hx]; [constructor|]. simpl. constructor; [exact IH|].
      apply Forall_fmap. eapply Forall_impl; [exact Hx|]. intros y Hy.
      unfold before, name_le, prod_map in *. simpl. by rewrite !Hf. }
  rewrite <- list_fmap_compose. by apply list_fmap_ext.
Qed.

Lemma upgraded_columns c :
  sc_admins (upgraded c) = Some ("TEXT", true) ∧ sc_devices (upgraded c) = Some (true, true).
Proof.
  destruct (ensured_tables c) as ([[order cards] Hd] & [[typ has] Ha] & _).
  unfold upgraded, upgraded_devices, upgraded_admins. rewrite Ha. simpl. rewrite Hd. by destruct order.
Qed.

Lemma upgraded_order c cards :
  sc_devices c = Some (false, cards) →
  (sorted_devices (sc_rows (upgraded c))).*1 = (listed_by_name (t_devices (sc_rows c))).*1.
Proof.
  intros Hd.
  assert (E : sc_devices (upgraded_admins (ensured c)) = Some (false, cards) ∧
              t_devices (sc_rows (upgraded_admins (ensured c))) = t_devices (sc_rows c)).
  { unfold upgraded_admins, ensured, create_sessions, create_enroll, create_admins, create_devices.
    rewrite Hd. repeat (case_match; simpl in *; simplify_eq); done. }
  destruct E as [Ed Et]. unfold upgraded, upgraded_devices. rewrite Ed. cbn [set_version sc_rows].
  set (added := if cards then id else set_cards defaultMetricCardsJSON).
  rewrite (initialized_order _ (added <$> (set_sort 0 <$> t_devices (sc_rows (upgraded_admins (ensured c)))))) by done.
  rewrite Et.
  rewrite listed_by_name_fmap by by destruct cards. by apply listed_by_name_fmap.
Qed.

(** ** Properties *)


(** *** A database of the first release, and an interrupted migration of it *)

Definition old_device (name : string) : dev_row := mkDevRow name "token" 0 "" 0 "".

(** Neither order nor cards, the password hash in a BLOB; listed as b, a. *)
Definition old_database : storage :=
  mkStorage (Some KRegular) 420
    (mkSchema 0 (Some ("BLOB", false)) (Some (false, false)) false false
      (mkDB (<["a" := old_device "Zeta"]> {["b" := old_device "Alpha"]})
            (Some (mkAdminRow "root" "hash" "" 0 7)) ∅ ∅)).


Definition failing : ptick storage := mkTick id 0 0 [] "" (Err "no entropy") WaitSlot false (Some "disk I/O error") 0.

(** When the migration stops after ADD COLUMN sort_order and before the UPDATE,
    the next start finds the column and never computes the order. *)
Lemma interrupted_migration_loses_order :
  let r1 := run_handler OpenStore old_database (replicate 36 idle_tick ++ [failing]) in
  let r2 := run_handler OpenStore (r_sys (snd r1)) [] in
  fst r1 = Err "initialize device sort order: disk I/O error" ∧
  fst r2 = Ok () ∧ (sorted_devices (sc_rows (sg_schema (r_sys (snd r2))))).*1 = ["a"; "b"].
Proof. by vm_compute. Qed.

(** A failed read of the columns of [admins] is taken for their end: the
    migration is skipped and the version set, so that it never happens. *)
Lemma unread_columns_skip_migration :
  let r := run_handler OpenStore old_database (replicate 14 idle_tick ++ [failing]) in
  fst r = Ok () ∧ sc_version (sg_schema (r_sys (snd r))) = 2 ∧
  sc_admins (sg_schema (r_sys (snd r))) = Some ("BLOB", false).
Proof. by vm_compute. Qed.
