(* ===== verification/AgentState.v ===== *)
(** * The Agent's saved identity ([cmd/agent/state.go])

    The state file and the temporary files beside it.  Every call to the system
    is one step and may fail; a crash can happen between any two steps, so the
    states a run passes through matter as much as its result. *)

From S2P Require Export Proc.
From S2P Require Export Fs.
From S2P Require Export Encoding.
From S2P Require Export Validation.

(** ** Data *)

Definition maxStateFileBytes : Z := Z.shiftl 64 10.

Record agentState : Type := mkAgentState {
  st_DeviceID : string;
  st_DeviceToken : string;
  st_PendingEnrollment : bool
}.

Definition noState : agentState := mkAgentState "" "" false.

(** [json.MarshalIndent] and [json.Unmarshal] of the state. *)
Class StateCodec : Type := {
  marshal_state : agentState → string;
  unmarshal_state : string → res agentState;
  state_roundtrip : ∀ s, unmarshal_state (marshal_state s +:+ String (ascii_of_N 10) "") = Ok s
}.

Record statefile : Type := mkStatefile {
  sf_kind : file_kind;
  sf_data : string;
  sf_perm : Z
}.

Record Disk : Type := mkDisk {
  dk_state : option statefile;         (** at the configured path *)
  dk_temps : gmap string statefile     (** [.homectl-state-*] beside it *)
}.

Definition set_temps f (d : Disk) := mkDisk (dk_state d) (f (dk_temps d)).

(** ** Operations *)

Definition validateAgentState (s : agentState) : res unit :=
  if negb (String.eqb (st_DeviceID s) "") && negb (validAgentDeviceID (st_DeviceID s))
  then Err "contains an invalid device_id"
  else if negb (String.eqb (st_DeviceToken s) "") && negb (ValidDeviceToken (st_DeviceToken s))
  then Err "contains an invalid device_token"
  else if st_PendingEnrollment s && String.eqb (st_DeviceToken s) ""
  then Err "pending enrollment requires a device_token"
  else Ok ().

(** [hex.EncodeToString] of the random bytes of the step. *)
Definition randomHex : proc Disk (res string) :=
  step (λ t d, (match tk_io t with Some e => Err e | None => Ok (hex_encode (tk_random t)) end, d)).

(** A call that changes nothing unless it succeeds. *)
Definition io_step (f : ptick Disk → Disk → Disk) : proc Disk (res unit) :=
  step (λ t d, match tk_io t with Some e => (Err e, d) | None => (Ok (), f t d) end).

(** [f.Write(b)]: a failed write may have written a part. *)
Definition write_temp (tmp b : string) : proc Disk (res unit) :=
  step (λ t d,
    let n := match tk_io t with None => slen b | Some _ => Z.max 0 (Z.min (tk_count t) (slen b)) end in
    (match tk_io t with Some e => Err e | None => Ok () end,
     set_temps (alter (λ f, mkStatefile (sf_kind f) (sf_data f +:+ stake n b) (sf_perm f)) tmp) d)).

Definition remove_temp (tmp : string) : proc Disk (res unit) := io_step (λ _, set_temps (delete tmp)).

(** A step, and the clean-up when it fails. *)
Definition or_cleanup (tmp : string) (m : proc Disk (res unit)) (k : proc Disk (res unit))
    : proc Disk (res unit) :=
  r ← m;
  match r with
  | Ok _ => k
  | Err e => _ ← remove_temp tmp; mret (Err e)
  end.

Section state.
Context {sc : StateCodec}.

Definition saveState (s : agentState) : proc Disk (res unit) :=
  match validateAgentState s with
  | Err e => mret (Err ("refusing to save invalid state: " +:+ e))
  | Ok _ =>
    made ← io_step (λ _ d, d);
    match made with
    | Err e => mret (Err e)
    | Ok _ =>
      let b := marshal_state s +:+ String (ascii_of_N 10) "" in
      tmp ← step (λ t d,
        match tk_io t with
        | Some e => (Err e, d)
        | None => (Ok (tk_random t), set_temps (<[tk_random t := mkStatefile KRegular "" 384]>) d)
        end);
      match tmp with
      | Err e => mret (Err e)
      | Ok tmp =>
        or_cleanup tmp (io_step (λ _, set_temps (alter (λ f, mkStatefile (sf_kind f) (sf_data f) 384) tmp)))
          (or_cleanup tmp (write_temp tmp b)
             (or_cleanup tmp (io_step (λ _ d, d))
                (or_cleanup tmp (io_step (λ _ d, d))
                   (or_cleanup tmp
                      (io_step (λ _ d, mkDisk (dk_temps d !! tmp) (delete tmp (dk_temps d))))
                      (_ ← io_step (λ _ d, d); mret (Ok ()))))))
      end
    end
  end.

(** What the opened file holds, or the reason it is refused. *)
Definition read_state (f : statefile) (io : option string) : res agentState :=
  if negb (bool_decide (sf_kind f = KRegular))
  then Err "state must be a regular file, not a symlink or special file"
  else if maxStateFileBytes <? slen (sf_data f) then Err "state exceeds 65536 bytes"
  else
    match io with
    | Some e => Err e
    | None => unmarshal_state (sf_data f)
    end.

(** Opening without following links: a link is refused, a missing file is not an
    error. *)
Definition open_state : proc Disk (res (option statefile)) :=
  step (λ t d,
    (match tk_io t, dk_state d with
     | Some e, _ => Err e
     | None, None => Ok None
     | None, Some f => if bool_decide (sf_kind f = KSymlink)
                       then Err "too many levels of symbolic links" else Ok (Some f)
     end, d)).

Definition loadOrCreateState : proc Disk (res agentState) :=
  opened ← open_state;
  match opened with
  | Err e => mret (Err ("open state without following symlinks: " +:+ e))
  | Ok opened =>
    decoded ← match opened with
              | None => mret (Ok noState)
              | Some f =>
                r ← step (λ t d, (read_state f (tk_io t), d));
                match r with
                | Err e => mret (Err e)
                | Ok s =>
                  c ← io_step (λ _ d, mkDisk ((λ f, mkStatefile (sf_kind f) (sf_data f) 384)
                                                <$> dk_state d) (dk_temps d));
                  mret (match c with Err e => Err e | Ok _ => Ok s end)
                end
              end;
    match decoded with
    | Err e => mret (Err e)
    | Ok s =>
      match validateAgentState s with
      | Err e => mret (Err e)
      | Ok _ =>
        if negb (String.eqb (st_DeviceID s) "") then mret (Ok s)
        else
          id ← randomHex;
          match id with
          | Err e => mret (Err e)
          | Ok id =>
            let s := mkAgentState id (st_DeviceToken s) (st_PendingEnrollment s) in
            r ← saveState s;
            mret (match r with Err e => Err e | Ok _ => Ok s end)
          end
      end
    end
  end.

(** *** Starting up ([main], from the state on): the state the Agent runs with
    and the enrollment token it keeps. *)
Definition startState (enrollToken : string) : proc Disk (res (agentState * string)) :=
  l ← loadOrCreateState;
  match l with
  | Err e => mret (Err e)
  | Ok s =>
    let bad := "enroll_token must be exactly 48 lowercase hexadecimal characters until this device has enrolled successfully" in
    s ← (if negb (String.eqb (st_DeviceToken s) "") then mret (Ok s)
         else if negb (ValidEnrollmentToken enrollToken) then mret (Err bad)
         else
           tok ← randomHex;
           match tok with
           | Err e => mret (Err e)
           | Ok tok =>
             let s := mkAgentState (st_DeviceID s) tok true in
             r ← saveState s;
             mret (match r with
                   | Err e => Err ("save pending device identity: " +:+ e)
                   | Ok _ => Ok s
                   end)
           end);
    match s with
    | Err e => mret (Err e)
    | Ok s =>
      if st_PendingEnrollment s && negb (ValidEnrollmentToken enrollToken) then mret (Err bad)
      else mret (Ok (s, if st_PendingEnrollment s then enrollToken else ""))
    end
  end.
End state.

(** ** Lemmas *)

Section lemmas.
Context {sc : StateCodec}.

(** The file [saveState] puts in place. *)
Definition saved_file (s : agentState) : statefile :=
  mkStatefile KRegular (marshal_state s +:+ String (ascii_of_N 10) "") 384.

Section atomic.
Context (old : option statefile) (s : agentState).

(** Wherever it is interrupted, the old file or the whole new one is there. *)
Definition old_or_new (d : Disk) : Prop := dk_state d = old ∨ dk_state d = Some (saved_file s).

Definition is_old (d : Disk) : Prop := dk_state d = old.

Definition saved (r : res unit) (d : Disk) : Prop :=
  match r with Ok _ => dk_state d = Some (saved_file s) | Err _ => is_old d end.

(** The temporary file's text so far. *)
Definition temp_holds (tmp text : string) (d : Disk) : Prop :=
  is_old d ∧ dk_temps d !! tmp = Some (mkStatefile KRegular text 384).

Lemma crash_or_cleanup P P' tmp m k :
  (∀ d, P d → is_old d) →
  crash old_or_new P m (λ r d, match r with Ok _ => P' d | Err _ => is_old d end) →
  crash old_or_new P' k saved → crash old_or_new P (or_cleanup tmp m k) saved.
Proof.
  intros HP Hm Hk. eapply crash_bind; [exact Hm|]. intros [u|e]; [exact Hk|].
  eapply (crash_bind _ _ _ _ (λ _, is_old)).
  - apply crash_step; [by left|]. intros t d Hd. by destruct (tk_io t).
  - intros r. by apply crash_ret.
Qed.

Lemma temp_old tmp text d : temp_holds tmp text d → old_or_new d.
Proof. intros [H _]. by left. Qed.

Lemma crash_saveState : crash old_or_new is_old (saveState s) saved.
Proof.
  unfold saveState. destruct (validateAgentState s); [|by apply crash_ret].
  eapply (crash_bind _ _ _ _ (λ _, is_old)).
  { apply crash_step; [by left|]. intros t d Hd. by destruct (tk_io t). }
  intros [u|e]; [|by apply crash_ret].
  eapply (crash_bind _ _ _ _ (λ r d, match r with Ok tmp => temp_holds tmp "" d | Err _ => is_old d end)).
  { apply crash_step; [by left|]. intros t d Hd. destruct (tk_io t); [done|]. split; [done|].
    apply lookup_insert_eq. }
  intros [tmp|e]; [|by apply crash_ret].
  apply (crash_or_cleanup _ (temp_holds tmp "")); [by intros d []| |].
  { apply crash_step; [apply temp_old|]. intros t d [Hd Ht]. destruct (tk_io t); [done|].
    split; [done|]. simpl. by rewrite lookup_alter_eq, Ht. }
  apply (crash_or_cleanup _ (temp_holds tmp (sf_data (saved_file s)))); [by intros d []| |].
  { apply crash_step; [apply temp_old|]. intros t d [Hd Ht]. destruct (tk_io t); [done|].
    split; [done|]. simpl. rewrite lookup_alter_eq, Ht. simpl. by rewrite stake_all. }
  do 2 (apply (crash_or_cleanup _ (temp_holds tmp (sf_data (saved_file s)))); [by intros d []| |];
        [apply crash_step; [apply temp_old|]; intros t d Hd; destruct (tk_io t); [by destruct Hd|done]|]).
  apply (crash_or_cleanup _ (λ d, dk_state d = Some (saved_file s))); [by intros d []| |].
  { apply crash_step; [apply temp_old|]. intros t d [Hd Ht]. destruct (tk_io t); [done|].
    exact Ht. }
  eapply (crash_bind _ _ _ _ (λ _ d, dk_state d = Some (saved_file s))).
  { apply crash_step; [by right|]. intros t d Hd. by destruct (tk_io t). }
  intros r. by apply crash_ret.
Qed.
End atomic.

(** Reading back what was saved. *)
Lemma loadOrCreateState_saved s d :
  dk_state d = Some (saved_file s) → validateAgentState s = Ok () → st_DeviceID s ≠ "" →
  slen (sf_data (saved_file s)) <= maxStateFileBytes →
  fst (run_handler loadOrCreateState d []) = Ok s.
Proof.
  intros Hd Hv Hid Hlen. unfold loadOrCreateState, run_handler, open_state, io_step.
  rewrite bind_run, step_idle. cbn [fst snd]. rewrite Hd, bool_decide_eq_false_2 by done.
  cbn [tk_io idle_tick].
  rewrite !bind_run, !step_idle. cbn [fst snd tk_io idle_tick].
  unfold read_state. rewrite bool_decide_eq_true_2 by done. cbn [negb].
  rewrite (proj2 (Z.ltb_ge _ _)) by done. unfold saved_file. cbn [sf_data]. rewrite state_roundtrip.
  rewrite bind_run, step_idle. cbn [fst snd tk_io idle_tick].
  unfold mret, proc_ret. cbn [fst snd]. rewrite Hv.
  by rewrite (proj2 (String.eqb_neq _ _) Hid).
Qed.
End lemmas.

(** ** Properties *)


(** *** A concrete save *)

(** Fields in base64, separated by dollar signs. *)
Definition demo_marshal (s : agentState) : string :=
  RawStdEncode (st_DeviceID s) +:+ String "$" (RawStdEncode (st_DeviceToken s) +:+
    String "$" (if st_PendingEnrollment s then "1" else "0")).

Definition demo_unmarshal (b : string) : res agentState :=
  match Split b "$" with
  | [id; tok; pending] =>
    match RawStdDecode id, RawStdDecode tok with
    | Some id, Some tok => Ok (mkAgentState id tok (HasPrefix pending "1"))
    | _, _ => Err "base64"
    end
  | _ => Err "fields"
  end.

Lemma demo_roundtrip s : demo_unmarshal (demo_marshal s +:+ String (ascii_of_N 10) "") = Ok s.
Proof.
  destruct s as [id tok pending]. unfold demo_marshal, demo_unmarshal. cbn [st_DeviceID st_DeviceToken st_PendingEnrollment].
  do 2 (rewrite sapp_assoc, sapp_cons, Split_app by by apply smem_RawStdEncode).
  rewrite !RawStd_roundtrip. by destruct pending.
Qed.

#[export] Instance demo_state_codec : StateCodec :=
  {| marshal_state := demo_marshal; unmarshal_state := demo_unmarshal; state_roundtrip := demo_roundtrip |}.

