(* ===== verification/Agent.v ===== *)
(** * The Agent process ([cmd/agent/main.go])

    Its state, the concurrency slots, remote commands, terminals, the handshake
    and the reconnection delay.  Handlers are sequences of atomic steps, as on the
    Server: the read loop, the goroutines it starts and the terminals' readers
    interleave. *)

From S2P Require Export Fs.
From S2P Require Export AgentConfig.
From S2P Require Export AgentState.
From S2P Require Export Output.

(** ** Data *)

Definition maxConcurrentActions : Z := 1.
Definition maxConcurrentExec : Z := 4.
Definition maxConcurrentTerminals : Z := 4.
Definition maxConcurrentFileOps : Z := 8.
Definition maxConcurrentFileDownloads : Z := 4.
Definition termInputQueueDepth : Z := 16.
Definition maxTermInputBytes : Z := Z.shiftl 64 10.

(** [ts_written]: what was written to the terminal's process. *)
Record termSession : Type := mkTermSession {
  ts_input : list string;
  ts_done : bool;
  ts_cols : Z;
  ts_rows : Z;
  ts_written : string
}.

(** [up_file]: the inode of the temporary file; [up_closed]: its descriptor. *)
Record uploadSession : Type := mkUpload {
  up_file : Z;
  up_closed : bool;
  up_tmpRel : string;
  up_target : string;
  up_mode : Z;
  up_expected : Z;
  up_written : Z;
  up_creditMode : bool;
  up_cap : Z;
  up_events : list Message;
  up_stop : bool
}.

(** [dl_credits]: [None] without flow control. *)
Record downloadSession : Type := mkDownload {
  dl_cancelled : bool;
  dl_credits : option Z
}.

(** The five slot channels. *)
Inductive slot : Type := SAction | SExec | STerm | SFileOp | SDownload.

#[export] Instance slot_eq_dec : EqDecision slot.
Proof. solve_decision. Defined.

Definition slot_cap (k : slot) : Z :=
  match k with
  | SAction => maxConcurrentActions
  | SExec => maxConcurrentExec
  | STerm => maxConcurrentTerminals
  | SFileOp => maxConcurrentFileOps
  | SDownload => maxConcurrentFileDownloads
  end.

(** Sessions shared through pointers live in heaps keyed by serials.
    [sa_out]: the messages written to the connection. *)
Record agent : Type := mkAgentProc {
  sa_fs : filesys;
  sa_out : list Message;
  sa_slots : slot → Z;
  sa_terms : gmap string Z;
  sa_uploads : gmap string Z;
  sa_downloads : gmap string Z;
  sa_termobjs : gmap Z termSession;
  sa_upobjs : gmap Z uploadSession;
  sa_dlobjs : gmap Z downloadSession;
  sa_next : Z
}.

Definition new_agent (fs : filesys) : agent := mkAgentProc fs [] (λ _, 0) ∅ ∅ ∅ ∅ ∅ ∅ 0.

Definition on_fs f a := mkAgentProc (f (sa_fs a)) (sa_out a) (sa_slots a) (sa_terms a) (sa_uploads a)
  (sa_downloads a) (sa_termobjs a) (sa_upobjs a) (sa_dlobjs a) (sa_next a).
Definition on_out f a := mkAgentProc (sa_fs a) (f (sa_out a)) (sa_slots a) (sa_terms a) (sa_uploads a)
  (sa_downloads a) (sa_termobjs a) (sa_upobjs a) (sa_dlobjs a) (sa_next a).
Definition on_slots f a := mkAgentProc (sa_fs a) (sa_out a) (f (sa_slots a)) (sa_terms a) (sa_uploads a)
  (sa_downloads a) (sa_termobjs a) (sa_upobjs a) (sa_dlobjs a) (sa_next a).
Definition on_terms f a := mkAgentProc (sa_fs a) (sa_out a) (sa_slots a) (f (sa_terms a)) (sa_uploads a)
  (sa_downloads a) (sa_termobjs a) (sa_upobjs a) (sa_dlobjs a) (sa_next a).
Definition on_uploads f a := mkAgentProc (sa_fs a) (sa_out a) (sa_slots a) (sa_terms a) (f (sa_uploads a))
  (sa_downloads a) (sa_termobjs a) (sa_upobjs a) (sa_dlobjs a) (sa_next a).
Definition on_downloads f a := mkAgentProc (sa_fs a) (sa_out a) (sa_slots a) (sa_terms a) (sa_uploads a)
  (f (sa_downloads a)) (sa_termobjs a) (sa_upobjs a) (sa_dlobjs a) (sa_next a).
Definition on_termobjs f a := mkAgentProc (sa_fs a) (sa_out a) (sa_slots a) (sa_terms a) (sa_uploads a)
  (sa_downloads a) (f (sa_termobjs a)) (sa_upobjs a) (sa_dlobjs a) (sa_next a).
Definition on_upobjs f a := mkAgentProc (sa_fs a) (sa_out a) (sa_slots a) (sa_terms a) (sa_uploads a)
  (sa_downloads a) (sa_termobjs a) (f (sa_upobjs a)) (sa_dlobjs a) (sa_next a).
Definition on_dlobjs f a := mkAgentProc (sa_fs a) (sa_out a) (sa_slots a) (sa_terms a) (sa_uploads a)
  (sa_downloads a) (sa_termobjs a) (sa_upobjs a) (f (sa_dlobjs a)) (sa_next a).
Definition bump_next a := mkAgentProc (sa_fs a) (sa_out a) (sa_slots a) (sa_terms a) (sa_uploads a)
  (sa_downloads a) (sa_termobjs a) (sa_upobjs a) (sa_dlobjs a) (sa_next a + 1).

Notation aproc := (proc agent).

(** A step that only reads. *)
Definition look {A} (f : agent → A) : aproc A := step (λ _ a, (f a, a)).

(** A step that only changes the state. *)
Definition change (f : agent → agent) : aproc unit := step (λ _ a, ((), f a)).

Definition send (m : Message) : aproc (res unit) :=
  step (λ t a, if tk_send_fails t then (Err "write failed", a) else (Ok (), on_out (λ l, l ++ [m]) a)).

(** ** Slots *)

Definition set_slot (k : slot) (n : Z) (f : slot → Z) : slot → Z := λ j, if decide (j = k) then n else f j.

Definition acquireSlot (k : slot) : aproc bool :=
  step (λ _ a, if sa_slots a k <? slot_cap k
               then (true, on_slots (set_slot k (sa_slots a k + 1)) a) else (false, a)).

Definition release_slot (k : slot) (a : agent) : agent := on_slots (set_slot k (sa_slots a k - 1)) a.

Definition releaseSlot (k : slot) : aproc unit := change (release_slot k).

(** [start...]: the handler in a goroutine that owns a slot, or a refusal. *)
Definition with_slot (k : slot) (refusal : Message) (body : aproc unit) : aproc unit :=
  ok ← acquireSlot k;
  if ok : bool then _ ← body; releaseSlot k else _ ← send refusal; mret ().

(** ** Remote commands *)

(** How a command ended: its writes, whether the deadline passed, and the error
    with the exit code when the process exited. *)
Record exec_outcome : Type := mkOutcome {
  eo_output : list (list ascii);
  eo_timeout : bool;
  eo_error : option (string * option Z)
}.

Definition result_msg (id data err : string) (code : Z) : Message :=
  mkMessage "command_result" "" "" "" "" "" [] id "" "" "" "" "" data err code 0 0 0 0 0 [] None [].

(** [run] stands for the operating system's processes. *)
Definition handleExec (cfg : agentConfig) (run : string → list string → exec_outcome) (m : Message)
    : aproc unit :=
  if negb (c_ExecEnabled cfg)
  then _ ← send (result_msg (m_RequestID m) "" "exec disabled by agent config" 0); mret ()
  else
    let o := run (c_Shell cfg) ["-lc"; m_Command m] in
    let out := output_String (write_all (newCappedOutput (c_MaxCommandOutputBytes cfg)) (eo_output o)) in
    let (err, code) :=
      if eo_timeout o then ("command timeout", -1)
      else match eo_error o with
           | Some (e, code) => (e, default (-1) code)
           | None => ("", 0)
           end in
    _ ← send (result_msg (m_RequestID m) out err code); mret ().

Definition startExec (cfg : agentConfig) (run : string → list string → exec_outcome) (m : Message) : aproc unit :=
  with_slot SExec (result_msg (m_RequestID m) "" "too many concurrent commands" 0) (handleExec cfg run m).

(** [lookPath]: [exec.LookPath]. *)
Definition actionCommandCandidates (lookPath : string → option string) (action : string) : list (list string) :=
  let command := if String.eqb action "poweroff" then "poweroff" else "reboot" in
  match lookPath "systemctl" with Some p => [[p; command]] | None => [] end ++
  match lookPath command with Some p => [[p]] | None => [] end.

(** The commands tried, one after the other until one succeeds. *)
Fixpoint tried (ok : list string → bool) (commands : list (list string)) : list (list string) :=
  match commands with
  | [] => []
  | c :: rest => c :: (if ok c then [] else tried ok rest)
  end.

(** The result is the commands run. *)
Definition handleAction (lookPath : string → option string) (ok : list string → bool) (m : Message)
    : aproc (list (list string)) :=
  if negb (String.eqb (m_Action m) "reboot") && negb (String.eqb (m_Action m) "poweroff")
  then _ ← send (result_msg (m_RequestID m) "" "unsupported action" 0); mret []
  else
    match actionCommandCandidates lookPath (m_Action m) with
    | [] => _ ← send (result_msg (m_RequestID m) "" "no supported system action command found" 0); mret []
    | commands =>
      _ ← send (result_msg (m_RequestID m) "accepted" "" 0);
      mret (tried ok commands)
    end.

Definition startAction (lookPath : string → option string) (ok : list string → bool) (m : Message) : aproc unit :=
  with_slot SAction (result_msg (m_RequestID m) "" "another system action is already in progress" 0)
    (_ ← handleAction lookPath ok m; mret ()).

(** ** Terminals *)

Definition upd_termobj (i : Z) (f : termSession → termSession) : agent → agent := on_termobjs (alter f i).

(** [termSession.stop], once: the process is killed and the slot released. *)
Definition stop_term (i : Z) (a : agent) : agent :=
  match sa_termobjs a !! i with
  | Some t =>
    if ts_done t then a
    else release_slot STerm
           (upd_termobj i (λ t, mkTermSession (ts_input t) true (ts_cols t) (ts_rows t) (ts_written t)) a)
  | None => a
  end.

Definition enqueueInput (data : string) (t : termSession) : termSession * bool :=
  if ts_done t then (t, false)
  else if Z.of_nat (length (ts_input t)) <? termInputQueueDepth
  then (mkTermSession (ts_input t ++ [data]) false (ts_cols t) (ts_rows t) (ts_written t), true)
  else (t, false).

(** One turn of [writeInput]; a failed write stops the terminal. *)
Definition writeInput_turn (i : Z) : aproc unit :=
  step (λ t a,
    match sa_termobjs a !! i with
    | None => ((), a)
    | Some s =>
      if ts_done s then ((), a)
      else
        match ts_input s with
        | [] => ((), a)
        | data :: rest =>
          let a := upd_termobj i (λ s, mkTermSession rest (ts_done s) (ts_cols s) (ts_rows s)
                      (match tk_io t with None => ts_written s +:+ data | Some _ => ts_written s end)) a in
          ((), match tk_io t with None => a | Some _ => stop_term i a end)
        end
    end).

Definition claimResize (cols rows : Z) (t : termSession) : termSession * bool :=
  if (cols <? 8) || (1000 <? cols) || (rows <? 8) || (1000 <? rows) then (t, false)
  else if (ts_cols t =? cols) && (ts_rows t =? rows) then (t, false)
  else (mkTermSession (ts_input t) (ts_done t) cols rows (ts_written t), true).

(** Take the entry [id] out of a map if it is still the serial [i]. *)
Definition disown (id : string) (i : Z) (m : gmap string Z) : bool * gmap string Z :=
  if bool_decide (m !! id = Some i) then (true, delete id m) else (false, m).

Definition disown_term (id : string) (i : Z) : aproc bool :=
  step (λ _ a, let (owned, m) := disown id i (sa_terms a) in (owned, on_terms (λ _, m) a)).

Definition finishTerm (id : string) (i : Z) : aproc bool :=
  owned ← disown_term id i;
  _ ← change (stop_term i);
  mret owned.

Fixpoint send_output (sid : string) (chunks : list string) : aproc unit :=
  match chunks with
  | [] => mret ()
  | c :: rest => _ ← send (session_msg "term_data" sid (StdEncode c) "" 0 0); send_output sid rest
  end.

(** What a started shell does: its output, and the error its reader ends with
    ([""] for the end of the file and a closed terminal). *)
Record shell_run : Type := mkShell { sh_output : list string; sh_error : string }.

(** [openTerm], in a goroutine that owns a slot. *)
Definition openTerm (cfg : agentConfig) (shell : shell_run) (m : Message) : aproc unit :=
  let exit err := session_msg "term_exit" (m_SessionID m) "" err 0 0 in
  if negb (c_TerminalEnabled cfg)
  then _ ← send (exit "terminal disabled by agent config"); releaseSlot STerm
  else
    let cols := if m_Cols m =? 0 then 100 else m_Cols m in
    let rows := if m_Rows m =? 0 then 30 else m_Rows m in
    started ← step (λ t a, (match tk_io t with Some e => Err e | None => Ok () end, a));
    match started : res unit with
    | Err e => _ ← send (exit e); releaseSlot STerm
    | Ok _ =>
      x ← step (λ _ a,
        let i := sa_next a in
        ((i, sa_terms a !! m_SessionID m),
         bump_next (on_termobjs (<[i := mkTermSession [] false cols rows ""]>)
                      (on_terms (<[m_SessionID m := i]>) a))));
      let (i, old) := x : Z * option Z in
      _ ← match old with Some o => change (stop_term o) | None => mret () end;
      _ ← send_output (m_SessionID m) (sh_output shell);
      owned ← finishTerm (m_SessionID m) i;
      if owned : bool then _ ← send (exit (sh_error shell)); mret () else mret ()
    end.

Definition startTerm (cfg : agentConfig) (shell : shell_run) (m : Message) : aproc unit :=
  ok ← acquireSlot STerm;
  if ok : bool then openTerm cfg shell m
  else _ ← send (session_msg "term_exit" (m_SessionID m) "" "too many concurrent terminals" 0 0); mret ().

Definition termInput (m : Message) : aproc unit :=
  match StdDecode (m_Data m) with
  | None => mret ()
  | Some b =>
    if slen b =? 0 then mret ()
    else
      t ← look (λ a, sa_terms a !! m_SessionID m);
      match t : option Z with
      | None => mret ()
      | Some i =>
        queued ← (if slen b <=? maxTermInputBytes
                  then step (λ _ a,
                    match sa_termobjs a !! i with
                    | Some s => let (s', ok) := enqueueInput b s in (ok, upd_termobj i (λ _, s') a)
                    | None => (false, a)
                    end)
                  else mret false);
        if queued : bool then mret ()
        else
          owned ← disown_term (m_SessionID m) i;
          if owned : bool
          then _ ← change (stop_term i);
               _ ← send (session_msg "term_exit" (m_SessionID m) ""
                           "terminal input exceeded its bounded queue" 0 0); mret ()
          else mret ()
      end
  end.

Definition termResize (m : Message) : aproc bool :=
  t ← look (λ a, sa_terms a !! m_SessionID m);
  match t : option Z with
  | None => mret false
  | Some i =>
    step (λ _ a,
      match sa_termobjs a !! i with
      | Some s => let (s', ok) := claimResize (m_Cols m) (m_Rows m) s in (ok, upd_termobj i (λ _, s') a)
      | None => (false, a)
      end)
  end.

Definition termClose (id : string) : aproc unit :=
  t ← step (λ _ a, (sa_terms a !! id, on_terms (delete id) a));
  match t : option Z with Some i => change (stop_term i) | None => mret () end.

Fixpoint stop_terms (l : list Z) : aproc unit :=
  match l with
  | [] => mret ()
  | i :: rest => _ ← change (stop_term i); stop_terms rest
  end.

Definition closeTerms : aproc unit :=
  l ← step (λ _ a, ((map_to_list (sa_terms a)).*2, on_terms (λ _, ∅) a));
  stop_terms l.

(** ** The connection *)

Definition hello_msg (id name token enrollment : string) : Message :=
  mkMessage "hello" id name token enrollment ""
    [CapabilityFileDownloadCredits; CapabilityFileUploadCredits; CapabilityMetricPolicy]
    "" "" "" "" "" "" "" "" 0 0 0 0 0 0 [] None [].

(** The hello [run] sends. *)
Definition run_hello (cfg : agentConfig) (s : agentState) : Message :=
  hello_msg (st_DeviceID s) (c_Name cfg) (st_DeviceToken s)
    (if st_PendingEnrollment s then c_EnrollToken cfg else "").

(** [run] on the acknowledgement: the state to save, if any.  [policy] is the
    outcome of [setMetricCards]. *)
Definition accept_ack (policy : bool) (s : agentState) (ack : Message) : res (option agentState) :=
  if negb (String.eqb (m_Type ack) "hello_ack") then Err "unexpected handshake response"
  else if negb policy then Err "server returned an invalid metric policy"
  else if negb (String.eqb (m_DeviceToken ack) "") && negb (ValidDeviceToken (m_DeviceToken ack))
  then Err "server returned an invalid device token"
  else if st_PendingEnrollment s || negb (String.eqb (m_DeviceToken ack) "")
  then Ok (Some (mkAgentState (st_DeviceID s)
             (if String.eqb (m_DeviceToken ack) "" then st_DeviceToken s else m_DeviceToken ack) false))
  else Ok None.

(** ** Reconnection *)

(** [offset] and [less] are the two random draws: [offset] from [0..spread]. *)
Definition jitteredReconnectDelay (offset : Z) (less : bool) (base maximum : Z) : Z :=
  if (base <=? 0) || (maximum <=? 0) then base
  else
    let spread := Z.quot base 5 in
    if spread <=? 0 then Z.min base maximum
    else if less then base - offset
    else if maximum - offset <? base then maximum
    else base + offset.

(** One turn of [main]'s loop after a connection that lasted [connectedFor]: the
    delay slept and the next backoff. *)
Definition reconnect_turn (cfg : agentConfig) (backoff connectedFor offset : Z) (less : bool) : Z * Z :=
  let d := c_dur cfg in
  let backoff := if Minute <=? connectedFor then c_reconnectMinDur d else backoff in
  (jitteredReconnectDelay offset less backoff (c_reconnectMaxDur d),
   if c_reconnectMaxDur d - backoff <? backoff then c_reconnectMaxDur d else backoff + backoff).
