(* ===== verification/AgentFiles.v ===== *)
(** * The Agent's file browser ([cmd/agent/files.go])

    Paths, directory operations, downloads and uploads, with or without flow
    control by credits.  One handler call of the read loop, one goroutine and one
    turn of an upload's worker is a sequence of atomic steps each. *)

From S2P Require Export Agent.

(** ** Data *)

Definition maxFileDownloadCredits : Z := 8.
Definition maxFileUploadCredits : Z := 4.
Definition maxConcurrentFileUploads : Z := 4.

(** ** Paths *)

(** The text is cleaned as an absolute path. *)
Definition virtualPath (p : string) : string :=
  let p := Clean ("/" +:+ TrimPrefix (TrimSpace p) "/") in
  if String.eqb p "." || String.eqb p "" then "/" else p.

Definition rootRelativePath (p : string) : res string :=
  if str_mem ".." (Split (TrimSpace p) "/") then Err "invalid file path"
  else
    let rel := TrimPrefix (virtualPath p) "/" in
    if String.eqb rel "" then Ok "."
    else match Localize rel with Ok local => Ok local | Err _ => Err "invalid file path" end.

(** ** Answers *)

Definition file_result (id err : string) : Message := error_msg "file_result" id err.
Definition file_end (id err : string) : Message := error_msg "file_end" id err.
Definition upload_ready (id err : string) : Message := error_msg "file_upload_ready" id err.
Definition upload_result (id err : string) : Message := error_msg "file_upload_result" id err.

Definition error_of (r : res unit) : string := match r with Ok _ => "" | Err e => e end.

Definition sendFileResult (id : string) (r : res unit) : aproc unit :=
  _ ← send (file_result id (error_of r)); mret ().
Definition sendFileEnd (id err : string) : aproc unit := _ ← send (file_end id err); mret ().

(** An operation on the files: it fails with the system's error, or by itself. *)
Definition fs_step {A} (f : ptick agent → filesys → res (A * filesys)) : aproc (res A) :=
  step (λ t a, match f t (sa_fs a) with
               | Ok (x, fs) => (Ok x, on_fs (λ _, fs) a)
               | Err e => (Err e, a)
               end).

Definition fs_read {A} (f : ptick agent → filesys → res A) : aproc (res A) :=
  fs_step (λ t fs, try x := f t fs in Ok (x, fs)).

Definition fs_write (f : ptick agent → filesys → res filesys) : aproc (res unit) :=
  fs_step (λ t fs, try fs' := f t fs in Ok ((), fs')).

(** Steps that stop at the first error. *)
Definition and_then {A B} (m : aproc (res A)) (k : A → aproc (res B)) : aproc (res B) :=
  r ← m; match r with Ok x => k x | Err e => mret (Err e) end.

(** [os.OpenRoot] *)
Definition openFileRoot : aproc (res unit) := fs_read (λ t _, sys_error (tk_io t) (Ok ())).

Section files.
Context (cfg : agentConfig) {rn : Renameat2} (toLower : string → string).

Definition if_enabled (m : Message) (k : aproc unit) : aproc unit :=
  if c_FileBrowserEnabled cfg then k
  else _ ← send (file_result (m_RequestID m) "file browser disabled by agent config"); mret ().

(** ** Directories *)

Definition entry_of (base : string) (e : string * inode) : FileEntry :=
  let (name, n) := e in
  mkFileEntry name (if String.eqb base "/" then "/" +:+ name else JoinPath base name)
    (slen (in_data n)) (in_perm n) (in_mtime n)
    (bool_decide (in_kind n = KDirectory)) (bool_decide (in_kind n = KSymlink)).

(** Directories first, then by name without regard to case. *)
Definition entry_le (a b : FileEntry) : Prop :=
  if Bool.eqb (fe_IsDir a) (fe_IsDir b)
  then String.leb (toLower (fe_Name a)) (toLower (fe_Name b)) = true
  else fe_IsDir a = true.

#[export] Instance entry_le_dec a b : Decision (entry_le a b).
Proof. unfold entry_le. destruct (Bool.eqb _ _); apply _. Defined.

(** Entries whose metadata cannot be read are left out. *)
Definition readable (faults : list bool) (l : list (string * inode)) : list (string * inode) :=
  omap (λ x : (string * inode) * nat, if nth x.2 faults false then None else Some x.1)
    (zip l (seq 0 (length l))).

Definition list_entries (base rel : string) (io : option string) (faults : list bool) (fs : filesys)
    : res (list FileEntry) :=
  sys_error io (
    try p := resolve fs false rel in
    match node fs p with
    | Some (_, n) =>
      if bool_decide (in_kind n = KDirectory)
      then Ok (merge_sort entry_le (entry_of base <$> readable faults (dir_entries p fs)))
      else Err "not a directory"
    | None => Err "no such file or directory"
    end).

Definition handleFileList (m : Message) : aproc unit :=
  if_enabled m (
    r ← and_then openFileRoot (λ _,
        and_then (mret (rootRelativePath (m_Path m))) (λ rel,
        fs_read (λ t, list_entries (virtualPath (m_Path m)) rel (tk_io t) (tk_faults t))));
    match r with
    | Err e => sendFileResult (m_RequestID m) (Err e)
    | Ok entries =>
      _ ← send (request_msg "file_list_result" (m_RequestID m) (virtualPath (m_Path m)) "" "" "" 0 0 0 entries);
      mret ()
    end).

Definition handleFileMkdir (m : Message) : aproc unit :=
  if_enabled m (
    r ← and_then openFileRoot (λ _,
        and_then (mret (rootRelativePath (m_Path m))) (λ rel,
        fs_write (λ t, os_mkdir (tk_io t) rel 493)));
    sendFileResult (m_RequestID m) r).

Definition handleFileDelete (m : Message) : aproc unit :=
  if_enabled m (
    if String.eqb (virtualPath (m_Path m)) "/"
    then sendFileResult (m_RequestID m) (Err "refusing to remove root")
    else
      r ← and_then openFileRoot (λ _,
          and_then (mret (rootRelativePath (m_Path m))) (λ rel,
          fs_write (λ t, os_remove (tk_io t) rel)));
      sendFileResult (m_RequestID m) r).

(** A directory opened for [Renameat2]: where it is. *)
Definition open_dir (io : option string) (rel : string) (fs : filesys) : res fpath :=
  sys_error io (
    try p := resolve fs false rel in
    match node fs p with Some _ => Ok p | None => Err "no such file or directory" end).

Definition no_replace_error (e : string) : string :=
  if String.eqb e "function not implemented" || String.eqb e "invalid argument"
     || String.eqb e "operation not supported"
  then "filesystem does not support atomic no-replace rename: " +:+ e else e.

Definition renameNoReplace (from to : string) : aproc (res unit) :=
  if String.eqb from "." || String.eqb to "." then mret (Err "root cannot be renamed")
  else
    and_then (fs_read (λ t, open_dir (tk_io t) (Dir from))) (λ fromDir,
    and_then (fs_read (λ t, open_dir (tk_io t) (Dir to))) (λ toDir,
    r ← fs_write (λ t fs, sys_error (tk_io t) (renameat2 (fromDir ++ [Base from]) (toDir ++ [Base to]) fs));
    mret (match r with Ok _ => Ok () | Err e => Err (no_replace_error e) end))).

Definition handleFileRename (m : Message) : aproc unit :=
  if_enabled m (
    r ← and_then openFileRoot (λ _,
        and_then (mret (try from := rootRelativePath (m_Path m) in
                        if String.eqb from "." then Err "refusing to rename root" else Ok from)) (λ from,
        and_then (mret (try to := rootRelativePath (m_Target m) in
                        if String.eqb to "." then Err "refusing to replace root" else Ok to)) (λ to,
        renameNoReplace from to)));
    sendFileResult (m_RequestID m) r).

Definition startFileOp (operation : Message → aproc unit) (m : Message) : aproc unit :=
  with_slot SFileOp (file_result (m_RequestID m) "too many concurrent file operations") (operation m).

(** ** Downloads *)

Definition regular_size (io : option string) (rel : string) (fs : filesys) : res (Z * inode) :=
  try x := os_stat io rel fs in
  if bool_decide (in_kind (snd x) = KRegular) then Ok x else Err "not a regular file".

(** The inode, and its metadata when it was opened. *)
Definition openRegularFileForDownload (rel : string) : aproc (res (Z * inode)) :=
  and_then (fs_read (λ t, regular_size (tk_io t) rel)) (λ _,
  and_then (fs_read (λ t, os_open (tk_io t) rel)) (λ i,
  fs_read (λ t fs, sys_error (tk_io t)
    match fs_inodes fs !! i with
    | Some n => if bool_decide (in_kind n = KRegular) then Ok (i, n) else Err "not a regular file"
    | None => Err "not a regular file"
    end))).

(** The smaller of the two limits; 0 is no limit. *)
Definition download_limit (max size : Z) : Z :=
  if (0 <? size) && ((max =? 0) || (size <? max)) then size else max.

Inductive wait_end : Type := WGo | WStop | WBlocked.

(** The wait before a chunk: for a credit or the cancellation, or only a look at
    the cancellation. *)
Definition await_credit (w : slot_wait) (j : Z) (a : agent) : wait_end * agent :=
  match sa_dlobjs a !! j with
  | None => (WStop, a)
  | Some d =>
    match dl_credits d with
    | None => (if dl_cancelled d then WStop else WGo, a)
    | Some n =>
      if dl_cancelled d && (bool_decide (w = WaitCancelled) || (n <=? 0)) then (WStop, a)
      else if 0 <? n then (WGo, on_dlobjs (<[j := mkDownload (dl_cancelled d) (Some (n - 1))]>) a)
      else (WBlocked, a)
    end
  end.

Inductive download_end : Type :=
| DEnd (err : string)     (** [file_end] was sent *)
| DAbandoned              (** cancelled, or the connection failed *)
| DBlocked                (** still waiting for a credit *)
| DFuel.

(** After a read of [n] bytes that left [remaining] to go: the error the transfer
    ends with ([""] for none), or [None] to go on. *)
Definition after_read (n remaining : Z) (err : option string) : option string :=
  match err with
  | Some e => if String.eqb e "EOF" then Some (if 0 <? remaining then "unexpected EOF" else "")
              else Some e
  | None => if n =? 0 then Some "multiple Read calls return no data or error" else None
  end.

Definition chunk_msg (id text : string) : Message :=
  request_msg "file_chunk" id "" "" (StdEncode text) "" 0 0 0 [].

Definition meta_msg (id : string) (size mode : Z) : Message :=
  request_msg "file_meta" id "" "" "" "" size 0 mode [].

(** The loop: [off] bytes of inode [i] sent, [remaining] to go. *)
Fixpoint download_loop (fuel : nat) (id : string) (j i off remaining : Z) : aproc download_end :=
  if remaining <=? 0 then _ ← sendFileEnd id ""; mret (DEnd "")
  else
    match fuel with
    | O => mret DFuel
    | S fuel =>
      go ← step (λ t a, await_credit (tk_wait t) j a);
      match go with
      | WStop => mret DAbandoned
      | WBlocked => mret DBlocked
      | WGo =>
        x ← step (λ t a,
          (os_read (tk_io t) (tk_count t) (Z.min (c_FileTransferChunkBytes cfg) remaining) i off (sa_fs a), a));
        let (text, err) := x : string * option string in
        sent ← (if 0 <? slen text then send (chunk_msg id text) else mret (Ok ()));
        match sent with
        | Err _ => mret DAbandoned
        | Ok _ =>
          match after_read (slen text) (remaining - slen text) err with
          | Some e => _ ← sendFileEnd id e; mret (DEnd e)
          | None => download_loop fuel id j i (off + slen text) (remaining - slen text)
          end
        end
      end
    end.

Definition cancel_download (j : Z) : agent → agent :=
  on_dlobjs (alter (λ d, mkDownload true (dl_credits d)) j).

(** The download's object and the one it replaces. *)
Definition register_download (m : Message) : aproc (Z * option Z) :=
  step (λ _ a,
    let j := sa_next a in
    let credits := if 0 <? m_Credits m then Some (Z.min (m_Credits m) maxFileDownloadCredits) else None in
    ((j, sa_downloads a !! m_RequestID m),
     bump_next (on_dlobjs (<[j := mkDownload false credits]>) (on_downloads (<[m_RequestID m := j]>) a)))).

(** The deferred clean-up. *)
Definition drop_download (id : string) (j : Z) : aproc unit :=
  _ ← change (λ a, on_downloads (λ m, snd (disown id j m)) a);
  change (cancel_download j).

Definition handleFileDownload (m : Message) : aproc download_end :=
  let fail e := _ ← sendFileEnd (m_RequestID m) e; mret (DEnd e) in
  if negb (c_FileBrowserEnabled cfg) then fail "file browser disabled by agent config"
  else
    r ← and_then openFileRoot (λ _,
        and_then (mret (rootRelativePath (m_Path m))) openRegularFileForDownload);
    match r with
    | Err e => fail e
    | Ok (i, n) =>
      let limit := download_limit (c_MaxFileTransferBytes cfg) (m_Size m) in
      let size := slen (in_data n) in
      if (0 <? limit) && (limit <? size)
      then fail ("file exceeds configured maximum (" +:+ Itoa limit +:+ " bytes)")
      else
        x ← register_download m;
        let (j, old) := x : Z * option Z in
        _ ← match old with Some o => change (cancel_download o) | None => mret () end;
        sent ← send (meta_msg (m_RequestID m) size (in_perm n));
        r ← match sent with
            | Err _ => mret DAbandoned
            | Ok _ => download_loop (Z.to_nat size) (m_RequestID m) j i 0 size
            end;
        _ ← drop_download (m_RequestID m) j;
        mret r
    end.

Definition startFileDownload (m : Message) : aproc unit :=
  with_slot SDownload (file_end (m_RequestID m) "too many concurrent file downloads")
    (_ ← handleFileDownload m; mret ()).

Definition handleFileCancel (m : Message) : aproc unit :=
  d ← look (λ a, sa_downloads a !! m_RequestID m);
  match d : option Z with Some j => change (cancel_download j) | None => mret () end.

(** Credits beyond the channel's capacity are dropped. *)
Definition add_credits (n : Z) (d : downloadSession) : downloadSession :=
  match dl_credits d with
  | Some c => mkDownload (dl_cancelled d) (Some (Z.min maxFileDownloadCredits (c + Z.min n maxFileDownloadCredits)))
  | None => d
  end.

Definition handleFileCredit (m : Message) : aproc unit :=
  if m_Credits m <=? 0 then mret ()
  else
    d ← look (λ a, sa_downloads a !! m_RequestID m);
    match d : option Z with
    | Some j => change (on_dlobjs (alter (add_credits (m_Credits m)) j))
    | None => mret ()
    end.
End files.
