(* ===== verification/AgentUpload.v ===== *)
(** * Uploads to the Agent ([cmd/agent/files.go])

    An upload is written to a temporary file beside its target and renamed when
    it is complete.  With flow control the read loop only queues the messages and
    a worker goroutine writes them. *)

From S2P Require Export AgentFiles.

Definition upd_upload (i : Z) (f : uploadSession → uploadSession) : agent → agent := on_upobjs (alter f i).

Definition set_closed (u : uploadSession) : uploadSession :=
  mkUpload (up_file u) true (up_tmpRel u) (up_target u) (up_mode u) (up_expected u) (up_written u)
    (up_creditMode u) (up_cap u) (up_events u) (up_stop u).
Definition set_written n (u : uploadSession) : uploadSession :=
  mkUpload (up_file u) (up_closed u) (up_tmpRel u) (up_target u) (up_mode u) (up_expected u) n
    (up_creditMode u) (up_cap u) (up_events u) (up_stop u).
Definition set_events q (u : uploadSession) : uploadSession :=
  mkUpload (up_file u) (up_closed u) (up_tmpRel u) (up_target u) (up_mode u) (up_expected u) (up_written u)
    (up_creditMode u) (up_cap u) q (up_stop u).

(** [signalStop] does nothing without flow control. *)
Definition signalStop (u : uploadSession) : uploadSession :=
  if up_creditMode u
  then mkUpload (up_file u) (up_closed u) (up_tmpRel u) (up_target u) (up_mode u) (up_expected u)
         (up_written u) true (up_cap u) (up_events u) true
  else u.

Definition errClosed : string := "file already closed".

(** ** Starting *)

(** [os.FileMode(m).Perm()], 0644 when no permission is given. *)
Definition upload_mode (mode : Z) : Z := let p := Z.land mode 511 in if p =? 0 then 420 else p.

(** The new session, or a refusal when four others are open. *)
Definition register_upload (m : Message) (i : Z) (tmp target : string) (a : agent)
    : option (Z * option Z) * agent :=
  let old := sa_uploads a !! m_RequestID m in
  if bool_decide (old = None) && (maxConcurrentFileUploads <=? Z.of_nat (size (sa_uploads a)))
  then (None, a)
  else
    let j := sa_next a in
    let u := mkUpload i false tmp target (upload_mode (m_Mode m)) (m_Size m) 0 (0 <? m_Credits m)
               (Z.min (m_Credits m) maxFileUploadCredits) [] false in
    (Some (j, old), bump_next (on_upobjs (<[j := u]>) (on_uploads (<[m_RequestID m := j]>) a))).

Section upload.
Context (cfg : agentConfig) {rn : Renameat2}.

(** ** Ending *)

(** [cleanupUpload]: the temporary file is removed if it can be. *)
Definition cleanupUpload (j : Z) : aproc unit :=
  u ← look (λ a, sa_upobjs a !! j);
  _ ← change (upd_upload j set_closed);
  match u : option uploadSession with
  | Some u => _ ← fs_write (λ t, os_remove (tk_io t) (up_tmpRel u)); mret ()
  | None => mret ()
  end.

Definition stopUpload (j : Z) : aproc unit :=
  u ← look (λ a, sa_upobjs a !! j);
  match u : option uploadSession with
  | None => mret ()
  | Some u =>
    if up_creditMode u
    then _ ← change (upd_upload j signalStop); change (upd_upload j set_closed)
    else cleanupUpload j
  end.

Definition removeUpload (id : string) (j : Z) : aproc bool :=
  step (λ _ a, let (owned, m) := disown id j (sa_uploads a) in (owned, on_uploads (λ _, m) a)).

Definition abortUpload (id : string) : aproc unit :=
  u ← step (λ _ a, (sa_uploads a !! id, on_uploads (delete id) a));
  match u : option Z with Some j => stopUpload j | None => mret () end.

Definition handleFileUploadAbort (m : Message) : aproc unit := abortUpload (m_RequestID m).

(** ** Writing *)

(** The checks on a decoded chunk of [n] bytes. *)
Definition chunk_refused (u : uploadSession) (n : Z) : option string :=
  if Z.shiftl 512 10 <? n then Some "file upload chunk is too large"
  else if max_int64 - n <? up_written u then Some "file size overflow"
  else if (0 <? c_MaxFileTransferBytes cfg)
          && ((c_MaxFileTransferBytes cfg <? up_written u)
              || (c_MaxFileTransferBytes cfg - up_written u <? n))
  then Some "file exceeds configured maximum"
  else None.

(** [u.file.Write(b)] and the count of written bytes. *)
Definition write_chunk (t : ptick agent) (j : Z) (b : string) (a : agent) : res unit * agent :=
  match sa_upobjs a !! j with
  | None => (Err errClosed, a)
  | Some u =>
    if up_closed u then (Err errClosed, a)
    else
      let (r, fs) := os_write (tk_io t) (tk_count t) (up_file u) (up_written u) b (sa_fs a) in
      (match snd r with Some e => Err e | None => Ok () end,
       upd_upload j (set_written (up_written u + fst r)) (on_fs (λ _, fs) a))
  end.

Definition writeUploadChunk (j : Z) (encoded : string) : aproc (res unit) :=
  match StdDecode encoded with
  | None => mret (Err "illegal base64 data")
  | Some b =>
    u ← look (λ a, sa_upobjs a !! j);
    match u : option uploadSession with
    | None => mret (Err errClosed)
    | Some u =>
      match chunk_refused u (slen b) with
      | Some e => mret (Err e)
      | None => step (λ t a, write_chunk t j b a)
      end
    end
  end.

(** A call on the open file: it fails once the file is closed. *)
Definition on_file (j : Z) (f : ptick agent → uploadSession → filesys → res unit * filesys)
    : aproc (res unit) :=
  step (λ t a,
    match sa_upobjs a !! j with
    | None => (Err errClosed, a)
    | Some u =>
      if up_closed u then (Err errClosed, a)
      else let (r, fs) := f t u (sa_fs a) in (r, on_fs (λ _, fs) a)
    end).

Definition sync_file (t : ptick agent) (u : uploadSession) (fs : filesys) : res unit * filesys :=
  (sys_error (tk_io t) (Ok ()), fs).

Definition chmod_file (t : ptick agent) (u : uploadSession) (fs : filesys) : res unit * filesys :=
  os_chmod (tk_io t) (up_file u) (up_mode u) fs.

(** [u.file.Close()]: closed whatever it returns. *)
Definition close_file (j : Z) : aproc (res unit) :=
  step (λ t a, (match sa_upobjs a !! j with
                | Some u => if up_closed u then Err errClosed else sys_error (tk_io t) (Ok ())
                | None => Err errClosed
                end, upd_upload j set_closed a)).

Definition finishUpload (id : string) (j : Z) : aproc Message :=
  r ← and_then (on_file j sync_file) (λ _,
      u ← look (λ a, sa_upobjs a !! j);
      match u : option uploadSession with
      | None => mret (Err errClosed)
      | Some u =>
        if (0 <=? up_expected u) && negb (up_expected u =? up_written u)
        then mret (Err ("upload size mismatch: expected " +:+ Itoa (up_expected u)
                        +:+ ", received " +:+ Itoa (up_written u)))
        else on_file j chmod_file
      end);
  c ← close_file j;
  u ← look (λ a, sa_upobjs a !! j);
  r ← match (r : res unit), (c : res unit), (u : option uploadSession) with
      | Ok _, Ok _, Some u => renameNoReplace (up_tmpRel u) (up_target u)
      | Err e, _, _ | _, Err e, _ => mret (Err e)
      | _, _, None => mret (Err errClosed)
      end;
  mret (request_msg "file_upload_result" id "" "" "" (error_of r)
          (match u with Some u => up_written u | None => 0 end) 0 0 []).

(** ** The read loop's part *)

Definition handleFileUploadStart (m : Message) : aproc (option Z) :=
  let refuse e := _ ← send (upload_ready (m_RequestID m) e); mret None in
  if negb (c_FileBrowserEnabled cfg) then refuse "file browser disabled by agent config"
  else if (m_Size m <? -1)
          || ((0 <? c_MaxFileTransferBytes cfg) && (c_MaxFileTransferBytes cfg <? m_Size m))
  then refuse "file exceeds configured maximum"
  else
    r ← and_then openFileRoot (λ _,
        and_then (mret (try target := rootRelativePath (m_Path m) in
                        if String.eqb target "." then Err "invalid upload target" else Ok target)) (λ target,
        and_then (step (λ t a, (match tk_io t with
                                | Some e => Err e
                                | None => Ok (hex_encode (tk_random t))
                                end, a))) (λ suffix,
        let tmp := JoinPath (Dir target) (".homectl-upload-" +:+ suffix) in
        and_then (fs_step (λ t, os_create (tk_io t) tmp 384)) (λ i,
        mret (Ok (i, tmp, target))))));
    match r with
    | Err e => refuse e
    | Ok (i, tmp, target) =>
      x ← step (λ _ a, register_upload m i tmp target a);
      match x with
      | None =>
        _ ← fs_write (λ t, os_remove (tk_io t) tmp);
        refuse "too many concurrent file uploads"
      | Some (j, old) =>
        _ ← match old with Some o => stopUpload o | None => mret () end;
        let credits := if 0 <? m_Credits m then Z.min (m_Credits m) maxFileUploadCredits else 0 in
        _ ← send (request_msg "file_upload_ready" (m_RequestID m) "" "" "" "" 0 credits 0 []);
        mret (Some j)
      end
    end.

(** The select of [queueCreditUploadEvent]. *)
Definition try_queue (j : Z) (m : Message) (a : agent) : bool * agent :=
  match sa_upobjs a !! j with
  | None => (true, a)
  | Some u =>
    if up_stop u then (true, a)
    else if Z.of_nat (length (up_events u)) <? up_cap u
    then (true, upd_upload j (set_events (up_events u ++ [m])) a)
    else (false, a)
  end.

Definition queueCreditUploadEvent (id : string) (j : Z) (m : Message) : aproc unit :=
  ok ← step (λ _ a, try_queue j m a);
  if ok : bool then mret ()
  else
    owned ← removeUpload id j;
    if owned : bool then
      _ ← change (upd_upload j signalStop);
      _ ← change (upd_upload j set_closed);
      _ ← send (upload_result id "file upload exceeded its bounded queue"); mret ()
    else mret ().

Definition credit_mode (j : Z) (a : agent) : bool :=
  match sa_upobjs a !! j with Some u => up_creditMode u | None => false end.

Definition handleFileUploadChunk (m : Message) : aproc unit :=
  u ← look (λ a, match sa_uploads a !! m_RequestID m with
                 | Some j => Some (j, credit_mode j a) | None => None end);
  match u : option (Z * bool) with
  | None => mret ()
  | Some (j, true) => queueCreditUploadEvent (m_RequestID m) j m
  | Some (j, false) =>
    r ← writeUploadChunk j (m_Data m);
    match r with
    | Ok _ => mret ()
    | Err e => _ ← abortUpload (m_RequestID m); _ ← send (upload_result (m_RequestID m) e); mret ()
    end
  end.

Definition handleFileUploadEnd (m : Message) : aproc unit :=
  u ← step (λ _ a,
    match sa_uploads a !! m_RequestID m with
    | Some j => let credits := credit_mode j a in
                (Some (j, credits), if credits then a else on_uploads (delete (m_RequestID m)) a)
    | None => (None, a)
    end);
  match u : option (Z * bool) with
  | None => _ ← send (upload_result (m_RequestID m) "upload session not found"); mret ()
  | Some (j, true) => queueCreditUploadEvent (m_RequestID m) j m
  | Some (j, false) =>
    res ← finishUpload (m_RequestID m) j;
    _ ← cleanupUpload j;
    _ ← send res; mret ()
  end.

(** ** The worker *)

(** The select of [runCreditUpload]; [w] decides when both cases are ready. *)
Inductive worker_event : Type := WEStop | WEIdle | WEMessage (m : Message).

Definition worker_select (w : slot_wait) (j : Z) (a : agent) : worker_event * agent :=
  match sa_upobjs a !! j with
  | None => (WEStop, a)
  | Some u =>
    match up_events u with
    | [] => (if up_stop u then WEStop else WEIdle, a)
    | m :: rest =>
      if up_stop u && bool_decide (w = WaitCancelled) then (WEStop, a)
      else (WEMessage m, upd_upload j (set_events rest) a)
    end
  end.

(** One turn of the loop; [true] when the worker goes on. *)
Definition worker_turn (id : string) (j : Z) : aproc bool :=
  e ← step (λ t a, worker_select (tk_wait t) j a);
  match e with
  | WEStop => mret false
  | WEIdle => mret true
  | WEMessage m =>
    stopped ← look (λ a, match sa_upobjs a !! j with Some u => up_stop u | None => true end);
    if stopped : bool then mret false
    else if String.eqb (m_Type m) "file_upload_chunk" then
      r ← writeUploadChunk j (m_Data m);
      match r with
      | Err e =>
        owned ← removeUpload id j;
        _ ← (if owned : bool then send (upload_result id e) else mret (Ok ()));
        mret false
      | Ok _ =>
        sent ← send (request_msg "file_upload_credit" id "" "" "" "" 0 1 0 []);
        match sent with
        | Err _ => _ ← removeUpload id j; mret false
        | Ok _ => mret true
        end
      end
    else if String.eqb (m_Type m) "file_upload_end" then
      owned ← removeUpload id j;
      if negb (owned : bool) then mret false
      else
        res ← finishUpload id j;
        _ ← send res;
        mret false
    else mret true
  end.

(** [runCreditUpload] for at most [turns] turns; [true] when it is still
    waiting. *)
Fixpoint runCreditUpload (turns : nat) (id : string) (j : Z) : aproc bool :=
  match turns with
  | O => mret true
  | S turns =>
    on ← worker_turn id j;
    if on : bool then runCreditUpload turns id j else _ ← cleanupUpload j; mret false
  end.

(** ** The end of the connection *)

Fixpoint stop_uploads (l : list Z) : aproc unit :=
  match l with
  | [] => mret ()
  | j :: rest => _ ← stopUpload j; stop_uploads rest
  end.

Definition closeFileTransfers : aproc unit :=
  x ← step (λ _ a, (((map_to_list (sa_downloads a)).*2, (map_to_list (sa_uploads a)).*2),
                    on_uploads (λ _, ∅) (on_downloads (λ _, ∅) a)));
  _ ← change (λ a, foldr cancel_download a (fst x));
  stop_uploads (snd x).
End upload.
