(* ===== verification/AgentRun.v ===== *)
(** * The Agent's main loop ([cmd/agent/main.go], [main] and [run])

    The name it falls back to, the dispatch of the Server's messages, what ends a
    connection, and reconnecting. *)

From S2P Require Export AgentUpload.
From S2P Require Export AgentInfo.
From S2P Require Export Validation.

(** ** The name *)

(** The host's name when the configuration gives none. *)
Definition agent_name (hostname : string) (cfg : agentConfig) : res string :=
  if negb (String.eqb (c_Name cfg) "") then Ok (c_Name cfg)
  else
    let name := TrimSpace hostname in
    let name := if String.eqb name "" then "linux-agent" else name in
    try _ := validateAgentName name in Ok name.

(** ** Messages from the Server *)

Section dispatch.
Context (cfg : agentConfig) {rn : Renameat2} (toLower : string → string)
  (run : string → list string → exec_outcome) (shell : shell_run)
  (lookPath : string → option string) (ok : list string → bool).

(** The switch of [run]; [metric_policy] concerns the metric state only. *)
Definition dispatch (m : Message) : aproc unit :=
  let type := String.eqb (m_Type m) in
  if type "action" then startAction lookPath ok m
  else if type "exec" then startExec cfg run m
  else if type "term_open" then startTerm cfg shell m
  else if type "term_input" then termInput m
  else if type "term_resize" then _ ← termResize m; mret ()
  else if type "term_close" then termClose (m_SessionID m)
  else if type "file_list" then startFileOp (handleFileList cfg toLower) m
  else if type "file_mkdir" then startFileOp (handleFileMkdir cfg) m
  else if type "file_delete" then startFileOp (handleFileDelete cfg) m
  else if type "file_rename" then startFileOp (handleFileRename cfg) m
  else if type "file_download" then startFileDownload cfg m
  else if type "file_cancel" then handleFileCancel m
  else if type "file_credit" then handleFileCredit m
  else if type "file_upload_start" then _ ← handleFileUploadStart cfg m; mret ()
  else if type "file_upload_chunk" then handleFileUploadChunk cfg m
  else if type "file_upload_end" then handleFileUploadEnd m
  else if type "file_upload_abort" then handleFileUploadAbort m
  else mret ().

Definition dispatch_metrics (m : Message) (s : metrics) : metrics :=
  if String.eqb (m_Type m) "metric_policy" then snd (setMetricCards (m_MetricCards m) s) else s.

(** The read loop over the messages of one connection, and its end. *)
Fixpoint read_loop (l : list Message) : aproc unit :=
  match l with
  | [] => _ ← closeTerms; closeFileTransfers
  | m :: l => _ ← dispatch m; read_loop l
  end.
End dispatch.

(** ** Heartbeats *)

Definition heartbeat_msg (cfg : agentConfig) (s : agentState) (i : SystemInfo) : Message :=
  mkMessage "heartbeat" (st_DeviceID s) (c_Name cfg) "" "" "" [] "" "" "" "" "" "" "" "" 0 0 0 0 0 0 [] (Some i) [].

(** ** Reconnecting *)

Section reconnect.
Context (cfg : agentConfig).
Notation minimum := (c_reconnectMinDur (c_dur cfg)).
Notation maximum := (c_reconnectMaxDur (c_dur cfg)).

(** A connection attempt: how long it lasted, and the two draws; [Int64N(n)] is
    the first one modulo [n]. *)
Record attempt : Type := mkAttempt { at_connectedFor : Z; at_draw : Z; at_less : bool }.

(** The backoff a turn starts from. *)
Definition base_of (backoff : Z) (x : attempt) : Z :=
  if Minute <=? at_connectedFor x then minimum else backoff.

Definition turn_of (backoff : Z) (x : attempt) : Z * Z :=
  reconnect_turn cfg backoff (at_connectedFor x) (at_draw x mod (Z.quot (base_of backoff x) 5 + 1)) (at_less x).

(** [main]'s loop. *)
Definition backoff_after (l : list attempt) : Z := fold_left (λ b x, snd (turn_of b x)) l minimum.

Hypothesis Hok : 0 < minimum <= maximum.

Lemma turn_bounds b x :
  minimum <= b <= maximum →
  let base := base_of b x in
  minimum <= base <= maximum ∧
  base - base / 5 <= fst (turn_of b x) <= Z.min maximum (base + base / 5) ∧
  snd (turn_of b x) = Z.min maximum (2 * base).
Proof.
  intros Hb base. assert (Hbase : minimum <= base <= maximum) by (unfold base, base_of; destruct (_ <=? _); lia).
  split; [done|]. unfold turn_of, reconnect_turn. fold (base_of b x). fold base. simpl.
  unfold jitteredReconnectDelay. rewrite Z.quot_div_nonneg by lia.
  pose proof (Z.div_pos base 5 ltac:(lia) ltac:(lia)) as Hs.
  pose proof (Z.mod_pos_bound (at_draw x) (base / 5 + 1) ltac:(lia)) as Hoff.
  assert (Hs5 : base / 5 <= base) by (apply Z.div_le_upper_bound; lia).
  split.
  - destruct (Z.leb_spec base 0); [lia|]. destruct (Z.leb_spec maximum 0); [lia|]. simpl.
    destruct (Z.leb_spec (base / 5) 0); [lia|]. destruct (at_less x); [lia|].
    destruct (Z.ltb_spec (maximum - at_draw x mod (base / 5 + 1)) base); lia.
  - destruct (Z.ltb_spec (maximum - base) base); lia.
Qed.

Lemma backoff_step l x : backoff_after (l ++ [x]) = snd (turn_of (backoff_after l) x).
Proof. unfold backoff_after. by rewrite fold_left_app. Qed.

Lemma backoff_bounds l : minimum <= backoff_after l <= maximum.
Proof.
  induction l as [|x l IH] using rev_ind; [unfold backoff_after; simpl; lia|]. rewrite backoff_step.
  destruct (turn_bounds _ x IH) as (Hb & _ & ->). lia.
Qed.

Lemma backoff_doubles l :
  Forall (λ x, at_connectedFor x < Minute) l →
  backoff_after l = Z.min maximum (minimum * 2 ^ Z.of_nat (length l)).
Proof.
  induction l as [|x l IH] using rev_ind; [unfold backoff_after; simpl; intros _; lia|].
  intros [Hl Hx]%Forall_app. apply Forall_cons in Hx as [Hx _]. rewrite backoff_step.
  destruct (turn_bounds _ x (backoff_bounds l)) as (_ & _ & ->).
  unfold base_of. rewrite (proj2 (Z.leb_gt _ _)) by done. rewrite (IH Hl), length_app.
  simpl. rewrite Nat2Z.inj_add, Z.pow_add_r by lia.
  pose proof (Z.pow_pos_nonneg 2 (Z.of_nat (length l)) ltac:(lia) ltac:(lia)).
  change (2 ^ Z.of_nat 1) with 2. nia.
Qed.
End reconnect.

(** C18. The Agent reconnects with a bounded exponential backoff.  With any accepted
    configuration, after any history of attempts and whatever is drawn: the
    backoff stays between [reconnect_min] and [reconnect_max]; the delay is
    positive, within a fifth of the backoff and never above [reconnect_max], so
    no value of the computation leaves the range of a duration; while no
    connection lasts a minute the backoff is exactly [reconnect_min] doubled at
    each attempt up to [reconnect_max], and one that did starts over. *)
Theorem reconnect_bounded parse executable path decoded cfg l x :
  loadAgentConfig parse executable path decoded = Ok cfg →
  let minimum := c_reconnectMinDur (c_dur cfg) in
  let maximum := c_reconnectMaxDur (c_dur cfg) in
  let backoff := backoff_after cfg l in
  let base := base_of cfg backoff x in
  let delay := fst (turn_of cfg backoff x) in
  minimum <= backoff <= maximum ∧
  0 < delay ∧ base - base / 5 <= delay <= Z.min maximum (base + base / 5) ∧
  (Forall (λ y, at_connectedFor y < Minute) l →
   backoff = Z.min maximum (minimum * 2 ^ Z.of_nat (length l))) ∧
  (Minute <= at_connectedFor x → base = minimum ∧ backoff_after cfg (l ++ [x]) = Z.min maximum (2 * minimum)).
Proof.
  intros Hc%loadAgentConfig_ok minimum maximum backoff base delay.
  pose proof (ok_reconnect _ Hc) as Hok.
  pose proof (backoff_bounds cfg Hok l) as Hb.
  destruct (turn_bounds cfg Hok _ x Hb) as (Hbase & Hd & Hn).
  split; [exact Hb|]. split; [|split; [exact Hd|]].
  - subst delay base minimum maximum. fold backoff in Hbase, Hd.
    pose proof (Z.div_lt (base_of cfg backoff x) 5 ltac:(lia) ltac:(lia)). lia.
  - split; [by apply backoff_doubles|]. intros Hx.
    assert (Hbm : base = minimum) by (unfold base, base_of; by rewrite (proj2 (Z.leb_le _ _))).
    split; [done|]. rewrite backoff_step, Hn. fold backoff base. by rewrite Hbm.
Qed.

Definition demo_load : res agentConfig :=
  loadAgentConfig (λ _, Some (mkURL "wss" "home.example" false "")) (λ _, true) "/etc/homectl/agent.json"
    (Ok (mkAgentConfig "wss://home.example/agent/ws" "nas" "" "state.json" "10s" "1s" "30s" "15s"
           "15s" "10s" "30s" 524288 "/bin/bash" true true false "" 65536 1073741824 [] "" "" false
           (mkDurations 0 0 0 0 0 0 0))).

Lemma reconnect_bounded_witness :
  match demo_load with
  | Ok cfg => backoff_after cfg (repeat (mkAttempt 0 12345 true) 6) = 30 * Second
  | Err _ => False
  end.
Proof.
  destruct demo_load as [cfg|e] eqn:E; [|vm_compute in E; discriminate E].
  pose proof (reconnect_bounded _ _ _ _ cfg (repeat (mkAttempt 0 12345 true) 6) (mkAttempt Minute 1 false) E)
    as (_ & _ & _ & H & _).
  assert (Hd : c_dur cfg = c_dur (match demo_load with Ok c => c | Err _ => defaultAgentConfig end)) by (by rewrite E).
  rewrite H, Hd; [vm_compute; reflexivity|].
  repeat constructor.
Defined.
