(* ===== verification/AgentFilesProps.v ===== *)
(** * Guarantees of the Agent's file browser

    Paths stay beneath the root and address what was listed; an upload appears at
    its target complete or not at all. *)

From S2P Require Export AgentUpload.

(** ** Paths *)

Lemma Split_slash p : Split (String "/" p) "/" = "" :: Split p "/".
Proof. done. Qed.

(** Ordinary elements are kept by cleaning. *)
Lemma clean_fold es acc :
  Forall (λ e, valid_elem e = true) es →
  fold_left (clean_step true) es acc = reverse es ++ acc.
Proof.
  revert acc. induction es as [|e es IH]; intros acc Hf; [done|].
  apply Forall_cons in Hf as [He Hes]. simpl. unfold clean_step at 2. unfold valid_elem in He. bool_to_prop.
  rewrite !(proj2 (String.eqb_neq _ _)) by done. simpl. rewrite IH by done.
  by rewrite reverse_cons, <-app_assoc.
Qed.

Lemma Clean_valid es :
  es ≠ [] → Forall (λ e, valid_elem e = true) es → Forall (λ e, smem "/" e = false) es →
  Clean (String "/" (Join es "/")) = String "/" (Join es "/").
Proof.
  intros Hne Hv Hs. unfold Clean. rewrite (proj2 (IsAbs_spec _)) by eauto.
  rewrite Split_slash, Split_Join by done. unfold clean_elems. simpl.
  rewrite clean_fold, app_nil_r, reverse_involutive by done. done.
Qed.

Lemma Clean_rooted p : ∃ q, Clean ("/" +:+ p) = String "/" q.
Proof. apply IsAbs_spec, Clean_abs, IsAbs_spec. by exists p. Qed.

Lemma virtualPath_rooted p : ∃ q, virtualPath p = String "/" q.
Proof.
  unfold virtualPath. destruct (Clean_rooted (TrimPrefix (TrimSpace p) "/")) as [q Hq]. rewrite Hq.
  destruct (_ || _); eauto.
Qed.

Lemma TrimPrefix_slash q : TrimPrefix (String "/" q) "/" = q.
Proof. apply (TrimPrefix_app "/" q). Qed.

Lemma Localize_ok p q :
  Localize p = Ok q → q = p ∧ valid_utf8 p = true ∧ smem (ascii_of_N 0) p = false ∧
  (p = "." ∨ Forall (λ e, valid_elem e = true) (Split p "/")).
Proof.
  unfold Localize. destruct (negb (ValidPath p) || _) eqn:E; [done|]. intros [= <-].
  bool_to_prop. unfold ValidPath in *. bool_to_prop. split_and!; try done.
  match goal with H : _ ∨ _ |- _ => destruct H as [H|H] end; bool_to_prop; [by left|right].
  apply Forall_forall. intros x Hx. by eapply forallb_forall, list_elem_of_In.
Qed.

(** The elements of a path the file browser can be asked for. *)
Record plain_path (es : list string) : Prop := mk_plain_path {
  pp_nonempty : es ≠ [];
  pp_valid : Forall (λ e, valid_elem e = true ∧ smem "/" e = false) es;
  pp_utf8 : valid_utf8 (Join es "/") = true;
  pp_nul : smem (ascii_of_N 0) (Join es "/") = false
}.

Lemma Join_nonempty es : es ≠ [] → Forall (λ e, valid_elem e = true) es → Join es "/" ≠ "".
Proof.
  intros Hne Hv. destruct es as [|e es]; [done|]. apply Forall_cons in Hv as [He _].
  destruct e as [|a e]; [done|]. by destruct es.
Qed.

(** A path in its displayed form is taken as it is. *)
Lemma rootRelativePath_plain es :
  plain_path es → let p := String "/" (Join es "/") in TrimSpace p = p →
  rootRelativePath p = Ok (Join es "/") ∧ virtualPath p = p.
Proof.
  intros [Hne Hv Hu Hn] p Hp.
  assert (Hv1 : Forall (λ e, valid_elem e = true) es) by (eapply Forall_impl; [exact Hv|naive_solver]).
  assert (Hv2 : Forall (λ e, smem "/" e = false) es) by (eapply Forall_impl; [exact Hv|naive_solver]).
  assert (Hvirt : virtualPath p = p).
  { unfold virtualPath. rewrite Hp. subst p. rewrite TrimPrefix_slash.
    change ("/" +:+ Join es "/") with (String "/" (Join es "/")). by rewrite Clean_valid by done. }
  split; [|done]. unfold rootRelativePath. rewrite Hvirt, Hp. unfold p. rewrite Split_slash, Split_Join by done.
  rewrite TrimPrefix_slash, (proj2 (String.eqb_neq _ _)) by by apply Join_nonempty.
  assert (Hno : str_mem ".." ("" :: es) = false).
  { apply str_mem_false. intros [?|Hin]%elem_of_cons; [done|].
    rewrite Forall_forall in Hv1. by specialize (Hv1 _ Hin). }
  rewrite Hno. unfold Localize, ValidPath. rewrite Hu, Hn, Split_Join by done. simpl.
  assert (Hf : forallb valid_elem es = true).
  { apply forallb_forall. intros x Hx%list_elem_of_In. by eapply Forall_forall in Hv1. }
  by rewrite Hf, orb_true_r.
Qed.

(** A tree without symbolic links. *)
Definition no_links (fs : filesys) : Prop :=
  ∀ i n, fs_inodes fs !! i = Some n → in_kind n ≠ KSymlink.

Lemma node_no_link fs p i n : no_links fs → node fs p = Some (i, n) → in_kind n ≠ KSymlink.
Proof.
  intros Hl Hn. destruct p as [|e p]; [by injection Hn as <- <-|]. simpl in Hn.
  apply bind_Some in Hn as (k & _ & Hn). apply bind_Some in Hn as (x & Hx & [= <- <-]). by eapply Hl.
Qed.

Lemma walk_plain fs links keep cur todo q :
  no_links fs → Forall (λ e, valid_elem e = true) todo →
  walk fs links keep cur todo = Ok q → q = cur ++ todo.
Proof.
  intros Hl. revert cur. induction todo as [|e rest IH]; intros cur Hv Hw.
  { destruct links; injection Hw as <-; by rewrite app_nil_r. }
  apply Forall_cons in Hv as [He Hv]. unfold valid_elem in He. bool_to_prop.
  assert (Hstep : walk fs links keep cur (e :: rest) =
    match node fs (cur ++ [e]), rest with
    | None, [] => Ok (cur ++ [e])
    | None, _ => Err "no such file or directory"
    | Some (_, n), _ =>
      match in_kind n, rest with
      | KSymlink, _ => walk fs links keep cur (e :: rest)
      | KDirectory, _ | _, [] => walk fs links keep (cur ++ [e]) rest
      | _, _ => Err "not a directory"
      end
    end).
  { destruct links; cbn [walk]; rewrite !(proj2 (String.eqb_neq _ _)) by done; cbn [orb];
      destruct (node fs (cur ++ [e])) as [[i n]|]; destruct rest; try done; by destruct (in_kind n). }
  rewrite Hstep in Hw. destruct (node fs (cur ++ [e])) as [[i n]|] eqn:En.
  - pose proof (node_no_link _ _ _ _ Hl En) as Hk.
    destruct (in_kind n), rest as [|e' rest]; try done;
      apply IH in Hw; try done; by rewrite Hw, <-app_assoc.
  - destruct rest; [by injection Hw as <-|done].
Qed.


(** Surrounding white space of a path is lost: the entry ["a "] is displayed as
    ["/a "], which denotes ["a"]. *)
Example trailing_space_denotes_other_entry :
  rootRelativePath (fe_Path (entry_of "/" ("a ", mkInode KRegular "" 420 0))) = Ok "a" ∧
  rootRelativePath "/a" = Ok "a".
Proof. by vm_compute. Qed.

(** ** Uploads

    The steps of one upload.  [sole names] says besides that the directories
    still hold [names] wherever the process may stop. *)

Definition sole {A : Type} (names : gmap fpath Z) : (agent → Prop) → aproc A → (A → agent → Prop) → Prop :=
  crash (λ a, fs_names (sa_fs a) = names).

(** What renaming did: [to] was free and now names what [from] named. *)
Definition moved (old : filesys) (to : fpath) (i : Z) (fs : filesys) : Prop :=
  fs_names old !! to = None ∧ fs_names fs !! to = Some i ∧ fs_inodes fs = fs_inodes old.

(** The temporary path names inode [i]. *)
Definition names_inode (fs : filesys) (rel : string) (i : Z) : Prop :=
  ∃ d, open_dir None (Dir rel) fs = Ok d ∧ fs_names fs !! (d ++ [Base rel]) = Some i.

Lemma sys_error_ok {A} io (k : res A) x : sys_error io k = Ok x → k = Ok x.
Proof. by destruct io. Qed.

Lemma on_fs_id a : on_fs (λ _, sa_fs a) a = a.
Proof. by destruct a. Qed.

Section steps.
Context (names : gmap fpath Z).
Implicit Types P : agent → Prop.
Notation kept P := (∀ a, P a → fs_names (sa_fs a) = names).

Lemma sole_and_then {A B} P (m : aproc (res A)) (k : A → aproc (res B)) R (Q : res B → agent → Prop) :
  sole names P m (λ r s, match r with Ok x => R x s | Err e => Q (Err e) s end) →
  (∀ x, sole names (R x) (k x) Q) → sole names P (and_then m k) Q.
Proof.
  intros Hm Hk. eapply crash_bind; [exact Hm|]. intros [x|e]; [apply Hk|by apply crash_ret].
Qed.

Lemma sole_fs_step {A} P (f : ptick agent → filesys → res (A * filesys)) (Q : res A → agent → Prop) :
  kept P →
  (∀ t s x fs, P s → f t (sa_fs s) = Ok (x, fs) → Q (Ok x) (on_fs (λ _, fs) s)) →
  (∀ e s, P s → Q (Err e) s) → sole names P (fs_step f) Q.
Proof.
  intros HK H1 H2. apply crash_step; [done|]. intros t s HP.
  destruct (f t (sa_fs s)) as [[x fs]|e] eqn:E; simpl; [by eapply H1|by apply H2].
Qed.

Lemma sole_fs_read {A} P (f : ptick agent → filesys → res A) (Q : res A → agent → Prop) :
  kept P →
  (∀ t s x, P s → f t (sa_fs s) = Ok x → Q (Ok x) s) → (∀ e s, P s → Q (Err e) s) →
  sole names P (fs_read f) Q.
Proof.
  intros HK H1 H2. apply sole_fs_step; [done| |done]. intros t s x fs HP E.
  apply res_bind_ok in E as (y & E & [= -> <-]). rewrite on_fs_id. by eapply H1.
Qed.

Lemma sole_look {A} P (f : agent → A) (Q : A → agent → Prop) :
  kept P → (∀ s, P s → Q (f s) s) → sole names P (look f) Q.
Proof. intros HK H. apply crash_step; [done|]. intros t s. apply H. Qed.

Lemma sole_renameNoReplace `{Renameat2} P from to i :
  kept P → (∀ a, P a → names_inode (sa_fs a) from i) →
  sole names P (renameNoReplace from to)
    (λ r a, match r with
            | Ok _ => ∃ d a0, P a0 ∧ a = on_fs (λ _, sa_fs a) a0 ∧ open_dir None (Dir to) (sa_fs a0) = Ok d ∧
                              moved (sa_fs a0) (d ++ [Base to]) i (sa_fs a)
            | Err _ => P a
            end).
Proof.
  intros HK Hi. unfold renameNoReplace. destruct (_ || _); [by apply crash_ret|].
  pose (K x a := P a ∧ fs_names (sa_fs a) !! (x ++ [Base from]) = Some i).
  assert (HK' : ∀ x a, K x a → fs_names (sa_fs a) = names) by (intros x a [HP _]; auto).
  eapply (sole_and_then _ _ _ K).
  { apply sole_fs_read; [done| |done]. intros t s x HP E. split; [done|].
    unfold open_dir in *. apply sys_error_ok in E.
    destruct (Hi s HP) as (d & Hd & Hn). unfold open_dir in Hd. simpl in Hd. congruence. }
  intros x. eapply (sole_and_then _ _ _ (λ q a, K x a ∧ open_dir None (Dir to) (sa_fs a) = Ok q)).
  { apply sole_fs_read; [exact (HK' x)| |intros e s (HP & _); exact HP].
    intros t s q HP E. split; [done|]. by apply sys_error_ok in E. }
  intros q. eapply (crash_bind _ _ _ _ (λ r a, match r with
      | Ok _ => ∃ a0, P a0 ∧ a = on_fs (λ _, sa_fs a) a0 ∧ open_dir None (Dir to) (sa_fs a0) = Ok q ∧
                      moved (sa_fs a0) (q ++ [Base to]) i (sa_fs a)
      | Err _ => P a end)).
  { apply sole_fs_step; [intros a [Ha _]; exact (HK' x a Ha)| |intros e s ((HP & _) & _); exact HP].
    intros t s [] fs ((HP & Hn) & Hq) E. apply res_bind_ok in E as (fs' & E & [= <-]).
    apply sys_error_ok, renameat2_law in E as (Hto & _ & Hto' & _ & _ & Hino).
    exists s. do 3 (split; [done|]). split; [done|]. simpl. rewrite Hto'. by split. }
  intros [u|e]; apply crash_ret; [|done]. intros s (a0 & Ha). by exists q, a0.
Qed.
End steps.

(** *** What resolving depends on *)

(** Neither permissions nor the content of files affect how paths resolve. *)
Definition view (n : inode) : file_kind * string :=
  (in_kind n, match in_kind n with KSymlink => in_data n | _ => "" end).

Definition node_view (fs : filesys) (p : fpath) : option (file_kind * string) :=
  (λ x : Z * inode, view x.2) <$> node fs p.

Lemma walk_view fs fs' links keep cur todo :
  (∀ p, node_view fs p = node_view fs' p) →
  walk fs links keep cur todo = walk fs' links keep cur todo.
Proof.
  intros Hv. revert cur todo. induction links as [|links IHl]; intros cur todo; revert cur;
    induction todo as [|e rest IH]; intros cur; try done; cbn [walk];
    (destruct (_ || _); [apply IH|]); (destruct (String.eqb e ".."); [destruct cur; [done|apply IH]|]);
    specialize (Hv (cur ++ [e])); unfold node_view, view in Hv;
    destruct (node fs (cur ++ [e])) as [[i n]|], (node fs' (cur ++ [e])) as [[i' n']|]; simpl in Hv; try done;
    injection Hv as Hk Hd; rewrite Hk in Hd |- *; destruct (in_kind n'), rest; try done; try apply IH;
    rewrite ?Hd; destruct (keep && _); try done; destruct (IsAbs _); try done; apply IHl.
Qed.

Lemma upd_inode_view i f fs p :
  (∀ n, fs_inodes fs !! i = Some n → view (f n) = view n) →
  node_view (upd_inode i f fs) p = node_view fs p.
Proof.
  intros Hf. unfold node_view, node. destruct p as [|e p]; [done|].
  change (fs_names (upd_inode i _ fs)) with (fs_names fs). simpl.
  match goal with |- context [?x ≫= _] => destruct x as [k|] end; simpl; [|done].
  destruct (decide (i = k)) as [->|Hne].
  - rewrite lookup_alter_eq. destruct (fs_inodes fs !! k) as [n|] eqn:E; [|done]. simpl. by rewrite Hf.
  - by rewrite lookup_alter_ne.
Qed.

Lemma open_dir_view fs fs' rel :
  (∀ p, node_view fs' p = node_view fs p) → open_dir None rel fs' = open_dir None rel fs.
Proof.
  intros Hv. unfold open_dir, resolve, sys_error. rewrite (walk_view fs' fs) by done.
  destruct (walk fs 40 false [] _) as [q|e]; [|done]. simpl.
  specialize (Hv q). unfold node_view in Hv. by destruct (node fs' q), (node fs q).
Qed.

(** *** One upload *)

Section upload.
Context (cfg : agentConfig) {rn : Renameat2} (u0 : uploadSession) (fs0 : filesys) (j : Z).
Notation names := (fs_names fs0).

Definition file_holds (i : Z) (text : string) (a : agent) : Prop :=
  ∃ n, fs_inodes (sa_fs a) !! i = Some n ∧ in_kind n = KRegular ∧ in_data n = text.

(** Session [j], started as [u0], has written [text] to its file; names resolve
    as in [fs0]. *)
Definition uploading (text : string) (a : agent) : Prop :=
  fs_names (sa_fs a) = names ∧ (∀ p, node_view (sa_fs a) p = node_view fs0 p) ∧
  file_holds (up_file u0) text a ∧
  ∃ u, sa_upobjs a !! j = Some u ∧ up_file u = up_file u0 ∧ up_tmpRel u = up_tmpRel u0 ∧
    up_target u = up_target u0 ∧ up_expected u = up_expected u0 ∧ up_written u = slen text.

Definition in_limit (text : string) : Prop :=
  0 < c_MaxFileTransferBytes cfg → slen text <= c_MaxFileTransferBytes cfg.

Lemma uploading_names text a : uploading text a → fs_names (sa_fs a) = names.
Proof. by intros [H _]. Qed.

Lemma uploading_closed text a : uploading text a → uploading text (upd_upload j set_closed a).
Proof.
  intros (H1 & H2 & H3 & u & Hu & H). split; [done|]. split; [done|]. split; [done|].
  exists (set_closed u). unfold upd_upload. simpl. by rewrite lookup_alter_eq, Hu.
Qed.

Lemma uploading_chmod text mode i a :
  uploading text a →
  uploading text
    (on_fs (λ _, upd_inode i (λ x, mkInode (in_kind x) (in_data x) mode (in_mtime x)) (sa_fs a)) a).
Proof.
  intros (H1 & H2 & (n & Hn & Hk & Hd) & H). split; [done|]. split.
  { intros p. rewrite <-H2. by apply upd_inode_view. }
  split; [|done]. unfold file_holds. simpl. destruct (decide (i = up_file u0)) as [->|].
  - rewrite lookup_alter_eq, Hn. by eexists.
  - rewrite lookup_alter_ne by done. by exists n.
Qed.

(** [k] bytes of [b] reach the file. *)
Lemma uploading_write text b k u a :
  0 <= k <= slen b → uploading text a → sa_upobjs a !! j = Some u →
  uploading (text +:+ stake k b)
    (upd_upload j (set_written (up_written u + k))
       (on_fs (λ _, upd_inode (up_file u) (λ x, mkInode (in_kind x)
          (write_at (up_written u) (stake k b) (in_data x)) (in_perm x) (in_mtime x)) (sa_fs a)) a)).
Proof.
  intros Hk0 (H1 & H2 & (n & Hn & Hk & Hd) & u' & Hu' & Hf & H) Hu. rewrite Hu in Hu'. injection Hu' as <-.
  destruct H as (Ht & Hg & He & Hw). split; [done|]. rewrite Hf. split.
  { intros p. rewrite <-H2. apply upd_inode_view.
    intros n' Hn'. simpl in Hn'. rewrite Hn in Hn'. injection Hn' as <-. unfold view. simpl. by rewrite Hk. }
  split.
  { eexists. simpl. rewrite lookup_alter_eq, Hn. split; [done|]. simpl. split; [done|].
    by rewrite Hw, Hd, write_at_end. }
  exists (set_written (up_written u + k) u). unfold upd_upload. simpl. rewrite lookup_alter_eq, Hu.
  split; [done|]. simpl. do 4 (split; [done|]). rewrite slen_app, slen_stake by lia. lia.
Qed.

Lemma chunk_fits u text n :
  up_written u = slen text → chunk_refused cfg u n = None → 0 <= n →
  0 < c_MaxFileTransferBytes cfg → slen text + n <= c_MaxFileTransferBytes cfg.
Proof.
  intros Hw Hc Hn Hpos. unfold chunk_refused in Hc. rewrite Hw in Hc.
  destruct (_ <? _); [done|]. destruct (_ <? _); [done|].
  destruct ((0 <? c_MaxFileTransferBytes cfg) && _) eqn:E; [done|]. bool_to_prop.
  destruct E as [E|E]; bool_to_prop; lia.
Qed.

(** Appends the decoded chunk, or a part of it when it fails. *)
Lemma sole_writeUploadChunk text encoded :
  in_limit text →
  sole names (uploading text) (writeUploadChunk cfg j encoded)
    (λ r a, match r with
            | Ok _ => ∃ b, StdDecode encoded = Some b ∧ in_limit (text +:+ b) ∧ uploading (text +:+ b) a
            | Err _ => ∃ part, uploading (text +:+ part) a
            end).
Proof.
  intros Hlim. unfold writeUploadChunk.
  assert (Hnone : ∀ a, uploading text a → ∃ part, uploading (text +:+ part) a).
  { intros a Ha. exists "". by rewrite sapp_nil_r. }
  destruct (StdDecode encoded) as [b|]; [|by apply crash_ret].
  eapply (crash_bind _ _ _ _ (λ u a, uploading text a ∧ ∀ v, u = Some v → up_written v = slen text)).
  { apply sole_look; [apply uploading_names|]. intros s HP. split; [done|].
    destruct HP as (_ & _ & _ & u & -> & H). naive_solver. }
  intros [u|]; [|apply crash_ret; naive_solver].
  destruct (chunk_refused cfg u (slen b)) as [e|] eqn:Er; [apply crash_ret; naive_solver|].
  apply crash_step; [intros s [HP _]; by eapply uploading_names|]. intros t a [Ha Hw].
  assert (Hb : in_limit (text +:+ b)).
  { intros Hpos. rewrite slen_app. apply (chunk_fits u); auto using slen_nonneg. }
  unfold write_chunk. destruct (sa_upobjs a !! j) as [v|] eqn:Hv; [|by apply Hnone].
  destruct (up_closed v); [by apply Hnone|]. unfold os_write.
  set (k := match tk_io t with None => _ | Some _ => _ end).
  assert (Hk0 : 0 <= k <= slen b) by (unfold k; pose proof (slen_nonneg b); destruct (tk_io t); lia).
  pose proof (uploading_write text b k v a Hk0 Ha Hv) as Hup. cbn [fst snd].
  destruct (tk_io t) as [e|] eqn:Et; cbn [fst snd]; [by eexists|].
  assert (Hall : stake k b = b) by (unfold k; by rewrite stake_all).
  rewrite Hall in Hup |- *. by exists b.
Qed.

(** How [finishUpload] ends: in a success with the complete upload under a name
    that was free, or with the directories unchanged. *)
Definition finished (text : string) (r : res unit) (a : agent) : Prop :=
  match r with
  | Ok _ =>
    (up_expected u0 < 0 ∨ up_expected u0 = slen text) ∧
    file_holds (up_file u0) text a ∧
    ∃ d, open_dir None (Dir (up_target u0)) fs0 = Ok d ∧
      names !! (d ++ [Base (up_target u0)]) = None ∧
      fs_names (sa_fs a) !! (d ++ [Base (up_target u0)]) = Some (up_file u0)
  | Err _ => fs_names (sa_fs a) = names
  end.

Definition sized (text : string) : Prop := up_expected u0 < 0 ∨ up_expected u0 = slen text.
Definition synced {A} (text : string) (r : res A) (a : agent) : Prop :=
  uploading text a ∧ match r with Ok _ => sized text | Err _ => True end.

Lemma synced_names {A} text (r : res A) a : synced text r a → fs_names (sa_fs a) = names.
Proof. intros [H _]. by eapply uploading_names. Qed.

Lemma sole_sync text :
  sole names (uploading text)
    (and_then (on_file j sync_file) (λ _,
      u ← look (λ a, sa_upobjs a !! j);
      match u : option uploadSession with
      | None => mret (Err errClosed)
      | Some u =>
        if (0 <=? up_expected u) && negb (up_expected u =? up_written u)
        then mret (Err ("upload size mismatch: expected " +:+ Itoa (up_expected u)
                        +:+ ", received " +:+ Itoa (up_written u)))
        else on_file j chmod_file
      end)) (synced text).
Proof.
  eapply (sole_and_then _ _ _ _ (λ _, uploading text)).
  { apply crash_step; [apply uploading_names|]. intros t a Ha.
    pose proof Ha as (_ & _ & _ & u & Hu & _). rewrite Hu.
    destruct (up_closed u); simpl; [done|]. rewrite on_fs_id. by destruct (tk_io t). }
  intros x. eapply (crash_bind _ _ _ _ (λ u a, uploading text a ∧ u = sa_upobjs a !! j)).
  { apply sole_look; [apply uploading_names|done]. }
  intros [u|]; [|by apply crash_ret; intros a [H _]].
  destruct ((0 <=? up_expected u) && _) eqn:Ee; [by apply crash_ret; intros a [H _]|].
  apply crash_step; [intros a [H _]; by eapply uploading_names|]. intros t a [Hf Hu]. rewrite <-Hu.
  assert (Hs : sized text).
  { destruct Hf as (_ & _ & _ & u' & Hu' & _ & _ & _ & He & Hw). rewrite <-Hu in Hu'.
    injection Hu' as <-. unfold sized. rewrite <-He, <-Hw.
    apply andb_false_iff in Ee as [Ee|Ee]; bool_to_prop; [left; lia|by right]. }
  destruct (up_closed u); [done|]. unfold chmod_file, os_chmod.
  destruct (tk_io t); cbn [fst snd]; [by rewrite on_fs_id|]. split; [|done]. by apply uploading_chmod.
Qed.

Lemma sole_finishUpload id text :
  names_inode fs0 (up_tmpRel u0) (up_file u0) →
  sole names (uploading text) (finishUpload id j)
    (λ m a, m_Size m = slen text ∧ ∃ r, m_Error m = error_of r ∧ finished text r a).
Proof.
  intros Htmp. unfold finishUpload. eapply crash_bind; [apply sole_sync|]. intros r.
  eapply (crash_bind _ _ _ _ (λ _, synced text r)).
  { apply crash_step; [apply synced_names|]. intros t a [Hf Hs]. split; [by apply uploading_closed|done]. }
  intros c.
  eapply (crash_bind _ _ _ _ (λ u a, synced text r a ∧
    match u with Some u => up_written u = slen text ∧ up_tmpRel u = up_tmpRel u0 ∧
                                            up_target u = up_target u0 | None => False end)).
  { apply sole_look; [apply synced_names|]. intros a [Hf Hs]. split; [done|].
    destruct Hf as (_ & _ & _ & u & -> & H). naive_solver. }
  intros [u|]; [|by intros h _ [_ []]].
  destruct r as [[]|e], c as [[]|e'].
  1: eapply (crash_bind _ _ _ _ (λ r a, finished text r a ∧ up_written u = slen text));
     [|intros r; apply crash_ret; naive_solver].
  2-4: apply crash_ret; intros a [[(Hn & _) _] [Hw _]]; split; [exact Hw|by eexists (Err _)].
  eapply crash_conseq; [apply (sole_renameNoReplace _ _ _ _ (up_file u0))|intros s H; exact H|].
  { intros a [H _]. by eapply synced_names. }
  { intros a [[(Hn & Hv & _) _] (_ & -> & _)]. destruct Htmp as (d & Hd & Hi). exists d.
    by rewrite Hn, (open_dir_view fs0). }
  intros [[]|e] a H.
  - destruct H as (d & a0 & [[(Hn & Hv & Hh & _) Hs] (Hw & _ & Htg)] & -> & Hd & Hto & Hq & Hino).
    rewrite Htg in Hd, Hto, Hq. rewrite (open_dir_view fs0) in Hd by done. rewrite Hn in Hto.
    split; [|done]. split; [done|]. split; [|by exists d].
    unfold file_holds in *. simpl in *. by rewrite Hino.
  - destruct H as [[(Hn & _) _] [Hw _]]. split; [done|exact Hw].
Qed.


(** The chunks, in order, up to the first that fails; then the end. *)
Fixpoint write_chunks (chunks : list string) : aproc (res unit) :=
  match chunks with
  | [] => mret (Ok ())
  | c :: rest => and_then (writeUploadChunk cfg j c) (λ _, write_chunks rest)
  end.

Definition upload_all (id : string) (chunks : list string) : aproc (res Message) :=
  and_then (write_chunks chunks) (λ _, m ← finishUpload id j; mret (Ok m)).

Lemma sole_write_chunks chunks text :
  in_limit text →
  sole names (uploading text) (write_chunks chunks)
    (λ r a, match r with
            | Ok _ => ∃ bs, mapM StdDecode chunks = Some bs ∧ in_limit (text +:+ sconcat bs) ∧
                            uploading (text +:+ sconcat bs) a
            | Err _ => ∃ part, uploading part a
            end).
Proof.
  revert text. induction chunks as [|c rest IH]; intros text Hlim; simpl.
  { apply crash_ret. intros a Ha. exists []. simpl. by rewrite sapp_nil_r. }
  eapply (sole_and_then _ _ _ _ (λ _ a, ∃ b, StdDecode c = Some b ∧ in_limit (text +:+ b) ∧ uploading (text +:+ b) a)).
  { eapply crash_conseq; [by apply sole_writeUploadChunk|done|]. intros [[]|e] a; naive_solver. }
  intros [] h Hal (b & Hb & Hlb & Hu). specialize (IH _ Hlb h Hal Hu).
  destruct IH as (H1 & H2 & H3). split; [done|]. split; [|done].
  destruct (fst (write_chunks rest h)) as [[]|e]; [|done].
  destruct H2 as (bs & Hbs & Hl & Hup). exists (b :: bs). rewrite Hb, Hbs. simpl. by rewrite <-sapp_assoc.
Qed.

Lemma sole_upload_all id chunks :
  names_inode fs0 (up_tmpRel u0) (up_file u0) →
  sole names (uploading "") (upload_all id chunks)
    (λ x a, match x with
            | Err _ => fs_names (sa_fs a) = names
            | Ok m => ∃ bs, mapM StdDecode chunks = Some bs ∧ in_limit (sconcat bs) ∧ m_Size m = slen (sconcat bs) ∧
                ∃ r, m_Error m = error_of r ∧ finished (sconcat bs) r a
            end).
Proof.
  intros Htmp.
  eapply (sole_and_then _ _ _ _ (λ _ a, ∃ bs, mapM StdDecode chunks = Some bs ∧ in_limit (sconcat bs) ∧
            uploading (sconcat bs) a)).
  { eapply crash_conseq; [apply sole_write_chunks|done|].
    { intros Hpos. change (slen "") with 0. lia. }
    intros [[]|e] s; [done|]. by intros (part & Hp & _). }
  intros [] h Hh (bs & Hbs & Hl & Hu).
  destruct (sole_finishUpload id (sconcat bs) Htmp h Hh Hu) as (H1 & H2 & H3).
  rewrite bind_run. split; [done|]. split; [|done]. by exists bs.
Qed.
End upload.

(** ** Downloads end *)

(** Every turn sends a byte or ends the loop: fuel for as many turns as bytes
    suffices. *)
Lemma download_loop_fuel cfg id j i fuel : ∀ off remaining h,
  remaining <= Z.of_nat fuel → fst (download_loop cfg fuel id j i off remaining h) ≠ DFuel.
Proof.
  induction fuel as [|fuel IH]; intros off remaining h Hr; simpl;
    (destruct (Z.leb_spec remaining 0); [by rewrite bind_run|]); [lia|].
  rewrite bind_run. destruct (fst (step _ _)); [|done..]. rewrite bind_run.
  destruct (fst (step _ _)) as [text err]. rewrite bind_run.
  match goal with |- context [match fst ?m with Ok _ => _ | Err _ => _ end] => destruct (fst m) end; [|done].
  destruct (after_read _ _ _) as [e|] eqn:Ea; [by rewrite bind_run|].
  apply IH. unfold after_read in Ea. destruct err; [by destruct (String.eqb _ _)|].
  destruct (Z.eqb_spec (slen text) 0); [done|]. pose proof (slen_nonneg text). lia.
Qed.

Lemma handleFileDownload_fuel cfg `{Renameat2} m h : fst (handleFileDownload cfg m h) ≠ DFuel.
Proof.
  unfold handleFileDownload. destruct (negb _); [by rewrite bind_run|]. rewrite bind_run.
  destruct (fst (and_then _ _ _)) as [[i n]|e]; [|by rewrite bind_run]. cbv zeta.
  destruct (_ && _); [by rewrite bind_run|]. rewrite bind_run.
  destruct (fst (register_download _ _)) as [j old]. rewrite !bind_run.
  match goal with |- context [match fst ?m with Ok _ => _ | Err _ => _ end] => destruct (fst m) end; [|done].
  simpl. apply download_loop_fuel. pose proof (slen_nonneg (in_data n)). lia.
Qed.


(** *** A concrete upload *)

Definition demo_cfg : agentConfig :=
  mkAgentConfig "" "nas" "" "" "10s" "1s" "30s" "15s" "10s" "10s" "10s" 65536 "/bin/sh" false false true
    "/srv" 65536 1048576 [] "" "" false (c_dur defaultAgentConfig).
Definition demo_start : agent :=
  r_sys (snd (run_handler
    (handleFileUploadStart demo_cfg (request_msg "file_upload_start" "r1" "/a.txt" "" "" "" 5 0 420 []))
    (new_agent (mkFS ∅ ∅ 0)) [])).

