(* ===== verification/Sys.v ===== *)
(** * The server's state and the steps of its handlers

    [internal/server/server.go]: [Server], [AgentConn], [pendingRequest],
    [BrowserTerm].  Objects shared through pointers (connections, pending
    requests, terminals) live in heaps keyed by a serial number; the maps of
    [Server] hold serials.

    A handler is a sequence of atomic steps on it (see Proc). *)

From S2P Require Export Proc.
From S2P Require Export Throttle.
From S2P Require Export Store.
From S2P Require Export Totp.
From S2P Require Export Http.

(** ** State *)

Record heartbeatUpdate : Type := mkHeartbeat { hb_seenAt : Z; hb_info : option SystemInfo }.

(** [ag_sent]: the messages written to the connection, oldest first. *)
Record AgentConn : Type := mkAgent {
  ag_id : string;
  ag_fileDownloadCredits : bool;
  ag_fileUploadCredits : bool;
  ag_metricPolicy : bool;
  ag_heartbeats : list heartbeatUpdate;   (** capacity 1 *)
  ag_done : bool;
  ag_sent : list Message
}.

(** [pr_err] is set by the first [finish]. *)
Record pendingRequest : Type := mkPending {
  pr_ch : list Message;
  pr_done : bool;
  pr_err : option string
}.

Record BrowserTerm : Type := mkTerm {
  bt_sessionKey : string;
  bt_deviceID : string;
  bt_output : list Message;
  bt_done : bool
}.

Record Server : Type := mkServer {
  sv_auth : AuthMem;
  sv_db : DB;
  sv_admission : Z;                      (** tokens in [passwordAdmission] *)
  sv_slots : Z;                          (** tokens in [passwordSlots] *)
  sv_agents : gmap string Z;
  sv_pending : gmap string Z;
  sv_terms : gmap string Z;
  sv_conns : gmap Z AgentConn;           (** heaps *)
  sv_reqs : gmap Z pendingRequest;
  sv_termobjs : gmap Z BrowserTerm;
  sv_next : Z                            (** the next serial *)
}.

Definition passwordHashQueueCapacity : Z := 2.
Definition browserTermQueueCapacity : Z := 32.
Definition pendingQueueCapacity : Z := 8.
Definition initialFileDownloadCredits : Z := 4.
Definition initialFileUploadCredits : Z := 4.

(** [New]: everything empty. *)
Definition New (db : DB) : Server := mkServer empty_auth db 0 0 ∅ ∅ ∅ ∅ ∅ ∅ 0.

Definition with_auth x s := mkServer x (sv_db s) (sv_admission s) (sv_slots s) (sv_agents s)
  (sv_pending s) (sv_terms s) (sv_conns s) (sv_reqs s) (sv_termobjs s) (sv_next s).
Definition with_db x s := mkServer (sv_auth s) x (sv_admission s) (sv_slots s) (sv_agents s)
  (sv_pending s) (sv_terms s) (sv_conns s) (sv_reqs s) (sv_termobjs s) (sv_next s).
Definition with_admission x s := mkServer (sv_auth s) (sv_db s) x (sv_slots s) (sv_agents s)
  (sv_pending s) (sv_terms s) (sv_conns s) (sv_reqs s) (sv_termobjs s) (sv_next s).
Definition with_slots x s := mkServer (sv_auth s) (sv_db s) (sv_admission s) x (sv_agents s)
  (sv_pending s) (sv_terms s) (sv_conns s) (sv_reqs s) (sv_termobjs s) (sv_next s).
Definition with_agents x s := mkServer (sv_auth s) (sv_db s) (sv_admission s) (sv_slots s) x
  (sv_pending s) (sv_terms s) (sv_conns s) (sv_reqs s) (sv_termobjs s) (sv_next s).
Definition with_pending x s := mkServer (sv_auth s) (sv_db s) (sv_admission s) (sv_slots s)
  (sv_agents s) x (sv_terms s) (sv_conns s) (sv_reqs s) (sv_termobjs s) (sv_next s).
Definition with_terms x s := mkServer (sv_auth s) (sv_db s) (sv_admission s) (sv_slots s)
  (sv_agents s) (sv_pending s) x (sv_conns s) (sv_reqs s) (sv_termobjs s) (sv_next s).
Definition with_conns x s := mkServer (sv_auth s) (sv_db s) (sv_admission s) (sv_slots s)
  (sv_agents s) (sv_pending s) (sv_terms s) x (sv_reqs s) (sv_termobjs s) (sv_next s).
Definition with_reqs x s := mkServer (sv_auth s) (sv_db s) (sv_admission s) (sv_slots s)
  (sv_agents s) (sv_pending s) (sv_terms s) (sv_conns s) x (sv_termobjs s) (sv_next s).
Definition with_termobjs x s := mkServer (sv_auth s) (sv_db s) (sv_admission s) (sv_slots s)
  (sv_agents s) (sv_pending s) (sv_terms s) (sv_conns s) (sv_reqs s) x (sv_next s).
Definition with_next x s := mkServer (sv_auth s) (sv_db s) (sv_admission s) (sv_slots s)
  (sv_agents s) (sv_pending s) (sv_terms s) (sv_conns s) (sv_reqs s) (sv_termobjs s) x.

(** ** Steps *)

Notation tick := (ptick Server).
Notation run_state := (prun Server).
Notation handler := (proc Server).

(** A step on the authentication maps, and one on the database. *)
Definition auth_step {A} (f : tick → AuthMem → AuthMem * A) : handler A :=
  step (λ t s, let (m, a) := f t (sv_auth s) in (a, with_auth m s)).

Definition db_step {A} (f : tick → stm A) : handler (res A) :=
  step (λ t s, let (r, w) := f t (mkWorld (sv_db s) (tk_faults t)) in (r, with_db (w_db w) s)).

(** ** Terminals *)

Definition forceClose (t : BrowserTerm) : BrowserTerm :=
  mkTerm (bt_sessionKey t) (bt_deviceID t) (bt_output t) true.

(** Close the registered terminals that [p] selects. *)
Definition close_terms (p : BrowserTerm → bool) (s : Server) : Server :=
  let ids := (map_to_list (sv_terms s)).*2 in
  with_termobjs
    (map_imap (λ i t, Some (if bool_decide (i ∈ ids) && p t then forceClose t else t))
       (sv_termobjs s)) s.

Definition closeBrowserTermsForSession (sessionKey : string) (s : Server) : Server :=
  if String.eqb sessionKey "" then s
  else close_terms (λ t, String.eqb (bt_sessionKey t) sessionKey) s.

Definition closeAllBrowserTerms (s : Server) : Server := close_terms (λ _, true) s.

Definition closeBrowserTermsForDevice (deviceID : string) (s : Server) : Server :=
  if String.eqb deviceID "" then s
  else close_terms (λ t, String.eqb (bt_deviceID t) deviceID) s.

(** [randomToken(n)]: the bytes come with the step. *)
Definition randomToken (t : tick) : string := hex_encode (tk_random t).

(** ** Lemmas on runs *)

Lemma auth_step_inv {A} (f : tick → AuthMem → AuthMem * A) h a h' :
  auth_step f h = (a, h') →
  ∃ t s, snd (f t (sv_auth s)) = a ∧ r_seen h' = r_seen h ++ [s] ∧
         r_sys h' = with_auth (fst (f t (sv_auth s))) s.
Proof.
  intros (t & s & Hf & Hs)%step_inv. exists t, s. destruct (f t (sv_auth s)).
  by injection Hf as <- <-.
Qed.

Lemma db_step_inv {A} (f : tick → stm A) h a h' :
  db_step f h = (a, h') →
  ∃ t s w, f t (mkWorld (sv_db s) (tk_faults t)) = (a, w) ∧ r_seen h' = r_seen h ++ [s] ∧
           r_sys h' = with_db (w_db w) s.
Proof.
  intros (t & s & Hf & Hs)%step_inv. exists t, s.
  destruct (f t (mkWorld (sv_db s) (tk_faults t))) as [r w]. exists w.
  by injection Hf as <- <-.
Qed.

#[export] Hint Unfold auth_step db_step : grows.

(** Take a run of a server handler apart. *)
Ltac run_inv :=
  repeat first
  [ match goal with
    | H : auth_step _ _ = (_, _) |- _ =>
      let t := fresh "t" in let s := fresh "s" in let Hf := fresh "Hf" in
      let Hs := fresh "Hs" in apply auth_step_inv in H as (t & s & Hf & Hs & _)
    | H : db_step _ _ = (_, _) |- _ =>
      let t := fresh "t" in let s := fresh "s" in let w := fresh "w" in let Hf := fresh "Hf" in
      let Hs := fresh "Hs" in apply db_step_inv in H as (t & s & w & Hf & Hs & _)
    end
  | run_inv_core ].

Ltac grow :=
  intros; repeat first
    [ apply grows_ret | apply grows_step
    | apply grows_bind; [|intros ?]
    | progress unfold auth_step, db_step
    | match goal with |- grows (match ?x with _ => _ end) => destruct x end
    | match goal with |- grows (if ?x then _ else _) => destruct x end
    | solve [auto with grows] ].
