(* ===== verification/Auth.v ===== *)
(** * Authentication handlers ([internal/server/auth.go])

    The login, logout and account handlers and the session guards of
    [internal/server/server.go], as sequences of steps.  The decoded request
    body is an argument: [None] where [json.Decode] returns an error. *)

From S2P Require Export Sys.

Section auth.
Context (cfg : Config) {mo : MapOrder} {ic : InfoCodec} {ps : PasswordScheme}.

(** ** Who is asking *)

Definition remoteIP (remoteAddr : string) : option Addr :=
let host := TrimSpace remoteAddr in
let host := default host (SplitHost host) in
Unmap <$> ParseAddr (TrimBrackets host).

Definition singleIPHeader (value : string) : option Addr :=
let value := TrimSpace value in
if String.eqb value "" || Contains value "," then None
else Unmap <$> ParseAddr (TrimBrackets value).

Definition isTrustedProxy (ip : Addr) : bool :=
existsb (λ prefix, PrefixContains prefix (Unmap ip)) (TrustedProxyPrefixes cfg).

Definition clientKey (r : request) : string :=
let remote := remoteIP (rq_RemoteAddr r) in
let direct := match remote with Some ip => AddrString (Unmap ip) | None => "unknown" end in
match remote with
| Some ip =>
  if negb (String.eqb (ClientIPHeader cfg) "") && isTrustedProxy ip
  then match singleIPHeader (HeaderGet r (ClientIPHeader cfg)) with
       | Some forwarded => AddrString (Unmap forwarded)
       | None => direct
       end
  else direct
| None => direct
end.

(** ** Cookies *)

Definition sessionCookieName : string :=
if CookieSecure cfg then "__Host-homectl_session" else "homectl_session".

Definition preAuthCookieName : string :=
if CookieSecure cfg then "__Secure-homectl_preauth" else "homectl_preauth".

Definition clearCookie (name path : string) : cookie :=
mkCookie name "" path true (CookieSecure cfg) true (-1) (Some (UnixTime 1)).

Definition clearSessionCookies : list cookie :=
clearCookie sessionCookieName "/" ::
if negb (String.eqb sessionCookieName "homectl_session")
then [clearCookie "homectl_session" "/"] else [].

Definition clearPreAuthCookies : list cookie :=
clearCookie preAuthCookieName "/api/login" ::
if negb (String.eqb preAuthCookieName "homectl_preauth")
then [clearCookie "homectl_preauth" "/api/login"] else [].

(** The cookie's MaxAge and Expires are set for a persistent session only. *)
Definition setSessionCookie (token : string) (expires ttl : Z) (remember : bool) : list cookie :=
mkCookie sessionCookieName token "/" true (CookieSecure cfg) true
  (if remember then Z.quot ttl Second else 0) (if remember then Some expires else None) ::
if CookieSecure cfg then [clearCookie "homectl_session" "/"] else [].

Definition setPreAuthCookie (token : string) (now : Z) : list cookie :=
let ttl := PreAuthTTL cfg in
mkCookie preAuthCookieName token "/api/login" true (CookieSecure cfg) true
  (Z.max 1 (Z.quot ttl Second)) (Some (TimeAdd now ttl)) ::
if CookieSecure cfg then [clearCookie "homectl_preauth" "/api/login"] else [].

(** The first non-empty cookie of the two names. *)
Definition first_cookie (r : request) (names : list string) : string :=
match filter (λ v, v ≠ "") (omap (Cookie r) names) with
| v :: _ => v
| [] => ""
end.

Definition preAuthToken (r : request) : string :=
first_cookie r [preAuthCookieName; "homectl_preauth"].

Definition sessionToken (r : request) : string :=
first_cookie r [sessionCookieName; "homectl_session"].

Definition sessionKey (r : request) : string :=
let token := sessionToken r in
if String.eqb token "" then "" else hashToken token.

(** ** Throttling and password checks *)

Definition throttle_seconds (retry : Z) : Z := Z.max 1 (Z.quot (RoundSecond retry) Second).

Definition writeAuthThrottle (cs : list cookie) (retry : Z) : response :=
let seconds := throttle_seconds retry in
mkResponse 429
  (BJson (JObj [("error", JStr "too_many_attempts"); ("retry_after", JInt seconds)])) cs
  [("Retry-After", Itoa seconds)].

Definition errAuthBusy : string := "authentication worker limit reached".

(** [cap(passwordSlots)] and [cap(passwordAdmission)]. *)
Definition passwordConcurrency : Z := Z.max 1 (PasswordHashConcurrency cfg).
Definition admissionCapacity : Z := passwordConcurrency + passwordHashQueueCapacity.

Definition acquire_admission (s : Server) : bool * Server :=
if sv_admission s <? admissionCapacity then (true, with_admission (sv_admission s + 1) s)
else (false, s).

Definition release_admission (s : Server) : Server := with_admission (sv_admission s - 1) s.

(** A full semaphore makes the wait end with the timer. *)
Definition acquire_slot (w : slot_wait) (s : Server) : slot_wait * Server :=
match w with
| WaitSlot =>
  if sv_slots s <? passwordConcurrency then (WaitSlot, with_slots (sv_slots s + 1) s)
  else (WaitTimeout, s)
| _ => (w, s)
end.

Definition release_slot (s : Server) : Server := with_slots (sv_slots s - 1) s.

Definition verifyPasswordLimited (password : string) : handler (res (option AdminRecord * bool)) :=
ok ← step (λ _ s, acquire_admission s);
if negb (ok : bool) then mret (Err errAuthBusy)
else
  w ← step (λ t s, acquire_slot (tk_wait t) s);
  r ← match w return handler (res (option AdminRecord * bool)) with
      | WaitSlot =>
        x ← db_step (λ t, VerifyAdminPassword password (tk_salt t) (Unix (tk_now t)));
        _ ← step (λ _ s, ((), release_slot s));
        mret x
      | WaitCancelled => mret (Err "context canceled")
      | WaitTimeout => mret (Err errAuthBusy)
      end;
  _ ← step (λ _ s, ((), release_admission s));
  mret r.

(** ** Sessions *)

Definition session_ttl (remember : bool) : Z :=
if remember then RememberSessionTTL cfg else SessionTTL cfg.

Definition createWebSession (remember : bool) : handler (res (list cookie)) :=
_ ← db_step (λ t, CleanupSessions (Unix (tk_now t)));
x ← step (λ t s, ((randomToken t, TimeAdd (tk_now t) (session_ttl remember)), s));
let (token, expires) := x : string * Z in
r ← db_step (λ t, CreateSession token (Unix expires) remember (Unix (tk_now t)));
mret (match r with
      | Ok _ => Ok (setSessionCookie token expires (session_ttl remember) remember)
      | Err e => Err e
      end).

(** [Ok None]: the step was not consumed. *)
Definition createWebSessionWithTOTP (remember : bool) (totp_step : Z)
  : handler (res (option (list cookie))) :=
_ ← db_step (λ t, CleanupSessions (Unix (tk_now t)));
x ← step (λ t s, ((randomToken t, TimeAdd (tk_now t) (session_ttl remember)), s));
let (token, expires) := x : string * Z in
r ← db_step (λ t, ConsumeTOTPLoginStepAndCreateSession totp_step token (Unix expires) remember
                    (Unix (tk_now t)));
mret (match r with
      | Ok true => Ok (Some (setSessionCookie token expires (session_ttl remember) remember))
      | Ok false => Ok None
      | Err e => Err e
      end).

Definition authenticated (r : request) : handler bool :=
let token := sessionToken r in
if String.eqb token "" then mret false
else
  x ← db_step (λ t, SessionValid token (Unix (tk_now t)));
  mret (match x with Ok ok => ok | Err _ => false end).

Definition safe_method (r : request) : bool :=
str_mem (rq_Method r) ["GET"; "HEAD"; "OPTIONS"].

Definition sameOriginRequest (r : request) : bool :=
if safe_method r then true
else negb (EqualFold (TrimSpace (HeaderGet r "Sec-Fetch-Site")) "cross-site").

(** [refuse] turns a response into what the guarded handler answers. *)
Definition requireAuth {A} (refuse : response → A) (next : request → handler A) (r : request) : handler A :=
ok ← authenticated r;
if negb (ok : bool) then mret (refuse (http_error [] "unauthorized" 401))
else if negb (sameOriginRequest r) then mret (refuse (http_error [] "cross-site request rejected" 403))
else next r.

(** API calls that change something need a custom header. *)
Definition browserRequestGuard {A} (refuse : response → A) (next : request → handler A) (r : request)
  : handler A :=
if HasPrefix (rq_Path r) "/api/" && negb (safe_method r)
   && negb (String.eqb (HeaderGet r "X-HomeCTL-Request") "1")
then mret (refuse (http_error [] "request rejected" 403))
else next r.

(** ** Login *)

Record login_in : Type := mkLogin { li_Username : string; li_Password : string; li_Remember : bool }.

Definition handleLogin (decoded : option login_in) (r : request) : handler response :=
let token := preAuthToken r in
_ ← (if String.eqb token "" then mret ()
     else auth_step (λ _ m, (deletePreAuthKey (hashToken token) m, ())));
let cs := clearPreAuthCookies in
let key := clientKey r in
locked ← auth_step (λ t, clientPasswordLocked cfg key (tk_now t) (tk_now' t));
match locked with
| Some retry => mret (writeAuthThrottle cs retry)
| None =>
  match decoded with
  | None => mret (json_error cs 400 "bad_request")
  | Some inp =>
    let username := TrimSpace (li_Username inp) in
    v ← verifyPasswordLimited (li_Password inp);
    match v with
    | Err e =>
      mret (if String.eqb e errAuthBusy then json_error cs 503 "auth_busy"
            else json_error cs 500 "db_error")
    | Ok (admin, ok) =>
      match admin with
      | Some a =>
        if negb ok || negb (String.eqb username (a_Username a)) then
          retry ← auth_step (λ t, recordClientPasswordFailure cfg key (tk_now t) (tk_now' t));
          mret (if 0 <? retry then writeAuthThrottle cs retry
                else json_error cs 401 "invalid_credentials")
        else
          _ ← auth_step (λ _ m, (clearClientPasswordFailures key m, ()));
          if negb (String.eqb (a_TOTPSecret a) "") then
            locked ← auth_step (λ t, totpAuthLocked cfg (tk_now t) (tk_now' t));
            match locked with
            | Some retry => mret (writeAuthThrottle cs retry)
            | None =>
              x ← auth_step (λ t m, (createPreAuth cfg (li_Remember inp) key
                                       (hashToken (randomToken t)) (tk_now t) m,
                                     (randomToken t, tk_now' t)));
              mret (reply_json (cs ++ setPreAuthCookie x.1 x.2) 202
                      [("totp_required", JBool true);
                       ("expires_in", JInt (Z.quot (PreAuthTTL cfg) Second))])
            end
          else
            c ← createWebSession (li_Remember inp);
            mret (match c with
                  | Ok cookies => reply_json (cs ++ cookies) 200 [("ok", JBool true)]
                  | Err _ => json_error cs 500 "session_error"
                  end)
      | None =>
        retry ← auth_step (λ t, recordClientPasswordFailure cfg key (tk_now t) (tk_now' t));
        mret (if 0 <? retry then writeAuthThrottle cs retry
              else json_error cs 401 "invalid_credentials")
      end
    end
  end
end.

(** The look-up of the pre-authentication record, one critical section. *)
Inductive preauth_lookup : Type :=
| PreAuthMissing
| PreAuthExhausted
| PreAuthFound (remember : bool) (clientKey : string).

Definition lookup_preauth (key : string) (now : Z) (m : AuthMem) : AuthMem * preauth_lookup :=
let m := set_preAuth (cleanupPreAuthLocked now (preAuth m)) m in
match preAuth m !! key with
| None => (m, PreAuthMissing)
| Some p =>
  if PreAuthMaxAttempts cfg <=? pa_Attempts p
  then (deletePreAuthKey key m, PreAuthExhausted)
  else (m, PreAuthFound (pa_Remember p) (pa_ClientKey p))
end.

Definition handleLoginTOTP (code : option string) (r : request) : handler response :=
let cs := clearPreAuthCookies in
locked ← auth_step (λ t, totpAuthLocked cfg (tk_now t) (tk_now' t));
match locked with
| Some retry => mret (writeAuthThrottle cs retry)
| None =>
  match code with
  | None => mret (json_error [] 400 "bad_request")
  | Some code =>
    let token := preAuthToken r in
    if String.eqb token "" then mret (json_error cs 401 "preauth_invalid")
    else
      let key := hashToken token in
      x ← auth_step (λ t m, let (m, l) := lookup_preauth key (tk_now t) m in (m, (l, tk_now t)));
      match x with
      | (PreAuthMissing, _) => mret (json_error cs 401 "preauth_expired")
      | (PreAuthExhausted, _) => mret (json_error cs 429 "preauth_attempts_exceeded")
      | (PreAuthFound remember client, now) =>
        admin ← db_step (λ _, GetAdmin);
        match admin with
        | Err _ | Ok None => mret (json_error [] 500 "db_error")
        | Ok (Some a) =>
          match matchTOTP (a_TOTPSecret a) code now with
          | None =>
            exhausted ← auth_step (λ _, bumpPreAuthAttempt cfg key);
            retry ← auth_step (λ t, recordTOTPAuthFailure cfg (tk_now t) (tk_now' t));
            mret (if 0 <? retry then writeAuthThrottle cs retry
                  else if exhausted : bool then json_error cs 429 "preauth_attempts_exceeded"
                  else json_error [] 401 "invalid_totp")
          | Some totp_step =>
            claimed ← auth_step (λ t, claimPreAuth cfg key (tk_now t));
            if negb (claimed : bool) then mret (json_error cs 401 "preauth_invalid")
            else
              c ← createWebSessionWithTOTP remember totp_step;
              match c with
              | Err _ =>
                _ ← auth_step (λ _ m, (releasePreAuth key m, ()));
                mret (json_error [] 500 "session_error")
              | Ok consumed =>
                _ ← auth_step (λ _ m, (deletePreAuthKey key m, ()));
                match consumed with
                | None =>
                  retry ← auth_step (λ t, recordTOTPAuthFailure cfg (tk_now t) (tk_now' t));
                  mret (if 0 <? retry then writeAuthThrottle cs retry
                        else json_error cs 401 "invalid_totp")
                | Some cookies =>
                  _ ← auth_step (λ _ m, (clearTOTPAuthFailures m, ()));
                  _ ← auth_step (λ _ m, (clearClientPasswordFailures client m, ()));
                  mret (reply_json (cookies ++ cs) 200 [("ok", JBool true)])
                end
              end
          end
        end
      end
  end
end.

Definition handleLogout (r : request) : handler response :=
let token := sessionToken r in
_ ← (if String.eqb token "" then mret ()
     else
       let key := hashToken token in
       _ ← db_step (λ _, DeleteSession token);
       _ ← auth_step (λ _ m, (clearTOTPSetupForSessionKey key m, ()));
       _ ← auth_step (λ _ m, (clearReauthFailures key m, ()));
       step (λ _ s, ((), closeBrowserTermsForSession key s)));
mret (reply_json (clearPreAuthCookies ++ clearSessionCookies) 200 [("ok", JBool true)]).

(** ** The account *)

Definition handleSettings : response :=
reply_json [] 200
  [("allow_exec", JBool (AllowExec cfg)); ("allow_terminal", JBool (AllowTerminal cfg));
   ("file_browser_enabled", JBool (FileBrowserEnabled cfg));
   ("web_refresh_ms", JInt (Z.quot (WebRefreshInterval cfg) Millisecond));
   ("ui_result_ttl_ms", JInt (Z.quot (UIResultTTL cfg) Millisecond));
   ("max_file_transfer_bytes", JInt (MaxFileTransferBytes cfg));
   ("password_min_chars", JInt minPasswordRunes); ("password_max_chars", JInt maxPasswordRunes)].

Definition handleAccount : handler response :=
a ← db_step (λ _, GetAdmin);
mret (match a with
      | Ok (Some a) =>
        reply_json [] 200 [("username", JStr (a_Username a));
                           ("totp_enabled", JBool (negb (String.eqb (a_TOTPSecret a) "")))]
      | _ => http_error [] "db error" 500
      end).

Definition verifyCurrentPassword (password : string) : handler (res bool) :=
v ← verifyPasswordLimited password;
mret (match v with
      | Ok (admin, ok) => Ok (bool_decide (is_Some admin) && ok)
      | Err e => Err e
      end).

(** [None] when the password was right: the caller goes on. *)
Definition requireCurrentPassword (password : string) (r : request) : handler (option response) :=
let key := sessionKey r in
if String.eqb key "" then mret (Some (http_error [] "unauthorized" 401))
else
  locked ← auth_step (λ t, reauthLocked cfg key (tk_now t) (tk_now' t));
  match locked with
  | Some retry => mret (Some (writeAuthThrottle [] retry))
  | None =>
    v ← verifyCurrentPassword password;
    match v with
    | Err e =>
      mret (Some (if String.eqb e errAuthBusy
                  then http_error [] "authentication busy; try again" 503
                  else http_error [] "authentication failed" 500))
    | Ok false =>
      retry ← auth_step (λ t, recordReauthFailure cfg key (tk_now t) (tk_now' t));
      mret (Some (if 0 <? retry then writeAuthThrottle [] retry
                  else http_error [] "current password incorrect" 403))
    | Ok true =>
      _ ← auth_step (λ _ m, (clearReauthFailures key m, ()));
      mret None
    end
  end.

(** What every credential change does once the store has committed it. *)
Definition after_credential_change : handler response :=
_ ← auth_step (λ _ m, (clearPreAuth m, ()));
_ ← auth_step (λ _ m, (clearTOTPSetups m, ()));
_ ← auth_step (λ _ m, (clearTOTPAuthFailures m, ()));
_ ← auth_step (λ _ m, (clearAllReauthFailures m, ()));
_ ← step (λ _ s, ((), closeAllBrowserTerms s));
mret (reply_json (clearPreAuthCookies ++ clearSessionCookies) 200
        [("ok", JBool true); ("reauth", JBool true)]).

Definition handleChangeUsername (inp : option (string * string)) (r : request) : handler response :=
match inp with
| None => mret (http_error [] "bad request" 400)
| Some (current, username) =>
  match normalizeUsername username with
  | Err e => mret (http_error [] e 400)
  | Ok username =>
    refused ← requireCurrentPassword current r;
    match refused with
    | Some resp => mret resp
    | None =>
      u ← db_step (λ t, UpdateAdminUsernameAndRevokeSessions username (Unix (tk_now t)));
      match u with
      | Err _ => mret (http_error [] "update failed" 500)
      | Ok _ => after_credential_change
      end
    end
  end
end.

(** [valid] is the outcome of [normalizeAndValidatePassword] on the new
  password. *)
Definition handleChangePassword (valid : string → res string) (inp : option (string * string))
  (r : request) : handler response :=
match inp with
| None => mret (http_error [] "bad request" 400)
| Some (current, new) =>
  match valid new with
  | Err e => mret (http_error [] e 400)
  | Ok _ =>
    refused ← requireCurrentPassword current r;
    match refused with
    | Some resp => mret resp
    | None =>
      u ← db_step (λ t, UpdateAdminPasswordAndRevokeSessions new (tk_salt t) (Unix (tk_now t)));
      match u with
      | Err _ => mret (http_error [] "update failed" 500)
      | Ok _ => after_credential_change
      end
    end
  end
end.

(** [uri] stands for the [url] escaping of the label and the secret. *)
Definition handleTOTPSetup (uri : string → string → string) (inp : option string) (r : request)
  : handler response :=
match inp with
| None => mret (http_error [] "bad request" 400)
| Some current =>
  refused ← requireCurrentPassword current r;
  match refused with
  | Some resp => mret resp
  | None =>
    a ← db_step (λ _, GetAdmin);
    match a with
    | Err _ | Ok None => mret (http_error [] "db error" 500)
    | Ok (Some a) =>
      if negb (String.eqb (a_TOTPSecret a) "")
      then mret (http_error [] "two-step verification is already enabled" 409)
      else
        secret ← step (λ t s, (newTOTPSecret (Ok (tk_random t)), s));
        match secret with
        | Err _ => mret (http_error [] "secret generation failed" 500)
        | Ok secret =>
          ok ← auth_step (λ t, storeTOTPSetup cfg (sessionKey r) secret (tk_now t));
          if negb (ok : bool) then mret (http_error [] "session unavailable" 401)
          else mret (reply_json [] 200
                       [("secret", JStr secret);
                        ("otpauth_uri", JStr (uri ("HomeCTL:" +:+ a_Username a) secret))])
        end
    end
  end
end.

Definition handleTOTPEnable (inp : option (string * string)) (r : request) : handler response :=
match inp with
| None => mret (http_error [] "bad request" 400)
| Some (current, code) =>
  secret ← auth_step (λ t, loadTOTPSetup (sessionKey r) (tk_now t));
  match secret with
  | None => mret (http_error [] "TOTP setup expired; start setup again" 409)
  | Some secret =>
    refused ← requireCurrentPassword current r;
    match refused with
    | Some resp => mret resp
    | None =>
      a ← db_step (λ _, GetAdmin);
      match a with
      | Err _ | Ok None => mret (http_error [] "db error" 500)
      | Ok (Some a) =>
        if negb (String.eqb (a_TOTPSecret a) "")
        then mret (http_error [] "two-step verification is already enabled" 409)
        else
          now ← step (λ t s, (tk_now t, s));
          match matchTOTP secret code now with
          | None => mret (http_error [] "invalid verification code" 400)
          | Some _ =>
            u ← db_step (λ t, EnableAdminTOTPAndRevokeSessions secret (Unix (tk_now t)));
            match u with
            | Err _ => mret (http_error [] "update failed" 500)
            | Ok _ => after_credential_change
            end
          end
      end
    end
  end
end.

Definition handleTOTPDisable (inp : option (string * string)) (r : request) : handler response :=
match inp with
| None => mret (http_error [] "bad request" 400)
| Some (current, code) =>
  refused ← requireCurrentPassword current r;
  match refused with
  | Some resp => mret resp
  | None =>
    a ← db_step (λ _, GetAdmin);
    match a with
    | Err _ | Ok None => mret (http_error [] "db error" 500)
    | Ok (Some a) =>
      if String.eqb (a_TOTPSecret a) ""
      then mret (http_error [] "two-step verification is not enabled" 409)
      else
        now ← step (λ t s, (tk_now t, s));
        match matchTOTP (a_TOTPSecret a) code now with
        | None => mret (http_error [] "invalid verification code" 400)
        | Some _ =>
          u ← db_step (λ t, DisableAdminTOTPAndRevokeSessions (Unix (tk_now t)));
          match u with
          | Err _ => mret (http_error [] "update failed" 500)
          | Ok false => mret (http_error [] "two-step verification is not enabled" 409)
          | Ok true => after_credential_change
          end
        end
    end
  end
end.

(** A body that does not decode leaves the label empty. *)
Definition handleCreateEnrollmentToken (label : string) : handler response :=
let label := TrimSpace label in
match (if String.eqb label "" then Ok "" else normalizeDeviceName label) with
| Err e => mret (http_error [] e 400)
| Ok label =>
  _ ← db_step (λ t, let cutoff n := Unix (TimeAdd n (-24 * Hour)) in
                    CleanupEnrollmentTokens (cutoff (tk_now t)) (cutoff (tk_now' t)));
  id ← step (λ t s, (randomToken t, s));
  x ← step (λ t s, ((randomToken t, Unix (TimeAdd (tk_now t) (EnrollmentTokenTTL cfg))), s));
  let (token, expiresAt) := x : string * Z in
  c ← db_step (λ t, CreateEnrollmentToken id label token expiresAt (Unix (tk_now t)));
  mret (match c with
        | Err _ => http_error [] "create token failed" 500
        | Ok _ => reply_json [] 201 [("id", JStr id); ("token", JStr token);
                                     ("expires_at", JInt expiresAt)]
        end)
end.
End auth.
