(* ===== verification/AuthProps.v ===== *)
(** * Guarantees of the authentication handlers

    The theorems hold under arbitrary interference: between any two steps of a
    handler the other goroutines may have changed the server in any way. *)

From S2P Require Export Auth.
From S2P Require Export StoreSpec.

Section props.
Context (cfg : Config) {mo : MapOrder} {ic : InfoCodec} {ps : PasswordScheme}.

Lemma grows_verify password : grows (verifyPasswordLimited cfg password).
Proof. unfold verifyPasswordLimited. grow. Qed.

(** The account of a state, with its password checked. *)
Definition password_holds (s : Server) (password : string) (a : AdminRecord) : Prop :=
∃ row, t_admins (sv_db s) = Some row ∧ fst (ps_verify (ar_password_hash row) password) = true ∧
  a_Username a = ar_username row ∧ a_TOTPSecret a = ar_totp_secret row.

Lemma VerifyAdminPassword_true password salt now w a w' :
VerifyAdminPassword password salt now w = (Ok (a, true), w') →
∃ row r, t_admins (w_db w) = Some row ∧ a = Some r ∧
  fst (ps_verify (ar_password_hash row) password) = true ∧
  a_Username r = ar_username row ∧ a_TOTPSecret r = ar_totp_secret row.
Proof.
unfold VerifyAdminPassword, GetAdmin.
intros (x & w1 & [-> Hd]%query_row_ok & H2)%bind_ok.
destruct (t_admins (w_db w)) as [row|] eqn:Ea; [|done]. simpl in H2.
destruct (ps_verify (ar_password_hash row) password) as [ok rehash] eqn:Ev.
exists row. destruct ok; simpl in H2; [|by injection H2].
destruct rehash; [|injection H2 as <- _; eexists; split_and!; rewrite ?Ev; done].
destruct (ps_rehash salt password) as [next|e].
- apply bind_ok in H2 as (y & w2 & _ & [= <- _]).
  eexists. split_and!; rewrite ?Ev; try done; by destruct (is_ok y).
- injection H2 as <- _. eexists. split_and!; rewrite ?Ev; done.
Qed.

(** A password check that passed saw an account the password belongs to. *)
Lemma verifyPasswordLimited_true password h a h' :
verifyPasswordLimited cfg password h = (Ok (a, true), h') →
∃ s r, a = Some r ∧ s ∈ r_seen h' ∧ password_holds s password r.
Proof.
unfold verifyPasswordLimited. intros Hr. run_inv. destruct (negb _); [by run_inv|]. run_inv.
match goal with w : slot_wait |- _ => destruct w end; run_inv; try done.
match goal with H : VerifyAdminPassword _ _ _ ?w = _ |- _ =>
  apply VerifyAdminPassword_true in H as (row & r & Ha & -> & Hv & Hu & Ht) end. simpl in *.
match goal with H : t_admins (sv_db ?s) = _ |- _ => exists s, r end.
split; [done|]. split; [seen|by exists row].
Qed.
Lemma consume_true step t e p now w w' :
ConsumeTOTPLoginStepAndCreateSession step t e p now w = (Ok true, w') →
∃ row, t_admins (w_db w) = Some row ∧ ar_last_step row < step.
Proof.
intros [[_ Hr]|(a & w0 & w1 & _ & Hd & Hb & _)]%with_tx_cases.
- destruct (Hr true eq_refl) as (w0 & w1 & _ & Hb).
  apply bind_ok in Hb as (n & w2 & _ & Hb). apply bind_ok in Hb as (n' & w3 & _ & Hb).
  destruct (negb _); [done|]. by apply bind_ok in Hb as (n'' & w4 & _ & Hb).
- apply bind_ok in Hb as (n & w2 & H1%exec_ok & Hb).
  apply bind_ok in Hb as (n' & w3 & [-> H2]%rows_affected_ok & Hb).
  destruct (negb (n =? 1)) eqn:En; [done|]. bool_to_prop.
  apply upd_admin_rows in H1 as [(_ & row & Hrow & Hc & _)|(-> & _)]; [|done].
  rewrite Hd in Hrow. exists row. split; [done|]. by bool_to_prop.
Qed.

Lemma grows_createWebSession remember : grows (createWebSession cfg remember).
Proof. unfold createWebSession. grow. Qed.

Lemma grows_createWebSessionWithTOTP remember step : grows (createWebSessionWithTOTP cfg remember step).
Proof. unfold createWebSessionWithTOTP. grow. Qed.

Lemma createWebSessionWithTOTP_some remember k h cookies h' :
createWebSessionWithTOTP cfg remember k h = (Ok (Some cookies), h') →
∃ s row, s ∈ r_seen h' ∧ t_admins (sv_db s) = Some row ∧ ar_last_step row < k.
Proof.
unfold createWebSessionWithTOTP. intros Hr. run_inv. destruct a0 as [token expires]. run_inv.
destruct a0 as [[]|]; [|done|done].
match goal with H : ConsumeTOTPLoginStepAndCreateSession _ _ _ _ _ _ = _ |- _ =>
  apply consume_true in H as (row & Hrow & Hlt) end. simpl in Hrow.
match goal with H : t_admins (sv_db ?s) = _ |- _ => exists s, row end. split; [seen|done].
Qed.

Lemma requireCurrentPassword_none password r h h' :
requireCurrentPassword cfg password r h = (None, h') →
∃ s a, s ∈ r_seen h' ∧ password_holds s password a.
Proof.
unfold requireCurrentPassword. intros Hr. destruct (String.eqb (sessionKey cfg r) ""); run_inv.
{ done. }
destruct a; run_inv; [done|]. unfold verifyCurrentPassword in *. run_inv.
match goal with H : verifyPasswordLimited _ _ _ = (?x, _) |- _ => destruct x as [[adm ok]|e] eqn:Ev end;
  [|run_inv; done].
destruct (bool_decide (is_Some adm) && ok) eqn:Eb; run_inv; [|done]. apply andb_true_iff in Eb as [_ ->].
match goal with H : verifyPasswordLimited _ _ _ = _ |- _ =>
  apply verifyPasswordLimited_true in H as (s' & a' & _ & Hin & Hp) end.
exists s', a'. split; [|done]. seen.
Qed.

Lemma grows_require password r : grows (requireCurrentPassword cfg password r).
Proof.
unfold requireCurrentPassword, verifyCurrentPassword. grow; try apply grows_verify.
Qed.

Lemma grows_after : grows (after_credential_change cfg).
Proof. unfold after_credential_change. grow. Qed.
End props.

#[export] Hint Resolve grows_verify grows_createWebSession grows_createWebSessionWithTOTP
  grows_require grows_after : grows.

(** ** Properties *)

Section theorems.
Context (cfg : Config) {mo : MapOrder} {ic : InfoCodec} {ps : PasswordScheme}.

(** A session cookie with a token, and the responses that set one. *)
Definition session_cookie (c : cookie) : bool :=
String.eqb (ck_Name c) (sessionCookieName cfg) && negb (String.eqb (ck_Value c) "").

Definition sets_session (resp : response) : bool := existsb session_cookie (rs_Cookies resp).

Lemma clearPreAuth_no_session : existsb session_cookie (clearPreAuthCookies cfg) = false.
Proof.
unfold clearPreAuthCookies, session_cookie, preAuthCookieName, sessionCookieName.
by destruct (CookieSecure cfg).
Qed.

Lemma setPreAuth_no_session token now : existsb session_cookie (setPreAuthCookie cfg token now) = false.
Proof.
unfold setPreAuthCookie, session_cookie, preAuthCookieName, sessionCookieName.
by destruct (CookieSecure cfg).
Qed.

(** Reduce a claim about a literal response. *)
Ltac response :=
unfold sets_session;
cbn [rs_Cookies rs_Status json_error reply_json writeAuthThrottle http_error];
rewrite ?existsb_app, ?clearPreAuth_no_session, ?setPreAuth_no_session; cbn [orb existsb].

(** Refusals of a login: no session cookie, a status other than 200 and 202. *)
Definition refusal (resp : response) : Prop :=
sets_session resp = false ∧ rs_Status resp ≠ 200 ∧ rs_Status resp ≠ 202.

Lemma refusal_throttle retry : refusal (writeAuthThrottle (clearPreAuthCookies cfg) retry).
Proof. unfold refusal. by response. Qed.

Lemma refusal_error status err :
status ≠ 200 → status ≠ 202 → refusal (json_error (clearPreAuthCookies cfg) status err).
Proof. unfold refusal. by response. Qed.

Lemma refusal_plain status err : status ≠ 200 → status ≠ 202 → refusal (json_error [] status err).
Proof. unfold refusal. by response. Qed.

(** Every way [handleLogin] can end. *)
Lemma handleLogin_cases decoded r h resp h' :
handleLogin cfg decoded r h = (resp, h') →
refusal resp ∨
∃ inp a st, decoded = Some inp ∧ st ∈ r_seen h' ∧ password_holds st (li_Password inp) a ∧
  TrimSpace (li_Username inp) = a_Username a ∧
  ((a_TOTPSecret a ≠ "" ∧ rs_Status resp = 202 ∧ sets_session resp = false) ∨
   (a_TOTPSecret a = "" ∧ rs_Status resp = 200)).
Proof.
unfold handleLogin. intros E. run_inv.
destruct a0 as [retry|]; run_inv; [left; apply refusal_throttle|].
destruct decoded as [inp|]; run_inv; [|left; by apply refusal_error].
destruct a0 as [[admin ok]|e]; run_inv; [|left; destruct (String.eqb e errAuthBusy); by apply refusal_error].
destruct admin as [a0|]; run_inv;
  [|left; destruct (0 <? _); [apply refusal_throttle|by apply refusal_error]].
destruct (negb ok || _) eqn:Eok; run_inv;
  [left; destruct (0 <? _); [apply refusal_throttle|by apply refusal_error]|].
apply orb_false_iff in Eok as [->%negb_false_iff Eu%negb_false_iff%String.eqb_eq].
match goal with H : verifyPasswordLimited _ _ _ = _ |- _ =>
  pose proof (verifyPasswordLimited_true _ _ _ _ _ H) as (st & r0 & [= <-] & Hin & Hp) end.
destruct (negb (String.eqb (a_TOTPSecret a0) "")) eqn:Et; run_inv; bool_to_prop.
- match goal with x : option Z |- _ => destruct x as [retry|] end; run_inv; [left; apply refusal_throttle|].
  right. exists inp, a0, st. split_and!; [done|seen|done|done|]. left. by response.
- match goal with H : createWebSession _ _ _ = (?c, ?h2) |- _ =>
    pose proof (grows_run _ _ _ _ (grows_createWebSession _ _) H) as Hg; destruct c end;
    [|left; by apply refusal_error].
  right. exists inp, a0, st. split_and!; [done| |done|done|].
  + apply Hg. seen.
  + right. by response.
Qed.

(** C1. A login needs the password: whatever the other requests do meanwhile, a
  session cookie is set only with status 200, and statuses 200 (logged in) and
  202 (TOTP required) are answered only if, at one of the steps of this very
  request, the stored account had the submitted user name and its hash
  verified the submitted password; 200 only if that account had no TOTP
  secret. *)
Theorem login_requires_password decoded r s ts :
let resp := fst (run_handler (handleLogin cfg decoded r) s ts) in
let seen := r_seen (snd (run_handler (handleLogin cfg decoded r) s ts)) in
(sets_session resp = true → rs_Status resp = 200) ∧
(rs_Status resp = 200 ∨ rs_Status resp = 202 →
 ∃ inp a st, decoded = Some inp ∧ st ∈ seen ∧ password_holds st (li_Password inp) a ∧
   TrimSpace (li_Username inp) = a_Username a ∧
   (rs_Status resp = 200 ↔ a_TOTPSecret a = "")).
Proof.
intros resp seen'. subst resp seen'. unfold run_handler.
destruct (handleLogin cfg decoded r (mkRun s ts [])) as [resp h'] eqn:E. simpl.
apply handleLogin_cases in E as [(H1 & H2 & H3)|(inp & a & st & Hd & Hin & Hp & Hu & Hc)].
- split; [by rewrite H1|]. by intros [?|?].
- destruct Hc as [(Ht & Hs & Hn)|(Ht & Hs)].
  + split; [by rewrite Hn|]. intros _. exists inp, a, st. split_and!; try done. by rewrite Hs.
  + split; [done|]. intros _. by exists inp, a, st.
Qed.

(** What a successful second step has gone through, each fact at one of the
  states the request's own steps found. *)
Record totp_passed (r : request) (code : string) (seen : list Server) : Prop := mk_totp_passed {
tp_preauth : ∃ st p now, st ∈ seen ∧
  preAuth (sv_auth st) !! hashToken (preAuthToken cfg r) = Some p ∧
  now < pa_Expires p ∧ pa_Attempts p < PreAuthMaxAttempts cfg;
tp_code : ∃ st row now k, st ∈ seen ∧ t_admins (sv_db st) = Some row ∧
  matchTOTP (ar_totp_secret row) code now = Some k ∧
  (∃ st', st' ∈ seen ∧ ∃ row', t_admins (sv_db st') = Some row' ∧ ar_last_step row' < k);
tp_claim : ∃ st p now, st ∈ seen ∧
  preAuth (sv_auth st) !! hashToken (preAuthToken cfg r) = Some p ∧
  pa_Busy p = false ∧ now < pa_Expires p ∧ pa_Attempts p < PreAuthMaxAttempts cfg
}.

Lemma lookup_preauth_found key now m remember client :
snd (lookup_preauth cfg key now m) = PreAuthFound remember client →
∃ p, preAuth m !! key = Some p ∧ now < pa_Expires p ∧ pa_Attempts p < PreAuthMaxAttempts cfg.
Proof.
unfold lookup_preauth. cbn [preAuth set_preAuth].
destruct (cleanupPreAuthLocked now (preAuth m) !! key) as [p|] eqn:E; [|done].
destruct (Z.leb_spec (PreAuthMaxAttempts cfg) (pa_Attempts p)); [done|]. intros _. exists p.
apply map_lookup_filter_Some in E as [E Hb]. unfold Before in Hb. simpl in Hb. bool_to_prop. done.
Qed.

Lemma claimPreAuth_true key now m :
snd (claimPreAuth cfg key now m) = true →
∃ p, preAuth m !! key = Some p ∧ pa_Busy p = false ∧ now < pa_Expires p ∧
     pa_Attempts p < PreAuthMaxAttempts cfg.
Proof.
unfold claimPreAuth. destruct (preAuth m !! key) as [p|]; [|done].
unfold Before. destruct (Z.ltb_spec now (pa_Expires p)); [|done]. simpl.
destruct (pa_Busy p) eqn:Eb; [done|]. simpl.
destruct (Z.leb_spec (PreAuthMaxAttempts cfg) (pa_Attempts p)); [done|]. intros _. by exists p.
Qed.

Lemma GetAdmin_ok w a w' :
GetAdmin w = (Ok (Some a), w') →
∃ row, t_admins (w_db w) = Some row ∧ a_TOTPSecret a = ar_totp_secret row.
Proof.
unfold GetAdmin. intros [Ha _]%query_row_ok. destruct (t_admins (w_db w)) as [row|]; [|done].
injection Ha as ->. by exists row.
Qed.

Lemma lookup_step key (t : tick) m remember client now :
snd (let (m', l) := lookup_preauth cfg key (tk_now t) m in (m', (l, tk_now t)))
= (PreAuthFound remember client, now) →
snd (lookup_preauth cfg key (tk_now t) m) = PreAuthFound remember client.
Proof. destruct (lookup_preauth cfg key (tk_now t) m). by intros [= -> _]. Qed.

(** The last part of the second step: claim, transaction, answer. *)
Lemma totp_finish_cases key remember client k h resp h' :
(claimed ← auth_step (λ t, claimPreAuth cfg key (tk_now t));
 if negb (claimed : bool) then mret (json_error (clearPreAuthCookies cfg) 401 "preauth_invalid")
 else
   c ← createWebSessionWithTOTP cfg remember k;
   match c with
   | Err _ =>
     _ ← auth_step (λ _ m, (releasePreAuth key m, ()));
     mret (json_error [] 500 "session_error")
   | Ok consumed =>
     _ ← auth_step (λ _ m, (deletePreAuthKey key m, ()));
     match consumed with
     | None =>
       retry ← auth_step (λ t, recordTOTPAuthFailure cfg (tk_now t) (tk_now' t));
       mret (if 0 <? retry then writeAuthThrottle (clearPreAuthCookies cfg) retry
             else json_error (clearPreAuthCookies cfg) 401 "invalid_totp")
     | Some cookies =>
       _ ← auth_step (λ _ m, (clearTOTPAuthFailures m, ()));
       _ ← auth_step (λ _ m, (clearClientPasswordFailures client m, ()));
       mret (reply_json (cookies ++ clearPreAuthCookies cfg) 200 [("ok", JBool true)])
     end
   end) h = (resp, h') →
r_seen h ⊆ r_seen h' ∧
(refusal resp ∨
 rs_Status resp = 200 ∧
 (∃ st p now, st ∈ r_seen h' ∧ preAuth (sv_auth st) !! key = Some p ∧
    pa_Busy p = false ∧ now < pa_Expires p ∧ pa_Attempts p < PreAuthMaxAttempts cfg) ∧
 (∃ st row, st ∈ r_seen h' ∧ t_admins (sv_db st) = Some row ∧ ar_last_step row < k)).
Proof.
intros E. split; [revert E; apply grows_run; grow|]. run_inv.
destruct a eqn:Ea; cbn [negb] in E; run_inv; [|left; by apply refusal_error].
match goal with H : _ = true |- _ => apply claimPreAuth_true in H as (p & Hp & Hb & He & Hat) end.
match goal with c : res (option (list cookie)) |- _ => destruct c as [[cookies|]|e] end; run_inv;
  [|left; destruct (0 <? _); [apply refusal_throttle|by apply refusal_error]
   |left; by apply refusal_plain].
match goal with H : createWebSessionWithTOTP _ _ _ _ = _ |- _ =>
  pose proof (grows_run _ _ _ _ (grows_createWebSessionWithTOTP _ _ _) H) as Hg;
  apply createWebSessionWithTOTP_some in H as (st2 & row & Hin & Hrow & Hlt) end.
right. split; [by response|]. split.
- match goal with H : preAuth (sv_auth ?st) !! _ = _ |- _ => exists st, p end.
  eexists. split_and!; [|done|done|done|done].
  repeat match goal with H : r_seen _ = r_seen _ ++ _ |- _ => rewrite H in * end. set_solver.
- exists st2, row. split_and!; [seen|done|done].
Qed.

(** Every way [handleLoginTOTP] can end. *)
Lemma handleLoginTOTP_cases code r h resp h' :
handleLoginTOTP cfg code r h = (resp, h') →
refusal resp ∨
rs_Status resp = 200 ∧ preAuthToken cfg r ≠ "" ∧ ∃ c, code = Some c ∧ totp_passed r c (r_seen h').
Proof.
unfold handleLoginTOTP. intros E. run_inv.
match goal with x : option Z |- _ => destruct x as [retry|] end; run_inv;
  [left; apply refusal_throttle|].
destruct code as [code|]; run_inv; [|left; by apply refusal_plain].
destruct (String.eqb (preAuthToken cfg r) "") eqn:Ep; run_inv; [left; by apply refusal_error|].
bool_to_prop.
match goal with x : preauth_lookup * Z |- _ => destruct x as [[| |remember client] now] end;
  run_inv; [left; by apply refusal_error..|].
match goal with x : res (option AdminRecord) |- _ => destruct x as [[a1|]|e] end; run_inv;
  [|left; by apply refusal_plain..].
destruct (matchTOTP (a_TOTPSecret a1) code now) as [k|] eqn:Ek;
  [|run_inv; left; destruct (0 <? _); [apply refusal_throttle|];
    match goal with |- refusal (if ?x then _ else _) => destruct x end;
    [by apply refusal_error|by apply refusal_plain]].
apply totp_finish_cases in E as [Hg [Hr|(H200 & Hclaim & st4 & row4 & Hin4 & Hrow4 & Hlt)]];
  [by left|]. right. split_and!; [done|done|]. exists code. split; [done|].
match goal with H : GetAdmin _ = _ |- _ => apply GetAdmin_ok in H as (row & Hrow & Hsec) end.
match goal with H : _ = (PreAuthFound _ _, _) |- _ =>
  apply lookup_step, lookup_preauth_found in H as (p & Hp & He & Hat) end. simpl in Hrow.
split; [| |done].
- match goal with H : preAuth (sv_auth ?st) !! _ = _ |- _ => exists st, p end.
  eexists. split_and!; [apply Hg; seen|done|done|done].
- match goal with H : t_admins (sv_db ?st) = Some row |- _ => exists st, row, now, k end.
  split_and!; [apply Hg; seen|done|by rewrite <-Hsec|by eauto].
Qed.


(** *** Account changes *)

(** The requests of the account page, with their decoded bodies. *)
Inductive account_request : Type :=
| AcUsername (inp : option (string * string))
| AcPassword (valid : string → res string) (inp : option (string * string))
| AcTOTPSetup (uri : string → string → string) (inp : option string)
| AcTOTPEnable (inp : option (string * string))
| AcTOTPDisable (inp : option (string * string)).

Definition account_handler (q : account_request) : request → handler response :=
match q with
| AcUsername inp => handleChangeUsername cfg inp
| AcPassword valid inp => handleChangePassword cfg valid inp
| AcTOTPSetup uri inp => handleTOTPSetup cfg uri inp
| AcTOTPEnable inp => handleTOTPEnable cfg inp
| AcTOTPDisable inp => handleTOTPDisable cfg inp
end.

(** The current password the body submits. *)
Definition submitted_password (q : account_request) : option string :=
match q with
| AcTOTPSetup _ inp => inp
| AcUsername inp | AcPassword _ inp | AcTOTPEnable inp | AcTOTPDisable inp => fst <$> inp
end.

Lemma requireCurrentPassword_some password r h resp h' :
requireCurrentPassword cfg password r h = (Some resp, h') → rs_Status resp ≠ 200.
Proof.
unfold requireCurrentPassword. intros E.
destruct (String.eqb (sessionKey cfg r) ""); run_inv; [by simplify_eq|].
match goal with x : option Z |- _ => destruct x end; run_inv; [by simplify_eq|].
match goal with x : res bool |- _ => destruct x as [[]|e] end; run_inv; simplify_eq.
- by destruct (0 <? _).
- by destruct (String.eqb e errAuthBusy).
Qed.

Lemma requireCurrentPassword_key password r h h' :
requireCurrentPassword cfg password r h = (None, h') → sessionToken cfg r ≠ "".
Proof.
unfold requireCurrentPassword, sessionKey. intros E Ht. rewrite Ht in E. simpl in E. by run_inv.
Qed.

(** A handler that first requires the current password. *)
Lemma guarded_by_password password r (k : handler response) h resp h' :
grows k →
(refused ← requireCurrentPassword cfg password r;
 match refused with Some resp => mret resp | None => k end) h = (resp, h') →
rs_Status resp = 200 →
sessionToken cfg r ≠ "" ∧ ∃ st a, st ∈ r_seen h' ∧ password_holds st password a.
Proof.
intros Hg E H200. run_inv. match goal with x : option response |- _ => destruct x end; run_inv.
- by match goal with H : requireCurrentPassword _ _ _ _ = _ |- _ =>
    apply requireCurrentPassword_some in H end.
- match goal with H : requireCurrentPassword _ _ _ _ = _ |- _ =>
    split; [by eapply requireCurrentPassword_key|];
    apply requireCurrentPassword_none in H as (st & a & Hin & Hp) end.
  exists st, a. split; [|done]. by apply (grows_run _ _ _ _ Hg E).
Qed.

(** C14. Account changes need the current password: changing the username or the
  password and setting up, enabling or disabling TOTP succeed only for a
  request with a session cookie that submits a password which, at one of the
  request's own steps, verified against the stored hash. *)
Theorem account_change_requires_password q r s ts :
let resp := fst (run_handler (account_handler q r) s ts) in
let seen := r_seen (snd (run_handler (account_handler q r) s ts)) in
rs_Status resp = 200 →
sessionToken cfg r ≠ "" ∧
∃ password st a, submitted_password q = Some password ∧ st ∈ seen ∧ password_holds st password a.
Proof.
intros resp seen'. subst resp seen'. unfold run_handler.
destruct (account_handler q r (mkRun s ts [])) as [resp h'] eqn:E. simpl. intros H200.
enough (∃ password, submitted_password q = Some password ∧ sessionToken cfg r ≠ "" ∧
          ∃ st a, st ∈ r_seen h' ∧ password_holds st password a) as (pw & Hq & Ht & st & a & H)
  by (split; [done|]; by exists pw, st, a).
destruct q as [inp|valid inp|uri inp|inp|inp]; cbn [account_handler submitted_password] in *.
- unfold handleChangeUsername in E. destruct inp as [[current name]|]; run_inv; [|done].
  destruct (normalizeUsername name); [|by run_inv; subst].
  exists current. split; [done|]. eapply guarded_by_password; [|exact E|done]. grow.
- unfold handleChangePassword in E. destruct inp as [[current new]|]; run_inv; [|done].
  destruct (valid new); [|by run_inv; subst].
  exists current. split; [done|]. eapply guarded_by_password; [|exact E|done]. grow.
- unfold handleTOTPSetup in E. destruct inp as [current|]; [|by run_inv; subst].
  exists current. split; [done|]. eapply guarded_by_password; [|exact E|done]. grow.
- unfold handleTOTPEnable in E. destruct inp as [[current code]|]; [|by run_inv; subst].
  apply bind_inv in E as (secret & h1 & _ & E). destruct secret as [secret|]; [|by run_inv; subst].
  exists current. split; [done|]. eapply guarded_by_password; [|exact E|done]. grow.
- unfold handleTOTPDisable in E. destruct inp as [[current code]|]; [|by run_inv; subst].
  exists current. split; [done|]. eapply guarded_by_password; [|exact E|done]. grow.
Qed.

(** *** Attribution of requests *)

(** C32. A client cannot choose its identity: unless the connection comes from a
  configured trusted proxy, the key failures are counted under depends on the
  connection's address alone, whatever headers the request carries; behind a
  trusted proxy it is the single address in the configured header. *)
Theorem clientKey_not_spoofable r :
match remoteIP (rq_RemoteAddr r) with
| Some ip =>
  if negb (String.eqb (ClientIPHeader cfg) "") && isTrustedProxy cfg ip
  then ∀ value forwarded, HeaderGet r (ClientIPHeader cfg) = value →
         singleIPHeader value = Some forwarded → clientKey cfg r = AddrString (Unmap forwarded)
  else clientKey cfg r = AddrString (Unmap ip)
| None => clientKey cfg r = "unknown"
end ∧
∀ r', rq_RemoteAddr r' = rq_RemoteAddr r →
  (∀ ip, remoteIP (rq_RemoteAddr r) = Some ip → isTrustedProxy cfg ip = false) →
  clientKey cfg r' = clientKey cfg r.
Proof.
unfold clientKey. split.
- destruct (remoteIP (rq_RemoteAddr r)) as [ip|]; [|done].
  destruct (negb (String.eqb (ClientIPHeader cfg) "") && isTrustedProxy cfg ip); [|done].
  by intros value forwarded -> ->.
- intros r' -> Hip. destruct (remoteIP (rq_RemoteAddr r)) as [ip|]; [|done].
  by rewrite (Hip ip eq_refl), andb_false_r.
Qed.
End theorems.

Section guards.
Context (cfg : Config) {mo : MapOrder} {ic : InfoCodec} {ps : PasswordScheme}.

Lemma SessionValid_row t now w w' :
SessionValid t now w = (Ok true, w') →
∃ row, t_sessions (w_db w) !! hashToken t = Some row ∧ now < sr_expires_at row.
Proof.
unfold SessionValid. intros Hv. destruct (String.eqb t ""); [done|].
apply bind_ok in Hv as (row & w1 & [-> Hd]%query_row_ok & Hv).
destruct (t_sessions (w_db w) !! hashToken t) as [row|]; [|done]. simpl in Hv.
destruct (Z.leb_spec (sr_expires_at row) now); [|eauto].
by apply bind_ok in Hv as (x & w2 & _ & Hv).
Qed.

(** A guarded handler runs only for a request whose cookie names a session that
  was stored and unexpired when the guard looked, and that is not a cross-site
  request; every other request is answered 401 or 403. *)
Lemma requireAuth_guards {A} (refuse : response → A) next r h :
let run := requireAuth cfg refuse next r h in
(∃ h1 st row now, run = next r h1 ∧ st ∈ r_seen h1 ∧ sessionToken cfg r ≠ "" ∧
   t_sessions (sv_db st) !! hashToken (sessionToken cfg r) = Some row ∧
   now < sr_expires_at row ∧ sameOriginRequest r = true) ∨
(∃ text, fst run = refuse (http_error [] text 401) ∨ fst run = refuse (http_error [] text 403)).
Proof.
intros run. destruct run as [resp h'] eqn:E. subst run. unfold requireAuth, authenticated in E.
apply bind_inv in E as (ok & h1 & Ha & E).
destruct (String.eqb (sessionToken cfg r) "") eqn:Et; run_inv; [cbn [negb] in E; run_inv; right; eauto|].
match goal with x : res bool |- _ => destruct x as [[]|e] end; cbn [negb] in E;
  [|run_inv; right; eauto..].
destruct (sameOriginRequest r); cbn [negb] in E; [|run_inv; right; eauto]. left.
match goal with H : SessionValid _ _ _ = _ |- _ => apply SessionValid_row in H as (row & Hrow & Hlt) end.
cbn [w_db] in Hrow.
match type of E with next r ?h1 = _ =>
  match type of Hrow with t_sessions (sv_db ?st) !! _ = _ => exists h1, st, row end end.
eexists. split_and!; [done|seen|by apply String.eqb_neq|done|done|done].
Qed.
End guards.

(** *** A concrete account change *)

Definition demo_scheme : PasswordScheme :=
  argon2_scheme id demo_IDKey (λ _ _, false) 19 demo_IDKey_length ltac:(done).

#[local] Instance demo_codec' : InfoCodec := {| marshal_info i := Ok (Hostname i); unmarshal_info s := None |}.

Definition demo_hash : string :=
  match ps_hash (PasswordScheme:=demo_scheme) (Ok "0123456789abcdef") "correct horse battery" with
  | Ok h => h | Err _ => "" end.

Definition demo_server : Server :=
  New (mkDB ∅ (Some (mkAdminRow "admin" demo_hash "" (-1) 0)) ∅ ∅).

Definition demo_request : request :=
  mkRequest "POST" "/api/account/username" "10.0.0.1:9" [] [("homectl_session", "tok")] "" [].

Lemma account_change_requires_password_witness :
  let run := run_handler (account_handler demo_config (ps:=demo_scheme)
               (AcUsername (Some ("correct horse battery", "root"))) demo_request) demo_server [] in
  rs_Status (fst run) = 200 ∧ sessionToken demo_config demo_request ≠ "".
Proof.
  intros run. assert (H200 : rs_Status (fst run) = 200) by (vm_compute; reflexivity).
  split; [exact H200|].
  exact (proj1 (account_change_requires_password demo_config (ps:=demo_scheme)
    (AcUsername (Some ("correct horse battery", "root"))) demo_request demo_server [] H200)).
Defined.
