(* ===== verification/Hub.v ===== *)
(** * Agents, requests and terminals ([internal/server/server.go])

    The agent's handshake and messages, the heartbeat queue, pending requests,
    browser terminals, device handlers and shutdown. *)

From S2P Require Export Auth.

(** What a handler answers: an HTTP response, the JSON of a device's message, or
    the device list. *)
Record deviceView : Type := mkView {
  dv_ID : string;
  dv_Name : string;
  dv_LastSeen : Z;
  dv_Info : option SystemInfo;
  dv_Online : bool;
  dv_MetricCards : list string
}.

Inductive reply : Type :=
| RPlain (r : response)
| RMessage (m : Message)
| RDevices (l : list deviceView).

Definition set_RequestID (id : string) (m : Message) : Message :=
  mkMessage (m_Type m) (m_DeviceID m) (m_Name m) (m_Token m) (m_EnrollmentToken m) (m_DeviceToken m)
    (m_Capabilities m) id (m_SessionID m) (m_Action m) (m_Command m) (m_Path m) (m_Target m)
    (m_Data m) (m_Error m) (m_ExitCode m) (m_Cols m) (m_Rows m) (m_Size m) (m_Credits m) (m_Mode m)
    (m_Entries m) (m_Info m) (m_MetricCards m).

(** [protocol.Message{Type: "action", Action: a}], [{Type: "exec", Command: c}],
    [{Type: "metric_policy", MetricCards: cards}] *)
Definition action_msg (a : string) : Message :=
  mkMessage "action" "" "" "" "" "" [] "" "" a "" "" "" "" "" 0 0 0 0 0 0 [] None [].
Definition exec_msg (c : string) : Message :=
  mkMessage "exec" "" "" "" "" "" [] "" "" "" c "" "" "" "" 0 0 0 0 0 0 [] None [].
Definition policy_msg (cards : list string) : Message :=
  mkMessage "metric_policy" "" "" "" "" "" [] "" "" "" "" "" "" "" "" 0 0 0 0 0 0 [] None cards.
Definition ack_msg (deviceToken : string) (cards capabilities : list string) : Message :=
  mkMessage "hello_ack" "" "" "" "" deviceToken capabilities "" "" "" "" "" "" "" "" 0 0 0 0 0 0 []
    None cards.

(** ** Heap updates *)

Definition upd_conn (i : Z) (f : AgentConn → AgentConn) (s : Server) : Server :=
  with_conns (alter f i (sv_conns s)) s.
Definition upd_req (i : Z) (f : pendingRequest → pendingRequest) (s : Server) : Server :=
  with_reqs (alter f i (sv_reqs s)) s.
Definition upd_term (i : Z) (f : BrowserTerm → BrowserTerm) (s : Server) : Server :=
  with_termobjs (alter f i (sv_termobjs s)) s.

Definition set_heartbeats q (a : AgentConn) :=
  mkAgent (ag_id a) (ag_fileDownloadCredits a) (ag_fileUploadCredits a) (ag_metricPolicy a) q
    (ag_done a) (ag_sent a).
Definition set_done (a : AgentConn) :=
  mkAgent (ag_id a) (ag_fileDownloadCredits a) (ag_fileUploadCredits a) (ag_metricPolicy a)
    (ag_heartbeats a) true (ag_sent a).
Definition add_sent m (a : AgentConn) :=
  mkAgent (ag_id a) (ag_fileDownloadCredits a) (ag_fileUploadCredits a) (ag_metricPolicy a)
    (ag_heartbeats a) (ag_done a) (ag_sent a ++ [m]).

(** [AgentConn.stop]: closing twice is the same as once. *)
Definition stop (i : Z) : Server → Server := upd_conn i set_done.

(** ** Sending to an agent

    A write fails when the connection was closed or the network fails. *)
Definition send_agent (i : Z) (m : Message) (fails : bool) (s : Server) : res unit * Server :=
  match sv_conns s !! i with
  | Some a => if fails || ag_done a then (Err "write failed", s) else (Ok (), upd_conn i (add_sent m) s)
  | None => (Err "write failed", s)
  end.

Definition sendAgent (i : Z) (m : Message) : handler (res unit) :=
  step (λ t s, send_agent i m (tk_send_fails t) s).

(** ** Pending requests *)

Definition finish (err : option string) (p : pendingRequest) : pendingRequest :=
  if pr_done p then p else mkPending (pr_ch p) true err.

Definition failure (p : pendingRequest) : string :=
  default "device response stream ended" (pr_err p).

Definition errPendingBackpressure : string :=
  "device response exceeded the bounded receiver queue".

(** The result is [(delivered, overflow)]. *)
Definition deliver (m : Message) (p : pendingRequest) : pendingRequest * (bool * bool) :=
  if pr_done p then (p, (false, false))
  else if Z.of_nat (length (pr_ch p)) <? pendingQueueCapacity
  then (mkPending (pr_ch p ++ [m]) false (pr_err p), (true, false))
  else (finish (Some errPendingBackpressure) p, (false, true)).

Definition newPending : handler (string * Z) :=
  step (λ t s,
    let id := randomToken t in
    let i := sv_next s in
    ((id, i), with_next (i + 1)
                (with_reqs (<[i := mkPending [] false None]> (sv_reqs s))
                   (with_pending (<[id := i]> (sv_pending s)) s)))).

Definition remove_pending (id : string) (i : Z) (s : Server) : Server :=
  let s := if bool_decide (sv_pending s !! id = Some i)
           then with_pending (delete id (sv_pending s)) s else s in
  upd_req i (finish None) s.

Definition removePending (id : string) (i : Z) : handler unit :=
  step (λ _ s, ((), remove_pending id i s)).

(** The receive of [request]: whichever of the ready cases the select takes. *)
Definition await_response (w : slot_wait) (i : Z) (s : Server) : res Message * Server :=
  let timeout := (Err "device response timeout", s) in
  match sv_reqs s !! i with
  | None => timeout
  | Some p =>
    let take_done k := if pr_done p then (Err (failure p), s) else k in
    let take_msg k := match pr_ch p with
                      | m :: rest => (Ok m, upd_req i (λ p, mkPending rest (pr_done p) (pr_err p)) s)
                      | [] => k
                      end in
    match w with
    | WaitSlot => take_msg (take_done timeout)
    | WaitCancelled => take_done (take_msg timeout)
    | WaitTimeout => timeout
    end
  end.

(** ** Terminals *)

(** [BrowserTerm.enqueue]: a full queue closes the terminal. *)
Definition enqueue (m : Message) (t : BrowserTerm) : BrowserTerm * bool :=
  if bt_done t then (t, false)
  else if Z.of_nat (length (bt_output t)) <? browserTermQueueCapacity
  then (mkTerm (bt_sessionKey t) (bt_deviceID t) (bt_output t ++ [m]) false, true)
  else (forceClose t, false).

(** One turn of [runWriter]: the frame written to the browser, and the terminal
    closed after an exit message or a failed write. *)
Definition writer_turn (write_fails : bool) (t : BrowserTerm)
    : BrowserTerm * option (string * string * string) :=
  if bt_done t then (t, None)
  else
    match bt_output t with
    | [] => (t, None)
    | m :: rest =>
      let typ := if String.eqb (m_Type m) "term_exit" then "exit" else "data" in
      let t := mkTerm (bt_sessionKey t) (bt_deviceID t) rest false in
      (if write_fails || String.eqb (m_Type m) "term_exit" then forceClose t else t,
       if write_fails then None else Some (typ, m_Data m, m_Error m))
    end.

Section hub.
Context (cfg : Config) {mo : MapOrder} {ic : InfoCodec} {ps : PasswordScheme}.

(** ** Heartbeats *)

Definition heartbeats_of (i : Z) (s : Server) : list heartbeatUpdate :=
  match sv_conns s !! i with Some a => ag_heartbeats a | None => [] end.
Definition done_of (i : Z) (s : Server) : bool :=
  match sv_conns s !! i with Some a => ag_done a | None => true end.

(** A non-blocking send on the channel of capacity one. *)
Definition try_push (i : Z) (hb : heartbeatUpdate) (s : Server) : bool * Server :=
  match heartbeats_of i s with
  | [] => (true, upd_conn i (set_heartbeats [hb]) s)
  | _ => (false, s)
  end.

(** A non-blocking receive. *)
Definition try_pop (i : Z) (s : Server) : option heartbeatUpdate * Server :=
  match heartbeats_of i s with
  | hb :: rest => (Some hb, upd_conn i (set_heartbeats rest) s)
  | [] => (None, s)
  end.

(** Four selects in a row; the writer goroutine may run in between. *)
Definition queueHeartbeat (i : Z) (hb : heartbeatUpdate) : handler unit :=
  stopped ← step (λ _ s, (done_of i s, s));
  if stopped : bool then mret ()
  else
    pushed ← step (λ _ s, try_push i hb s);
    if pushed : bool then mret ()
    else
      _ ← step (λ _ s, try_pop i s);
      _ ← step (λ _ s, try_push i hb s);
      mret ().

(** One turn of [runHeartbeatWriter]; a failed update is only logged. *)
Definition heartbeatWriter_turn (i : Z) : handler (option heartbeatUpdate) :=
  x ← step (λ _ s, if done_of i s then (None, s)
                   else let (hb, s') := try_pop i s in
                        ((match sv_conns s !! i, hb with
                          | Some a, Some hb => Some (ag_id a, hb)
                          | _, _ => None
                          end), s'));
  match x with
  | None => mret None
  | Some (id, hb) =>
    _ ← db_step (λ _, UpdateHeartbeat id (hb_seenAt hb) (hb_info hb));
    mret (Some hb)
  end.

(** ** Messages from an agent *)

(** [p.deliver(m)] on the shared object. *)
Definition deliver_to (j : Z) (m : Message) (s : Server) : (bool * bool) * Server :=
  match sv_reqs s !! j with
  | None => ((false, false), s)
  | Some p => let (p', r) := deliver m p in (r, upd_req j (λ _, p') s)
  end.

Definition handleAgentMessage (i : Z) (m : Message) : handler unit :=
  current ← step (λ _ s,
    (match sv_conns s !! i with
     | Some a => bool_decide (sv_agents s !! ag_id a = Some i)
     | None => false
     end, s));
  if negb (current : bool) then mret ()
  else
    p ← (if String.eqb (m_RequestID m) "" then mret None
         else step (λ _ s, (sv_pending s !! m_RequestID m, s)));
    match p : option Z with
    | Some j =>
      r ← step (λ _ s, deliver_to j m s);
      if snd r && HasPrefix (m_Type m) "file_"
      then _ ← sendAgent i (request_msg "file_cancel" (m_RequestID m) "" "" "" "" 0 0 0 []); mret ()
      else mret ()
    | None =>
      if String.eqb (m_Type m) "heartbeat" then
        now ← step (λ t s, (Unix (tk_now t), s));
        queueHeartbeat i (mkHeartbeat now (m_Info m))
      else if String.eqb (m_Type m) "term_data" || String.eqb (m_Type m) "term_exit" then
        term ← step (λ _ s, (sv_terms s !! m_SessionID m, s));
        match term : option Z with
        | Some j => step (λ _ s, ((), upd_term j (λ t, fst (enqueue m t)) s))
        | None => mret ()
        end
      else mret ()
    end.

(** ** The handshake *)

(** The checks on the first message; the name it is stored under. *)
Definition check_hello (hello : Message) : res string :=
  if negb (String.eqb (m_Type hello) "hello") || negb (validDeviceID (m_DeviceID hello))
  then Err "bad hello"
  else
    match hello_name (m_Name hello) (m_DeviceID hello) with
    | Err _ => Err "bad hello"
    | Ok name => if validCapabilities (m_Capabilities hello) then Ok name else Err "bad hello"
    end.

(** The tokens of a device not known yet: the enrollment token, the device token
    to store and the one to announce. *)
Definition enrollment_tokens (hello : Message) (fresh : string) : res (string * string * string) :=
  if String.eqb (m_EnrollmentToken hello) "" then
    if negb (ValidEnrollmentToken (m_Token hello)) then Err "bad hello"
    else Ok (m_Token hello, fresh, fresh)
  else if negb (ValidEnrollmentToken (m_EnrollmentToken hello))
          || negb (ValidDeviceToken (m_Token hello)) then Err "bad hello"
  else Ok (m_EnrollmentToken hello, m_Token hello, "").

Definition secureEqualBytes (a b : string) : bool :=
  if negb (slen a =? slen b) || (slen a =? 0) then false else String.eqb a b.

(** A known device must present its token. *)
Definition device_authenticated (hello : Message) (rec : DeviceRecord) : bool :=
  negb (negb (ValidDeviceToken (m_Token hello))
        || (negb (String.eqb (m_EnrollmentToken hello) "")
            && negb (ValidEnrollmentToken (m_EnrollmentToken hello)))
        || negb (secureEqualBytes (hashToken (m_Token hello)) (d_TokenHash rec))).

(** The new connection replaces the device's old one in the map. *)
Definition register_agent (hello : Message) (s : Server) : (Z * option Z) * Server :=
  let i := sv_next s in
  let has := HasCapability (m_Capabilities hello) in
  let a := mkAgent (m_DeviceID hello) (has CapabilityFileDownloadCredits)
             (has CapabilityFileUploadCredits) (has CapabilityMetricPolicy) [] false [] in
  ((i, sv_agents s !! m_DeviceID hello),
   with_next (i + 1)
     (with_conns (<[i := a]> (sv_conns s)) (with_agents (<[m_DeviceID hello := i]> (sv_agents s)) s))).

Definition ack_capabilities (hello : Message) : list string :=
  let has := HasCapability (m_Capabilities hello) in
  (if has CapabilityFileDownloadCredits then [CapabilityFileDownloadCredits] else []) ++
  (if has CapabilityFileUploadCredits then [CapabilityFileUploadCredits] else []).

(** The part of [handleAgentWS] before the registration: the token to announce
    and the metric cards, or the reason the connection is closed. *)
Definition authenticateAgent (hello : Message) : handler (res (string * list string)) :=
  match check_hello hello with
  | Err e => mret (Err e)
  | Ok name =>
    rec ← db_step (λ _, Get (m_DeviceID hello));
    match rec with
    | Err _ => mret (Err "db error")
    | Ok (Some rec) =>
      mret (if device_authenticated hello rec then Ok ("", d_MetricCards rec)
            else Err "authentication denied")
    | Ok None =>
      fresh ← step (λ t s, (randomToken t, s));
      match enrollment_tokens hello fresh with
      | Err e => mret (Err e)
      | Ok (enrollment, device, announce) =>
        ok ← db_step (λ t, EnrollDevice enrollment
               (mkDevice (m_DeviceID hello) name (hashToken device) (Unix (tk_now t)) None 0 [])
               (Unix (tk_now' t)));
        mret (match ok with
              | Err _ => Err "db error"
              | Ok false => Err "enrollment denied"
              | Ok true => Ok (announce, DefaultMetricCards)
              end)
      end
    end
  end.

(** [handleAgentWS] up to its read loop: the connection's serial. *)
Definition connectAgent (hello : option Message) : handler (res Z) :=
  match hello with
  | None => mret (Err "bad hello")
  | Some hello =>
    a ← authenticateAgent hello;
    match a with
    | Err e => mret (Err e)
    | Ok (announce, cards) =>
      x ← step (λ _ s, register_agent hello s);
      let (i, old) := x : Z * option Z in
      _ ← match old with
          | None => mret ()
          | Some o =>
            _ ← step (λ _ s, ((), closeBrowserTermsForDevice (m_DeviceID hello) s));
            step (λ _ s, ((), stop o s))
          end;
      sent ← sendAgent i (ack_msg announce cards (ack_capabilities hello));
      mret (match sent with Ok _ => Ok i | Err e => Err e end)
    end
  end.

(** The deferred clean-up when the read loop ends. *)
Definition disconnectAgent (id : string) (i : Z) : handler unit :=
  removed ← step (λ _ s, if bool_decide (sv_agents s !! id = Some i)
                         then (true, with_agents (delete id (sv_agents s)) s) else (false, s));
  _ ← (if removed : bool then step (λ _ s, ((), closeBrowserTermsForDevice id s)) else mret ());
  step (λ _ s, ((), stop i s)).

(** ** Devices *)

(** [time.Since(time.Unix(d.LastSeen, 0))] at [now]. *)
Definition seen_recently (lastSeen now : Z) : bool :=
  negb ((lastSeen =? 0) || (AgentOfflineTimeout cfg <? Sub now (UnixTime lastSeen))).

Definition deviceOnline (d : DeviceRecord) : handler bool :=
  step (λ t s, (seen_recently (d_LastSeen d) (tk_now t)
                && bool_decide (is_Some (sv_agents s !! d_ID d)), s)).

Definition device_view (d : DeviceRecord) (online : bool) : deviceView :=
  mkView (d_ID d) (d_Name d) (d_LastSeen d)
    (if online then d_Info d else ClearDynamicMetrics (d_Info d)) online (d_MetricCards d).

Fixpoint device_views (l : list DeviceRecord) : handler (list deviceView) :=
  match l with
  | [] => mret []
  | d :: rest =>
    online ← deviceOnline d;
    views ← device_views rest;
    mret (device_view d online :: views)
  end.

Definition handleDevices : handler reply :=
  l ← db_step (λ _, List_);
  match l with
  | Err _ => mret (RPlain (http_error [] "db error" 500))
  | Ok l => views ← device_views l; mret (RDevices views)
  end.

Definition handleDeviceOrder (ids : option (list string)) : handler response :=
  match ids with
  | None | Some [] => mret (http_error [] "invalid device order" 400)
  | Some ids =>
    r ← db_step (λ _, ReorderDevices ids);
    mret (match r with
          | Err e => http_error [] e 400
          | Ok _ => reply_json [] 200 [("ok", JBool true)]
          end)
  end.

Definition handleUpdateDevice (name : option string) (r : request) : handler response :=
  let id := TrimSpace (rq_PathId r) in
  if String.eqb id "" then mret (http_error [] "invalid device" 400)
  else
    match name with
    | None => mret (http_error [] "bad request" 400)
    | Some name =>
      match normalizeDeviceName name with
      | Err e => mret (http_error [] e 400)
      | Ok name =>
        rec ← db_step (λ _, Get id);
        match rec with
        | Err _ => mret (http_error [] "db error" 500)
        | Ok None => mret (http_error [] "device not found" 404)
        | Ok (Some _) =>
          u ← db_step (λ _, UpdateDeviceName id name);
          mret (match u with
                | Err _ => http_error [] "db error" 500
                | Ok _ => reply_json [] 200 [("ok", JBool true); ("id", JStr id); ("name", JStr name)]
                end)
        end
      end
    end.

Definition handleMetricCards (cards : option (list string)) (r : request) : handler response :=
  let id := TrimSpace (rq_PathId r) in
  if String.eqb id "" then mret (http_error [] "invalid device" 400)
  else
    match cards with
    | None => mret (http_error [] "bad request" 400)
    | Some cards =>
      match NormalizeMetricCards cards 3 with
      | Err e => mret (http_error [] e 400)
      | Ok cards =>
        u ← db_step (λ _, UpdateMetricCards id cards);
        match u with
        | Err e => mret (if String.eqb e "device not found" then http_error [] e 404
                         else http_error [] "db error" 500)
        | Ok _ =>
          agent ← step (λ _ s, (match sv_agents s !! id with
                                | Some i => Some (i, match sv_conns s !! i with
                                                     | Some a => ag_metricPolicy a
                                                     | None => false end)
                                | None => None
                                end, s));
          sent ← match agent : option (Z * bool) with
                 | Some (i, true) => sendAgent i (policy_msg cards)
                 | _ => mret (Err "")
                 end;
          mret (reply_json [] 200
                  [("ok", JBool true); ("metric_cards", JStrs cards);
                   ("applied_online", JBool (is_ok sent));
                   ("agent_online", JBool (bool_decide (is_Some agent)));
                   ("policy_supported", JBool (match agent with Some (_, p) => p | None => false end))])
        end
      end
    end.

Definition handleDeleteDevice (r : request) : handler response :=
  let id := TrimSpace (rq_PathId r) in
  if String.eqb id "" then mret (http_error [] "invalid device" 400)
  else
    rec ← db_step (λ _, Get id);
    match rec with
    | Err _ => mret (http_error [] "db error" 500)
    | Ok None => mret (http_error [] "device not found" 404)
    | Ok (Some _) =>
      u ← db_step (λ _, DeleteDevice id);
      match u with
      | Err _ => mret (http_error [] "db error" 500)
      | Ok _ =>
        agent ← step (λ _ s, (sv_agents s !! id, with_agents (delete id (sv_agents s)) s));
        _ ← match agent : option Z with
            | Some i =>
              _ ← step (λ _ s, ((), closeBrowserTermsForDevice id s));
              step (λ _ s, ((), stop i s))
            | None => mret ()
            end;
        mret (reply_json [] 200 [("ok", JBool true)])
      end
    end.

(** ** Requests to an agent *)

Definition getOnlineAgent (deviceID : string) : handler (res Z) :=
  rec ← db_step (λ _, Get deviceID);
  match rec with
  | Err _ => mret (Err "db error")
  | Ok None => mret (Err "device offline")
  | Ok (Some d) =>
    online ← deviceOnline d;
    if negb (online : bool) then mret (Err "device offline")
    else
      agent ← step (λ _ s, (sv_agents s !! deviceID, s));
      mret (match agent with Some i => Ok i | None => Err "device offline" end)
  end.

(** [Server.request] ([do_request]: [request] is a record here). *)
Definition do_request (deviceID : string) (m : Message) : handler (res Message) :=
  agent ← getOnlineAgent deviceID;
  match agent with
  | Err e => mret (Err e)
  | Ok i =>
    x ← newPending;
    let (id, j) := x : string * Z in
    sent ← sendAgent i (set_RequestID id m);
    r ← match sent with
        | Err e => mret (Err e)
        | Ok _ => step (λ t s, await_response (tk_wait t) j s)
        end;
    _ ← removePending id j;
    mret r
  end.

Definition handleAction (action : option string) (r : request) : handler reply :=
  match action with
  | None => mret (RPlain (http_error [] "bad request" 400))
  | Some action =>
    if negb (String.eqb action "reboot") && negb (String.eqb action "poweroff")
    then mret (RPlain (http_error [] "unsupported action" 400))
    else
      x ← do_request (rq_PathId r) (action_msg action);
      mret (match x with
            | Err e => RPlain (http_error [] e 502)
            | Ok m => RMessage m
            end)
  end.

Definition handleExec (command : option string) (r : request) : handler reply :=
  if negb (AllowExec cfg) then mret (RPlain (http_error [] "exec disabled" 403))
  else
    match command with
    | None => mret (RPlain (http_error [] "bad request" 400))
    | Some command =>
      let command := TrimSpace command in
      if String.eqb command "" || (MaxCommandLength cfg <? slen command)
      then mret (RPlain (http_error [] "invalid command" 400))
      else
        x ← do_request (rq_PathId r) (exec_msg command);
        mret (match x with
              | Err e => RPlain (http_error [] e 502)
              | Ok m => RMessage m
              end)
    end.

(** ** Browser terminals *)

Inductive term_open : Type :=
| TermRefused (r : response)
| TermClosed                       (** accepted, then closed *)
| TermOpen (agent : Z) (sid : string) (term : Z).

Definition register_term (sid key deviceID : string) (s : Server) : Z * Server :=
  let j := sv_next s in
  (j, with_next (j + 1)
        (with_termobjs (<[j := mkTerm key deviceID [] false]> (sv_termobjs s))
           (with_terms (<[sid := j]> (sv_terms s)) s))).

(** The deferred clean-up of [handleTerminalWS]. *)
Definition unregister_term (agent : Z) (sid : string) (j : Z) : handler unit :=
  _ ← step (λ _ s, ((), with_terms (delete sid (sv_terms s)) s));
  _ ← step (λ _ s, ((), upd_term j forceClose s));
  _ ← sendAgent agent (session_msg "term_close" sid "" "" 0 0);
  mret ().

(** [handleTerminalWS] up to its read loop.  The session is checked, and checked
    again once the terminal is registered. *)
Definition openTerminal (r : request) : handler term_open :=
  let token := sessionToken cfg r in
  e ← db_step (λ t, SessionExpiry token (Unix (tk_now t)));
  match e with
  | Err _ => mret (TermRefused (http_error [] "session check failed" 500))
  | Ok None => mret (TermRefused (http_error [] "unauthorized" 401))
  | Ok (Some expiresAt) =>
    if negb (AllowTerminal cfg) then mret (TermRefused (http_error [] "terminal disabled" 403))
    else
      agent ← getOnlineAgent (rq_PathId r);
      match agent with
      | Err e => mret (TermRefused (http_error [] e 502))
      | Ok i =>
        x ← step (λ t s, let sid := randomToken t in
                         let (j, s') := register_term sid (hashToken token) (rq_PathId r) s in
                         ((sid, j), s'));
        let (sid, j) := x : string * Z in
        valid ← db_step (λ t, SessionValid token (Unix (tk_now t)));
        match valid with
        | Ok true =>
          late ← step (λ t s, (Until (UnixTime expiresAt) (tk_now t) <=? 0, s));
          if late : bool then _ ← unregister_term i sid j; mret TermClosed
          else
            let dim name fallback := parseTerminalDimension
                  (default "" (find_value name (rq_Query r))) fallback in
            sent ← sendAgent i (session_msg "term_open" sid "" "" (dim "cols" 100) (dim "rows" 30));
            match sent with
            | Err _ => _ ← unregister_term i sid j; mret TermClosed
            | Ok _ => mret (TermOpen i sid j)
            end
        | _ => _ ← unregister_term i sid j; mret TermClosed
        end
      end
  end.

(** A frame from the browser: [(type, data, cols, rows)]. *)
Definition browser_frame (agent : Z) (sid : string) (f : string * string * Z * Z) : handler unit :=
  let '(typ, data, cols, rows) := f in
  if String.eqb typ "input"
  then _ ← sendAgent agent (session_msg "term_input" sid data "" 0 0); mret ()
  else if String.eqb typ "resize"
  then _ ← sendAgent agent (session_msg "term_resize" sid "" "" cols rows); mret ()
  else mret ().

(** ** Shutdown *)

Definition Shutdown (s : Server) : Server :=
  let reqs := (map_to_list (sv_pending s)).*2 in
  let terms := (map_to_list (sv_terms s)).*2 in
  let conns := (map_to_list (sv_agents s)).*2 in
  let s := with_agents ∅ (with_terms ∅ (with_pending ∅ s)) in
  let s := foldr (λ j, upd_req j (finish (Some "http: Server closed"))) s reqs in
  let s := foldr (λ j, upd_term j forceClose) s terms in
  foldr stop s conns.
End hub.
