(* ===== verification/HubProps.v ===== *)
(** * Guarantees of the agent hub

    Bounded queues, the agent handshake, terminals and the sessions they were
    opened with, the device list, shutdown. *)

From S2P Require Export Hub.
From S2P Require Export AuthProps.
From S2P Require Export StoreProps.

(** ** Pending requests *)

Inductive pending_op : Type :=
| PDeliver (m : Message)
| PReceive
| PFinish (err : option string).

(** A history of one pending request: the request, what was received from it and
    what [deliver] accepted. *)
Record pending_run : Type := mkPendingRun {
  pn_req : pendingRequest;
  pn_received : list Message;
  pn_accepted : list Message
}.

Definition pending_step (x : pending_run) (op : pending_op) : pending_run :=
  let p := pn_req x in
  match op with
  | PDeliver m =>
    let (p', r) := deliver m p in
    mkPendingRun p' (pn_received x) (pn_accepted x ++ (if fst r : bool then [m] else []))
  | PReceive =>
    match pr_ch p with
    | m :: rest => mkPendingRun (mkPending rest (pr_done p) (pr_err p)) (pn_received x ++ [m]) (pn_accepted x)
    | [] => x
    end
  | PFinish err => mkPendingRun (finish err p) (pn_received x) (pn_accepted x)
  end.

Definition run_pending (x : pending_run) (ops : list pending_op) : pending_run :=
  foldl pending_step x ops.

Definition fresh_pending : pending_run := mkPendingRun (mkPending [] false None) [] [].

Definition pending_ok (x : pending_run) : Prop :=
  pn_received x ++ pr_ch (pn_req x) = pn_accepted x ∧
  Z.of_nat (length (pr_ch (pn_req x))) <= pendingQueueCapacity.

Lemma pending_step_ok x op : pending_ok x → pending_ok (pending_step x op).
Proof.
  intros [Hf Hl]. destruct op as [m| |err]; simpl.
  - unfold deliver. destruct (pr_done _); [by rewrite app_nil_r|].
    destruct (Z.ltb_spec (Z.of_nat (length (pr_ch (pn_req x)))) pendingQueueCapacity); split; simpl.
    + by rewrite app_assoc, Hf.
    + rewrite length_app. simpl. lia.
    + unfold finish. rewrite app_nil_r. by destruct (pr_done _).
    + unfold finish. by destruct (pr_done _).
  - destruct (pr_ch (pn_req x)) as [|m rest] eqn:E; split; simpl; rewrite ?E; try done.
    + by rewrite <-app_assoc.
    + simpl in Hl. lia.
  - unfold pending_ok, finish. by destruct (pr_done (pn_req x)).
Qed.

Lemma run_pending_ok ops x : pending_ok x → pending_ok (run_pending x ops).
Proof.
  revert x. induction ops as [|op ops IH]; intros x Hx; [done|]. by apply IH, pending_step_ok.
Qed.

(** A finished request accepts nothing and keeps its error. *)
Lemma pending_step_done x op :
  pr_done (pn_req x) = true →
  let y := pending_step x op in
  pr_done (pn_req y) = true ∧ pr_err (pn_req y) = pr_err (pn_req x) ∧ pn_accepted y = pn_accepted x.
Proof.
  intros Hd. destruct op as [m| |err]; simpl; unfold deliver, finish; rewrite ?Hd; simpl;
    rewrite ?app_nil_r; try done. by destruct (pr_ch (pn_req x)).
Qed.

Lemma run_pending_done ops x :
  pr_done (pn_req x) = true →
  let y := run_pending x ops in
  pr_done (pn_req y) = true ∧ pr_err (pn_req y) = pr_err (pn_req x) ∧ pn_accepted y = pn_accepted x.
Proof.
  revert x. induction ops as [|op ops IH]; intros x Hd; [done|].
  destruct (pending_step_done x op Hd) as (Hd' & He & Ha).
  destruct (IH (pending_step x op) Hd') as (H1 & H2 & H3). simpl in *.
  by rewrite H2, H3, He, Ha.
Qed.

(** C20. The response queue of a request is a bounded first-in-first-out queue.
    After any history of a new request the messages received so far, followed by
    those still queued, are exactly those [deliver] accepted, in order, and at
    most eight are queued.  [deliver] accepts a message exactly while the request
    is open and has room; the ninth unread message closes it with the
    backpressure error.  Once closed, whatever happens next, the first error
    stays and nothing more is accepted. *)
Theorem pending_fifo ops ops' m :
  let x := run_pending fresh_pending ops in
  let y := run_pending x ops' in
  let p := pn_req x in
  pn_received x ++ pr_ch p = pn_accepted x ∧
  Z.of_nat (length (pr_ch p)) <= pendingQueueCapacity ∧
  (fst (snd (deliver m p)) = true ↔
   pr_done p = false ∧ Z.of_nat (length (pr_ch p)) < pendingQueueCapacity) ∧
  (snd (snd (deliver m p)) = true ↔
   pr_done p = false ∧ Z.of_nat (length (pr_ch p)) = pendingQueueCapacity) ∧
  (snd (snd (deliver m p)) = true → failure (fst (deliver m p)) = errPendingBackpressure ∧
                                    pr_done (fst (deliver m p)) = true) ∧
  (pr_done p = true → failure (pn_req y) = failure p ∧ pr_done (pn_req y) = true ∧
                      pn_accepted y = pn_accepted x).
Proof.
  intros x y p. destruct (run_pending_ok ops fresh_pending) as [Hf Hl]; [done|].
  subst y p. fold x in Hf, Hl. split; [done|]. split; [done|]. unfold deliver.
  destruct (pr_done (pn_req x)) eqn:Ed.
  - split_and!; try naive_solver. intros _.
    destruct (run_pending_done ops' x Ed) as (H1 & H2 & H3). unfold failure. by rewrite H2.
  - destruct (Z.ltb_spec (Z.of_nat (length (pr_ch (pn_req x)))) pendingQueueCapacity); simpl;
      split_and!; try naive_solver lia.
    intros _. unfold failure, finish. by rewrite Ed.
Qed.

Lemma pending_fifo_witness :
  let x := run_pending fresh_pending (repeat (PDeliver (exec_msg "ls")) 9) in
  failure (pn_req (run_pending x [PReceive; PFinish (Some "late")])) = errPendingBackpressure.
Proof.
  pose proof (pending_fifo (repeat (PDeliver (exec_msg "ls")) 9) [PReceive; PFinish (Some "late")]
                (exec_msg "ls")) as (_ & _ & _ & _ & _ & H).
  exact (proj1 (H eq_refl)).
Defined.

(** ** Terminal output *)

Inductive term_op : Type :=
| TEnqueue (m : Message)
| TWrite (fails : bool)
| TClose.

Definition frame : Type := string * string * string.

Definition frame_of (m : Message) : frame :=
  (if String.eqb (m_Type m) "term_exit" then "exit" else "data", m_Data m, m_Error m).

Record term_run : Type := mkTermRun {
  tn_term : BrowserTerm;
  tn_frames : list frame;
  tn_accepted : list Message
}.

Definition term_step (x : term_run) (op : term_op) : term_run :=
  let t := tn_term x in
  match op with
  | TEnqueue m =>
    let (t', ok) := enqueue m t in
    mkTermRun t' (tn_frames x) (tn_accepted x ++ (if ok : bool then [m] else []))
  | TWrite fails =>
    let (t', f) := writer_turn fails t in
    mkTermRun t' (tn_frames x ++ match f with Some f => [f] | None => [] end) (tn_accepted x)
  | TClose => mkTermRun (forceClose t) (tn_frames x) (tn_accepted x)
  end.

Definition run_term (x : term_run) (ops : list term_op) : term_run := foldl term_step x ops.

Definition fresh_term (key dev : string) : term_run := mkTermRun (mkTerm key dev [] false) [] [].

Definition is_exit (m : Message) : bool := String.eqb (m_Type m) "term_exit".

(** While the terminal is open nothing is lost and no exit was written; once it
    is closed the frames are a prefix of the accepted messages, an exit at most
    the last. *)
Definition term_ok (x : term_run) : Prop :=
  let t := tn_term x in
  Z.of_nat (length (bt_output t)) <= browserTermQueueCapacity ∧
  ∃ written lost, tn_frames x = frame_of <$> written ∧
    tn_accepted x = written ++ lost ++ bt_output t ∧
    (bt_done t = false → lost = [] ∧ Forall (λ m, is_exit m = false) written) ∧
    (∀ l m l', written = l ++ m :: l' → is_exit m = true → l' = []).

Lemma no_exit_last (written : list Message) m :
  Forall (λ m, is_exit m = false) written →
  ∀ l m' l', written ++ [m] = l ++ m' :: l' → is_exit m' = true → l' = [].
Proof.
  intros Hf l m' l' Heq He. destruct l' as [|a l' _] using rev_ind; [done|].
  rewrite app_comm_cons, app_assoc in Heq. apply app_inj_tail in Heq as [-> ->].
  apply Forall_app in Hf as [_ [Hc _]%Forall_cons]. by rewrite Hc in He.
Qed.

Lemma term_step_ok x op : term_ok x → term_ok (term_step x op).
Proof.
  intros (Hl & written & lost & Hfr & Ha & Hopen & Hlast). destruct op as [m|fails|]; simpl.
  - unfold enqueue. destruct (bt_done (tn_term x)) eqn:Ed.
    { simpl. rewrite app_nil_r. split; [done|]. exists written, lost. simpl. by rewrite Ed. }
    destruct (Z.ltb_spec (Z.of_nat (length (bt_output (tn_term x)))) browserTermQueueCapacity);
      split; simpl; try (rewrite length_app; simpl; lia); try done;
      exists written, lost; rewrite ?app_nil_r; split_and!; try done; auto.
    by rewrite Ha, <-!app_assoc.
  - unfold writer_turn. destruct (bt_done (tn_term x)) eqn:Ed.
    { simpl. rewrite app_nil_r. split; [done|]. exists written, lost. simpl. by rewrite Ed. }
    destruct (Hopen eq_refl) as [-> Hne]. destruct (bt_output (tn_term x)) as [|m rest] eqn:Eo.
    { simpl. rewrite app_nil_r. split; [simpl; by rewrite Eo|]. exists written, []. simpl. by rewrite Eo, Ed. }
    simpl in Hl. destruct fails; simpl.
    + rewrite app_nil_r. split; [simpl; lia|]. exists written, [m]. simpl in *. by rewrite Ha.
    + assert (Hx : is_exit m = String.eqb (m_Type m) "term_exit") by done.
      split; [destruct (String.eqb (m_Type m) "term_exit"); simpl; lia|].
      exists (written ++ [m]), []. rewrite fmap_app, Hfr, Ha, <-app_assoc. simpl.
      split_and!; [done|by destruct (String.eqb (m_Type m) "term_exit")| |by apply no_exit_last].
      rewrite <-Hx. destruct (is_exit m) eqn:Ex; [done|]. intros _. split; [done|].
      apply Forall_app. by split; [|constructor].
  - split; [done|]. exists written, lost. done.
Qed.

Lemma term_step_done x op :
  bt_done (tn_term x) = true →
  bt_done (tn_term (term_step x op)) = true ∧ tn_frames (term_step x op) = tn_frames x.
Proof.
  intros Hd. destruct op; simpl; unfold enqueue, writer_turn; rewrite ?Hd; simpl; by rewrite ?app_nil_r.
Qed.

Lemma run_term_ok ops x : term_ok x → term_ok (run_term x ops).
Proof.
  revert x. induction ops as [|op ops IH]; intros x Hx; [done|]. by apply IH, term_step_ok.
Qed.

Lemma fresh_term_ok key dev : term_ok (fresh_term key dev).
Proof. split; [done|]. exists [], []. split_and!; try done. by intros [] ?? ?. Qed.

Lemma run_term_done ops x :
  bt_done (tn_term x) = true →
  bt_done (tn_term (run_term x ops)) = true ∧ tn_frames (run_term x ops) = tn_frames x.
Proof.
  revert x. induction ops as [|op ops IH]; intros x Hx; [done|].
  destruct (term_step_done x op Hx) as [Hd Hf], (IH _ Hd) as [Hd' Hf'].
  split; [done|]. unfold run_term in *. simpl. by rewrite Hf', Hf.
Qed.

(** C21. Terminal output reaches the browser in order.  After any history of a
    terminal at most 32 messages wait; the frames written are the first accepted
    messages, in order, an exit frame only as the last one; while the terminal is
    open nothing accepted is lost; a message that finds 32 waiting, an exit frame
    and a failed write each close it; after that no frame is written, whatever
    happens next. *)
Theorem terminal_fifo key dev ops ops' m :
  let x := run_term (fresh_term key dev) ops in
  let y := run_term x ops' in
  let t := tn_term x in
  Z.of_nat (length (bt_output t)) <= browserTermQueueCapacity ∧
  (∃ written rest, tn_frames x = frame_of <$> written ∧ tn_accepted x = written ++ rest ∧
     (bt_done t = false → rest = bt_output t) ∧
     (∀ l m l', written = l ++ m :: l' → is_exit m = true → l' = [] ∧ bt_done t = true)) ∧
  (bt_done t = false → Z.of_nat (length (bt_output t)) = browserTermQueueCapacity →
   bt_done (fst (enqueue m t)) = true) ∧
  (bt_output t ≠ [] → bt_done (fst (writer_turn true t)) = true) ∧
  (bt_done t = true → bt_done (tn_term y) = true ∧ tn_frames y = tn_frames x).
Proof.
  intros x y t. subst y t.
  destruct (run_term_ok ops (fresh_term key dev) (fresh_term_ok key dev)) as (Hl & written & lost & Hfr & Ha & Hopen & Hlast). split_and!.
  - done.
  - exists written, (lost ++ bt_output (tn_term x)). split_and!; try done.
    + intros Hd. by destruct (Hopen Hd) as [-> _].
    + intros l m' l' Hw He. split; [by eapply Hlast|].
      destruct (bt_done (tn_term x)) eqn:Ed; [done|]. destruct (Hopen Ed) as [_ Hne].
      rewrite Hw in Hne. apply Forall_app in Hne as [_ [Hc _]%Forall_cons]. by rewrite Hc in He.
  - intros Hd Hc. unfold enqueue. rewrite Hd, Hc. done.
  - intros Hne. unfold writer_turn. destruct (bt_done (tn_term x)) eqn:Ed; [done|].
    by destruct (bt_output (tn_term x)).
  - apply run_term_done.
Qed.

Lemma terminal_fifo_witness :
  let exit_msg := session_msg "term_exit" "s" "" "bye" 0 0 in
  let x := run_term (fresh_term "k" "d") [TEnqueue exit_msg; TWrite false] in
  tn_frames (run_term x [TEnqueue exit_msg; TWrite false]) = [("exit", "", "bye")].
Proof.
  pose proof (terminal_fifo "k" "d" [TEnqueue (session_msg "term_exit" "s" "" "bye" 0 0); TWrite false]
    [TEnqueue (session_msg "term_exit" "s" "" "bye" 0 0); TWrite false] (exec_msg "")) as (_ & _ & _ & _ & H).
  exact (proj2 (H eq_refl)).
Defined.

(** ** The handshake *)

Section handshake.
Context (cfg : Config) {mo : MapOrder} {ic : InfoCodec} {ps : PasswordScheme}.

(** A successful enrollment found a usable token and an unknown device. *)
Lemma EnrollDevice_true t d now w w' :
  EnrollDevice t d now w = (Ok true, w') →
  t_devices (w_db w) !! d_ID d = None ∧
  ∃ k e, t_enroll (w_db w) !! k = Some e ∧ token_usable (hashToken t) now e = true.
Proof.
  unfold EnrollDevice. intros Hrun. destruct (_ || _); [done|].
  apply bind_ok in Hrun as (info & w1 & [= _ <-] & Hrun).
  apply with_tx_cases in Hrun as [[_ Hr]|(a & w0 & w2 & _ & Hd & Hb & _)].
  - destruct (Hr true eq_refl) as (w0 & w1 & _ & Hb).
    apply bind_ok in Hb as (label & w2 & _ & Hb). destruct label; [|done].
    apply bind_ok in Hb as (n & w3 & _ & Hb). apply bind_ok in Hb as (n' & w4 & _ & Hb).
    destruct (negb (n' =? 1)); [done|].
    apply bind_ok in Hb as (cards & w5 & _ & Hb). by apply bind_ok in Hb as (n'' & w6 & _ & Hb).
  - apply bind_ok in Hb as (label & w1 & [Hl Hd1]%query_row_ok & Hb).
    rewrite Hd in Hl. destruct label as [label|]; [|done]. symmetry in Hl.
    apply usable_label_some in Hl as (k & e & Hk & _ & He). split; [|eauto].
    apply bind_ok in Hb as (n & w3 & Hx%exec_ok & Hb). injection Hx as Hx _.
    apply bind_ok in Hb as (n' & w4 & [-> Hd4]%rows_affected_ok & Hb).
    destruct (negb (n =? 1)); [done|].
    apply bind_ok in Hb as (cards & w5 & [= _ <-] & Hb).
    apply bind_ok in Hb as (m & w6 & Hx2%exec_ok & _).
    rewrite Hd4, <-Hx in Hx2. apply ins_device_ok in Hx2 as [Hn _]. simpl in Hn. by rewrite <-Hd, <-Hd1.
Qed.

(** A device in the database whose token was presented. *)
Definition known_device (m : Message) (seen : list Server) : Prop :=
  ∃ st row, st ∈ seen ∧ t_devices (sv_db st) !! m_DeviceID m = Some row ∧
    ValidDeviceToken (m_Token m) = true ∧ dr_token_hash row = hashToken (m_Token m).

(** An unknown device that presented a usable enrollment token. *)
Definition newly_enrolled (m : Message) (seen : list Server) : Prop :=
  ∃ st now k e token, st ∈ seen ∧ t_devices (sv_db st) !! m_DeviceID m = None ∧
    t_enroll (sv_db st) !! k = Some e ∧ token_usable (hashToken token) now e = true ∧
    ValidEnrollmentToken token = true ∧
    token = (if String.eqb (m_EnrollmentToken m) "" then m_Token m else m_EnrollmentToken m).

Lemma secureEqualBytes_true a b : secureEqualBytes a b = true → a = b.
Proof. unfold secureEqualBytes. destruct (_ || _); [done|]. by intros ->%String.eqb_eq. Qed.

Lemma grows_authenticateAgent m : grows (authenticateAgent m).
Proof. unfold authenticateAgent. grow. Qed.

Lemma authenticateAgent_ok m h x h' :
  authenticateAgent m h = (Ok x, h') →
  is_ok (check_hello m) = true ∧ (known_device m (r_seen h') ∨ newly_enrolled m (r_seen h')).
Proof.
  unfold authenticateAgent. intros Hr. destruct (check_hello m) as [name|e] eqn:Ec; [|run_inv; done].
  split; [done|]. run_inv. destruct a as [[rec|]|e]; run_inv; [| |done].
  - left. destruct (device_authenticated m rec) eqn:Ea; [|done].
    match goal with H : Get _ _ = _ |- _ => apply query_row_ok in H as [Hg _] end. simpl in Hg.
    destruct (t_devices (sv_db s) !! m_DeviceID m) as [row|] eqn:Ed; [|done]. injection Hg as ->.
    unfold device_authenticated in Ea. bool_to_prop. exists s, row. split_and!; [seen|done|done|].
    symmetry. by apply secureEqualBytes_true.
  - right. destruct (enrollment_tokens m a) as [[[enr dev] ann]|e] eqn:Et; run_inv; [|done].
    destruct a0 as [[]|e0]; try done.
    match goal with H : EnrollDevice _ _ _ _ = _ |- _ =>
      apply EnrollDevice_true in H as (Hn & k & e & Hk & He) end. simpl in *.
    match goal with H : t_enroll (sv_db ?st) !! _ = _ |- _ =>
      eexists st, _, k, e, enr; split_and!; [seen|done|done|exact He| |] end.
    + unfold enrollment_tokens in Et. repeat (case_match; simplify_eq/=); by bool_to_prop.
    + unfold enrollment_tokens in Et. repeat (case_match; simplify_eq/=); by bool_to_prop.
Qed.

End handshake.

Definition demo_token : string := String.concat "" (repeat "a" 64).

Definition demo_hello : Message :=
  mkMessage "hello" "dev-1" "box" demo_token "" "" [CapabilityFileUploadCredits] "" "" "" "" "" "" ""
    "" 0 0 0 0 0 0 [] None [].

Definition demo_server : Server :=
  New (mkDB {[ "dev-1" := mkDevRow "box" (hashToken demo_token) 90 "" 0 "" ]} None ∅ ∅).


(** ** Terminals end with their session *)

(** What the other goroutines do while a terminal is opened with the session
    [token]: the session is deleted ([handleLogout]) or all are (a credential
    change), then the terminals of the session, or all of them, are closed. *)
Inductive event : Type :=
| EvLogout (faults : list bool)
| EvRevokeAll
| EvCloseSession
| EvCloseAll
| EvOther (f : Server → Server).

Definition run_event (token : string) (e : event) (s : Server) : Server :=
  match e with
  | EvLogout fs => with_db (w_db (snd (DeleteSession token (mkWorld (sv_db s) fs)))) s
  | EvRevokeAll => with_db (set_sessions ∅ (sv_db s)) s
  | EvCloseSession => closeBrowserTermsForSession (hashToken token) s
  | EvCloseAll => closeAllBrowserTerms s
  | EvOther f => f s
  end.

Definition revokes (e : event) : bool :=
  match e with EvLogout fs => negb (existsb id fs) | EvRevokeAll => true | _ => false end.

Definition closes (e : event) : bool :=
  match e with EvCloseSession | EvCloseAll => true | _ => false end.

(** A later event closes, or a later event revokes and one after it closes. *)
Definition close_due (l : list event) : Prop := ∃ c, c ∈ l ∧ closes c = true.

Definition revocation_due (l : list event) : Prop :=
  ∃ l1 e l2, l = l1 ++ e :: l2 ∧ revokes e = true ∧ close_due l2.

Section revocation.
Context (cfg : Config) {mo : MapOrder} {ic : InfoCodec} {ps : PasswordScheme}.
Context (token sid : string) (j : Z).

Definition absent (s : Server) : Prop := t_sessions (sv_db s) !! hashToken token = None.

Definition closed (s : Server) : Prop :=
  ∃ t, sv_termobjs s !! j = Some t ∧ bt_done t = true.

Definition registered (s : Server) : Prop :=
  sv_terms s !! sid = Some j ∧
  ∃ t, sv_termobjs s !! j = Some t ∧ bt_sessionKey t = hashToken token.

(** No other goroutine reopens the terminal, unregisters it without closing it,
    or creates the session again. *)
Definition fair (e : event) : Prop :=
  match e with
  | EvOther f => ∀ s, (closed s → closed (f s)) ∧
                      (registered s → registered (f s) ∨ closed (f s)) ∧
                      (absent s → absent (f s))
  | _ => True
  end.

Lemma DeleteSession_db fs db :
  (w_db (snd (DeleteSession token (mkWorld db fs))) = db ∧ existsb id fs = true) ∨
  w_db (snd (DeleteSession token (mkWorld db fs)))
  = set_sessions (delete (hashToken token) (t_sessions db)) db.
Proof.
  unfold DeleteSession, delete_session, exec, mbind, stm_bind, db_call, modify, mret, stm_ret.
  destruct fs as [|[] fs]; simpl; [by right|by left|by right].
Qed.

Lemma close_terms_closed p s t :
  sv_terms s !! sid = Some j → sv_termobjs s !! j = Some t → p t = true → closed (close_terms p s).
Proof.
  intros Hs Ht Hp. exists (forceClose t). unfold close_terms. simpl.
  rewrite map_lookup_imap, Ht. simpl. rewrite Hp, bool_decide_eq_true_2; [done|].
  apply list_elem_of_fmap. exists (sid, j). split; [done|]. by apply elem_of_map_to_list.
Qed.

Lemma close_terms_mono p s : closed s → closed (close_terms p s).
Proof.
  intros (t & Ht & Hd). unfold closed, close_terms. simpl. rewrite map_lookup_imap, Ht. simpl.
  destruct (_ && _); eexists; split; try done.
Qed.

(** One event: closing is final, an absent session stays absent. *)
Lemma event_closed e s : fair e → closed s → closed (run_event token e s).
Proof.
  intros Hf Hc. destruct e; simpl; [done|done| |by apply close_terms_mono|by apply Hf].
  unfold closeBrowserTermsForSession. destruct (String.eqb _ _); [done|by apply close_terms_mono].
Qed.

Lemma event_absent e s : fair e → absent s → absent (run_event token e s).
Proof.
  intros Hf Ha. destruct e as [fs| | | |f]; simpl.
  - unfold absent. simpl. destruct (DeleteSession_db fs (sv_db s)) as [[-> _]| ->]; [done|].
    simpl. apply lookup_delete_eq.
  - done.
  - unfold closeBrowserTermsForSession. by destruct (String.eqb _ _).
  - done.
  - by apply Hf.
Qed.

Lemma event_revokes e s : revokes e = true → absent (run_event token e s).
Proof.
  destruct e as [fs| | | |]; try done. simpl. intros Hf. unfold absent. simpl.
  destruct (DeleteSession_db fs (sv_db s)) as [[_ Hx]| ->]; [by rewrite Hx in Hf|].
  apply lookup_delete_eq.
Qed.

Lemma hashToken_nonempty : hashToken token ≠ "".
Proof.
  unfold hashToken. pose proof (length_sha256 (vals token)). by destruct (sha256 (vals token)).
Qed.

Lemma event_closes e s :
  closes e = true → registered s → closed (run_event token e s).
Proof.
  intros Hc (Hs & t & Ht & Hkey). destruct e; try done; simpl.
  - unfold closeBrowserTermsForSession. rewrite (proj2 (String.eqb_neq _ _) hashToken_nonempty).
    eapply close_terms_closed; [done|done|]. simpl. rewrite Hkey. apply String.eqb_refl.
  - by eapply close_terms_closed.
Qed.

Lemma event_registered e s :
  fair e → registered s → registered (run_event token e s) ∨ closed (run_event token e s).
Proof.
  intros Hf Hr. destruct e as [fs| | | |f]; simpl; [by left|by left| | |by apply Hf].
  - right. by apply (event_closes EvCloseSession).
  - right. destruct Hr as (Hs & t & Ht & Hkey). by eapply close_terms_closed.
Qed.

(** The three stages: before the terminal is registered, until the session is
    checked again, and after that. *)
Definition before_check : Server → list event → Prop := λ s l,
  Forall fair l ∧ (absent s ∨ revocation_due l).

Definition at_check : Server → list event → Prop := λ s l,
  Forall fair l ∧ (closed s ∨ absent s ∨ (registered s ∧ revocation_due l)).

Definition after_check : Server → list event → Prop := λ s l,
  Forall fair l ∧ (closed s ∨ (registered s ∧ close_due l)).

Lemma revocation_due_cons e l : revocation_due (e :: l) → (revokes e = true ∧ close_due l) ∨ revocation_due l.
Proof.
  intros ([|x l1] & e' & l2 & [= -> ->] & Hr & Hc); [by left|]. right. by exists l1, e', l2.
Qed.

Lemma revocation_due_close l : revocation_due l → close_due l.
Proof. intros (l1 & e & l2 & -> & _ & c & Hc & Hx). exists c. split; [set_solver|done]. Qed.

Lemma close_due_cons e l : close_due (e :: l) → closes e = true ∨ close_due l.
Proof. intros (c & [->|Hc]%elem_of_cons & Hx); [by left|right; by exists c]. Qed.

Lemma stable_before : stable (run_event token) before_check.
Proof.
  intros e l s [[He Hl]%Forall_cons H]. split; [done|].
  destruct H as [Ha|[[Hr _]|Hd]%revocation_due_cons]; [|left; by apply event_revokes|by right].
  left. by apply event_absent.
Qed.

Lemma stable_at : stable (run_event token) at_check.
Proof.
  intros e l s [[He Hl]%Forall_cons H]. split; [done|].
  destruct H as [Hc|[Ha|[Hr Hd]]].
  - left. by apply event_closed.
  - right. left. by apply event_absent.
  - destruct (revocation_due_cons e l Hd) as [[Hv _]|Hd']; [right; left; by apply event_revokes|].
    destruct (event_registered e s He Hr); [right; right; done|by left].
Qed.

Lemma stable_after : stable (run_event token) after_check.
Proof.
  intros e l s [[He Hl]%Forall_cons H]. split; [done|].
  destruct H as [Hc|[Hr Hd]]; [left; by apply event_closed|].
  destruct (close_due_cons e l Hd) as [Hx|Hd']; [left; by apply event_closes|].
  destruct (event_registered e s He Hr); [right; done|by left].
Qed.

(** A check that passes saw the session; no check creates one. *)
Lemma SessionValid_absent now w :
  t_sessions (w_db w) !! hashToken token = None →
  fst (SessionValid token now w) ≠ Ok true ∧
  t_sessions (w_db (snd (SessionValid token now w))) !! hashToken token = None.
Proof.
  intros Ha. unfold SessionValid. destruct (String.eqb token ""); [done|].
  unfold query_row, mbind, stm_bind, db_call, gets, mret, stm_ret.
  destruct (w_faults w) as [|[] fs]; simpl; by rewrite ?Ha.
Qed.

Lemma SessionExpiry_absent tok now w :
  t_sessions (w_db w) !! hashToken token = None →
  t_sessions (w_db (snd (SessionExpiry tok now w))) !! hashToken token = None.
Proof.
  intros Ha. unfold SessionExpiry, delete_session. destruct (String.eqb tok ""); [done|].
  unfold query_row, exec, attempt, modify, mbind, stm_bind, db_call, gets, mret, stm_ret.
  destruct w as [db [|[] fs]]; simpl in *; [|done|];
    (destruct (t_sessions db !! hashToken tok) as [r|]; simpl; [|done]);
    (destruct (_ <=? now); simpl; [|done]); [|destruct fs as [|[] fs]; simpl];
    try done; apply lookup_delete_None; by right.
Qed.

Lemma before_db db s l :
  (t_sessions (sv_db s) !! hashToken token = None → t_sessions db !! hashToken token = None) →
  before_check s l → before_check (with_db db s) l.
Proof. intros Hdb (Hl & [Ha|Hd]); split; [done|left; by apply Hdb|done|by right]. Qed.

Lemma triple_getOnlineAgent dev :
  triple (run_event token) before_check (getOnlineAgent cfg dev) (λ _, before_check).
Proof.
  unfold getOnlineAgent. eapply triple_bind.
  { apply triple_frame; [apply stable_before|]. intros t s l HP. simpl.
    destruct (Get dev _) as [x w] eqn:Eg. apply before_db; [|done].
    apply query_row_cases in Eg. simpl in Eg. by rewrite Eg. }
  intros [[d|]|e]; [|by apply triple_ret|by apply triple_ret].
  eapply triple_bind; [by apply triple_frame; [apply stable_before|]|].
  intros online. simpl. destruct (negb online); [by apply triple_ret|].
  eapply triple_bind; [by apply triple_frame; [apply stable_before|]|].
  intros a. by apply triple_ret.
Qed.

Lemma runs_unregister i sid' j' : runs (run_event token) (unregister_term i sid' j').
Proof. unfold unregister_term, sendAgent. repeat (apply runs_bind; [apply runs_step|intros ?]). apply runs_ret. Qed.

Lemma triple_openTerminal r :
  sessionToken cfg r = token →
  triple (run_event token) before_check (openTerminal cfg r)
    (λ a s l, match a with TermOpen _ sid' j' => sid' = sid → j' = j → after_check s l | _ => True end).
Proof.
  intros Htok. unfold openTerminal. rewrite Htok. eapply triple_bind.
  { apply triple_frame; [apply stable_before|]. intros t s l HP. simpl.
    destruct (SessionExpiry _ _ _) as [x w] eqn:Eg. apply before_db; [|done]. intros Ha.
    pose proof (SessionExpiry_absent token (Unix (tk_now t)) (mkWorld (sv_db s) (tk_faults t)) Ha) as H.
    by rewrite Eg in H. }
  intros [[expires|]|e]; [|by apply triple_ret|by apply triple_ret].
  destruct (negb _); [by apply triple_ret|].
  eapply triple_bind; [apply triple_getOnlineAgent|]. intros [i|e]; [|by apply triple_ret].
  eapply (triple_bind _ _ _ _ (λ x s l, x.1 = sid ∧ x.2 = j → at_check s l)).
  { apply triple_step; [apply stable_before|]. intros t s l (Hl & HP). simpl. intros [Hsid Hj].
    split; [done|]. destruct HP as [Ha|Hd]; [right; by left|]. right. right. split; [|done].
    rewrite Hsid. unfold registered. simpl. rewrite Hj, !lookup_insert_eq. eauto. }
  intros [sid' j']. cbn [fst snd].
  eapply (triple_bind _ _ _ _ (λ a s l, a = Ok true → sid' = sid ∧ j' = j → after_check s l)).
  { apply triple_step; [by apply stable_impl, stable_at|]. intros t s l HP. simpl.
    destruct (SessionValid _ _ _) as [x w] eqn:Ev. simpl. intros -> Hids.
    destruct (HP Hids) as (Hl & [Hc|[Ha|[Hr Hd]]]); split; try done; [by left| |].
    - destruct (SessionValid_absent (Unix (tk_now t)) (mkWorld (sv_db s) (tk_faults t)) Ha) as [Hn _].
      by rewrite Ev in Hn.
    - right. split; [done|by apply revocation_due_close]. }
  intros [[]|e]; [|apply triple_finally; [apply runs_unregister|done]|apply triple_finally; [apply runs_unregister|done]].
  eapply (triple_bind _ _ _ _ (λ _ s l, sid' = sid ∧ j' = j → after_check s l)).
  { apply triple_step; [by repeat apply stable_impl; apply stable_after|]. intros t s l HP. by apply HP. }
  intros []; [apply triple_finally; [apply runs_unregister|done]|].
  eapply (triple_bind _ _ _ _ (λ _ s l, sid' = sid ∧ j' = j → after_check s l)).
  { apply triple_frame; [by apply stable_impl, stable_after|]. intros t s l HP Hids.
    unfold send_agent. specialize (HP Hids). by repeat case_match. }
  intros [u|e]; [|apply triple_finally; [apply runs_unregister|done]]. apply triple_ret. intros s l HP Hs Hj. by apply HP.
Qed.
End revocation.

(** The steps of [handleLogout] with the session's cookie, run alone. *)
Lemma handleLogout_events cfg r s t1 t2 t3 t4 :
  sessionToken cfg r ≠ "" → Forall (λ t, tk_env t = id) [t1; t2; t3; t4] →
  let token := sessionToken cfg r in
  let key := hashToken token in
  r_sys (snd (run_handler (handleLogout cfg r) s [t1; t2; t3; t4])) =
  run_events (run_event token)
    [EvLogout (tk_faults t1);
     EvOther (λ s, with_auth (clearTOTPSetupForSessionKey key (sv_auth s)) s);
     EvOther (λ s, with_auth (clearReauthFailures key (sv_auth s)) s); EvCloseSession] s.
Proof.
  intros Ht [E1 [E2 [E3 [E4 _]%Forall_cons]%Forall_cons]%Forall_cons]%Forall_cons token key.
  unfold handleLogout, run_handler. rewrite (proj2 (String.eqb_neq _ _) Ht).
  rewrite !bind_run. unfold db_step, auth_step, step. cbn [r_ticks r_sys r_seen].
  rewrite E1. fold token key. unfold id. cbn [fst snd].
  destruct (DeleteSession token (mkWorld (sv_db s) (tk_faults t1))) as [x w] eqn:Ew.
  cbn [fst snd r_ticks r_sys r_seen]. rewrite E2, E3, E4. unfold id.
  unfold run_events. cbn [foldl run_event]. by rewrite Ew.
Qed.

(** C3. A terminal does not outlive its session.  Suppose [handleTerminalWS]
    opened a terminal while other requests interleaved with its steps in any way,
    and among all that happened, before, between or after those steps, there is a
    logout with this session or a credential change, and after it the closing of
    the terminals that both perform.  Then the terminal is closed in the end: it
    cannot slip between the two halves of the revocation.  The only assumption on
    the other events is that they neither reopen the terminal, nor unregister it
    without closing it, nor create the revoked session again. *)
Theorem revoked_terminal_closes cfg `{InfoCodec} r s p i sid j :
  let token := sessionToken cfg r in
  let run := run_handler (openTerminal cfg r) s (ticks_of (run_event token) p) in
  fst run = TermOpen i sid j →
  Forall (fair token sid j) (events_of p) →
  revocation_due (events_of p) →
  closed j (afterwards (snd run)).
Proof.
  intros token run Ho Hf Hd.
  pose proof (triple_run _ _ _ _ s p (triple_openTerminal cfg token sid j r eq_refl)) as Ht.
  fold token run in Ht. rewrite Ho in Ht. destruct Ht as (_ & [Hc|[_ (c & Hc & _)]]); try done.
  - by repeat apply stable_impl; apply stable_after.
  - split; [done|by right].
  - by apply not_elem_of_nil in Hc.
Qed.

(** *** A logout in the middle of opening a terminal *)

Definition demo_request : request :=
  mkRequest "GET" "/ws/terminal/dev-1" "1.2.3.4:5" [] [("homectl_session", "s1")] "dev-1" [].

Definition demo_online : Server :=
  with_conns {[ 0 := mkAgent "dev-1" false false false [] false [] ]}
    (with_agents {[ "dev-1" := 0 ]}
       (with_next 1 (with_db (set_sessions {[ hashToken "s1" := mkSessRow 0 100 0 ]} (sv_db demo_server))
                       demo_server))).

Definition demo_plan : plan (S := Server) (E := event) :=
  let t := with_env id (mkTick id 0 0 [] "sid" (Err "") WaitSlot false None 0) in
  [([], t); ([], t); ([], t); ([], t); ([], t); ([], t); ([EvLogout []], t); ([], t); ([EvCloseSession], t)].

Lemma revoked_terminal_closes_witness :
  closed 1 (afterwards (snd (run_handler (openTerminal demo_config demo_request) demo_online
                               (ticks_of (run_event "s1") demo_plan)))).
Proof.
  refine (revoked_terminal_closes demo_config demo_request demo_online demo_plan
            0 "736964" 1 _ _ _).
  - vm_compute. reflexivity.
  - repeat constructor.
  - exists [], (EvLogout []), [EvCloseSession]. split; [reflexivity|]. split; [reflexivity|].
    exists EvCloseSession. split; [by left|reflexivity].
Defined.

(** ** The device list *)

Section devices.
Context (cfg : Config) {mo : MapOrder} {ic : InfoCodec}.

(** What the list shows of a row, its connection judged at one of [seen]. *)
Definition view_of (seen : list Server) (kv : string * dev_row) (v : deviceView) : Prop :=
  let d := device_of_row kv.1 kv.2 in
  (∃ st now, st ∈ seen ∧
     dv_Online v = seen_recently cfg (dr_last_seen kv.2) now
                   && bool_decide (is_Some (sv_agents st !! kv.1))) ∧
  dv_ID v = kv.1 ∧ dv_Name v = dr_name kv.2 ∧ dv_LastSeen v = dr_last_seen kv.2 ∧
  dv_MetricCards v = d_MetricCards d ∧
  dv_Info v = (if dv_Online v then d_Info d else ClearDynamicMetrics (d_Info d)).

Lemma view_of_mono seen seen' kv v : seen ⊆ seen' → view_of seen kv v → view_of seen' kv v.
Proof.
  intros Hs ((st & now & Hin & Ho) & Hr). split; [|done]. exists st, now. split; [by apply Hs|done].
Qed.

Lemma grows_device_views l : grows (device_views cfg l).
Proof. induction l as [|d l IH]; simpl; unfold deviceOnline; grow. Qed.

Lemma device_views_ok rows h views h' :
  device_views cfg ((λ kv, device_of_row kv.1 kv.2) <$> rows) h = (views, h') →
  Forall2 (view_of (r_seen h')) rows views.
Proof.
  revert h views h'. induction rows as [|[id row] rows IH]; intros h views h'; simpl; intros Hr.
  { apply ret_inv in Hr as [-> _]. constructor. }
  apply bind_inv in Hr as (online & h1 & Ho & Hr). apply bind_inv in Hr as (vs & h2 & Hv & Hr).
  apply ret_inv in Hr as [-> ->]. unfold deviceOnline in Ho.
  apply step_inv in Ho as (t & st & [= <- _] & Hs).
  pose proof (grows_run _ _ _ _ (grows_device_views _) Hv) as Hg.
  constructor; [|by eapply IH].
  split; [|unfold device_view; simpl; by split_and!].
  exists st, (tk_now t). split; [apply Hg; rewrite Hs; set_solver|done].
Qed.

End devices.


(** ** Shutdown *)

(** An idempotent update at every key of a list. *)
Lemma lookup_foldr_alter {V} (f : V → V) (l : list Z) (m : gmap Z V) i :
  (∀ v, f (f v) = f v) →
  foldr (alter f) m l !! i = if bool_decide (i ∈ l) then f <$> m !! i else m !! i.
Proof.
  intros Hf. induction l as [|j l IH]; simpl; [done|].
  destruct (decide (i = j)) as [->|Hne].
  - rewrite lookup_alter_eq, IH. rewrite (bool_decide_eq_true_2 (j ∈ j :: l)) by by left.
    case_bool_decide; [|done]. destruct (m !! j); simpl; by rewrite ?Hf.
  - rewrite lookup_alter_ne, IH by done.
    rewrite (bool_decide_ext (i ∈ l) (i ∈ j :: l)); [done|]. rewrite elem_of_cons. naive_solver.
Qed.

Lemma elem_of_map_values {K} `{Countable K} {V} (m : gmap K V) k v : m !! k = Some v → v ∈ (map_to_list m).*2.
Proof. intros Hk. apply list_elem_of_fmap. exists (k, v). split; [done|by apply elem_of_map_to_list]. Qed.

Lemma Shutdown_fields s :
  Shutdown s =
  mkServer (sv_auth s) (sv_db s) (sv_admission s) (sv_slots s) ∅ ∅ ∅
    (foldr (alter set_done) (sv_conns s) (map_to_list (sv_agents s)).*2)
    (foldr (alter (finish (Some "http: Server closed"))) (sv_reqs s) (map_to_list (sv_pending s)).*2)
    (foldr (alter forceClose) (sv_termobjs s) (map_to_list (sv_terms s)).*2) (sv_next s).
Proof.
  unfold Shutdown.
  generalize (map_to_list (sv_agents s)).*2, (map_to_list (sv_pending s)).*2, (map_to_list (sv_terms s)).*2.
  intros la lp lt. unfold stop.
  assert (H1 : ∀ f l x, foldr (λ j, upd_req j f) x l = with_reqs (foldr (alter f) (sv_reqs x) l) x).
  { intros f l x. induction l as [|j l IH]; simpl; [by destruct x|]. by rewrite IH. }
  assert (H2 : ∀ f l x, foldr (λ j, upd_term j f) x l = with_termobjs (foldr (alter f) (sv_termobjs x) l) x).
  { intros f l x. induction l as [|j l IH]; simpl; [by destruct x|]. by rewrite IH. }
  assert (H3 : ∀ f l x, foldr (λ j, upd_conn j f) x l = with_conns (foldr (alter f) (sv_conns x) l) x).
  { intros f l x. induction l as [|j l IH]; simpl; [by destruct x|]. by rewrite IH. }
  by rewrite H1, H2, H3.
Qed.

(** C29. Shutting down releases everything and touches nothing else.  Afterwards
    no agent, terminal or request is registered; every agent connection and
    terminal that was is closed; every request that was pending is finished, one
    still open with "http: Server closed", so that its waiting handler returns
    that error at once; what had been received stays readable; objects no longer
    registered, the database and the login state are unchanged. *)
Theorem Shutdown_releases s :
  let s' := Shutdown s in
  sv_agents s' = ∅ ∧ sv_terms s' = ∅ ∧ sv_pending s' = ∅ ∧
  sv_db s' = sv_db s ∧ sv_auth s' = sv_auth s ∧
  (∀ id i a, sv_agents s !! id = Some i → sv_conns s !! i = Some a →
     sv_conns s' !! i = Some (set_done a)) ∧
  (∀ sid j t, sv_terms s !! sid = Some j → sv_termobjs s !! j = Some t →
     sv_termobjs s' !! j = Some (forceClose t)) ∧
  (∀ id j p, sv_pending s !! id = Some j → sv_reqs s !! j = Some p →
     ∃ p', sv_reqs s' !! j = Some p' ∧ pr_done p' = true ∧ pr_ch p' = pr_ch p ∧
       (pr_done p = true → p' = p) ∧
       (pr_done p = false → pr_ch p = [] → ∀ w, w ≠ WaitTimeout →
          fst (await_response w j s') = Err "http: Server closed")) ∧
  (∀ j, (∀ id, sv_pending s !! id ≠ Some j) → sv_reqs s' !! j = sv_reqs s !! j) ∧
  (∀ j, (∀ sid, sv_terms s !! sid ≠ Some j) → sv_termobjs s' !! j = sv_termobjs s !! j) ∧
  (∀ i, (∀ id, sv_agents s !! id ≠ Some i) → sv_conns s' !! i = sv_conns s !! i).
Proof.
  intros s'. subst s'. rewrite Shutdown_fields. simpl.
  assert (Hfin : ∀ e p, finish e (finish e p) = finish e p) by (intros e [? [] ?]; done).
  assert (Hout : ∀ (m : gmap string Z) j, (∀ id, m !! id ≠ Some j) → j ∉ (map_to_list m).*2).
  { intros m j Hm ([k v] & -> & Hin%elem_of_map_to_list)%list_elem_of_fmap. by apply (Hm k). }
  split_and!; try done.
  - intros id i a Ha Hc. rewrite lookup_foldr_alter by by intros [].
    by rewrite bool_decide_eq_true_2, Hc by by eapply elem_of_map_values.
  - intros sid j t Ht Hc. rewrite lookup_foldr_alter by by intros [].
    by rewrite bool_decide_eq_true_2, Hc by by eapply elem_of_map_values.
  - intros id j p Hp Hc. eexists. rewrite lookup_foldr_alter by apply Hfin.
    rewrite bool_decide_eq_true_2, Hc by by eapply elem_of_map_values.
    split; [done|]. unfold await_response. simpl. rewrite lookup_foldr_alter by apply Hfin.
    rewrite bool_decide_eq_true_2, Hc by by eapply elem_of_map_values. simpl.
    unfold finish. destruct (pr_done p) eqn:Ed; simpl; split_and!; try done.
    intros _ -> w Hw. by destruct w.
  - intros j Hj. by rewrite lookup_foldr_alter, bool_decide_eq_false_2 by auto.
  - intros j Hj. by rewrite lookup_foldr_alter, bool_decide_eq_false_2 by first [by intros []|auto].
  - intros j Hj. by rewrite lookup_foldr_alter, bool_decide_eq_false_2 by first [by intros []|auto].
Qed.
