(* ===== verification/ServerFiles.v ===== *)
(** * File transfers through the Server ([internal/server/files.go])

    The handlers of the file browser: each sends a request to the Agent and
    relays what comes back.  Downloads and uploads are loops; the part of a
    download's loop that handles one message and the upload's window arithmetic
    are functions of their own, which the theorems about whole transfers use. *)

From S2P Require Export Hub.

(** What a file handler answers. *)
Inductive file_reply : Type :=
| FPlain (r : response)
| FList (path : string) (entries : list FileEntry)
| FDownload (length : option Z) (body : string).  (** status 200, Content-Length, the bytes written *)

(** ** One message of a download *)

(** The variables of [handleFileDownload]'s loop; [dl_body]: what was written. *)
Record download : Type := mkDl {
  dl_committed : bool;
  dl_metadata : bool;
  dl_expected : Z;
  dl_total : Z;
  dl_body : string
}.

Definition start_download : download := mkDl false false (-1) 0 "".

(** The answer as it stands. *)
Definition so_far (d : download) : file_reply :=
  FDownload (if dl_metadata d then Some (dl_expected d) else None) (dl_body d).

(** An error is answered only while nothing has been written. *)
Definition unless_committed (d : download) (text : string) (status : Z) : file_reply :=
  if dl_committed d then so_far d else FPlain (http_error [] text status).

Definition cancel_msg (id : string) : Message := request_msg "file_cancel" id "" "" "" "" 0 0 0 [].
Definition credit_msg (id : string) : Message := request_msg "file_credit" id "" "" "" "" 0 1 0 [].

Section files.
Context (cfg : Config) {mo : MapOrder} {ic : InfoCodec} {ps : PasswordScheme}.

Definition exceeds (n : Z) : bool := (0 <? MaxFileTransferBytes cfg) && (MaxFileTransferBytes cfg <? n).

(** The new variables, the message sent to the Agent, and the end, if any.
    [credits]: the Agent's flow control; [write_fails]: the browser is gone. *)
Definition on_download_message (credits write_fails : bool) (id : string) (m : Message) (d : download)
    : download * option Message * option file_reply :=
  if String.eqb (m_Type m) "file_meta" then
    if negb (String.eqb (m_Error m) "") then (d, None, Some (FPlain (http_error [] (m_Error m) 502)))
    else if dl_metadata d || (m_Size m <? 0)
    then (d, Some (cancel_msg id), Some (unless_committed d "device reported invalid file metadata" 502))
    else if exceeds (m_Size m)
    then (d, Some (cancel_msg id), Some (FPlain (http_error [] "file exceeds configured maximum" 413)))
    else (mkDl (dl_committed d) true (m_Size m) (dl_total d) (dl_body d), None, None)
  else if String.eqb (m_Type m) "file_chunk" then
    if negb (dl_metadata d)
    then (d, Some (cancel_msg id), Some (FPlain (http_error [] "device sent file data before metadata" 502)))
    else
      match StdDecode (m_Data m) with
      | None => (d, Some (cancel_msg id), Some (unless_committed d "device sent an invalid file chunk" 502))
      | Some b =>
        if (0 <? MaxFileTransferBytes cfg) && (MaxFileTransferBytes cfg - dl_total d <? slen b)
        then (d, Some (cancel_msg id), Some (unless_committed d "file exceeds configured maximum" 413))
        else
          let d := mkDl true (dl_metadata d) (dl_expected d) (dl_total d + slen b)
                     (if write_fails then dl_body d else dl_body d +:+ b) in
          if write_fails then (d, Some (cancel_msg id), Some (so_far d))
          else (d, if credits then Some (credit_msg id) else None, None)
      end
  else if String.eqb (m_Type m) "file_end" then
    (d, None, Some (if negb (String.eqb (m_Error m) "") then unless_committed d (m_Error m) 502
                    else if negb (dl_metadata d) || negb (dl_total d =? dl_expected d)
                    then unless_committed d "device sent an incomplete file" 502
                    else so_far d))
  else (d, None, None).

(** ** Waiting for the Agent *)

Inductive transfer_event : Type :=
| TMessage (m : Message)
| TClosed (err : string)      (** the request was finished *)
| TTimeout
| TGone.                      (** the browser left: [r.Context().Done()] *)

(** The select of both loops; a tick with an I/O error is the browser leaving. *)
Definition await_transfer (t : tick) (j : Z) (s : Server) : transfer_event * Server :=
  match tk_io t, sv_reqs s !! j with
  | Some _, _ => (TGone, s)
  | None, None => (TTimeout, s)
  | None, Some p =>
    let take k := match pr_ch p with
                  | m :: rest => (TMessage m, upd_req j (λ p, mkPending rest (pr_done p) (pr_err p)) s)
                  | [] => k
                  end in
    let done k := if pr_done p then (TClosed (failure p), s) else k in
    match tk_wait t with
    | WaitSlot => take (done (TTimeout, s))
    | WaitCancelled => done (take (TTimeout, s))
    | WaitTimeout => (TTimeout, s)
    end
  end.

(** ** Simple operations *)

Definition require_file_browser (k : handler file_reply) : handler file_reply :=
  if FileBrowserEnabled cfg then k else mret (FPlain (http_error [] "file browser disabled" 403)).

Definition path_msg (t path target : string) : Message := request_msg t "" path target "" "" 0 0 0 [].

Definition handleFileList (r : request) : handler file_reply :=
  require_file_browser (
    let path := default "" (find_value "path" (rq_Query r)) in
    let path := if String.eqb path "" then "/" else path in
    x ← do_request cfg (rq_PathId r) (path_msg "file_list" path "");
    mret (match x with
          | Err e => FPlain (http_error [] e 502)
          | Ok m => if negb (String.eqb (m_Error m) "") then FPlain (http_error [] (m_Error m) 502)
                    else FList (if String.eqb (m_Path m) "" then path else m_Path m) (m_Entries m)
          end)).

Definition writeFileOpResult (x : res Message) : file_reply :=
  match x with
  | Err e => FPlain (http_error [] e 502)
  | Ok m => if negb (String.eqb (m_Error m) "") then FPlain (http_error [] (m_Error m) 502)
            else FPlain (reply_json [] 200 [("ok", JBool true)])
  end.

(** The body is decoded JSON; [None] is a body that does not decode. *)
Definition file_op (valid : bool) (r : request) (m : Message) : handler file_reply :=
  require_file_browser (
    if negb valid then mret (FPlain (http_error [] "invalid path" 400))
    else x ← do_request cfg (rq_PathId r) m; mret (writeFileOpResult x)).

Definition blank (s : string) : bool := String.eqb (TrimSpace s) "".

Definition handleFileMkdir (path : option string) (r : request) : handler file_reply :=
  match path with
  | Some path => file_op (negb (blank path)) r (path_msg "file_mkdir" path "")
  | None => file_op false r (path_msg "" "" "")
  end.

Definition handleFileDelete (path : option string) (r : request) : handler file_reply :=
  match path with
  | Some path => file_op (negb (blank path || String.eqb (Clean path) "/")) r (path_msg "file_delete" path "")
  | None => file_op false r (path_msg "" "" "")
  end.

Definition handleFileRename (paths : option (string * string)) (r : request) : handler file_reply :=
  match paths with
  | Some (path, target) =>
    file_op (negb (blank path || blank target)) r (path_msg "file_rename" path target)
  | None => file_op false r (path_msg "" "" "")
  end.

(** ** Downloads *)

(** Whether the Agent does flow control. *)
Definition agent_flag (f : AgentConn → bool) (i : Z) : handler bool :=
  step (λ _ s, (match sv_conns s !! i with Some a => f a | None => false end, s)).

Definition send_quietly (i : Z) (m : Message) : handler unit := _ ← sendAgent i m; mret ().

(** The loop; [None]: out of fuel. *)
Fixpoint download_loop (fuel : nat) (i j : Z) (id : string) (credits : bool) (d : download)
    : handler (option file_reply) :=
  match fuel with
  | O => mret None
  | S fuel =>
    e ← step (λ t s, await_transfer t j s);
    match e with
    | TClosed err => mret (Some (unless_committed d err 502))
    | TTimeout => _ ← send_quietly i (cancel_msg id); mret (Some (unless_committed d "file transfer timeout" 504))
    | TGone => _ ← send_quietly i (cancel_msg id); mret (Some (so_far d))
    | TMessage m =>
      fails ← step (λ t s, (bool_decide (is_Some (tk_io t)), s));
      let '(d, out, last) := on_download_message credits fails id m d in
      sent ← match out with Some o => sendAgent i o | None => mret (Ok ()) end;
      match last, sent with
      | Some r, _ => mret (Some r)
      | None, Err _ => mret (Some (so_far d))
      | None, Ok _ => download_loop fuel i j id credits d
      end
    end
  end.

Definition handleFileDownload (fuel : nat) (r : request) : handler (option file_reply) :=
  let fail text status := mret (Some (FPlain (http_error [] text status))) in
  if negb (FileBrowserEnabled cfg) then fail "file browser disabled" 403
  else
    let path := default "" (find_value "path" (rq_Query r)) in
    if blank path then fail "path required" 400
    else
      agent ← getOnlineAgent cfg (rq_PathId r);
      match agent with
      | Err e => fail e 502
      | Ok i =>
        x ← newPending;
        let (id, j) := x : string * Z in
        flag ← agent_flag ag_fileDownloadCredits i;
        sent ← sendAgent i (request_msg "file_download" id path "" "" "" (MaxFileTransferBytes cfg)
                              (if flag : bool then initialFileDownloadCredits else 0) 0 []);
        r ← match sent with
            | Err e => fail e 502
            | Ok _ => download_loop fuel i j id flag start_download
            end;
        _ ← removePending id j;
        mret r
      end.

(** ** Uploads *)

(** Loops with fuel return [None] when it runs out; what follows is not reached. *)
Definition fuelled {A B} (m : handler (option A)) (k : A → handler (option B)) : handler (option B) :=
  x ← m; match x with Some a => k a | None => mret None end.

(** [wait(expected)]: other messages are skipped, but an error result ends it. *)
Fixpoint wait_for (fuel : nat) (j : Z) (expected : string) : handler (option (res Message)) :=
  match fuel with
  | O => mret None
  | S fuel =>
    e ← step (λ t s, await_transfer t j s);
    match e with
    | TMessage m =>
      if String.eqb (m_Type m) expected then mret (Some (Ok m))
      else if String.eqb (m_Type m) "file_upload_result" && negb (String.eqb (m_Error m) "")
      then mret (Some (Err (m_Error m)))
      else wait_for fuel j expected
    | TClosed err => mret (Some (Err err))
    | TTimeout => mret (Some (Err "file transfer timeout"))
    | TGone => mret (Some (Err "context canceled"))
    end
  end.

(** The window after a credit message. *)
Definition take_credit (credits window c : Z) : res Z :=
  if (c <? 1) || (window <? c) then Err "device returned invalid upload credits"
  else Ok (Z.min window (credits + c)).

Definition wait_credit (fuel : nat) (j credits window : Z) : handler (option (res Z)) :=
  fuelled (wait_for fuel j "file_upload_credit") (λ m,
  mret (Some (try m := m in take_credit credits window (m_Credits m)))).

Definition chunk_message (id b : string) : Message :=
  request_msg "file_upload_chunk" id "" "" (StdEncode b) "" 0 0 0 [].
Definition abort_message (id : string) : Message := request_msg "file_upload_abort" id "" "" "" "" 0 0 0 [].
Definition end_message (id : string) : Message := request_msg "file_upload_end" id "" "" "" "" 0 0 0 [].

(** The loop over the body, a list of reads: the text and the error each
    returns ("EOF" at the end).  Flow control is on when [window] is positive.
    The result is the bytes sent and the credits left, or the failure's text and
    status. *)
Fixpoint upload_loop (fuel : nat) (i j : Z) (id : string) (window credits total : Z)
    (reads : list (string * option string)) : handler (option ((Z * Z) + (string * Z))) :=
  match reads with
  | [] => _ ← send_quietly i (abort_message id); mret (Some (inr ("unexpected EOF", 400)))
  | (b, err) :: reads =>
    fuelled (if (0 <? window) && (credits =? 0) then wait_credit fuel j credits window else mret (Some (Ok credits))) (λ c,
    match c with
    | Err e => mret (Some (inr (e, 502)))
    | Ok credits =>
      let total := total + slen b in
      x ← (if 0 <? slen b then
             if (0 <? MaxFileTransferBytes cfg) && (MaxFileTransferBytes cfg <? total)
             then _ ← send_quietly i (abort_message id); mret (inr ("file exceeds configured maximum", 413))
             else
               sent ← sendAgent i (chunk_message id b);
               match sent with
               | Err e => _ ← send_quietly i (abort_message id); mret (inr (e, 502))
               | Ok _ => mret (inl (if 0 <? window then credits - 1 else credits))
               end
           else mret (inl credits));
      match x : Z + (string * Z) with
      | inr e => mret (Some (inr e))
      | inl credits =>
        match err with
        | Some e => if String.eqb e "EOF" then mret (Some (inl (total, credits)))
                    else _ ← send_quietly i (abort_message id); mret (Some (inr (e, 400)))
        | None => upload_loop fuel i j id window credits total reads
        end
      end
    end)
  end.

(** The last credits: every chunk must have been written before the end is sent. *)
Fixpoint drain_credits (fuel turns : nat) (j credits window : Z) : handler (option (res unit)) :=
  if (0 <? window) && (credits <? window) then
    match turns with
    | O => mret None
    | S turns =>
      fuelled (wait_credit fuel j credits window) (λ c,
      match c with
      | Err e => mret (Some (Err e))
      | Ok credits => drain_credits fuel turns j credits window
      end)
    end
  else mret (Some (Ok ())).

(** The window the Agent grants, 0 without flow control. *)
Definition grant_window (flag : bool) (ready : Message) : res Z :=
  if flag then
    if (m_Credits ready <? 1) || (initialFileUploadCredits <? m_Credits ready)
    then Err "device returned invalid upload credits" else Ok (m_Credits ready)
  else Ok 0.

(** From the Agent's readiness on: the answer and whether the upload completed. *)
Definition run_upload (fuel : nat) (i j : Z) (id : string) (flag : bool)
    (reads : list (string * option string)) : handler (option (file_reply * bool)) :=
  let fail e status := mret (Some (FPlain (http_error [] e status), false)) in
  fuelled (wait_for fuel j "file_upload_ready") (λ ready,
  match (try m := ready in if String.eqb (m_Error m) "" then grant_window flag m else Err (m_Error m)) with
  | Err e => fail e 502
  | Ok window =>
    fuelled (upload_loop fuel i j id window window 0 reads) (λ x,
    match x with
    | inr (e, status) => fail e status
    | inl (total, credits) =>
      fuelled (drain_credits fuel (Z.to_nat window) j credits window) (λ d,
      match d with
      | Err e => fail e 502
      | Ok _ =>
        sent ← sendAgent i (end_message id);
        match sent with
        | Err e => fail e 502
        | Ok _ =>
          fuelled (wait_for fuel j "file_upload_result") (λ res,
          match res with
          | Err e => fail e 504
          | Ok m =>
            if negb (String.eqb (m_Error m) "") then fail (m_Error m) 502
            else mret (Some (FPlain (reply_json [] 200 [("ok", JBool true); ("bytes", JInt total)]), true))
          end)
        end
      end)
    end)
  end).

(** [contentLength]: [r.ContentLength], -1 when unknown. *)
Definition handleFileUpload (fuel : nat) (contentLength : Z) (reads : list (string * option string))
    (r : request) : handler (option file_reply) :=
  let fail text status := mret (Some (FPlain (http_error [] text status))) in
  if negb (FileBrowserEnabled cfg) then fail "file browser disabled" 403
  else
    let path := default "" (find_value "path" (rq_Query r)) in
    if blank path then fail "path required" 400
    else if exceeds contentLength then fail "file exceeds configured maximum" 413
    else
      agent ← getOnlineAgent cfg (rq_PathId r);
      match agent with
      | Err e => fail e 502
      | Ok i =>
        x ← newPending;
        let (id, j) := x : string * Z in
        flag ← agent_flag ag_fileUploadCredits i;
        sent ← sendAgent i (request_msg "file_upload_start" id path "" "" "" contentLength
                              (if flag : bool then initialFileUploadCredits else 0) 420 []);
        r ← match sent with
            | Err e => fail e 502
            | Ok _ =>
              fuelled (run_upload fuel i j id flag reads) (λ x,
              let (r, completed) := x : file_reply * bool in
              _ ← (if completed then mret () else send_quietly i (abort_message id));
              mret (Some r))
            end;
        _ ← removePending id j;
        mret r
      end.
End files.
