(* ===== verification/ServerFilesProps.v ===== *)
(** * The file handlers return

    Enough fuel for the loops of downloads and uploads: every turn of a loop uses
    up a step or a waiting message, and a queue holds at most eight. *)

From S2P Require Export ServerFiles.

Section returns.
Context (cfg : Config) {ic : InfoCodec}.

(** ** The bound on the queues *)

Definition queue_length (j : Z) (s : Server) : nat :=
  match sv_reqs s !! j with Some p => length (pr_ch p) | None => 0 end.

Definition queues_bounded (s : Server) : Prop := ∀ j, (queue_length j s <= 8)%nat.

(** What the other goroutines do between two steps keeps the bound. *)
Definition keeps_bounds (t : tick) : Prop := ∀ s, queues_bounded s → queues_bounded (tk_env t s).

(** [deliver_to], the only operation that adds to a queue, does. *)
Lemma deliver_to_bounded i m s : queues_bounded s → queues_bounded (snd (deliver_to i m s)).
Proof.
  intros Hs j. unfold deliver_to, queue_length. specialize (Hs j). unfold queue_length in Hs.
  destruct (sv_reqs s !! i) as [p|] eqn:E; [|done].
  destruct (deliver m p) as [p' r] eqn:Ed. cbn [snd]. unfold upd_req. simpl.
  destruct (decide (i = j)) as [->|Hne]; [|by rewrite lookup_alter_ne].
  rewrite lookup_alter_eq, E in *. simpl. unfold deliver in Ed.
  destruct (pr_done p); [by injection Ed as <- _|].
  destruct (Z.ltb_spec (Z.of_nat (length (pr_ch p))) pendingQueueCapacity) as [Hl|Hl]; injection Ed as <- _; simpl; [|unfold finish; by destruct (pr_done p)].
  rewrite length_app. simpl. unfold pendingQueueCapacity in Hl. lia.
Qed.

(** ** The measure *)

Definition measure (j : Z) (h : run_state) : nat := 9 * length (r_ticks h) + queue_length j (r_sys h).

Record settled (n : nat) (j : Z) (h : run_state) : Prop := mkSettled {
  st_bounded : queues_bounded (r_sys h);
  st_ticks : Forall keeps_bounds (r_ticks h);
  st_measure : (measure j h <= n)%nat
}.

(** Steps that do not wait. *)
Definition calm {A} (m : handler A) : Prop := ∀ n j h, settled n j h → settled n j (snd (m h)).

(** [m] ends with a result satisfying [Q] when [fuel] exceeds the measure. *)
Definition returns {A} (fuel : nat) (j : Z) (m : handler (option A)) (Q : A → Prop) : Prop :=
  ∀ n h, settled n j h → (n < fuel)%nat → ∃ a, fst (m h) = Some a ∧ Q a ∧ settled n j (snd (m h)).

Lemma settled_le n n' j h : (n <= n')%nat → settled n j h → settled n' j h.
Proof. intros Hle []. split; [done|done|lia]. Qed.

Lemma calm_ret {A} (a : A) : calm (mret a).
Proof. by intros n j h. Qed.

Lemma calm_bind {A B} (m : handler A) (k : A → handler B) :
  calm m → (∀ a, calm (k a)) → calm (m ≫= k).
Proof. intros Hm Hk n j h Hh. rewrite bind_run. by apply Hk, Hm. Qed.

(** A step leaves no queue longer. *)
Lemma step_settled {A} (f : tick → Server → A * Server) n j h :
  (∀ t s i, (queue_length i (snd (f t s)) <= queue_length i s)%nat) →
  settled n j h → settled n j (snd (step f h)).
Proof.
  intros Hf [Hb Ht Hm]. unfold step, measure in *. destruct (r_ticks h) as [|t ts].
  - specialize (Hf idle_tick (r_sys h)). change (tk_env idle_tick (r_sys h)) with (r_sys h).
    destruct (f idle_tick (r_sys h)) as [a s']. simpl in *. split; simpl; [|done|].
    + intros i. specialize (Hf i). specialize (Hb i). lia.
    + unfold measure. simpl. specialize (Hf j). lia.
  - apply Forall_cons in Ht as [Ht Hts]. pose proof (Ht _ Hb) as Hb'. specialize (Hf t (tk_env t (r_sys h))).
    destruct (f t (tk_env t (r_sys h))) as [a s']. simpl in *. split; simpl; [|done|].
    + intros i. specialize (Hf i). specialize (Hb' i). lia.
    + unfold measure. simpl. specialize (Hf j). specialize (Hb' j). lia.
Qed.

Lemma calm_step {A} (f : tick → Server → A * Server) :
  (∀ t s i, (queue_length i (snd (f t s)) <= queue_length i s)%nat) → calm (step f).
Proof. intros Hf n j h. by apply step_settled. Qed.

(** Most steps do not touch the requests. *)
Lemma calm_same {A} (f : tick → Server → A * Server) :
  (∀ t s, sv_reqs (snd (f t s)) = sv_reqs s) → calm (step f).
Proof. intros Hf. apply calm_step. intros t s i. unfold queue_length. by rewrite Hf. Qed.

Lemma returns_ret {A} fuel j (a : A) (Q : A → Prop) : Q a → returns fuel j (mret (Some a)) Q.
Proof. intros Ha n h Hh _. by exists a. Qed.

Lemma returns_bind {A B} fuel j (m : handler A) (k : A → handler (option B)) (Q : B → Prop) :
  calm m → (∀ a, returns fuel j (k a) Q) → returns fuel j (m ≫= k) Q.
Proof. intros Hm Hk n h Hh Hn. rewrite bind_run. apply Hk; [by apply Hm|done]. Qed.

Lemma returns_fuelled {A B} fuel j (m : handler (option A)) (k : A → handler (option B)) P (Q : B → Prop) :
  returns fuel j m P → (∀ a, P a → returns fuel j (k a) Q) → returns fuel j (fuelled m k) Q.
Proof.
  intros Hm Hk n h Hh Hn. unfold fuelled. rewrite bind_run.
  destruct (Hm n h Hh Hn) as (a & -> & Ha & Hh'). by apply (Hk a Ha n).
Qed.

(** With what the quiet part returns. *)
Lemma returns_bind_post {A B} fuel j (m : handler A) (k : A → handler (option B)) (P : A → Prop) (Q : B → Prop) :
  calm m → (∀ h, P (fst (m h))) → (∀ a, P a → returns fuel j (k a) Q) → returns fuel j (m ≫= k) Q.
Proof. intros Hm HP Hk n h Hh Hn. rewrite bind_run. by apply (Hk _ (HP h)); [apply Hm|]. Qed.

(** Something after the result. *)
Lemma returns_then {A B} fuel j (m : handler (option A)) (k : option A → handler B) P (Q : option B → Prop) :
  returns fuel j m P → (∀ a, P a → calm (k (Some a))) → ∀ n h, settled n j h → (n < fuel)%nat →
  ∃ a, fst (m h) = Some a ∧ P a ∧ settled n j (snd (m h)).
Proof. intros Hm _ n h Hh Hn. by apply Hm. Qed.

(** ** The loops *)

Lemma await_takes t j s :
  (queue_length j (snd (await_transfer t j s))
   + match fst (await_transfer t j s) with TMessage _ => 1 | _ => 0 end <= queue_length j s)%nat ∧
  ∀ i, (queue_length i (snd (await_transfer t j s)) <= queue_length i s)%nat.
Proof.
  unfold await_transfer. destruct (tk_io t); [simpl; split; [lia|done]|].
  destruct (sv_reqs s !! j) as [p|] eqn:E; [|simpl; split; [lia|done]].
  assert (Hq : queue_length j s = length (pr_ch p)) by (unfold queue_length; by rewrite E).
  assert (Hu : ∀ q i, queue_length i (upd_req j (λ p, mkPending q (pr_done p) (pr_err p)) s)
            = if decide (i = j) then length q else queue_length i s).
  { intros q i. unfold queue_length, upd_req. simpl. destruct (decide (i = j)) as [->|Hne].
    - by rewrite lookup_alter_eq, E.
    - by rewrite lookup_alter_ne by congruence. }
  destruct (tk_wait t), (pr_ch p) as [|m q], (pr_done p); simpl in *; rewrite ?Hu, ?decide_True by done;
    split; try done; try lia; intros i; rewrite ?Hu; destruct (decide (i = j)) as [->|]; lia.
Qed.

(** A turn that takes a message lowers the measure. *)
Lemma await_settled n j h :
  settled n j h →
  let run := step (λ t s, await_transfer t j s) h in
  match fst run with
  | TMessage _ => ∃ n', (n' < n)%nat ∧ settled n' j (snd run)
  | _ => settled n j (snd run)
  end.
Proof.
  intros Hh. pose proof Hh as [Hb Ht Hm]. unfold step, measure in *.
  assert (Htake : ∀ t s, (queue_length j (snd (await_transfer t j s)) + match fst (await_transfer t j s) with TMessage _ => 1 | _ => 0 end <= queue_length j s)%nat ∧
            ∀ i, (queue_length i (snd (await_transfer t j s)) <= queue_length i s)%nat).
  { intros t s. apply await_takes. }
  destruct (r_ticks h) as [|t ts].
  - specialize (Htake idle_tick (r_sys h)). change (tk_env idle_tick (r_sys h)) with (r_sys h).
    destruct (await_transfer idle_tick j (r_sys h)) as [e s']. simpl in *. destruct Htake as [Hj Hi].
    assert (Hb' : queues_bounded s') by (intros i; specialize (Hi i); specialize (Hb i); lia).
    destruct e as [m| | |]; [exists (n - 1)%nat; split; [lia|]|..]; split; unfold measure; simpl; try done; lia.
  - apply Forall_cons in Ht as [Ht Hts]. pose proof (Ht _ Hb) as Hb'. specialize (Htake t (tk_env t (r_sys h))).
    destruct (await_transfer t j (tk_env t (r_sys h))) as [e s']. simpl in *. destruct Htake as [Hj Hi].
    assert (Hb'' : queues_bounded s') by (intros i; specialize (Hi i); specialize (Hb' i); lia).
    specialize (Hb' j).
    destruct e as [m| | |]; [exists (n - 1)%nat; split; [lia|]|..]; split; unfold measure; simpl; try done; lia.
Qed.

Lemma returns_wait_for fuel j expected : returns fuel j (wait_for fuel j expected) (λ _, True).
Proof.
  induction fuel as [|fuel IH]; intros n h Hh Hn; [lia|]. cbn [wait_for]. rewrite bind_run.
  pose proof (await_settled n j h Hh) as Ha. destruct (step _ h) as [e h']. cbn [fst snd] in *.
  destruct e as [m|err| |]; try by eexists.
  destruct Ha as (n' & Hn' & Ha). 
  assert (Hset : settled n j h') by (destruct Ha; split; [done|done|lia]).
  destruct (String.eqb _ expected); [by eexists|]. destruct (_ && _); [by eexists|].
  destruct (IH n' h' Ha ltac:(lia)) as (a & Ea & _ & Hs). exists a. split; [done|]. split; [done|].
  destruct Hs. split; [done|done|lia].
Qed.

Lemma returns_wait_credit fuel j credits window :
  returns fuel j (wait_credit fuel j credits window)
    (λ r, match r with Ok c => Z.min window (credits + 1) <= c | Err _ => True end).
Proof.
  unfold wait_credit. eapply returns_fuelled; [apply returns_wait_for|]. intros m _. apply returns_ret.
  destruct m as [m|e]; [|done]. simpl. unfold take_credit.
  destruct ((m_Credits m <? 1) || (window <? m_Credits m)) eqn:E; [done|].
  apply orb_false_iff in E as [E _]. bool_to_prop. lia.
Qed.

Lemma calm_sendAgent i m : calm (sendAgent i m).
Proof.
  apply calm_same. intros t s. unfold send_agent. destruct (sv_conns s !! i) as [a|]; [|done].
  by destruct (_ || _).
Qed.

Lemma calm_send_quietly i m : calm (send_quietly i m).
Proof. apply calm_bind; [apply calm_sendAgent|]. intros _. apply calm_ret. Qed.

Lemma returns_upload_loop fuel i j id window reads : ∀ credits total,
  0 <= credits →
  returns fuel j (upload_loop cfg fuel i j id window credits total reads)
    (λ x, match x with inl (_, c) => 0 <= c | inr _ => True end).
Proof.
  induction reads as [|[b err] reads IH]; intros credits total Hc; cbn [upload_loop].
  { apply returns_bind; [apply calm_send_quietly|]. intros _. by apply returns_ret. }
  eapply (returns_fuelled _ _ _ _ (λ c, match c with Ok c => 0 <= c ∧ (0 < window → 0 < c) | Err _ => True end)).
  { destruct ((0 <? window) && (credits =? 0)) eqn:E; [|apply returns_ret].
    - apply andb_true_iff in E as [E1 E2]. bool_to_prop. intros n h Hh Hn.
      destruct (returns_wait_credit fuel j credits window n h Hh Hn) as (r & Er & Hr & Hs).
      exists r. split; [done|]. split; [|done]. destruct r; [lia|done].
    - apply andb_false_iff in E as [E|E]; bool_to_prop; lia. }
  intros [c|e] Hcr; [|by apply returns_ret]. cbv zeta.
  eapply (returns_bind_post _ _ _ _ (λ x, match x with inl c => 0 <= c | inr _ => True end)).
  - destruct (0 <? slen b); [|apply calm_ret]. destruct (_ && _).
    + apply calm_bind; [apply calm_send_quietly|]. intros _. apply calm_ret.
    + apply calm_bind; [apply calm_sendAgent|]. intros [u|e].
      * destruct (0 <? window); apply calm_ret.
      * apply calm_bind; [apply calm_send_quietly|]. intros _. apply calm_ret.
  - intros h. destruct (0 <? slen b); [|simpl; lia]. destruct (_ && _); [by rewrite bind_run|].
    rewrite bind_run. destruct (fst (sendAgent _ _ h)); [|by rewrite bind_run].
    simpl. destruct (Z.ltb_spec 0 window); simpl; lia.
  - intros [c'|e] Hc'; [|by apply returns_ret]. destruct err as [e|]; [|by apply IH].
    destruct (String.eqb e "EOF"); [by apply returns_ret|].
    apply returns_bind; [apply calm_send_quietly|]. intros _. by apply returns_ret.
Qed.

Lemma returns_drain_credits fuel j window turns : ∀ credits,
  (Z.to_nat (window - credits) <= turns)%nat →
  returns fuel j (drain_credits fuel turns j credits window) (λ _, True).
Proof.
  induction turns as [|turns IH]; intros credits Hle; cbn [drain_credits].
  - destruct ((0 <? window) && (credits <? window)) eqn:E; [|by apply returns_ret].
    apply andb_true_iff in E as [_ E]. bool_to_prop. lia.
  - destruct ((0 <? window) && (credits <? window)) eqn:E; [|by apply returns_ret].
    apply andb_true_iff in E as [_ E]. bool_to_prop.
    eapply returns_fuelled; [apply returns_wait_credit|]. intros [c|e] Hc; [|by apply returns_ret].
    apply IH. lia.
Qed.

Lemma returns_run_upload fuel i j id flag reads :
  returns fuel j (run_upload cfg fuel i j id flag reads) (λ _, True).
Proof.
  unfold run_upload. eapply returns_fuelled; [apply returns_wait_for|]. intros ready _.
  assert (Hw : ∀ w, (try m := ready in if String.eqb (m_Error m) "" then grant_window flag m else Err (m_Error m)) = Ok w → 0 <= w).
  { intros w (m & _ & Hm)%res_bind_ok. destruct (String.eqb _ ""); [|done]. unfold grant_window in Hm.
    destruct flag; [|by injection Hm as <-]. destruct (_ || _) eqn:E; [done|]. injection Hm as <-.
    apply orb_false_iff in E as [E _]. bool_to_prop. lia. }
  destruct (res_bind ready _) as [window|e]; [|by apply returns_ret]. specialize (Hw window eq_refl).
  eapply returns_fuelled; [by apply returns_upload_loop|]. intros [[total credits]|[e status]] Hc; [|by apply returns_ret].
  eapply returns_fuelled; [apply returns_drain_credits; lia|]. intros [u|e] _; [|by apply returns_ret].
  apply returns_bind; [apply calm_sendAgent|]. intros [u'|e]; [|by apply returns_ret].
  eapply returns_fuelled; [apply returns_wait_for|]. intros [m|e] _; [|by apply returns_ret].
  destruct (negb _); by apply returns_ret.
Qed.

Lemma returns_download_loop i j id credits fuel : ∀ d,
  returns fuel j (download_loop cfg fuel i j id credits d) (λ _, True).
Proof.
  induction fuel as [|fuel IH]; intros d n h Hh Hn; [lia|]. cbn [download_loop]. rewrite bind_run.
  pose proof (await_settled n j h Hh) as Ha. destruct (step _ h) as [e h']. cbn [fst snd] in *.
  destruct e as [m|err| |]; [|by eexists| |].
  2-3: rewrite bind_run; by eexists; split; [done|]; split; [done|]; apply calm_send_quietly.
  destruct Ha as (n' & Hn' & Ha).
  match goal with |- ∃ a, fst (?k h') = _ ∧ _ =>
    assert (HK : returns fuel j k (λ _, True)) end.
  { apply returns_bind; [by apply calm_same|]. intros fails.
    destruct (on_download_message cfg credits fails id m d) as [[d' out] last].
    apply returns_bind; [destruct out; [apply calm_sendAgent|apply calm_ret]|].
    intros sent. destruct last as [x|]; [by apply returns_ret|]. destruct sent; [apply IH|by apply returns_ret]. }
  destruct (HK n' h' Ha ltac:(lia)) as (a & Ea & _ & Hs). exists a. split; [done|]. split; [done|].
  eapply settled_le; [|done]. lia.
Qed.

(** ** The handlers *)

Lemma calm_db {A} (f : tick → stm A) : calm (db_step f).
Proof. apply calm_same. intros t s. by destruct (f t _). Qed.

Lemma calm_getOnlineAgent id : calm (getOnlineAgent cfg id).
Proof.
  apply calm_bind; [apply calm_db|]. intros [[d|]|e]; [|apply calm_ret..].
  apply calm_bind.
  - by apply calm_same.
  - intros online. destruct (negb online); [apply calm_ret|].
    apply calm_bind; [by apply calm_same|]. intros a. apply calm_ret.
Qed.

Lemma calm_newPending : calm newPending.
Proof.
  apply calm_step. intros t s i. unfold queue_length. simpl.
  destruct (decide (i = sv_next s)) as [->|]; [rewrite lookup_insert_eq; simpl; lia|by rewrite lookup_insert_ne].
Qed.

Lemma calm_removePending id i : calm (removePending id i).
Proof.
  apply calm_step. intros t s k. unfold remove_pending, queue_length. simpl.
  assert (E : sv_reqs (if bool_decide (sv_pending s !! id = Some i) then with_pending (delete id (sv_pending s)) s else s)
    = sv_reqs s) by by destruct (bool_decide _).
  rewrite E. destruct (decide (k = i)) as [->|]; [|by rewrite lookup_alter_ne].
  rewrite lookup_alter_eq. destruct (sv_reqs s !! i) as [p|]; simpl; [|lia]. unfold finish. by destruct (pr_done p).
Qed.

(** [m] returns a result from every state of measure [n]. *)
Definition answers {A} (n : nat) (m : handler (option A)) : Prop :=
  ∀ h, (∀ j, settled n j h) → is_Some (fst (m h)).

Lemma answers_bind {A B} n (m : handler A) (k : A → handler (option B)) :
  calm m → (∀ a, answers n (k a)) → answers n (m ≫= k).
Proof. intros Hm Hk h Hh. rewrite bind_run. apply Hk. intros j. by apply Hm. Qed.

Lemma answers_ret {A} n (a : A) : answers n (mret (Some a)).
Proof. intros h _. by eexists. Qed.

(** A loop whose result is returned after some cleaning up. *)
Lemma answers_finally {A} n fuel j (m : handler (option A)) (f : handler unit) Q :
  (n < fuel)%nat → returns fuel j m Q → answers n (x ← m; _ ← f; mret x).
Proof.
  intros Hn Hm h Hh. rewrite !bind_run. destruct (Hm n h (Hh j) Hn) as (a & Ea & _). rewrite Ea. by eexists.
Qed.

Lemma answers_handleFileDownload n fuel r : (n < fuel)%nat → answers n (handleFileDownload cfg fuel r).
Proof.
  intros Hn. unfold handleFileDownload. destruct (negb _); [apply answers_ret|]. cbv zeta.
  destruct (blank _); [apply answers_ret|]. apply answers_bind; [apply calm_getOnlineAgent|].
  intros [i|e]; [|apply answers_ret]. apply answers_bind; [apply calm_newPending|]. intros [id j].
  apply answers_bind; [by apply calm_same|]. intros flag. apply answers_bind; [apply calm_sendAgent|].
  intros [u|e]; (eapply answers_finally; [done|]); [apply returns_download_loop|].
  by apply (returns_ret _ j _ (λ _, True)).
Qed.

Lemma answers_handleFileUpload n fuel len reads r :
  (n < fuel)%nat → answers n (handleFileUpload cfg fuel len reads r).
Proof.
  intros Hn. unfold handleFileUpload. destruct (negb _); [apply answers_ret|]. cbv zeta.
  destruct (blank _); [apply answers_ret|]. destruct (exceeds _ _); [apply answers_ret|].
  apply answers_bind; [apply calm_getOnlineAgent|].
  intros [i|e]; [|apply answers_ret]. apply answers_bind; [apply calm_newPending|]. intros [id j].
  apply answers_bind; [by apply calm_same|]. intros flag. apply answers_bind; [apply calm_sendAgent|].
  intros [u|e]; (apply (answers_finally _ fuel j _ _ (λ _, True)); [done|]); [|by apply (returns_ret _ j _ (λ _, True))].
  eapply returns_fuelled; [apply returns_run_upload|]. intros [x completed] _.
  apply returns_bind; [destruct completed; [apply calm_ret|apply calm_send_quietly]|]. intros _. by apply returns_ret.
Qed.

Lemma settled_start s ts j :
  queues_bounded s → Forall keeps_bounds ts → settled (9 * length ts + 8) j (mkRun s ts []).
Proof. intros Hs Ht. split; [done|done|]. unfold measure. simpl. specialize (Hs j). lia. Qed.
End returns.

(** C38. Every transfer ends.  However the Agent, the browser, the other requests
    and the failures are interleaved with a download or an upload, its handler
    returns: the fuel of its loops suffices as soon as it exceeds nine times the
    steps in which others interfere plus the eight messages a queue can hold, a
    bound which everything that adds to a queue respects. *)
Theorem transfers_return cfg `{InfoCodec} fuel r len reads s ts :
  queues_bounded s → Forall keeps_bounds ts → (9 * length ts + 8 < fuel)%nat →
  is_Some (fst (run_handler (handleFileDownload cfg fuel r) s ts)) ∧
  is_Some (fst (run_handler (handleFileUpload cfg fuel len reads r) s ts)).
Proof.
  intros Hs Ht Hf. split.
  - eapply answers_handleFileDownload; [exact Hf|]. intros j. by apply settled_start.
  - eapply answers_handleFileUpload; [exact Hf|]. intros j. by apply settled_start.
Qed.

(** *** A concrete run *)

#[local] Instance plain_info : InfoCodec := {| marshal_info i := Ok (Hostname i); unmarshal_info s := None |}.

Definition demo_cfg : res Config := LoadConfig "/etc/homectl/config.json" (Ok defaultFileConfig).

(** Another goroutine delivers a message before every step. *)
Definition delivering : tick :=
  mkTick (λ s, snd (deliver_to 0 (credit_msg "r") s)) 0 0 [] "" (Err "no entropy") WaitSlot false None 0.

Definition download_of (id : string) : request :=
  mkRequest "GET" "/api/device/d/files/download" "10.0.0.1:9" [] [] id [("path", "/a")].

Lemma transfers_return_witness :
  match demo_cfg with
  | Ok cfg => is_Some (fst (run_handler (handleFileUpload cfg 27 (-1) [("hello", Some "EOF")] (download_of "d"))
                              (New empty_db) [delivering; delivering]))
  | Err _ => False
  end.
Proof.
  destruct demo_cfg as [cfg|e] eqn:E; [|vm_compute in E; discriminate E].
  apply (transfers_return cfg 27 (download_of "d") (-1) [("hello", Some "EOF")] (New empty_db) [delivering; delivering]).
  - intros j. unfold queue_length. simpl. rewrite lookup_empty. lia.
  - apply Forall_cons; split; [|apply Forall_cons; split; [|constructor]]; intros s; apply deliver_to_bounded.
  - simpl. lia.
Defined.
