(* ===== verification/Transfer.v ===== *)
(** * A whole download: Agent, Server and the connection between them

    The loops of both [handleFileDownload]s, the Server's bounded queue of
    responses and the flow control by credits, as one transition system over the
    functions of AgentFiles.v, Hub.v and ServerFiles.v.  Neither loop can fail
    here: reads return some bytes until the end of the file, the connection
    delivers every message in order, and nobody else closes the request or changes
    the file.  All interleavings are allowed. *)

From S2P Require Export AgentFiles.
From S2P Require Export ServerFiles.

(** Where the Agent's loop is. *)
Inductive sender : Type :=
| SWait                                        (** at the head of the loop *)
| SRead                                        (** it took a credit *)
| SSend (text : string) (err : option string)  (** [f.Read] returned *)
| SFinish (err : string)                       (** left the loop *)
| SEnded.

Record transfer : Type := mkTransfer {
  tr_agent : agent;
  tr_sender : sender;
  tr_off : Z;
  tr_left : Z;
  tr_up : list Message;       (** sent to the Server *)
  tr_req : pendingRequest;
  tr_dl : download;
  tr_reply : option file_reply;
  tr_down : list Message      (** sent to the Agent *)
}.

(** Which process moves. *)
Inductive move : Type :=
| MCredit (w : slot_wait) | MRead (count : Z) | MSend | MEnd   (** the Agent's loop *)
| MInput                                                       (** the Agent's read loop *)
| MDeliver                                                     (** the Server's read loop *)
| MReceive | MClosed.                                          (** the Server's handler *)

Section transfer.
Context (acfg : agentConfig) (scfg : Config) (id : string) (j i : Z).

(** The Agent's read loop on the messages that concern a download. *)
Definition agent_input (m : Message) (a : agent) : agent :=
  let run h := r_sys (snd (run_handler h a [])) in
  if String.eqb (m_Type m) "file_cancel" then run (handleFileCancel m)
  else if String.eqb (m_Type m) "file_credit" then run (handleFileCredit m)
  else a.

(** The read loop hands a message to the request; an overflow cancels. *)
Definition deliver_move (m : Message) (p : pendingRequest) : pendingRequest * list Message :=
  let (p, r) := deliver m p in
  (p, if snd r && HasPrefix (m_Type m) "file_" then [cancel_msg (m_RequestID m)] else []).

Definition dropped (a : agent) : agent := r_sys (snd (run_handler (drop_download id j) a [])).

Definition turn (c : move) (s : transfer) : option transfer :=
  let 'mkTransfer a who off todo up req dl reply down := s in
  match c with
  | MCredit w =>
    match who with
    | SWait =>
      if todo <=? 0 then Some (mkTransfer a (SFinish "") off todo up req dl reply down)
      else
        let (go, a') := await_credit w j a in
        match go with
        | WGo => Some (mkTransfer a' SRead off todo up req dl reply down)
        | WStop => Some (mkTransfer (dropped a') SEnded off todo up req dl reply down)
        | WBlocked => None
        end
    | _ => None
    end
  | MRead count =>
    match who with
    | SRead =>
      let (text, err) := os_read None count (Z.min (c_FileTransferChunkBytes acfg) todo) i off (sa_fs a) in
      Some (mkTransfer a (SSend text err) off todo up req dl reply down)
    | _ => None
    end
  | MSend =>
    match who with
    | SSend text err =>
      let n := slen text in
      let up := if 0 <? n then up ++ [chunk_msg id text] else up in
      Some (match after_read n (todo - n) err with
            | Some e => mkTransfer a (SFinish e) (off + n) (todo - n) up req dl reply down
            | None => mkTransfer a SWait (off + n) (todo - n) up req dl reply down
            end)
    | _ => None
    end
  | MEnd =>
    match who with
    | SFinish e =>
      Some (mkTransfer (dropped a) SEnded off todo (up ++ [file_end id e]) req dl reply down)
    | _ => None
    end
  | MInput =>
    match down with
    | m :: down => Some (mkTransfer (agent_input m a) who off todo up req dl reply down)
    | [] => None
    end
  | MDeliver =>
    match up with
    | m :: up =>
      let (req, out) := deliver_move m req in
      Some (mkTransfer a who off todo up req dl reply (down ++ out))
    | [] => None
    end
  | MReceive =>
    match reply, pr_ch req with
    | None, m :: ch =>
      let '(dl, out, reply) := on_download_message scfg true false id m dl in
      Some (mkTransfer a who off todo up (mkPending ch (pr_done req) (pr_err req)) dl reply
              (down ++ option_list out))
    | _, _ => None
    end
  | MClosed =>
    if pr_done req && bool_decide (reply = None)
    then Some (mkTransfer a who off todo up req dl (Some (unless_committed dl (failure req) 502)) down)
    else None
  end.

Definition move_step (s s' : transfer) : Prop := ∃ c, turn c s = Some s'.

(** The Agent registers the download and sends the metadata of its file. *)
Definition start_transfer (request : Message) (n : inode) (a : agent) : transfer :=
  mkTransfer (r_sys (snd (run_handler (register_download request) a []))) SWait 0 (slen (in_data n))
    [meta_msg id (slen (in_data n)) (in_perm n)] (mkPending [] false None) start_download None [].

End transfer.

(** What the Server asks for. *)
Definition download_request (scfg : Config) (id path : string) : Message :=
  request_msg "file_download" id path "" "" "" (MaxFileTransferBytes scfg) initialFileDownloadCredits 0 [].

(** ** The invariant *)

Section proof.
Context (acfg : agentConfig) (scfg : Config) (id : string) (j i : Z) (n : inode) (meta : Message).
Hypothesis Hchunk : 0 < c_FileTransferChunkBytes acfg.
Hypothesis Hmeta : meta = meta_msg id (slen (in_data n)) (in_perm n).
Hypothesis Hsize : exceeds scfg (slen (in_data n)) = false.
Notation text := (in_data n).
Notation chunks ts := (chunk_msg id <$> ts).
Notation move := (turn acfg scfg id j i).

(** A credit the Agent's loop has taken for the chunk it is about to send. *)
Definition held (who : sender) : Z := match who with SRead | SSend _ _ => 1 | _ => 0 end.

Definition last_message (who : sender) : list Message :=
  match who with SEnded => [file_end id ""] | _ => [] end.

Definition sender_ok (who : sender) (off todo : Z) : Prop :=
  match who with
  | SWait => True
  | SRead => 0 < todo
  | SSend t err => err = None ∧ 0 < slen t <= todo ∧ stake off text +:+ t = stake (off + slen t) text
  | SFinish err => err = "" ∧ todo = 0
  | SEnded => todo = 0
  end.

(** While the loop runs, the Agent holds the download with [c] credits. *)
Definition registered (a : agent) (who : sender) (c : Z) : Prop :=
  who = SEnded ∨ sa_downloads a !! id = Some j ∧ sa_dlobjs a !! j = Some (mkDownload false (Some c)).

(** The Server has received the metadata, or has yet to. *)
Definition received (dl : download) (k : list Message) : Prop :=
  dl_total dl = slen (dl_body dl) ∧
  (dl_metadata dl = false ∧ dl_body dl = "" ∧ k = [meta] ∨
   dl_metadata dl = true ∧ dl_expected dl = slen text ∧ k = []).

(** The chunks [ts] are on their way; [c] credits are with the Agent. *)
Record live (s : transfer) (c : Z) (ts : list string) (k : list Message) : Prop := {
  lv_file : fs_inodes (sa_fs (tr_agent s)) !! i = Some n;
  lv_registered : registered (tr_agent s) (tr_sender s) c;
  lv_down : Forall (λ m, m = credit_msg id) (tr_down s);
  lv_open : pr_done (tr_req s) = false;
  lv_reply : tr_reply s = None;
  lv_left : 0 <= tr_off s ∧ 0 <= tr_left s ∧ tr_off s + tr_left s = slen text;
  lv_sender : sender_ok (tr_sender s) (tr_off s) (tr_left s);
  lv_credit : 0 <= c ∧ c + held (tr_sender s) + Z.of_nat (length ts) + Z.of_nat (length (tr_down s)) <= 4;
  lv_full : tr_sender s ≠ SEnded →
            c + held (tr_sender s) + Z.of_nat (length ts) + Z.of_nat (length (tr_down s)) = 4;
  lv_received : received (tr_dl s) k;
  lv_stream : pr_ch (tr_req s) ++ tr_up s = k ++ chunks ts ++ last_message (tr_sender s);
  lv_text : dl_body (tr_dl s) +:+ sconcat ts = stake (tr_off s) text
}.

(** The answer is out. *)
Record complete (s : transfer) : Prop := {
  cp_reply : tr_reply s = Some (FDownload (Some (slen text)) text);
  cp_sender : tr_sender s = SEnded;
  cp_stream : pr_ch (tr_req s) ++ tr_up s = [];
  cp_down : Forall (λ m, m = credit_msg id) (tr_down s);
  cp_body : dl_body (tr_dl s) = text;
  cp_left : tr_left s = 0
}.

Definition inv (s : transfer) : Prop := (∃ c ts k, live s c ts k) ∨ complete s.

(** Every move decreases this: a byte costs eight, a message one per hop. *)
Definition cost (who : sender) : Z :=
  match who with SWait => 7 | SRead => 5 | SSend _ _ => 4 | SFinish _ => 5 | SEnded => 0 end.
Definition weight (s : transfer) : Z :=
  8 * tr_left s + cost (tr_sender s) + 3 * Z.of_nat (length (tr_up s))
  + 2 * Z.of_nat (length (pr_ch (tr_req s))) + Z.of_nat (length (tr_down s)).

(** *** What the functions do on these messages *)

Lemma stake_add a b s : 0 <= a → 0 <= b → stake a s +:+ stake b (sdrop (Z.to_nat a) s) = stake (a + b) s.
Proof.
  intros Ha Hb. apply to_bytes_inj. rewrite to_bytes_app, !to_bytes_stake, to_bytes_sdrop.
  rewrite take_take_drop. f_equal. lia.
Qed.

Lemma read_ok count off todo fs t err :
  fs_inodes fs !! i = Some n → 0 <= off → 0 < todo → off + todo = slen text →
  os_read None count (Z.min (c_FileTransferChunkBytes acfg) todo) i off fs = (t, err) →
  err = None ∧ 0 < slen t <= todo ∧ stake off text +:+ t = stake (off + slen t) text.
Proof.
  intros Hi Hoff Htodo Hsum. unfold os_read. rewrite Hi.
  assert (Hrest : slen (sdrop (Z.to_nat off) text) = todo) by (rewrite slen_sdrop; lia).
  rewrite Hrest, (Z.min_l (Z.min _ todo) todo) by lia. set (avail := Z.min _ _).
  assert (Hav : 0 < avail <= todo) by (unfold avail; lia).
  destruct (Z.eqb_spec avail 0); [lia|].
  destruct (Z.leb_spec avail 0); [lia|].
  set (k := if (0 <? count) && (count <? avail) then count else avail).
  assert (Hk : 0 < k <= avail).
  { unfold k. destruct ((0 <? count) && _) eqn:E; [|lia]. apply andb_true_iff in E as [E1 E2]. bool_to_prop. lia. }
  intros [= <- <-]. rewrite slen_stake by lia. rewrite Hrest, Z.min_l by lia.
  split; [done|]. split; [lia|]. apply stake_add; lia.
Qed.

Lemma receive_meta dl :
  received dl [meta] →
  ∃ dl', on_download_message scfg true false id meta dl = (dl', None, None) ∧
    received dl' [] ∧ dl_body dl' = dl_body dl.
Proof.
  intros [Ht [(Hm & Hb & _)|(_ & _ & ?)]]; [|done]. pose proof (slen_nonneg text) as Hn.
  exists (mkDl (dl_committed dl) true (slen text) (dl_total dl) (dl_body dl)).
  unfold on_download_message. rewrite Hmeta.
  change (m_Type (meta_msg id (slen text) (in_perm n))) with "file_meta".
  change (m_Error (meta_msg id (slen text) (in_perm n))) with "".
  change (m_Size (meta_msg id (slen text) (in_perm n))) with (slen text).
  rewrite Hm, Hsize, (proj2 (Z.ltb_ge _ _)) by lia. split; [done|]. split; [|done].
  split; [done|]. by right.
Qed.

Lemma receive_chunk dl t :
  received dl [] → slen (dl_body dl) + slen t <= slen text →
  ∃ dl', on_download_message scfg true false id (chunk_msg id t) dl = (dl', Some (credit_msg id), None) ∧
    received dl' [] ∧ dl_body dl' = dl_body dl +:+ t.
Proof.
  intros [Ht [(_ & _ & ?)|(Hm & He & _)]] Hfit; [done|].
  exists (mkDl true true (dl_expected dl) (dl_total dl + slen t) (dl_body dl +:+ t)).
  unfold on_download_message.
  change (m_Type (chunk_msg id t)) with "file_chunk".
  change (m_Data (chunk_msg id t)) with (StdEncode t).
  rewrite Hm, Std_roundtrip. cbn -[slen].
  assert (E : (0 <? MaxFileTransferBytes scfg) && (MaxFileTransferBytes scfg - dl_total dl <? slen t) = false).
  { unfold exceeds in Hsize. destruct (0 <? _); [|done]. simpl in *. bool_to_prop. lia. }
  rewrite E. split; [done|]. split; [|done]. split; [simpl; rewrite slen_app; lia|]. by right.
Qed.

Lemma receive_end dl :
  received dl [] → dl_body dl = text →
  on_download_message scfg true false id (file_end id "") dl
    = (dl, None, Some (FDownload (Some (slen text)) text)).
Proof.
  intros [Ht [(_ & _ & ?)|(Hm & He & _)]] Hb; [done|]. unfold on_download_message.
  change (m_Type (file_end id "")) with "file_end". change (m_Error (file_end id "")) with "".
  unfold so_far. rewrite Hm, He, Ht, Hb, Z.eqb_refl. done.
Qed.

Lemma input_fs a m : sa_fs (agent_input m a) = sa_fs a.
Proof.
  unfold agent_input. destruct (String.eqb _ _).
  { unfold handleFileCancel, look, change, run_handler. rewrite bind_run. simpl.
    by destruct (sa_downloads a !! m_RequestID m). }
  destruct (String.eqb _ _); [|done]. unfold handleFileCredit. destruct (m_Credits m <=? 0); [done|].
  unfold look, change, run_handler. rewrite bind_run. simpl.
  by destruct (sa_downloads a !! m_RequestID m).
Qed.

Lemma input_credit a who c :
  0 <= c <= 3 → registered a who c → registered (agent_input (credit_msg id) a) who (c + 1).
Proof.
  intros Hc [->|[Hd Ho]]; [by left|]. right. unfold agent_input.
  change (String.eqb (m_Type (credit_msg id)) "file_cancel") with false.
  change (String.eqb (m_Type (credit_msg id)) "file_credit") with true. cbv iota.
  unfold handleFileCredit. change (m_Credits (credit_msg id) <=? 0) with false. cbv iota.
  unfold look, change, run_handler. rewrite bind_run. simpl. rewrite Hd. simpl. split; [done|].
  rewrite lookup_alter_eq, Ho. simpl. unfold add_credits. simpl. do 3 f_equal.
  change (Z.min 1 maxFileDownloadCredits) with 1. unfold maxFileDownloadCredits. lia.
Qed.

Lemma dropped_fs a : sa_fs (dropped id j a) = sa_fs a.
Proof. done. Qed.

(** *** One move *)

#[local] Arguments os_read : simpl never.
#[local] Arguments on_download_message : simpl never.
#[local] Arguments agent_input : simpl never.

Definition good (s s' : transfer) : Prop := inv s' ∧ weight s' < weight s.

Ltac close_live :=
  simpl in *; try done; try lia;
  try (match goal with H : _ ≠ SEnded → _ |- _ ≠ SEnded → _ =>
         let Hne := fresh in
         intros Hne; first [specialize (H Hne)|specialize (H ltac:(done))]; lia end).

Ltac open_live H :=
  destruct H as [Hf Hr Hdn Ho Hrp (Hoff & Hleft & Hsum) Hs [Hc0 Hc] Hfull Hrc Hst Htx]; simpl in *.

Lemma move_credit w s s' c ts k : live s c ts k → move (MCredit w) s = Some s' → good s s'.
Proof.
  destruct s as [a who off todo up req dl reply down]. intros H. open_live H.
  destruct who; try done. destruct (Z.leb_spec todo 0) as [Hz|Hz].
  - intros [= <-]. split; [left; exists c, ts, k|unfold weight; simpl; lia].
    split; close_live.
    + destruct Hr as [?|?]; [done|by right].
    + split; [done|lia].
  - destruct Hr as [?|[Hd Hob]]; [done|]. unfold await_credit. rewrite Hob. simpl.
    destruct (Z.ltb_spec 0 c) as [Hpos|]; [|done].
    intros [= <-]. split; [left; exists (c - 1), ts, k|unfold weight; simpl; lia].
    split; close_live. right. split; [done|]. simpl. by rewrite lookup_insert_eq.
Qed.

Lemma move_read count s s' c ts k : live s c ts k → move (MRead count) s = Some s' → good s s'.
Proof.
  destruct s as [a who off todo up req dl reply down]. intros H. open_live H.
  destruct who; try done. simpl in Hs. destruct (os_read _ _ _ _ _ _) as [t err] eqn:E. intros [= <-].
  apply read_ok in E; [|done|lia..].
  split; [left; exists c, ts, k|unfold weight; simpl; lia]. split; close_live.
  destruct Hr as [?|?]; [done|by right].
Qed.

Lemma move_send s s' c ts k : live s c ts k → move MSend s = Some s' → good s s'.
Proof.
  destruct s as [a who off todo up req dl reply down]. intros H. open_live H.
  destruct who as [| |t err| |]; try done. destruct Hs as (-> & Ht & Hstk). simpl in *.
  rewrite (proj2 (Z.ltb_lt _ _)) by lia. destruct (Z.eqb_spec (slen t) 0); [lia|]. intros [= <-].
  split; [left; exists c, (ts ++ [t]), k|unfold weight; simpl; rewrite length_app; simpl; lia].
  split; simpl; rewrite ?length_app; close_live.
  - destruct Hr as [?|?]; [done|by right].
  - rewrite app_assoc, Hst, app_nil_r, fmap_app, <-!app_assoc. by rewrite app_nil_r.
  - rewrite <-Hstk, <-Htx. rewrite sapp_assoc. f_equal.
    clear. induction ts as [|x ts IH]; simpl; [by rewrite sapp_nil_r|]. by rewrite sapp_assoc, IH.
Qed.

Lemma move_end s s' c ts k : live s c ts k → move MEnd s = Some s' → good s s'.
Proof.
  destruct s as [a who off todo up req dl reply down]. intros H. open_live H.
  destruct who as [| | |e|]; try done. destruct Hs as (-> & ->). intros [= <-].
  split; [left; exists c, ts, k|unfold weight; simpl; rewrite length_app; simpl; lia].
  split; close_live.
  - by left.
  - by rewrite app_assoc, Hst, <-!app_assoc.
Qed.

Lemma move_input s s' c ts k : live s c ts k → move MInput s = Some s' → good s s'.
Proof.
  destruct s as [a who off todo up req dl reply down]. intros H. open_live H.
  destruct down as [|m down]; [done|]. apply Forall_cons in Hdn as [-> Hdn]. intros [= <-]. simpl in *.
  split; [left; exists (c + 1), ts, k|unfold weight; simpl; lia].
  split; close_live.
  - by rewrite input_fs.
  - apply input_credit; [|done]. destruct who; simpl in *; lia.
Qed.

Lemma stream_length s c ts k :
  live s c ts k → Z.of_nat (length (pr_ch (tr_req s))) + Z.of_nat (length (tr_up s)) <= 6.
Proof.
  intros H. open_live H. apply (f_equal length) in Hst. rewrite !length_app, length_fmap in Hst.
  assert (Hk : (length k <= 1)%nat) by (destruct Hrc as [_ [(_ & _ & ->)|(_ & _ & ->)]]; simpl; lia).
  assert (He : (length (last_message (tr_sender s)) <= 1)%nat) by (destruct (tr_sender s); simpl; lia).
  assert (Hh : 0 <= held (tr_sender s)) by (destruct (tr_sender s); simpl; lia). lia.
Qed.

Lemma move_deliver s s' c ts k : live s c ts k → move MDeliver s = Some s' → good s s'.
Proof.
  intros H. pose proof (stream_length s c ts k H) as Hlen.
  destruct s as [a who off todo up req dl reply down]. open_live H.
  destruct up as [|m up]; [done|]. simpl in Hlen. unfold deliver_move, deliver. rewrite Ho.
  rewrite (proj2 (Z.ltb_lt _ _)) by (unfold pendingQueueCapacity; lia). simpl. rewrite app_nil_r. intros [= <-].
  split; [left; exists c, ts, k|unfold weight; simpl; rewrite length_app; simpl; lia].
  split; close_live. by rewrite <-app_assoc.
Qed.

(** The stream starts with what the Server is about to receive. *)
Lemma stream_cases m rest k ts who :
  m :: rest = k ++ chunks ts ++ last_message who →
  (∃ k', k = m :: k' ∧ rest = k' ++ chunks ts ++ last_message who) ∨
  (∃ t ts', k = [] ∧ ts = t :: ts' ∧ m = chunk_msg id t ∧ rest = chunks ts' ++ last_message who) ∨
  (k = [] ∧ ts = [] ∧ who = SEnded ∧ m = file_end id "" ∧ rest = []).
Proof.
  destruct k as [|m' k]; [|intros [= -> ->]; left; by exists k].
  destruct ts as [|t ts]; simpl; intros E; [|injection E as -> ->; right; left; by exists t, ts].
  right; right. destruct who; try done. by injection E as -> ->.
Qed.

Lemma stake_length off : 0 <= off → slen (stake off text) <= off.
Proof. intros Hoff. rewrite slen_stake by done. lia. Qed.

Lemma move_receive s s' c ts k : live s c ts k → move MReceive s = Some s' → good s s'.
Proof.
  destruct s as [a who off todo up req dl reply down]. intros H. open_live H. subst reply.
  destruct (pr_ch req) as [|m ch] eqn:Ech; [done|]. simpl in *.
  assert (Hw : ∀ x : option Message, Z.of_nat (length (down ++ option_list x)) <= Z.of_nat (length down) + 1)
    by (intros []; rewrite length_app; simpl; lia).
  destruct (stream_cases _ _ _ _ _ Hst) as [(k' & -> & Hrest)|[(t & ts' & -> & -> & -> & Hrest)|(-> & -> & -> & -> & Hrest)]].
  - assert (Hk : m = meta ∧ k' = []) by (destruct Hrc as [_ [(_ & _ & [= -> ->])|(_ & _ & ?)]]; done).
    destruct Hk as [-> ->]. destruct (receive_meta dl Hrc) as (dl' & -> & Hrc' & Hb). intros [= <-]. simpl in *.
    split; [left; exists c, ts, []|unfold weight; simpl; rewrite Ech; simpl; rewrite app_nil_r; lia].
    split; close_live; rewrite ?app_nil_r; try done. by rewrite Hb.
  - simpl in *. assert (Hfit : slen (dl_body dl) + slen t <= slen text).
    { pose proof (stake_length off Hoff) as Hl. rewrite <-Htx, !slen_app in Hl.
      pose proof (slen_nonneg (sconcat ts')). lia. }
    destruct (receive_chunk dl t Hrc Hfit) as (dl' & -> & Hrc' & Hb). intros [= <-]. simpl.
    split; [left; exists c, ts', []|unfold weight; simpl; rewrite Ech, length_app; simpl; lia].
    split; simpl; rewrite ?length_app; close_live.
    + apply Forall_app. split; [done|]. by constructor.
    + by rewrite Hb, sapp_assoc.
  - simpl in Htx, Hs. rewrite sapp_nil_r in Htx. assert (Hb : dl_body dl = text).
    { rewrite Htx. apply stake_all. lia. }
    rewrite (receive_end dl Hrc Hb). intros [= <-]. simpl.
    split; [right|unfold weight; simpl; rewrite Ech; simpl; rewrite app_nil_r; lia].
    split; simpl; rewrite ?app_nil_r; done.
Qed.

Lemma move_complete mv s s' : complete s → move mv s = Some s' → good s s'.
Proof.
  destruct s as [a who off todo up req dl reply down]. intros [Hr Hw Hst Hdn Hb Hl]. simpl in *. subst reply who.
  apply app_eq_nil in Hst as [Hch ->].
  destruct mv; simpl; rewrite ?Hch; try done; [|by rewrite andb_false_r].
  destruct down as [|m down]; [done|]. intros [= <-]. apply Forall_cons in Hdn as [_ Hdn].
  split; [right|unfold weight; simpl; lia]. split; simpl; try done. by rewrite Hch.
Qed.

Lemma inv_move mv s s' : inv s → move mv s = Some s' → good s s'.
Proof.
  intros [(c & ts & k & H)|H] E; [|by eapply move_complete].
  destruct mv; [by eapply move_credit|by eapply move_read|by eapply move_send|by eapply move_end
               |by eapply move_input|by eapply move_deliver|by eapply move_receive|].
  exfalso. destruct H as [_ _ _ Ho _ _ _ _ _ _ _ _]. destruct s. simpl in *. by rewrite Ho in E.
Qed.

Lemma weight_nonneg s : inv s → 0 <= weight s.
Proof.
  assert (Hc : 0 <= cost (tr_sender s)) by (destruct (tr_sender s); simpl; lia).
  intros [(c & ts & k & [_ _ _ _ _ (_ & Hl & _) _ _ _ _ _ _])|[_ _ _ _ _ Hl]]; unfold weight; lia.
Qed.

(** Until the answer is out some process can move. *)
Lemma inv_progress s : inv s → (∃ mv s', move mv s = Some s') ∨ tr_reply s = Some (FDownload (Some (slen text)) text).
Proof.
  intros [(c & ts & k & H)|H]; [left|right; apply H].
  destruct s as [a who off todo up req dl reply down]. open_live H. subst reply.
  destruct (pr_ch req) as [|m ch] eqn:Ech.
  2: { exists MReceive. simpl. destruct (on_download_message _ _ _ _ _ _) as [[? ?] ?]. eauto. }
  destruct up as [|m up].
  2: { exists MDeliver. simpl. destruct (deliver_move m req). eauto. }
  simpl in *. destruct k, ts; try done. simpl in *.
  destruct who as [| |t err|err|]; simpl in *.
  - destruct (Z.leb_spec todo 0) as [Hz|Hz].
    { exists (MCredit WaitSlot). simpl. eauto. }
    destruct down as [|m down]; [|exists MInput; simpl; eauto].
    specialize (Hfull ltac:(done)). simpl in Hfull. destruct Hr as [?|[Hd Hob]]; [done|].
    exists (MCredit WaitSlot). simpl.
    unfold await_credit. rewrite Hob. simpl. rewrite (proj2 (Z.ltb_lt _ _)) by lia. eauto.
  - exists (MRead 0). simpl. destruct (os_read _ _ _ _ _ _). eauto.
  - exists MSend. simpl. eauto.
  - exists MEnd. simpl. eauto.
  - done.
Qed.

End proof.

(** ** The property *)

Lemma start_inv scfg id path i n a :
  fs_inodes (sa_fs a) !! i = Some n →
  inv id (sa_next a) i n (meta_msg id (slen (in_data n)) (in_perm n))
    (start_transfer id (download_request scfg id path) n a).
Proof.
  intros Hi. left. exists 4, [], [meta_msg id (slen (in_data n)) (in_perm n)].
  pose proof (slen_nonneg (in_data n)). split; simpl; try done; try lia.
  - right. simpl. by rewrite !lookup_insert_eq.
  - split; [done|]. by left.
Qed.

(** C4. With flow control a download always completes.  The Agent sends a regular
    file that fits the Server's limit and nothing fails or changes the file;
    then, in every interleaving of the Agent's sending and reading loops, the
    Server's reading loop and its handler: the run ends after at most
    [8 * size + 10] moves, and it can end only with the answer 200 and exactly the
    bytes of the file; on the way what was written is a prefix of the file, at
    most six of the eight slots of the response queue are used, and the transfer
    is never cancelled. *)
Theorem download_completes acfg scfg id path i n a :
  0 < c_FileTransferChunkBytes acfg → exceeds scfg (slen (in_data n)) = false →
  fs_inodes (sa_fs a) !! i = Some n →
  let step := move_step acfg scfg id (sa_next a) i in
  let answer := FDownload (Some (slen (in_data n))) (in_data n) in
  ∀ k s, nsteps step k (start_transfer id (download_request scfg id path) n a) s →
  Z.of_nat k <= 8 * slen (in_data n) + 10 ∧
  ((∀ s', ¬ step s s') → tr_reply s = Some answer) ∧
  (∀ r, tr_reply s = Some r → r = answer) ∧
  (∃ rest, in_data n = dl_body (tr_dl s) +:+ rest) ∧
  Z.of_nat (length (pr_ch (tr_req s))) <= 6 ∧
  Forall (λ m, m = credit_msg id) (tr_down s).
Proof.
  intros Hchunk Hsize Hi step answer k s Hk.
  set (s0 := start_transfer _ _ _ _) in Hk.
  set (meta := meta_msg id (slen (in_data n)) (in_perm n)).
  assert (Hrun : inv id (sa_next a) i n meta s ∧ weight s + Z.of_nat k <= weight s0).
  { assert (H0 : inv id (sa_next a) i n meta s0) by by apply start_inv.
    clearbody s0. induction Hk as [s|k s s' s'' [mv Hmv] Hk IH]; [split; [done|lia]|].
    eapply inv_move in Hmv as [Hs' Hw]; [|done..]. destruct (IH Hs'). split; [done|lia]. }
  destruct Hrun as [Hinv Hw]. change (weight s0) with (8 * slen (in_data n) + 7 + 3 + 0 + 0) in Hw.
  assert (Hw0 : 0 <= weight s) by by eapply weight_nonneg.
  split; [lia|]. split.
  { intros Hstuck. eapply inv_progress in Hinv as [(mv & s' & E)|?]; [|done..].
    destruct (Hstuck s'). by exists mv. }
  destruct Hinv as [(c & ts & ks & H)|H].
  - pose proof (stream_length _ _ _ _ _ _ _ _ _ H). destruct H as [_ _ Hd _ Hr _ _ _ _ _ _ Ht].
    split; [by rewrite Hr|]. split; [|split; [lia|done]].
    exists (sconcat ts +:+ sdrop (Z.to_nat (tr_off s)) (in_data n)). by rewrite <-sapp_assoc, Ht, stake_sdrop.
  - destruct H as [Hr _ Hst Hd Hb _]. split; [rewrite Hr; by intros ? [= <-]|].
    split; [exists ""; by rewrite Hb, sapp_nil_r|]. apply app_eq_nil in Hst as [-> _]. done.
Qed.

(** *** A concrete download *)

Fixpoint run_moves (acfg : agentConfig) (scfg : Config) (id : string) (j i : Z) (l : list move) (s : transfer)
    : option transfer :=
  match l with
  | [] => Some s
  | c :: l => s' ← turn acfg scfg id j i c s; run_moves acfg scfg id j i l s'
  end.

Lemma run_moves_nsteps acfg scfg id j i l s s' :
  run_moves acfg scfg id j i l s = Some s' → nsteps (move_step acfg scfg id j i) (length l) s s'.
Proof.
  revert s. induction l as [|c l IH]; intros s; simpl; [intros [= <-]; constructor|].
  destruct (turn acfg scfg id j i c s) as [t|] eqn:E; [|done]. intros H. simpl in H.
  econstructor; [by exists c|by apply IH].
Qed.

Definition demo_file : inode := mkInode KRegular "hello" 420 0.
Definition demo_agent : agent := new_agent (mkFS (<[["a.txt"] := 0]> ∅) (<[0 := demo_file]> ∅) 1).

(** Reads of at most two bytes. *)
Definition demo_moves : list move :=
  [MCredit WaitSlot; MRead 2; MSend; MDeliver; MDeliver; MReceive; MReceive;
   MCredit WaitSlot; MRead 2; MSend; MInput; MCredit WaitSlot; MRead 2; MSend;
   MDeliver; MDeliver; MCredit WaitSlot; MEnd; MReceive; MReceive; MDeliver; MReceive; MInput; MInput].

Lemma download_completes_witness :
  match run_moves defaultAgentConfig demo_config "r1" 0 0 demo_moves
          (start_transfer "r1" (download_request demo_config "r1" "/a.txt") demo_file demo_agent) with
  | Some s => tr_reply s = Some (FDownload (Some 5) "hello")
  | None => False
  end.
Proof.
  destruct (run_moves _ _ _ _ _ _ _) as [s|] eqn:E; [|vm_compute in E; discriminate E].
  assert (Hr : is_Some (tr_reply s)).
  { assert (Er : tr_reply <$> run_moves defaultAgentConfig demo_config "r1" 0 0 demo_moves
      (start_transfer "r1" (download_request demo_config "r1" "/a.txt") demo_file demo_agent)
        = Some (Some (FDownload (Some 5) "hello"))) by (vm_compute; reflexivity).
    rewrite E in Er. injection Er as ->. by eexists. }
  destruct Hr as [r Hr].
  pose proof (download_completes defaultAgentConfig demo_config "r1" "/a.txt" 0 demo_file demo_agent
                ltac:(vm_compute; reflexivity) ltac:(vm_compute; reflexivity) ltac:(vm_compute; reflexivity)
                _ s (run_moves_nsteps _ _ _ _ _ _ _ _ E)) as (_ & _ & Hans & _).
  rewrite Hr. f_equal. exact (Hans r Hr).
Defined.
