(* ===== verification/Router.v ===== *)
(** * Routes and middleware ([Server.Handler] of [internal/server/server.go])

    The route table, the guards around it and the whole request handler: which
    handler a request reaches, and behind which checks.  The static files come
    from [http.FileServer] over the embedded web interface, a parameter. *)

From S2P Require Export Mux.
From S2P Require Export AuthProps.
From S2P Require Export ServerFiles.

(** ** The routes *)

Inductive endpoint : Type :=
| EHealthz | EAgentWS | ELogin | ELoginTOTP | ELogout | ESettings | EAccount
| EChangeUsername | EChangePassword | ETOTPSetup | ETOTPEnable | ETOTPDisable
| ECreateEnrollmentToken | EDevices | EDeviceOrder | EUpdateDevice | EMetricCards
| EDeleteDevice | EAction | EExec | EFileList | EFileMkdir | EFileDelete | EFileRename
| EFileDownload | EFileUpload | ETerminalWS | EWebManifest | EStatic.

#[export] Instance endpoint_eq_dec : EqDecision endpoint.
Proof. solve_decision. Defined.

Definition lits (l : list string) : list pseg := Lit <$> l.
Definition device (rest : list string) : list pseg := Lit "api" :: Lit "device" :: Wild :: lits rest.

Definition routes : list (pattern * endpoint) :=
  let at_ method segs e := (mkPattern method segs false, e) in
  [ at_ "GET" (lits ["healthz"]) EHealthz;
    at_ "GET" (lits ["agent"; "ws"]) EAgentWS;
    at_ "POST" (lits ["api"; "login"]) ELogin;
    at_ "POST" (lits ["api"; "login"; "totp"]) ELoginTOTP;
    at_ "POST" (lits ["api"; "logout"]) ELogout;
    at_ "GET" (lits ["api"; "settings"]) ESettings;
    at_ "GET" (lits ["api"; "account"]) EAccount;
    at_ "POST" (lits ["api"; "account"; "username"]) EChangeUsername;
    at_ "POST" (lits ["api"; "account"; "password"]) EChangePassword;
    at_ "POST" (lits ["api"; "account"; "totp"; "setup"]) ETOTPSetup;
    at_ "POST" (lits ["api"; "account"; "totp"; "enable"]) ETOTPEnable;
    at_ "POST" (lits ["api"; "account"; "totp"; "disable"]) ETOTPDisable;
    at_ "POST" (lits ["api"; "enrollment-tokens"]) ECreateEnrollmentToken;
    at_ "GET" (lits ["api"; "devices"]) EDevices;
    at_ "PUT" (lits ["api"; "devices"; "order"]) EDeviceOrder;
    at_ "PATCH" (device []) EUpdateDevice;
    at_ "PUT" (device ["metric-cards"]) EMetricCards;
    at_ "DELETE" (device []) EDeleteDevice;
    at_ "POST" (device ["action"]) EAction;
    at_ "POST" (device ["exec"]) EExec;
    at_ "GET" (device ["files"]) EFileList;
    at_ "POST" (device ["files"; "mkdir"]) EFileMkdir;
    at_ "POST" (device ["files"; "delete"]) EFileDelete;
    at_ "POST" (device ["files"; "rename"]) EFileRename;
    at_ "GET" (device ["files"; "download"]) EFileDownload;
    at_ "POST" (device ["files"; "upload"]) EFileUpload;
    at_ "GET" [Lit "ws"; Lit "terminal"; Wild] ETerminalWS;
    at_ "GET" (lits ["site.webmanifest"]) EWebManifest;
    (mkPattern "" [] true, EStatic) ].

(** Those wrapped in [requireAuth]. *)
Definition protected (e : endpoint) : bool :=
  match e with
  | EHealthz | EAgentWS | ELogin | ELoginTOTP | ETerminalWS | EWebManifest | EStatic => false
  | _ => true
  end.

(** ** The handler *)

(** The body of a request as each handler decodes it, the first message of an
    Agent, the reads of an upload. *)
Record inputs : Type := mkInputs {
  in_login : option login_in;
  in_code : option string;
  in_username : option (string * string);
  in_password : option (string * string);
  in_setup : option string;
  in_enable : option (string * string);
  in_disable : option (string * string);
  in_label : string;
  in_ids : option (list string);
  in_name : option string;
  in_cards : option (list string);
  in_action : option string;
  in_command : option string;
  in_path : option string;
  in_rename : option (string * string);
  in_length : Z;
  in_reads : list (string * option string);
  in_hello : option Message
}.

(** [AFile None]: out of fuel; [AAgent], [ATerminal]: an upgraded connection. *)
Inductive answer : Type :=
| AResponse (r : response)
| AReply (r : reply)
| AFile (f : option file_reply)
| AAgent (i : res Z)
| ATerminal (t : term_open)
| ARedirect (path : string).

Definition set_PathId (id : string) (r : request) : request :=
  mkRequest (rq_Method r) (rq_Path r) (rq_RemoteAddr r) (rq_Header r) (rq_Cookies r) id (rq_Query r).

Section router.
Context (cfg : Config) {mo : MapOrder} {ic : InfoCodec} {ps : PasswordScheme}.
Context (web : request → response) (valid_password : string → res string)
        (totp_uri : string → string → string) (fuel : nat).

Definition with_header (kv : string * string) (r : response) : response :=
  mkResponse (rs_Status r) (rs_Body r) (rs_Cookies r) (rs_Header r ++ [kv]).

Definition serve (inp : inputs) (e : endpoint) (r : request) : handler answer :=
  match e with
  | EHealthz => mret (AResponse (mkResponse 200 (BText "ok") [] []))
  | EAgentWS => x ← connectAgent (in_hello inp); mret (AAgent x)
  | ELogin => x ← handleLogin cfg (in_login inp) r; mret (AResponse x)
  | ELoginTOTP => x ← handleLoginTOTP cfg (in_code inp) r; mret (AResponse x)
  | ELogout => x ← handleLogout cfg r; mret (AResponse x)
  | ESettings => mret (AResponse (handleSettings cfg))
  | EAccount => x ← handleAccount; mret (AResponse x)
  | EChangeUsername => x ← handleChangeUsername cfg (in_username inp) r; mret (AResponse x)
  | EChangePassword => x ← handleChangePassword cfg valid_password (in_password inp) r; mret (AResponse x)
  | ETOTPSetup => x ← handleTOTPSetup cfg totp_uri (in_setup inp) r; mret (AResponse x)
  | ETOTPEnable => x ← handleTOTPEnable cfg (in_enable inp) r; mret (AResponse x)
  | ETOTPDisable => x ← handleTOTPDisable cfg (in_disable inp) r; mret (AResponse x)
  | ECreateEnrollmentToken => x ← handleCreateEnrollmentToken cfg (in_label inp); mret (AResponse x)
  | EDevices => x ← handleDevices cfg; mret (AReply x)
  | EDeviceOrder => x ← handleDeviceOrder (in_ids inp); mret (AResponse x)
  | EUpdateDevice => x ← handleUpdateDevice (in_name inp) r; mret (AResponse x)
  | EMetricCards => x ← handleMetricCards (in_cards inp) r; mret (AResponse x)
  | EDeleteDevice => x ← handleDeleteDevice r; mret (AResponse x)
  | EAction => x ← handleAction cfg (in_action inp) r; mret (AReply x)
  | EExec => x ← handleExec cfg (in_command inp) r; mret (AReply x)
  | EFileList => f ← handleFileList cfg r; mret (AFile (Some f))
  | EFileMkdir => f ← handleFileMkdir cfg (in_path inp) r; mret (AFile (Some f))
  | EFileDelete => f ← handleFileDelete cfg (in_path inp) r; mret (AFile (Some f))
  | EFileRename => f ← handleFileRename cfg (in_rename inp) r; mret (AFile (Some f))
  | EFileDownload => x ← handleFileDownload cfg fuel r; mret (AFile x)
  | EFileUpload => x ← handleFileUpload cfg fuel (in_length inp) (in_reads inp) r; mret (AFile x)
  | ETerminalWS => x ← openTerminal cfg r; mret (ATerminal x)
  | EWebManifest => mret (AResponse (with_header ("Content-Type", "application/manifest+json") (web r)))
  | EStatic => mret (AResponse (web r))
  end.

Definition dispatch (inp : inputs) (e : endpoint) (r : request) : handler answer :=
  if protected e then requireAuth cfg AResponse (serve inp e) r else serve inp e r.

(** The mux; [escaped] is the path as it was sent. *)
Definition mux (inp : inputs) (escaped : string) (r : request) : handler answer :=
  match find_handler routes (rq_Method r) escaped with
  | Route e values => dispatch inp e (set_PathId (hd "" values) r)
  | Redirect path => mret (ARedirect path)
  | NoRoute => mret (AResponse (http_error [] "404 page not found" 404))
  end.

(** The headers set before anything else. *)
Definition security_header_list (r : request) : list (string * string) :=
  [("X-Content-Type-Options", "nosniff");
   ("X-Frame-Options", "DENY");
   ("Referrer-Policy", "no-referrer");
   ("Permissions-Policy", "camera=(), microphone=(), geolocation=()");
   ("Cross-Origin-Opener-Policy", "same-origin");
   ("Content-Security-Policy", "default-src 'self'; script-src 'self' 'unsafe-inline'; style-src 'self' 'unsafe-inline'; connect-src 'self' ws: wss:; img-src 'self' data:; object-src 'none'; base-uri 'none'; frame-ancestors 'none'; form-action 'self'")]
  ++ if HasPrefix (rq_Path r) "/api/" then [("Cache-Control", "no-store")] else [].

Definition securityHeaders (next : request → handler answer) (r : request)
  : handler (list (string * string) * answer) :=
  a ← next r; mret (security_header_list r, a).

Definition Handler (inp : inputs) (escaped : string) : request → handler (list (string * string) * answer) :=
  securityHeaders (browserRequestGuard AResponse (mux inp escaped)).
End router.

(** ** The table *)

(** No path matches two patterns of one method, so that their order and Go's
    precedence rules do not matter. *)
Fixpoint apart (multi multi' : bool) (p q : list pseg) : bool :=
  match p, q with
  | Lit a :: p, Lit b :: q => negb (String.eqb a b) || apart multi multi' p q
  | _ :: p, _ :: q => apart multi multi' p q
  | [], _ :: _ => negb multi
  | _ :: _, [] => negb multi'
  | [], [] => xorb multi multi'
  end.

Lemma match_segs_cons multi x p segs :
  is_Some (match_segs multi (x :: p) segs) →
  ∃ s segs', segs = s :: segs' ∧ is_Some (match_segs multi p segs') ∧ ∀ l, x = Lit l → pathUnescape s = l.
Proof.
  destruct segs as [|s segs]; [by destruct x; intros []|]. intros H. exists s, segs. split; [done|].
  destruct x as [l|]; simpl in H.
  - destruct (String.eqb_spec (pathUnescape s) l); [|by destruct H]. split; [done|]. by intros ? [= <-].
  - destruct (_ || _); [by destruct H|]. by apply fmap_is_Some in H.
Qed.

Lemma apart_match multi multi' p q segs :
  apart multi multi' p q = true →
  is_Some (match_segs multi p segs) → is_Some (match_segs multi' q segs) → False.
Proof.
  revert q segs. induction p as [|x p IH]; intros q segs Ha Hp Hq.
  - destruct q as [|y q].
    + destruct segs; simpl in *; destruct multi, multi'; try done; by destruct Hp, Hq.
    + apply match_segs_cons in Hq as (s & segs' & -> & _). destruct multi; [|by destruct Hp].
      by destruct y.
  - apply match_segs_cons in Hp as (s & segs' & -> & Hp & Hx). destruct q as [|y q].
    + destruct multi'; [|by destruct Hq]. by destruct x.
    + apply match_segs_cons in Hq as (s' & ? & [= <- <-] & Hq & Hy).
      assert (Ha' : apart multi multi' p q = true); [|by eapply IH].
      destruct x as [a|], y as [b|]; try done. simpl in Ha.
      destruct (String.eqb_spec a b) as [|Hne]; [done|]. destruct Hne.
      by rewrite <- (Hx _ eq_refl), <- (Hy _ eq_refl).
Qed.

Fixpoint pairwise {A} (f : A → A → bool) (l : list A) : bool :=
  match l with
  | [] => true
  | x :: l => forallb (f x) l && pairwise f l
  end.

Lemma routes_apart :
  pairwise (λ x y : pattern * endpoint, negb (String.eqb (pt_Method x.1) (pt_Method y.1))
    || apart (pt_Multi x.1) (pt_Multi y.1) (pt_Segments x.1) (pt_Segments y.1)) routes = true.
Proof. by vm_compute. Qed.

(** The protected endpoints lie below [/api/] and have a method. *)
Definition api_route (x : pattern * endpoint) : bool :=
  str_mem (pt_Method x.1) ["GET"; "POST"; "PUT"; "PATCH"; "DELETE"]
  && match pt_Segments x.1 with Lit l :: _ :: _ => String.eqb l "api" | _ => false end.

Lemma protected_api x : x ∈ routes → protected x.2 = true → api_route x = true.
Proof.
  assert (H : forallb (λ x, negb (protected x.2) || api_route x) routes = true) by by vm_compute.
  rewrite forallb_forall in H. intros Hin%list_elem_of_In%H Hp. by rewrite Hp in Hin.
Qed.

Lemma protected_path r escaped e values :
  find_handler routes (rq_Method r) escaped = Route e values → protected e = true →
  PathUnescape escaped = Some (rq_Path r) → HasPrefix (rq_Path r) "/api/" = true.
Proof.
  intros (p & Hin & Hmatch & Hmethod & Hclean)%find_handler_elem Hp Hu.
  pose proof (protected_api (p, e) Hin Hp) as H. unfold api_route in H. cbn [fst] in H.
  apply andb_true_iff in H as [Hm Hs].
  destruct (pt_Segments p) as [|[l|] [|q rest]] eqn:Eseg; try done. apply String.eqb_eq in Hs as ->.
  apply (match_path_prefix p escaped values "api" q rest); [exact Hmatch|exact Eseg| |exact Hu|reflexivity].
  destruct Hclean as [Hc|<-]; [|apply cleanPath_slash].
  destruct Hmethod as [Hx|[[_ Hx]|Hx]]; [by rewrite Hx, Hc in Hm|by rewrite Hc in Hx|by rewrite Hx in Hm].
Qed.

Lemma unlisted_protected e :
  e ∉ [EHealthz; EAgentWS; ELogin; ELoginTOTP; ETerminalWS; EWebManifest; EStatic] → protected e = true.
Proof. rewrite !not_elem_of_cons. by destruct e; intuition. Qed.

(** ** Properties *)

Section guarded.
Context (cfg : Config) {mo : MapOrder} {ic : InfoCodec} {ps : PasswordScheme}.
Context (web : request → response) (valid_password : string → res string)
        (totp_uri : string → string → string) (fuel : nat).

Notation Handler := (Handler cfg web valid_password totp_uri fuel).
Notation serve := (serve cfg web valid_password totp_uri fuel).

End guarded.

(** *** Concrete requests *)

Definition no_inputs : inputs :=
  mkInputs None None None None None None None "" None None None None None None None 0 [] None.

Definition api_request (method path : string) (header : list (string * string)) : request :=
  mkRequest method path "10.0.0.1:9" header [] "" [].

Example routing_examples :
  find_handler routes "HEAD" "/api/devices" = Route EDevices [] ∧
  find_handler routes "DELETE" "/api/device/a%31" = Route EDeleteDevice ["a1"] ∧
  find_handler routes "GET" "/%61pi/devices" = Route EDevices [] ∧
  find_handler routes "GET" "/api%2Fdevices" = Route EStatic [] ∧
  find_handler routes "GET" "/api//devices" = Redirect "/api/devices" ∧
  find_handler routes "POST" "/api/devices" = Route EStatic [] ∧
  find_handler routes "PUT" "/api/devices/order" = Route EDeviceOrder [].
Proof. by vm_compute. Qed.

