(* ===== verification/ServerMain.v ===== *)
(** * Starting the Server ([cmd/server/main.go], [main])

    From the configuration file to the server that handles requests: the store is
    opened, the first administrator created, the devices of an earlier release
    imported.  Flags, logging, the HTTP listener and the signals are the standard
    library's. *)

From S2P Require Export StoreSchemaProps.
From S2P Require Export Sys.
From S2P Require Export StoreProps.
From S2P Require Export AuthProps.

(** ** Definitions *)

(** [cfg.AdminPassword = ""] *)
Definition clear_AdminPassword (cfg : Config) : Config := {|
  Addr_ := Addr_ cfg;
  DBPath := DBPath cfg;
  LegacyDeviceStore := LegacyDeviceStore cfg;
  AdminUsername := AdminUsername cfg;
  AdminPassword := "";
  CookieSecure := CookieSecure cfg;
  SessionTTL := SessionTTL cfg;
  RememberSessionTTL := RememberSessionTTL cfg;
  PreAuthTTL := PreAuthTTL cfg;
  PreAuthMaxAttempts := PreAuthMaxAttempts cfg;
  PasswordMaxFailures := PasswordMaxFailures cfg;
  PasswordFailureWindow := PasswordFailureWindow cfg;
  PasswordLockoutDuration := PasswordLockoutDuration cfg;
  PasswordHashConcurrency := PasswordHashConcurrency cfg;
  PasswordHashQueueTimeout := PasswordHashQueueTimeout cfg;
  TOTPMaxFailures := TOTPMaxFailures cfg;
  TOTPFailureWindow := TOTPFailureWindow cfg;
  TOTPLockoutDuration := TOTPLockoutDuration cfg;
  TOTPSetupTTL := TOTPSetupTTL cfg;
  ClientIPHeader := ClientIPHeader cfg;
  TrustedProxyPrefixes := TrustedProxyPrefixes cfg;
  AllowExec := AllowExec cfg;
  AllowTerminal := AllowTerminal cfg;
  FileBrowserEnabled := FileBrowserEnabled cfg;
  AgentOfflineTimeout := AgentOfflineTimeout cfg;
  AgentHandshakeTimeout := AgentHandshakeTimeout cfg;
  AgentWriteTimeout := AgentWriteTimeout cfg;
  ActionTimeout := ActionTimeout cfg;
  ExecResponseTimeout := ExecResponseTimeout cfg;
  FileTransferTimeout := FileTransferTimeout cfg;
  EnrollmentTokenTTL := EnrollmentTokenTTL cfg;
  WebRefreshInterval := WebRefreshInterval cfg;
  UIResultTTL := UIResultTTL cfg;
  HTTPReadHeaderTimeout := HTTPReadHeaderTimeout cfg;
  ShutdownTimeout := ShutdownTimeout cfg;
  FileTransferChunkBytes := FileTransferChunkBytes cfg;
  MaxFileTransferBytes := MaxFileTransferBytes cfg;
  MaxCommandLength := MaxCommandLength cfg
|}.

Definition set_rows (db : DB) (c : schema) : schema :=
  mkSchema (sc_version c) (sc_admins c) (sc_devices c) (sc_enroll c) (sc_sessions c) db.

(** An operation of the open store. *)
Definition on_rows {A} (f : ptick storage → stm A) : sproc (res A) :=
  step (λ t s,
    let (r, w) := f t (mkWorld (sc_rows (sg_schema s)) (tk_faults t)) in
    (r, on_schema (set_rows (w_db w)) s)).

(** The directory of the executable, unless it is unknown. *)
Definition defaultConfigPath (exe : res string) : string :=
  match exe with
  | Err _ => "config.json"
  | Ok exe => JoinPath (Dir exe) "config.json"
  end.

Section main.
Context {ic : InfoCodec} {ps : PasswordScheme}.

(** [main] up to [app.New]; an error ends the process.  [legacy] is the decoded
    file of the earlier release. *)
Definition start (path : string) (decoded : res fileConfig)
    (legacy : string → res (option (list legacy_device))) : sproc (res (Config * Server)) :=
  match LoadConfig path decoded with
  | Err e => mret (Err e)
  | Ok cfg =>
    then_do (wrap "create database directory" (attempt_io id)) (λ _,
    then_do OpenStore (λ _,
    then_do (on_rows (λ t, EnsureAdmin (AdminUsername cfg) (AdminPassword cfg) (tk_salt t) (Unix (tk_now t)))) (λ _,
    let cfg := clear_AdminPassword cfg in
    then_do (if String.eqb (LegacyDeviceStore cfg) "" then mret (Ok 0)
             else on_rows (λ _, ImportLegacyDeviceJSON (legacy (LegacyDeviceStore cfg)))) (λ _,
    s ← step (λ _ s, (New (sc_rows (sg_schema s)), s));
    mret (Ok (cfg, s))))))
  end.

(** ** Lemmas *)

(** No device is changed or removed. *)
Definition only_added (db db' : DB) : Prop :=
  t_admins db' = t_admins db ∧ ∀ id r, t_devices db !! id = Some r → t_devices db' !! id = Some r.

Lemma Put_added d w r w' :
  Put d w = (r, w') → t_devices (w_db w) !! d_ID d = None → only_added (w_db w) (w_db w').
Proof.
  unfold Put, only_added. intros H Hd. destruct (_ || _); [by injection H as _ <-|].
  apply bind_cases in H as [(e & [= _ <-] & _)|(info & w1 & [= _ <-] & H)]; [done|].
  apply bind_cases in H as [(e & [= _ <-] & _)|(cards & w2 & [= _ <-] & H)]; [done|].
  apply bind_cases in H as [(e & H & _)|(n & w3 & H & [= _ <-])];
    apply exec_cases in H as [(e' & _ & ->)|(n' & _ & H)]; try done;
    unfold put_device in H; rewrite Hd in H; injection H as <- _; simpl; split; try done;
    intros id r0 Hid; rewrite lookup_insert_ne; congruence.
Qed.

Lemma import_added l : ∀ count w r w', import_devices count l w = (r, w') → only_added (w_db w) (w_db w').
Proof.
  induction l as [|d l IH]; intros count w r w' H; [by injection H as _ <-|]. cbn [import_devices] in H.
  destruct (_ || _); [by eapply IH|].
  apply bind_cases in H as [(e & H & _)|(x & w1 & H & Hk)].
  { unfold Get in H. apply query_row_cases in H. by rewrite H. }
  unfold Get in H. apply query_row_ok in H as [Hx Hw]. rewrite <- Hw. destruct x as [x|].
  { by eapply IH. }
  rewrite <- Hw in Hx. assert (Hnone : t_devices (w_db w1) !! l_ID d = None)
    by by destruct (t_devices (w_db w1) !! l_ID d).
  apply bind_cases in Hk as [(e & H & _)|(u & w2 & H & Hk)]; [by eapply Put_added|].
  apply Put_added in H as [Ha Hd]; [|done]. apply IH in Hk as [Ha' Hd'].
  split; [congruence|]. eauto.
Qed.

Lemma ImportLegacyDeviceJSON_added file w r w' :
  ImportLegacyDeviceJSON file w = (r, w') → only_added (w_db w) (w_db w').
Proof.
  unfold ImportLegacyDeviceJSON. intros [(e & [= _ <-] & _)|(f & w1 & [= _ <-] & H)]%bind_cases; [done|].
  destruct f as [l|]; [by eapply import_added|by injection H as _ <-].
Qed.

(** The administrator after a start: the one there was, or the configured one. *)
Definition admin_after (cfg : Config) (before after : option admin_row) : Prop :=
  match before, after with
  | Some a, Some a' => a' = a
  | None, Some a =>
    normalizeUsername (AdminUsername cfg) = Ok (ar_username a) ∧ ar_totp_secret a = "" ∧
    AdminPassword cfg ≠ "" ∧ AdminPassword cfg ≠ "CHANGE_ME_TO_A_LONG_RANDOM_PASSWORD" ∧
    ∃ salt, ps_hash salt (AdminPassword cfg) = Ok (ar_password_hash a)
  | _, None => False
  end.

Lemma EnsureAdmin_after cfg salt now w w' :
  EnsureAdmin (AdminUsername cfg) (AdminPassword cfg) salt now w = (Ok (), w') →
  admin_after cfg (t_admins (w_db w)) (t_admins (w_db w')) ∧ t_devices (w_db w') = t_devices (w_db w).
Proof.
  unfold EnsureAdmin, GetAdmin. intros (x & w1 & [Hx Hw]%query_row_ok & H)%bind_ok. rewrite <- Hw in *.
  clear w Hw. unfold admin_after. destruct (t_admins (w_db w1)) as [a|] eqn:Ea; subst x.
  { injection H as <-. by rewrite Ea. }
  cbn [fmap option_fmap option_map] in H. destruct (normalizeUsername _) as [u|e]; [|done].
  destruct (String.eqb_spec (AdminPassword cfg) ""); [done|].
  destruct (String.eqb_spec (AdminPassword cfg) "CHANGE_ME_TO_A_LONG_RANDOM_PASSWORD"); [done|].
  destruct (ps_hash salt _) as [hash|e] eqn:Eh; [|done].
  apply bind_ok in H as (rows & w2 & H%exec_ok & [= <-]). rewrite Ea in H. injection H as <- _. simpl.
  split; [|done]. split; [done|]. split; [done|]. split; [done|]. split; [done|]. by exists salt.
Qed.

(** ** Property *)

Lemma start_run c0 path decoded legacy cfg k :
  LoadConfig path decoded = Ok cfg → (k = None → c0 = new_schema) →
  safe (λ _, True) (λ s, unchanged c0 s ∧ sg_file s = k) (start path decoded legacy)
    (λ r s, r.1 = clear_AdminPassword cfg ∧ r.2 = New (sc_rows (sg_schema s)) ∧
       sg_file s = Some KRegular ∧ sg_mode s = 384 ∧ sc_version (sg_schema s) = currentSchemaVersion ∧
       tables (sg_schema s) ∧
       ∃ x, keeps c0 x ∧
         admin_after cfg (t_admins (sc_rows x)) (t_admins (sc_rows (sg_schema s))) ∧
         ∀ id r, t_devices (sc_rows x) !! id = Some r → t_devices (sc_rows (sg_schema s)) !! id = Some r).
Proof.
  intros Hc Hk. unfold start. rewrite Hc. set (P := λ s, unchanged c0 s ∧ sg_file s = k).
  set (migrated := λ c, keeps c0 c ∧ sc_version c = currentSchemaVersion ∧ tables c).
  set (started := λ s, ready (λ c, sc_version c = currentSchemaVersion ∧ tables c ∧ ∃ x, keeps c0 x ∧
    admin_after cfg (t_admins (sc_rows x)) (t_admins (sc_rows c)) ∧
    ∀ id r, t_devices (sc_rows x) !! id = Some r → t_devices (sc_rows c) !! id = Some r) s).
  eapply (safe_then _ _ _ (λ _, P)); [by apply safe_wrap, safe_attempt|]. intros u.
  eapply (safe_then _ _ _ (λ _, ready migrated)).
  { destruct (Z.le_gt_cases (sc_version c0) currentSchemaVersion) as [Hv|Hv].
    - eapply safe_mono; [|by apply safe_OpenStore]. done.
    - eapply safe_conseq; [eapply safe_mono; [|apply (safe_OpenStore_refused c0 k Hk); by left]|done|]; done. }
  intros u1. eapply (safe_then _ _ _ (λ _, started)).
  { apply crash_step; [done|]. intros t s (Hf & Hm & Hkeep & Hv & Ht).
    destruct (EnsureAdmin _ _ _ _ _) as [[[]|e] w] eqn:Ee; simpl; [|done].
    apply EnsureAdmin_after in Ee as [Ha Hd]. split; [done|]. split; [done|]. split; [done|]. split; [done|].
    exists (sg_schema s). split; [done|]. split; [done|]. intros id r Hid. change (t_devices (w_db w) !! id = Some r). by rewrite Hd. }
  intros u2. cbv zeta. eapply (safe_then _ _ _ (λ _, started)).
  { destruct (String.eqb _ ""); [by apply safe_ret|]. apply crash_step; [done|].
    intros t s (Hf & Hm & Hv & Ht & x & Hkeep & Ha & Hd).
    destruct (ImportLegacyDeviceJSON _ _) as [r w] eqn:Ei. apply ImportLegacyDeviceJSON_added in Ei as [Ha' Hd'].
    simpl in *. destruct r as [n|e]; [|done]. split; [done|]. split; [done|]. split; [done|]. split; [done|].
    exists x. split; [done|]. simpl. rewrite Ha'. split; [done|]. eauto. }
  intros n. eapply (crash_bind _ _ _ _ (λ v s, started s ∧ v = New (sc_rows (sg_schema s)))).
  - apply crash_step; [done|]. by intros t s Hs.
  - intros v. apply safe_ret. intros s [(Hf & Hm & Hv & Ht & Hx) ->]. simpl. auto 10.
Qed.

End main.

(** *** A first start *)

Definition first_config : fileConfig := {|
  f_ListenAddr := f_ListenAddr defaultFileConfig;
  f_DatabasePath := f_DatabasePath defaultFileConfig;
  f_LegacyDeviceStore := f_LegacyDeviceStore defaultFileConfig;
  f_AdminUsername := f_AdminUsername defaultFileConfig;
  f_AdminPassword := "correct horse battery";
  f_CookieSecure := f_CookieSecure defaultFileConfig;
  f_SessionTTL := f_SessionTTL defaultFileConfig;
  f_RememberSessionTTL := f_RememberSessionTTL defaultFileConfig;
  f_PreAuthTTL := f_PreAuthTTL defaultFileConfig;
  f_PreAuthMaxAttempts := f_PreAuthMaxAttempts defaultFileConfig;
  f_PasswordMaxFailures := f_PasswordMaxFailures defaultFileConfig;
  f_PasswordFailureWindow := f_PasswordFailureWindow defaultFileConfig;
  f_PasswordLockoutDuration := f_PasswordLockoutDuration defaultFileConfig;
  f_PasswordHashConcurrency := f_PasswordHashConcurrency defaultFileConfig;
  f_PasswordHashQueueTimeout := f_PasswordHashQueueTimeout defaultFileConfig;
  f_TOTPMaxFailures := f_TOTPMaxFailures defaultFileConfig;
  f_TOTPFailureWindow := f_TOTPFailureWindow defaultFileConfig;
  f_TOTPLockoutDuration := f_TOTPLockoutDuration defaultFileConfig;
  f_TOTPSetupTTL := f_TOTPSetupTTL defaultFileConfig;
  f_ClientIPHeader := f_ClientIPHeader defaultFileConfig;
  f_TrustedProxyCIDRs := f_TrustedProxyCIDRs defaultFileConfig;
  f_AllowExec := f_AllowExec defaultFileConfig;
  f_AllowTerminal := f_AllowTerminal defaultFileConfig;
  f_FileBrowserEnabled := f_FileBrowserEnabled defaultFileConfig;
  f_AgentOfflineTimeout := f_AgentOfflineTimeout defaultFileConfig;
  f_AgentHandshakeTimeout := f_AgentHandshakeTimeout defaultFileConfig;
  f_AgentWriteTimeout := f_AgentWriteTimeout defaultFileConfig;
  f_ActionTimeout := f_ActionTimeout defaultFileConfig;
  f_ExecResponseTimeout := f_ExecResponseTimeout defaultFileConfig;
  f_FileTransferTimeout := f_FileTransferTimeout defaultFileConfig;
  f_EnrollmentTokenTTL := f_EnrollmentTokenTTL defaultFileConfig;
  f_WebRefreshInterval := f_WebRefreshInterval defaultFileConfig;
  f_UIResultTTL := f_UIResultTTL defaultFileConfig;
  f_HTTPReadHeaderTimeout := f_HTTPReadHeaderTimeout defaultFileConfig;
  f_ShutdownTimeout := f_ShutdownTimeout defaultFileConfig;
  f_FileTransferChunkBytes := f_FileTransferChunkBytes defaultFileConfig;
  f_MaxFileTransferBytes := f_MaxFileTransferBytes defaultFileConfig;
  f_MaxCommandLength := f_MaxCommandLength defaultFileConfig
|}.

Definition salted : ptick storage := mkTick id 0 0 [] "" (Ok "0123456789abcdef") WaitSlot false None 0.

